(* ===== verification/_CoqProject ===== *)
-Q . S2P
Prelude.v
Heap.v
Threads.v
GoStrings.v
GoURL.v
GoBase64.v
Kube.v
Api.v
DeepCopy.v
Fake.v
Rules.v
FieldFilter.v
Tracker.v
Client.v
FakeCluster.v
Apply.v
RemoteClients.v
Sync.v
SyncSpec.v
Converge.v
Deletions.v
System.v
GKE.v
Lookups.v
Transport.v
Requests.v
Integration.v
Setup.v
SetupTraces.v
SetupSpec.v
Status.v
Pipeline.v
Process.v
Progress.v
Delivery.v
EndToEnd.v
Export.v
Cli.v
Main.v
