(* ===== verification/Prelude.v ===== *)
(** * kube-etl: a verification development

    kube-etl moves Kubernetes objects between clusters. It has two programs:

    - the _syncer_ ([syncer/]), a controller. A [KRMSyncer] object names a remote GKE
      cluster and rules. For each KRMSyncer, [KRMSyncerReconciler] starts one dynamic
      controller per kind that a rule needs; each of them, a [DynamicResourceReconciler],
      copies every object event from the source cluster to the destination (Pull: remote
      to local; Push: local to remote). Connections to GKE clusters come from
      [GKEConfigProvider] and survive credential rotation through [rotatingTransport];
      Push clients are cached; failures are counted in gauges;
    - the _export_ command ([pkg/]), which writes all objects of a cluster to a zip file.

    ** What models what

    - [Prelude]: results, the state monad, Hoare triples ([triple]) and the logic of call
      logs ([conforms], [each]), with their loop rules.
    - [Threads]: programs of atomic operations, the logic of their traces, pools of programs
      that run concurrently, and a weakest precondition for a program that others interfere
      with ([wp]). [Heap]: Go's memory.
    - [GoStrings], [GoURL], [GoBase64]: the functions of Go's standard library the program
      calls (on byte strings), with the lemmas about them.
    - [Kube]: data and interfaces of the Kubernetes libraries: names, errors, discovery
      results, unstructured objects. Library code is never defined here: its functions are
      fields of classes, with the documented behaviour that is used as laws
      ([UnstructuredLaws] and others). [Fake], [FakeCluster] and the local instances of
      other files implement the classes, so that each theorem is also applied to a concrete
      run.
    - [Api]: the custom resource ([syncer/api/v1alpha1/krmsyncer_types.go]). [DeepCopy]: its
      generated deep copies ([zz_generated.deepcopy.go]).
    - [Rules]: [validateRule], [expandRule], [ruleMatchesGVK]
      ([syncer/controllers/krmsyncer_controller.go]).
    - [FieldFilter]: [filterFields], [isFullSync] and the clearing of server fields (same
      file). A [map[string]any] is a [gmap string value].
    - [Tracker]: [failureTracker] and its gauges ([syncer/controllers/metrics.go]).
    - [Client]: the operations of an event handler, calls of clusters among them, and their
      effect on an abstract world. [Apply]: [destinationExists], [applyToDestination].
    - [RemoteClients]: the provider interface and [remoteClientCache]
      ([syncer/controllers/remote_clients.go]).
    - [Sync]: [DynamicResourceReconciler.Reconcile], loop by loop; [SyncSpec]: the
      properties of a run; [Converge] and [Deletions]: what a run leaves at the destination;
      [System]: any number of runs at once.
    - [GKE]: [GKEConfigProvider] up to the settings of a cluster: keys, requests, the
      cluster cache, endpoints ([syncer/controllers/remote_cluster.go]); [Lookups]: its
      concurrent lookups. [Transport]: [RESTConfig] and [rotatingTransport]
      ([syncer/controllers/rotating_transport.go]); the transports are a store that configs
      point into. [Requests]: both, critical section by critical section, with any number of
      requests at once. [Integration]: the system with this provider.
    - [Setup]: [KRMSyncerReconciler]; [SetupTraces]: what a set-up asks and marks, and in
      which order; [SetupSpec]: the watches and the failure tracking; [Status]: the
      conditions it reports; [Pipeline]: how the set-up and the event handlers fit together.
    - [Process]: the whole syncer as one transition system, in which the operations of a
      set-up and those of the handlers of the controllers it has started take turns;
      [Progress]: everything that was started ends; [Delivery]: what becomes of an event;
      [EndToEnd]: what becomes of a KRMSyncer.
    - [Export]: [RunExport] and [ZipSink] ([pkg/export/export.go], [pkg/sink/zip.go]);
      [Cli]: the command kube-etl ([main.go]).
    - [Main]: the start of the syncer ([syncer/main.go], [groupversion_info.go]), up to the
      state in which [Process] begins, with the GKE provider.

    ** How the model corresponds to the code

    The functions keep the code's names, guards, loops and error values ([res],
    [option goerr]). The handler of object events, which runs concurrently, is a program
    ([Threads.prog]) of atomic operations: a call of a cluster, the choice of a remote
    client (its body holds the cache's mutex), a mark of the failure tracker (likewise). The
    answer of each operation is arbitrary, so a theorem about all traces of the program
    holds for all behaviours of servers and of whatever else acts in between; [Sync.handle]
    says what the operations do to the shared state. The handler of KRMSyncers is a program
    as well, of calls, marks, the start of controllers and accesses of the reconciler's maps
    ([Setup.setup_operation], [Setup.setup_handle]): controllers it has started handle events
    while it goes on. KRMSyncers are set up one at a time (the controller has one worker, its
    default, which the code does not change, and [reconcile] holds [r.mu]), so the maps are
    the set-up's own. The connections are treated likewise:
    [Transport] has the functions as the code has them, run in one go; [Requests] has the
    same functions as programs of their critical sections (a lemma, [requests_alone], checks
    that the two agree when nobody else runs). The export and the start of the programs, which nothing runs beside, are
    functions of the state monad ([forM]; [forM_return] where a loop's body returns early).
    The world of clusters, networks and clocks is abstract: every call may change it
    arbitrarily and answer arbitrarily.

    Mutable objects that are shared are stores: gauges by [gauge_id], failure trackers and
    transports by index; memory is explicit where aliasing is the point ([Heap],
    [DeepCopy]). Elsewhere a nil pointer is [None]. A body that runs under a mutex is one
    step; [System], [Process], [Lookups], [Requests], [Tracker], [Transport] and [SetupSpec] prove
    their invariants over all interleavings of such steps. All functions are total, and programs are an inductive
    type, so every run ends ([System] bounds it); only [GoURL.TrimSpace] uses fuel, the
    length of the string, of which every step removes at least one byte. Durations are
    nanoseconds in [Z].

    ** What the theorems show

    - The whole ([EndToEnd.krmsyncer_is_synced]): after a set-up without an error, for every
      later event of each kind of each rule, the handler returns, and if it returned no error
      the destinations have what the rules select of the source object, or nothing if it is
      gone.
    - Handling an event ([SyncSpec], [Apply], [FieldFilter], [Rules]): the run is the
      specified protocol of calls; what is sent is exactly the part of the source object
      the rule selects; status mode never creates; only what is gone is deleted; writes
      happen only for a KRMSyncer and a rule that ask for them; every target is attempted,
      with the client of its own remote, whatever became of the others; a run succeeds exactly if nothing it needed failed.
    - The state of the destination ([Converge]): with server-side apply as documented
      ([ServerSideApplyLaws]), a successful run leaves the selected spec and status in the
      live object, whatever others do that keeps what was applied ([Converge]); a successful
      run for an object that is gone at the source leaves none at the destinations
      ([Deletions]). The laws and what is kept are about objects without the server's own
      metadata, as the sent ones are ([FieldFilter.unmanaged]).
    - The concurrent system ([System], [Integration]): each run follows the protocol; gauges
      equal the numbers of failing objects; one client per connection; a run that pushes to
      a GKE cluster is given a client for that cluster; no run is long, and every run ends
      and is accounted for.
    - Setting up ([SetupSpec], [Rules], [Status]): watches are started once, for exactly
      the kinds the rules match at event time; after a set-up without an error the watches
      are those from before and those the rules need, no more and no fewer; a second set-up
      changes nothing; the status is updated once, with the conditions of the outcome, and
      keeps those of earlier set-ups.
    - The whole process ([Process], [Pipeline]): what is set up stays set up and is synced;
      nothing is written that no KRMSyncer asked for, neither when the controller was started
      nor when the event was handled; no kind is watched twice, also in the middle of a
      set-up; the metrics count exactly the objects whose latest run
      failed. With an API whose answers are about what was asked for ([AnswerLaws]), each
      handler writes only its own object and creates only its namespace. If writing these
      changes nothing of another object, the two are independent ([Delivery.independent];
      which objects are is left open: not the same object in two versions, and not an object
      and its namespace). So what [Converge] and [Deletions] say of one run is what happens
      to an event among any number of handlers of independent objects and of other steps
      that keep what was done, and it does happen: the handler returns
      ([Delivery]). Nothing that was taken on is left lying: set-ups and handlers come to
      their ends and are accounted for ([Progress]).
    - Connections ([GKE], [Lookups], [Transport], [Requests]): cluster data was cached at most
      a TTL ago; requests name the cluster whatever its name contains; however requests and
      refreshes interleave, each goes to the endpoint and through the CA of one answer of the
      API for its own cluster; error texts are bounded.
    - Deep copies ([DeepCopy]): a copy means the same, is made of memory of its own and is
      independent of the original; no typed nil pointer gets into an interface.
    - Export and start ([Export], [Cli], [Main]): a success is complete, nothing else is
      written, objects do not overwrite each other, the archive is closed exactly once; the
      exit codes of both programs say what happened.

    ** What is not modelled

    Logging; the JSON, YAML, zip, TLS, HTTP and OAuth libraries, cobra, flag parsing, the
    scheme, controller-runtime and its work queues themselves (parameters); the text of
    base64 errors beyond their kind; the registration of the metrics; [context]
    cancellation. The goroutine that runs a remote cluster is the call [cluster_Start]. In
    [System] the handlers of KRMSyncers are part of the environment, in [Process] they run.
    Work queues are represented by what they promise: an object that is being handled is not
    handed out again ([Process.idle]). The interface [Sink] ([pkg/sink/sink.go]) is not used
    by the code, which names [ZipSink]. *)

From stdpp Require Import base list strings gmap option fin_maps relations.

(** ** Results: Go's [(value, error)] pairs *)

(** A Go function that returns [(T, error)] returns either a value ([err == nil])
    or an error; the code never looks at the value when the error is set. *)
Inductive res (E A : Type) : Type :=
| Ok (a : A)
| Err (e : E).
Arguments Ok {E A} a.
Arguments Err {E A} e.

Definition is_ok {E A} (r : res E A) : bool :=
  match r with Ok _ => true | Err _ => false end.

#[export] Instance res_eq_dec {E A} `{EqDecision E, EqDecision A} : EqDecision (res E A).
Proof. solve_decision. Defined.

#[export] Instance Ok_inj {E A} : Inj (=) (=) (@Ok E A).
Proof. by intros ?? [=]. Qed.

#[export] Instance Err_inj {E A} : Inj (=) (=) (@Err E A).
Proof. by intros ?? [=]. Qed.

(** ** The state monad the handlers are written in *)

(** [M S A] is a computation that reads and writes a state [S]. Errors are ordinary
    values of the result ([res] or [option]), as they are in Go, so a failed call
    keeps the state changes made before it failed. *)
Definition M (S A : Type) : Type := S → A * S.

#[export] Instance M_ret {S} : MRet (M S) := λ A a s, (a, s).
#[export] Instance M_bind {S} : MBind (M S) := λ A B k m s, k (m s).1 (m s).2.

Definition gets {S A} (f : S → A) : M S A := λ s, (f s, s).
Definition modify {S} (f : S → S) : M S unit := λ s, (tt, f s).

Lemma M_bind_ext {S A B} (m m' : M S A) (k k' : A → M S B) s :
  m s = m' s → (∀ a s', k a s' = k' a s') → (m ≫= k) s = (m' ≫= k') s.
Proof. unfold mbind, M_bind. intros -> Hk. apply Hk. Qed.

(** Go's [for _, x := range l { ... }] over an accumulator; [continue] is returning
    the accumulator. *)
Fixpoint forM {S A B} (l : list A) (acc : B) (body : A → B → M S B) : M S B :=
  match l with
  | [] => mret acc
  | x :: l' => acc' ← body x acc; forM l' acc' body
  end.

(** A loop whose body may leave the function early: [Err] is a [return] from inside
    the loop. *)
Fixpoint forM_return {S A B E} (l : list A) (acc : B) (body : A → B → M S (res E B)) :
    M S (res E B) :=
  match l with
  | [] => mret (Ok acc)
  | x :: l' =>
      r ← body x acc;
      match r with
      | Err e => mret (Err e)
      | Ok acc' => forM_return l' acc' body
      end
  end.

(** ** Hoare triples *)

(** Total-correctness triples: a computation of [M] always returns. *)
Definition triple {S A} (P : S → Prop) (m : M S A) (Q : A → S → Prop) : Prop :=
  ∀ s, P s → Q (m s).1 (m s).2.

Section Triples.
Context {S : Type}.
Implicit Types P : S → Prop.

Lemma triple_ret {A} P (a : A) (Q : A → S → Prop) :
  (∀ s, P s → Q a s) → triple P (mret a) Q.
Proof. intros H s Hs. by apply H. Qed.

Lemma triple_bind {A B} P (m : M S A) (k : A → M S B) R Q :
  triple P m R → (∀ a, triple (R a) (k a) Q) → triple P (m ≫= k) Q.
Proof. intros Hm Hk s Hs. apply Hk, Hm, Hs. Qed.

Lemma triple_conseq {A} P P' (m : M S A) (Q Q' : A → S → Prop) :
  triple P' m Q' → (∀ s, P s → P' s) → (∀ a s, Q' a s → Q a s) → triple P m Q.
Proof. intros Hm HP HQ s Hs. by apply HQ, Hm, HP. Qed.

Lemma triple_modify P (f : S → S) (Q : unit → S → Prop) :
  (∀ s, P s → Q tt (f s)) → triple P (modify f) Q.
Proof. intros H s Hs. by apply H. Qed.

(** The loop rule: [I done acc s] holds after the elements [done]. *)
Lemma triple_forM {A B} (I : list A → B → S → Prop) (l : list A) (acc : B)
    (body : A → B → M S B) :
  (∀ done x todo acc, l = done ++ x :: todo →
    triple (I done acc) (body x acc) (I (done ++ [x]))) →
  triple (I [] acc) (forM l acc body) (I l).
Proof.
  intros Hbody.
  assert (Hgen : ∀ todo done acc, l = done ++ todo →
    triple (I done acc) (forM todo acc body) (I l)).
  { induction todo as [|x todo IH]; intros done acc' Hl.
    - rewrite app_nil_r in Hl. subst done. by apply triple_ret.
    - simpl. eapply triple_bind; [by eapply Hbody|].
      intros acc''. apply IH. by rewrite <-(assoc_L (++)). }
  by apply Hgen.
Qed.

Lemma triple_forM_return {A B E} (I : list A → B → S → Prop) (X : E → S → Prop)
    (l : list A) (acc : B) (body : A → B → M S (res E B)) :
  (∀ done x todo acc, l = done ++ x :: todo →
    triple (I done acc) (body x acc)
      (λ r s, match r with Ok acc' => I (done ++ [x]) acc' s | Err e => X e s end)) →
  triple (I [] acc) (forM_return l acc body)
    (λ r s, match r with Ok acc' => I l acc' s | Err e => X e s end).
Proof.
  intros Hbody.
  assert (Hgen : ∀ todo done acc, l = done ++ todo →
    triple (I done acc) (forM_return todo acc body)
      (λ r s, match r with Ok acc' => I l acc' s | Err e => X e s end)).
  { induction todo as [|x todo IH]; intros done acc' Hl.
    - rewrite app_nil_r in Hl. subst done. by apply triple_ret.
    - simpl. eapply triple_bind; [by eapply Hbody|].
      intros [acc''|e]; [|by apply triple_ret].
      apply IH. by rewrite <-(assoc_L (++)). }
  by apply Hgen.
Qed.
End Triples.

(** [triple_step] decomposes a bind, a return or a branch of the goal's program. *)
Ltac triple_step :=
  lazymatch goal with
  | |- triple _ (mret _) _ => apply triple_ret; intros ??
  | |- triple _ (modify _) _ => apply triple_modify; intros ??
  | |- triple _ (if ?b then _ else _) _ => destruct b eqn:?
  | |- triple _ (match ?x with _ => _ end) _ => destruct x eqn:?
  end.

(** ** A logic of logs

    A program that records its external calls in a log [π] of its state [conforms] to [P]
    if, whatever the world answers, the calls [l] it adds and its result satisfy [P]. *)
Definition conforms {E S A} (π : S → list E) (P : list E → A → Prop) (m : M S A) : Prop :=
  ∀ s, ∃ l, π (m s).2 = π s ++ l ∧ P l (m s).1.

Section Conforms.
Context {E S : Type} (π : S → list E).

Lemma conforms_ret {A} (P : list E → A → Prop) a : P [] a → conforms π P (mret a).
Proof. intros HP s. exists []. by rewrite app_nil_r. Qed.

Lemma conforms_bind {A B} (Q : list E → A → Prop) (P : list E → B → Prop)
    (m : M S A) (k : A → M S B) :
  conforms π Q m → (∀ l a, Q l a → conforms π (λ l', P (l ++ l')) (k a)) →
  conforms π P (m ≫= k).
Proof.
  intros Hm Hk s. destruct (Hm s) as (l & Hl & HQ).
  destruct (Hk l _ HQ (m s).2) as (l' & Hl' & HP).
  exists (l ++ l'). split; [|done]. unfold mbind, M_bind.
  by rewrite Hl', Hl, (assoc_L (++)).
Qed.

Lemma conforms_weaken {A} (Q P : list E → A → Prop) (m : M S A) :
  conforms π Q m → (∀ l a, Q l a → P l a) → conforms π P m.
Proof. intros Hm HQP s. destruct (Hm s) as (l & Hl & HQ). eauto. Qed.

(** A loop conforms to the concatenation of its iterations. *)
Lemma conforms_forM {A B} (I : list A → list E → B → Prop) (l : list A) (acc : B)
    (body : A → B → M S B) :
  I [] [] acc →
  (∀ done x todo calls acc, l = done ++ x :: todo → I done calls acc →
    conforms π (λ calls' acc', I (done ++ [x]) (calls ++ calls') acc') (body x acc)) →
  conforms π (I l) (forM l acc body).
Proof.
  intros Hnil Hbody.
  assert (Hgen : ∀ todo done calls acc, l = done ++ todo → I done calls acc →
    conforms π (λ calls' acc', I l (calls ++ calls') acc') (forM todo acc body)).
  { induction todo as [|x todo IH]; intros done calls acc' Hl HI.
    - apply conforms_ret. rewrite app_nil_r in *. by subst.
    - simpl. eapply conforms_bind; [by eapply Hbody|]. intros l' acc'' HI'.
      eapply conforms_weaken; [apply (IH (done ++ [x]) (calls ++ l') acc''); [|exact HI']|].
      + by rewrite Hl, <-(assoc_L (++)).
      + intros l'' b. by rewrite (assoc_L (++)). }
  by apply (Hgen l [] []).
Qed.
End Conforms.

(** *** Loops that collect errors

    Each iteration over [x] adds calls and errors that satisfy [P x]; [each P xs] holds of
    all calls and all errors of a loop over [xs]. *)
Inductive each {X E G} (P : X → list E → list G → Prop) : list X → list E → list G → Prop :=
| each_nil : each P [] [] []
| each_snoc xs x l l' es es' :
    each P xs l es → P x l' es' → each P (xs ++ [x]) (l ++ l') (es ++ es').

Section Each.
Context {X E G : Type} (P : X → list E → list G → Prop).

(** The loop rule: the errors start from those collected before. *)
Lemma conforms_each {S} (π : S → list E) (xs : list X) (errs : list G)
    (body : X → list G → M S (list G)) :
  (∀ x acc, x ∈ xs → conforms π (λ l acc', ∃ es, acc' = acc ++ es ∧ P x l es) (body x acc)) →
  conforms π (λ l acc', ∃ es, acc' = errs ++ es ∧ each P xs l es) (forM xs errs body).
Proof.
  intros Hbody.
  apply (conforms_forM π (λ seen l acc', ∃ es, acc' = errs ++ es ∧ each P seen l es)).
  { exists []. rewrite app_nil_r. split; [done|constructor]. }
  intros seen x todo l acc Hxs (es & -> & He).
  eapply conforms_weaken; [apply Hbody; rewrite Hxs; apply elem_of_app; right; by left|].
  intros l' acc' (es' & -> & HP). exists (es ++ es').
  split; [by rewrite (assoc_L (++))|by constructor].
Qed.

Lemma each_ok xs l :
  each P xs l [] → ∀ x, x ∈ xs → ∃ l', P x l' [] ∧ ∀ e, e ∈ l' → e ∈ l.
Proof.
  intros He. remember [] as es eqn:Hes. revert Hes.
  induction He as [|xs x l l' es es' He IH HP]; intros Hes y Hy; [by apply elem_of_nil in Hy|].
  apply app_eq_nil in Hes as [-> ->].
  apply elem_of_app in Hy as [Hy| ->%list_elem_of_singleton].
  - destruct (IH eq_refl y Hy) as (ly & Hly & Hin). exists ly. split; [done|].
    intros e Hye. apply elem_of_app. left. by apply Hin.
  - exists l'. split; [done|]. intros e Hye. apply elem_of_app. by right.
Qed.

Lemma each_event xs l es e :
  each P xs l es → e ∈ l → ∃ x l' es', x ∈ xs ∧ P x l' es' ∧ e ∈ l' ∧ ∀ e', e' ∈ l' → e' ∈ l.
Proof.
  induction 1 as [|xs x l l' es es' He IH HP]; [by intros ?%elem_of_nil|].
  intros [Hin|Hin]%elem_of_app.
  - destruct (IH Hin) as (y & ly & ey & ? & ? & ? & Hs). exists y, ly, ey.
    split_and!; [apply elem_of_app; by left|done..|].
    intros e' He'. apply elem_of_app. left. by apply Hs.
  - exists x, l', es'. split_and!; [apply elem_of_app; right; by left|done..|].
    intros e' He'. apply elem_of_app. by right.
Qed.
End Each.

(** ** Reachability *)

(** An invariant of the steps holds in every reachable state. *)
Lemma rtc_invariant {A} (R : relation A) (I : A → Prop) x y :
  (∀ a b, I a → R a b → I b) → rtc R x y → I x → I y.
Proof. intros Hstep. induction 1; eauto. Qed.
