(* ===== verification/Heap.v ===== *)
(** * Go's memory

    A heap of arrays, pointers to their elements, slices of them, [new], [make], [copy] and
    the loops that generated deep copies are made of. A dereference of nil or of a pointer
    to nothing and an index out of range panic ([None]). [Shape] says what a piece of data
    means in a heap and which arrays it reaches; [Copies] is what a deep copy promises. *)

From stdpp Require Import base list strings option.
From S2P Require Import Prelude.

(** ** Memory *)

(** The heap is the list of the arrays allocated so far; an array's address is its
    position. A variable of its own ([new(T)]) is an array of length one. *)
Definition heap (cell : Type) : Type := list cell.

(** A typed pointer: an array and an index in it. A slice: an array, the offset of its first
    element, its length and its capacity. A nil pointer and a nil slice are [None]. *)
Record ref (T : Type) := Ref { ref_array : nat; ref_index : nat }.
Arguments Ref {T} _ _.
Arguments ref_array {T} _.
Arguments ref_index {T} _.
Record slice (T : Type) := Slice {
  sl_array : nat;
  sl_offset : nat;
  sl_len : nat;
  sl_cap : nat;
}.
Arguments Slice {T} _ _ _ _.
Arguments sl_array {T} _.
Arguments sl_offset {T} _.
Arguments sl_len {T} _.
Arguments sl_cap {T} _.
Definition goptr (T : Type) : Type := option (ref T).
Definition goslice (T : Type) : Type := option (slice T).

(** Arrays of [T] are a kind of cells; the zero value of [T]. *)
Class Stored (cell T : Type) := {
  box : list T → cell;
  unbox : cell → option (list T);
  unbox_box a : unbox (box a) = Some a;
}.
Class Zero (T : Type) := zero : T.

(** Computations on the heap that may panic. *)
Definition H (cell A : Type) : Type := heap cell → option (A * heap cell).
#[export] Instance H_ret {cell} : MRet (H cell) := λ A a h, Some (a, h).
#[export] Instance H_bind {cell} : MBind (H cell) := λ A B k m h,
  match m h with Some (a, h') => k a h' | None => None end.

Section Memory.
Context {cell T : Type} {ST : Stored cell T}.

(** The array at an address. *)
Definition array_at (l : nat) (h : heap cell) : option (list T) := h !! l ≫= unbox.

Definition elem_at (l i : nat) (h : heap cell) : option T := array_at l h ≫= λ a, a !! i.

Definition new_array (a : list T) : H cell nat := λ h, Some (length h, h ++ [box a]).

Definition load_elem (l i : nat) : H cell T := λ h, (λ x, (x, h)) <$> elem_at l i h.

Definition store_elem (l i : nat) (x : T) : H cell unit := λ h,
  match array_at l h with
  | Some a => if bool_decide (i < length a) then Some (tt, <[l := box (<[i := x]> a)]> h) else None
  | None => None
  end.

(** [*p] and [*p = x]. *)
Definition load (p : ref T) : H cell T := load_elem (ref_array p) (ref_index p).
Definition store (p : ref T) (x : T) : H cell unit := store_elem (ref_array p) (ref_index p) x.

(** [new(T)] *)
Definition new `{Zero T} : H cell (ref T) := l ← new_array [zero]; mret (Ref l 0).

(** [make([]T, n)] *)
Definition make_slice `{Zero T} (n : nat) : H cell (slice T) :=
  l ← new_array (replicate n zero); mret (Slice l 0 n n).

(** [s[i]] and [s[i] = x], with the check of the index. *)
Definition load_index (s : slice T) (i : nat) : H cell T :=
  if bool_decide (i < sl_len s) then load_elem (sl_array s) (sl_offset s + i) else λ _, None.
Definition store_index (s : slice T) (i : nat) (x : T) : H cell unit :=
  if bool_decide (i < sl_len s) then store_elem (sl_array s) (sl_offset s + i) x else λ _, None.

(** The elements of a slice. *)
Definition elems_of (s : slice T) (h : heap cell) : option (list T) :=
  match array_at (sl_array s) h with
  | Some a => if bool_decide (sl_offset s + sl_len s ≤ length a)
              then Some (take (sl_len s) (drop (sl_offset s) a)) else None
  | None => None
  end.

(** [copy(dst, src)]: as many elements as both have. *)
Definition go_copy (dst src : slice T) : H cell unit := λ h,
  match elems_of src h, array_at (sl_array dst) h with
  | Some xs, Some a =>
      if bool_decide (sl_offset dst + sl_len dst ≤ length a)
      then Some (tt, <[sl_array dst :=
             box (list_inserts (sl_offset dst) (take (sl_len dst) xs) a)]> h)
      else None
  | _, _ => None
  end.
End Memory.

(** [for i := range n { body }] *)
Fixpoint for_range {cell} (i n : nat) (body : nat → H cell unit) : H cell unit :=
  match n with
  | 0 => mret tt
  | S n' => _ ← body i; for_range (S i) n' body
  end.

(** ** The blocks of generated deep copies

    A method [DeepCopyInto] reads the struct [in] points to and writes the one [out] points to; it is modelled by the function
    that takes the value of the former and returns the value it leaves in the latter. *)
Section Blocks.
Context {cell T : Type} {ST : Stored cell T} {ZT : Zero T}.

(** [if in.P != nil { *out = new(T); in.DeepCopyInto(out) }], which is also the method
    [DeepCopy]. *)
Definition copy_pointer (DeepCopyInto : T → H cell T) (inp : goptr T) : H cell (goptr T) :=
  match inp with
  | None => mret None
  | Some p =>
      out ← new;
      x ← load p;
      y ← DeepCopyInto x;
      _ ← store out y;
      mret (Some out)
  end.

(** [if in.S != nil { *out = make([]T, len( *in)); for i := range *in {
    ( *in)[i].DeepCopyInto(&( *out)[i]) } }] *)
Definition copy_slice (DeepCopyInto : T → H cell T) (inp : goslice T) : H cell (goslice T) :=
  match inp with
  | None => mret None
  | Some s =>
      out ← make_slice (sl_len s);
      _ ← for_range 0 (sl_len s) (λ i,
            x ← load_index s i;
            y ← DeepCopyInto x;
            store_index out i y);
      mret (Some out)
  end.

(** [if in.S != nil { *out = make([]T, len( *in)); copy( *out, *in) }] *)
Definition copy_plain_slice (inp : goslice T) : H cell (goslice T) :=
  match inp with
  | None => mret None
  | Some s =>
      out ← make_slice (sl_len s);
      _ ← go_copy out s;
      mret (Some out)
  end.
End Blocks.

(** ** What data means in a heap *)

(** [value] follows all references ([None] if one dangles); [reach] are the addresses of the
    arrays it comes to. *)
Class Shape (cell R V : Type) := {
  value : heap cell → R → option V;
  reach : heap cell → R → list nat;
}.

(** The meaning depends only on the arrays that are reached, which exist. *)
Class ShapeLaws (cell R V : Type) {SH : Shape cell R V} := {
  value_local h h' r v : value h r = Some v →
    (∀ l, l ∈ reach h r → h' !! l = h !! l) → value h' r = Some v ∧ reach h' r = reach h r;
  reach_allocated h r v l : value h r = Some v → l ∈ reach h r → l < length h;
}.

(** Data without references. *)
Class Plain (T : Type) := plain : True.
#[export] Instance plain_string : Plain string := I.
#[export] Instance plain_shape {cell T} `{Plain T} : Shape cell T T :=
  {| value _ x := Some x; reach _ _ := [] |}.

Section Shapes.
Context {cell R V : Type} {ST : Stored cell R} {SH : Shape cell R V}.

#[export] Instance pointer_shape : Shape cell (goptr R) (option V) := {|
  value h p := match p with
    | None => Some None
    | Some p => x ← elem_at (ref_array p) (ref_index p) h; Some <$> value h x
    end;
  reach h p := match p with
    | None => []
    | Some p => ref_array p ::
        match elem_at (ref_array p) (ref_index p) h with Some x => reach h x | None => [] end
    end;
|}.

#[export] Instance slice_shape : Shape cell (goslice R) (option (list V)) := {|
  value h s := match s with
    | None => Some None
    | Some s => xs ← elems_of s h; Some <$> mapM (value h) xs
    end;
  reach h s := match s with
    | None => []
    | Some s => sl_array s ::
        match elems_of s h with Some xs => xs ≫= reach h | None => [] end
    end;
|}.
End Shapes.

(** ** The promise of a deep copy *)

(** In the later heap [h'] the data [r] means [v] and all it reaches was allocated since
    [h]. *)
Definition fresh_copy {cell R V} `{Shape cell R V} (h h' : heap cell) (r : R) (v : V) : Prop :=
  value h' r = Some v ∧ ∀ l, l ∈ reach h' r → length h ≤ l.

(** From a heap in which [r] means [v], the copy does not panic, leaves every array there is
    as it is, and makes a fresh copy that means the same. *)
Class Copies {cell R V} {SH : Shape cell R V} (f : R → H cell R) : Prop :=
  copies : ∀ h r v, value h r = Some v →
    ∃ r' h', f r h = Some (r', h') ∧ h `prefix_of` h' ∧ fresh_copy h h' r' v.

(** ** Lemmas *)

Lemma lookup_prefix {A} (h h' : list A) l : h `prefix_of` h' → l < length h → h' !! l = h !! l.
Proof. intros [k ->] Hl. by rewrite lookup_app_l. Qed.

Lemma prefix_snoc_cell {A} (h : list A) k : h `prefix_of` h ++ k.
Proof. by exists k. Qed.

#[export] Hint Resolve prefix_snoc_cell : core.

Section MemoryLemmas.
Context {cell T : Type} {ST : Stored cell T}.
Implicit Types h : heap cell.

Lemma array_at_local h h' l : h' !! l = h !! l → array_at l h' = array_at (T := T) l h.
Proof. intros Hl. unfold array_at. by rewrite Hl. Qed.

Lemma array_at_new h k (a : list T) : array_at (length h) (h ++ box a :: k) = Some a.
Proof. unfold array_at. rewrite list_lookup_middle by done. simpl. apply unbox_box. Qed.

Lemma array_at_bound h l (a : list T) : array_at l h = Some a → l < length h.
Proof.
  unfold array_at. destruct (h !! l) as [c|] eqn:Hl; [|done]. by apply lookup_lt_Some in Hl.
Qed.

Lemma elem_at_bound h l i (x : T) : elem_at l i h = Some x → l < length h.
Proof.
  unfold elem_at. destruct (array_at l h) eqn:Ha; [|done]. by apply array_at_bound in Ha.
Qed.

Lemma elem_at_local h h' l i : h' !! l = h !! l → elem_at l i h' = elem_at (T := T) l i h.
Proof. intros Hl. unfold elem_at. by rewrite (array_at_local h h'). Qed.

Lemma elems_of_local h h' (s : slice T) :
  h' !! sl_array s = h !! sl_array s → elems_of s h' = elems_of s h.
Proof. intros Hl. unfold elems_of. by rewrite (array_at_local h h'). Qed.

Lemma elems_of_bound h (s : slice T) xs : elems_of s h = Some xs → sl_array s < length h.
Proof.
  unfold elems_of. destruct (array_at _ h) eqn:Ha; [|done]. by apply array_at_bound in Ha.
Qed.

Lemma elems_of_length h (s : slice T) xs : elems_of s h = Some xs → length xs = sl_len s.
Proof.
  unfold elems_of. destruct (array_at _ h) as [a|]; [|done].
  case_bool_decide; [|done]. intros [= <-]. rewrite length_take, length_drop. lia.
Qed.

Lemma elems_of_new h k (a : list T) n c :
  length a = n → elems_of (Slice (length h) 0 n c) (h ++ box a :: k) = Some a.
Proof.
  intros <-. unfold elems_of. simpl. rewrite array_at_new, bool_decide_eq_true_2 by lia.
  by rewrite drop_0, firstn_all.
Qed.

(** A load inside a slice reads its element; a store into a new array replaces it. *)
Lemma load_index_elem h (s : slice T) xs i x :
  elems_of s h = Some xs → xs !! i = Some x → load_index s i h = Some (x, h).
Proof.
  intros Hxs Hi. pose proof (elems_of_length _ _ _ Hxs) as Hn.
  pose proof (lookup_lt_Some _ _ _ Hi) as Hlt.
  unfold load_index. rewrite bool_decide_eq_true_2 by lia.
  unfold load_elem, elem_at. unfold elems_of in Hxs.
  destruct (array_at _ h) as [a|]; [|done]. simpl.
  case_bool_decide; [|done]. simplify_eq.
  rewrite lookup_take_lt, lookup_drop in Hi by lia. by rewrite Hi.
Qed.

Lemma store_index_new h k (a : list T) n c i x :
  length a = n → i < n →
  store_index (Slice (length h) 0 n c) i x (h ++ box a :: k) =
    Some (tt, h ++ box (<[i := x]> a) :: k).
Proof.
  intros <- Hi. unfold store_index, store_elem. simpl.
  rewrite bool_decide_eq_true_2, array_at_new, bool_decide_eq_true_2 by done.
  rewrite insert_app_r_alt, Nat.sub_diag by done. done.
Qed.

Lemma store_new h k (x y : T) :
  store (Ref (length h) 0) y (h ++ box [x] :: k) = Some (tt, h ++ box [y] :: k).
Proof.
  unfold store, store_elem. cbn [ref_array ref_index]. rewrite array_at_new.
  rewrite bool_decide_eq_true_2 by (simpl; lia).
  rewrite insert_app_r_alt, Nat.sub_diag by done. done.
Qed.
End MemoryLemmas.

Section ShapeLemmas.
Context {cell R V : Type} {SH : Shape cell R V} {SL : ShapeLaws cell R V}.

(** What is in a heap keeps its meaning while the program allocates. *)
Lemma value_prefix (h h' : heap cell) (r : R) (v : V) :
  value h r = Some v → h `prefix_of` h' → value h' r = Some v ∧ reach h' r = reach h r.
Proof.
  intros Hv Hp. apply value_local; [done|]. intros l Hl.
  apply lookup_prefix; [done|]. by eapply reach_allocated.
Qed.

Lemma fresh_copy_prefix (h h1 h2 : heap cell) (r : R) (v : V) :
  fresh_copy h h1 r v → h1 `prefix_of` h2 → fresh_copy h h2 r v.
Proof.
  intros [Hv Hr] Hp. destruct (value_prefix _ _ _ _ Hv Hp) as [Hv' Hr'].
  split; [done|]. by rewrite Hr'.
Qed.

Lemma fresh_copy_later (h h1 h2 : heap cell) (r : R) (v : V) :
  fresh_copy h1 h2 r v → length h ≤ length h1 → fresh_copy h h2 r v.
Proof. intros [Hv Hr] Hp. split; [done|]. intros l Hl. apply Hr in Hl. lia. Qed.

(** Writing to an array that was allocated before the copy does not touch the copy. *)
Lemma fresh_copy_update (h k : heap cell) c0 c c' (r : R) (v : V) :
  fresh_copy (h ++ [c0]) (h ++ c :: k) r v → fresh_copy (h ++ [c0]) (h ++ c' :: k) r v.
Proof.
  intros [Hv Hr]. rewrite length_app in Hr. simpl in Hr.
  destruct (value_local _ (h ++ c' :: k) r v Hv) as [Hv' Hr'].
  { intros l Hl. apply Hr in Hl. by rewrite !lookup_app_r, !lookup_cons_ne_0 by lia. }
  split; [done|]. rewrite Hr', length_app. exact Hr.
Qed.

(** A copy made later, in a heap that has grown from [h]. *)
Lemma copies_later (f : R → H cell R) `{!Copies f} (h h1 : heap cell) (r : R) (v : V) :
  value h r = Some v → h `prefix_of` h1 →
  ∃ r' h2, f r h1 = Some (r', h2) ∧ h1 `prefix_of` h2 ∧ h `prefix_of` h2 ∧
    fresh_copy h1 h2 r' v.
Proof.
  intros Hv Hp. destruct (value_prefix _ _ _ _ Hv Hp) as [Hv1 _].
  destruct (copies h1 r v Hv1) as (r' & h2 & Hf & Hp2 & Hc). exists r', h2.
  split_and!; [done|done|by etrans|done].
Qed.
End ShapeLemmas.

#[export] Instance plain_laws {cell T} `{Plain T} : ShapeLaws cell T T.
Proof. split; [by intros h h' r v [= ->]|]. intros h r v l _. by intros ?%elem_of_nil. Qed.

(** The assignment of data without references copies it. *)
#[export] Instance plain_copies {cell T} `{Plain T} : Copies (cell := cell) (mret (A := T)).
Proof.
  intros h r v Hv. exists r, h. split_and!; [done|done|]. split; [done|].
  by intros l ?%elem_of_nil.
Qed.

Section Reference_laws.
Context {cell R V : Type} {ST : Stored cell R} {SH : Shape cell R V} {SL : ShapeLaws cell R V}.

#[export] Instance pointer_laws : ShapeLaws cell (goptr R) (option V).
Proof.
  split.
  - intros h h' [p|] v Hv Hl; [|done]. simpl in *.
    rewrite (elem_at_local h h') by (apply Hl; by left).
    destruct (elem_at _ _ h) as [x|] eqn:Hx; [|done]. simpl in *.
    destruct (value h x) as [vx|] eqn:Hvx; [|done].
    destruct (value_local h h' x vx Hvx) as [Hv' Hr'].
    { intros l Hin. apply Hl. by right. }
    by rewrite Hv', Hr'.
  - intros h [p|] v l Hv; [|by intros ?%elem_of_nil]. simpl in *.
    destruct (elem_at _ _ h) as [x|] eqn:Hx; [|done]. simpl in *.
    intros [->|Hl]%elem_of_cons; [by eapply elem_at_bound|].
    destruct (value h x) eqn:Hvx; [|done]. by eapply reach_allocated.
Qed.

Lemma mapM_value_local h h' (xs : list R) vs :
  mapM (value h) xs = Some vs → (∀ l, l ∈ (xs ≫= reach h) → h' !! l = h !! l) →
  mapM (value h') xs = Some vs ∧ xs ≫= reach h' = xs ≫= reach h.
Proof.
  revert vs. induction xs as [|x xs IH]; intros vs Hvs Hl; [done|].
  rewrite bind_cons in *. simpl in Hvs.
  destruct (value h x) as [v|] eqn:Hv; [|done]. simpl in Hvs.
  destruct (mapM (value h) xs) as [vs'|]; [|done].
  destruct (value_local h h' x v Hv) as [Hv' Hr'].
  { intros l Hin. apply Hl. apply elem_of_app. by left. }
  destruct (IH vs' eq_refl) as [Hvs' Hrs'].
  { intros l Hin. apply Hl. apply elem_of_app. by right. }
  split; [|by rewrite bind_cons, Hr', Hrs'].
  simpl. by rewrite Hv', Hvs'.
Qed.

#[export] Instance slice_laws : ShapeLaws cell (goslice R) (option (list V)).
Proof.
  split.
  - intros h h' [s|] v Hv Hl; [|done]. simpl in *.
    rewrite (elems_of_local h h') by (apply Hl; by left).
    destruct (elems_of s h) as [xs|] eqn:Hx; [|done]. simpl in *.
    destruct (mapM (value h) xs) as [vs|] eqn:Hvs; [|done].
    destruct (mapM_value_local h h' xs vs Hvs) as [Hv' Hr'].
    { intros l Hin. apply Hl. by right. }
    by rewrite Hv', Hr'.
  - intros h [s|] v l Hv; [|by intros ?%elem_of_nil]. simpl in *.
    destruct (elems_of s h) as [xs|] eqn:Hx; [|done]. simpl in *.
    intros [->|Hl]%elem_of_cons; [by eapply elems_of_bound|].
    apply list_elem_of_bind in Hl as (x & Hl & Hin).
    destruct (mapM (value h) xs) as [vs|] eqn:Hvs; [|done].
    apply list_elem_of_lookup in Hin as [i Hi]. apply mapM_Some in Hvs.
    destruct (Forall2_lookup_l _ _ _ _ _ Hvs Hi) as (vx & _ & Hvx).
    by eapply reach_allocated.
Qed.
End Reference_laws.

(** ** The blocks keep the promise *)

Section BlockLemmas.
Context {cell R V : Type} {ST : Stored cell R} {ZT : Zero R}.
Context {SH : Shape cell R V} {SL : ShapeLaws cell R V}.

Lemma fresh_pointer (h h' : heap cell) k (y : R) v :
  h' = h ++ box [y] :: k → fresh_copy h h' y v →
  fresh_copy h h' (Some (Ref (length h) 0) : goptr R) (Some v).
Proof.
  intros -> [Hv Hr]. unfold fresh_copy. simpl. unfold elem_at. rewrite array_at_new. simpl.
  rewrite Hv. split; [done|]. intros l [->|Hl]%elem_of_cons; [done|by apply Hr].
Qed.

Lemma copies_nothing {R' V'} `{Shape cell R' V'} (h : heap cell) (r : R') (v : V') :
  value h r = Some v → reach h r = [] →
  ∃ r' h', Some (r, h) = Some (r', h') ∧ h `prefix_of` h' ∧ fresh_copy h h' r' v.
Proof.
  intros Hv Hr. exists r, h. split; [done|]. split; [done|]. split; [done|].
  rewrite Hr. by intros l ?%elem_of_nil.
Qed.

#[export] Instance copies_pointer (f : R → H cell R) `{!Copies f} : Copies (copy_pointer f).
Proof.
  intros h [p|] vo Hv; [|by apply copies_nothing].
  simpl in Hv. destruct (elem_at _ _ h) as [x|] eqn:Hx; [|done]. simpl in Hv.
  destruct (value h x) as [v|] eqn:Hvx; simplify_eq/=.
  set (h1 := h ++ [box [zero]]).
  assert (Hp1 : h `prefix_of` h1) by apply prefix_snoc_cell.
  destruct (copies_later f h h1 x v Hvx Hp1) as (y & h2 & Hf & [k ->] & Hp & Hc).
  assert (Hl : load p h1 = Some (x, h1)).
  { unfold load, load_elem. rewrite (elem_at_local h h1), Hx; [done|].
    apply lookup_prefix; [exact Hp1|]. by eapply elem_at_bound. }
  unfold h1 in Hc. rewrite <-(assoc_L (++)) in Hc.
  assert (Hs : store (Ref (length h) 0) y (h1 ++ k) = Some (tt, h ++ box [y] :: k)).
  { unfold h1. rewrite <-(assoc_L (++)). apply store_new. }
  exists (Some (Ref (length h) 0)), (h ++ box [y] :: k). split_and!; [|done|].
  { unfold copy_pointer, new, new_array, mbind, H_bind, mret, H_ret.
    fold h1. by rewrite Hl, Hf, Hs. }
  eapply fresh_pointer; [done|].
  eapply fresh_copy_later; [by eapply fresh_copy_update|]. rewrite length_app. lia.
Qed.

(** After [i] iterations of the loop over a slice whose elements mean [vs]. *)
Definition copied (h : heap cell) (n : nat) (vs : list V) (i : nat) (hc : heap cell) : Prop :=
  ∃ outs k, hc = h ++ box (outs ++ replicate (n - i) zero) :: k ∧ length outs = i ∧
    Forall2 (fresh_copy (h ++ [box (replicate n zero)]) hc) outs (take i vs).

Lemma copied_iteration (f : R → H cell R) `{!Copies f} h s xs vs i hc :
  elems_of s h = Some xs → mapM (value h) xs = Some vs → i < sl_len s →
  copied h (sl_len s) vs i hc →
  ∃ hc', (x ← load_index s i; y ← f x;
      store_index (Slice (length h) 0 (sl_len s) (sl_len s)) i y) hc = Some (tt, hc') ∧
    copied h (sl_len s) vs (S i) hc'.
Proof.
  intros Hxs Hvs Hi (outs & k & -> & Hlen & Hall).
  pose proof (elems_of_length _ _ _ Hxs) as Hn. apply mapM_Some in Hvs.
  destruct (lookup_lt_is_Some_2 xs i) as [x Hx]; [lia|].
  destruct (Forall2_lookup_l _ _ _ _ _ Hvs Hx) as (v & Hvi & Hv).
  set (a := outs ++ replicate (sl_len s - i) zero) in *.
  assert (Hp : h `prefix_of` h ++ box a :: k) by done.
  destruct (copies_later f h _ x v Hv Hp) as (y & h2 & Hf & [k' ->] & _ & Hc).
  assert (Hl : load_index s i (h ++ box a :: k) = Some (x, h ++ box a :: k)).
  { apply (load_index_elem _ _ xs); [|done]. rewrite (elems_of_local h); [done|].
    apply lookup_prefix; [done|]. by eapply elems_of_bound. }
  assert (Hla : length a = sl_len s).
  { unfold a. rewrite length_app, length_replicate. lia. }
  assert (Ha : <[i := y]> a = (outs ++ [y]) ++ replicate (sl_len s - S i) zero).
  { unfold a. rewrite insert_app_r_alt, Hlen, Nat.sub_diag by lia.
    replace (sl_len s - i) with (S (sl_len s - S i)) by lia. by rewrite <-(assoc_L (++)). }
  exists (h ++ box (<[i := y]> a) :: (k ++ k')). split.
  { unfold mbind, H_bind. rewrite Hl, Hf, <-(assoc_L (++)). simpl. by apply store_index_new. }
  exists (outs ++ [y]), (k ++ k'). rewrite <-Ha.
  split; [done|]. split; [rewrite length_app; simpl; lia|].
  erewrite take_S_r by done. apply Forall2_app; [|constructor; [|done]].
  - eapply Forall2_impl; [|exact Hall]. intros o vo Ho.
    apply (fresh_copy_update _ _ _ (box a)). eapply fresh_copy_prefix; [exact Ho|].
    exists k'. by rewrite <-(assoc_L (++)).
  - apply (fresh_copy_update _ _ _ (box a)). rewrite <-(assoc_L (++)) in Hc.
    eapply fresh_copy_later; [exact Hc|]. rewrite !length_app. simpl. lia.
Qed.

Lemma copied_loop (f : R → H cell R) `{!Copies f} h s xs vs n i hc :
  elems_of s h = Some xs → mapM (value h) xs = Some vs → i + n = sl_len s →
  copied h (sl_len s) vs i hc →
  ∃ hc', for_range i n (λ i, x ← load_index s i; y ← f x;
      store_index (Slice (length h) 0 (sl_len s) (sl_len s)) i y) hc = Some (tt, hc') ∧
    copied h (sl_len s) vs (sl_len s) hc'.
Proof.
  intros Hxs Hvs. revert i hc. induction n as [|n IH]; intros i hc Hi Hc.
  { exists hc. split; [done|]. by rewrite <-Hi, Nat.add_0_r in *. }
  destruct (copied_iteration f h s xs vs i hc) as (hc1 & Hstep & Hc1); [done..|lia|done|].
  destruct (IH (S i) hc1) as (hc' & Hloop & Hc'); [lia|done|].
  exists hc'. split; [|done]. simpl.
  unfold mbind at 1, H_bind at 1. by rewrite Hstep.
Qed.

Lemma fresh_slice (h h' : heap cell) k (ys : list R) vs n :
  h' = h ++ box ys :: k → length ys = n → Forall2 (fresh_copy h h') ys vs →
  fresh_copy h h' (Some (Slice (length h) 0 n n) : goslice R) (Some vs).
Proof.
  intros -> Hn Hall. unfold fresh_copy. simpl. rewrite elems_of_new by done. simpl.
  split.
  - assert (Hvs : mapM (value (h ++ box ys :: k)) ys = Some vs).
    { apply mapM_Some. eapply Forall2_impl; [|exact Hall]. by intros y v [Hv _]. }
    by rewrite Hvs.
  - intros l [->|Hl]%elem_of_cons; [done|].
    apply list_elem_of_bind in Hl as (y & Hl & Hy). apply list_elem_of_lookup in Hy as [i Hi].
    destruct (Forall2_lookup_l _ _ _ _ _ Hall Hi) as (v & _ & _ & Hr). by apply Hr.
Qed.

#[export] Instance copies_slice (f : R → H cell R) `{!Copies f} : Copies (copy_slice f).
Proof.
  intros h [s|] vo Hv; [|by apply copies_nothing].
  simpl in Hv. destruct (elems_of s h) as [xs|] eqn:Hxs; [|done]. simpl in Hv.
  destruct (mapM (value h) xs) as [vs|] eqn:Hvs; simplify_eq/=.
  pose proof (elems_of_length _ _ _ Hxs) as Hn.
  pose proof (length_mapM _ _ _ Hvs) as Hnv.
  destruct (copied_loop f h s xs vs (sl_len s) 0 (h ++ [box (replicate (sl_len s) zero)]))
    as (hc & Hloop & outs & k & -> & Hlen & Hall); [done..| |].
  { exists [], []. rewrite Nat.sub_0_r, take_0. done. }
  rewrite Nat.sub_diag, app_nil_r in *. rewrite take_ge in Hall by lia.
  eexists _, _. split; [|split; [by apply prefix_snoc_cell|]].
  { unfold copy_slice, make_slice, new_array. unfold mbind at 1 2, H_bind at 1 2.
    unfold mret at 1, H_ret at 1. unfold mbind at 1, H_bind at 1. by rewrite Hloop. }
  eapply fresh_slice; [done..|]. eapply Forall2_impl; [|exact Hall].
  intros y v Hy. eapply fresh_copy_later; [exact Hy|]. rewrite length_app. lia.
Qed.
End BlockLemmas.

Section PlainSlices.
Context {cell T : Type} {ST : Stored cell T} {ZT : Zero T} {PT : Plain T}.

Lemma mapM_some {A} (xs : list A) : mapM (λ x, Some x) xs = Some xs.
Proof. induction xs as [|x xs IH]; [done|]. simpl. by rewrite IH. Qed.

#[export] Instance copies_plain_slice :
  Copies (V := option (list T)) (copy_plain_slice (cell := cell)).
Proof.
  intros h [s|] vo Hv; [|by apply copies_nothing].
  simpl in Hv. destruct (elems_of s h) as [xs|] eqn:Hxs; [|done]. simpl in Hv.
  rewrite mapM_some in Hv. simplify_eq/=.
  pose proof (elems_of_length _ _ _ Hxs) as Hn.
  set (h1 := h ++ [box (replicate (sl_len s) zero)]).
  assert (Hx1 : elems_of s h1 = Some xs).
  { rewrite (elems_of_local h); [done|]. apply lookup_prefix; [by apply prefix_snoc_cell|].
    by eapply elems_of_bound. }
  eexists _, _. split; [|split; [by apply prefix_snoc_cell|]].
  { unfold copy_plain_slice, make_slice, new_array, mbind, H_bind, mret, H_ret, go_copy.
    fold h1. rewrite Hx1. unfold h1 at 1. simpl. rewrite array_at_new.
    rewrite bool_decide_eq_true_2 by (rewrite length_replicate; lia).
    unfold h1. rewrite insert_app_r_alt, Nat.sub_diag by done. done. }
  assert (Hxs' : list_inserts 0 (take (sl_len s) xs) (replicate (sl_len s) zero) = xs).
  { rewrite take_ge by lia. rewrite <-(app_nil_r xs) at 1. rewrite list_inserts_0_l;
      [done|by rewrite length_replicate]. }
  rewrite Hxs'. eapply fresh_slice; [done|done|].
  apply Forall_Forall2_diag, Forall_true. intros x. split; [done|]. by intros l ?%elem_of_nil.
Qed.
End PlainSlices.

(** ** Structs

    The fields with references of a struct form a tuple; a struct means what its tuple
    means, and its deep copy is that of the tuple. *)

Section Pairs.
Context {cell R1 V1 R2 V2 : Type}.
Context {S1 : Shape cell R1 V1} {S2 : Shape cell R2 V2}.
Context {L1 : ShapeLaws cell R1 V1} {L2 : ShapeLaws cell R2 V2}.

#[export] Instance pair_shape : Shape cell (R1 * R2) (V1 * V2) := {|
  value h r := v1 ← value h r.1; v2 ← value h r.2; Some (v1, v2);
  reach h r := reach h r.1 ++ reach h r.2;
|}.

#[export] Instance pair_laws : ShapeLaws cell (R1 * R2) (V1 * V2).
Proof.
  split.
  - intros h h' [r1 r2] v Hv Hl. simpl in *.
    destruct (value h r1) as [v1|] eqn:H1; [|done]. simpl in *.
    destruct (value h r2) as [v2|] eqn:H2; [|done].
    destruct (value_local h h' r1 v1 H1) as [-> ->];
      [intros l Hin; apply Hl, elem_of_app; by left|].
    destruct (value_local h h' r2 v2 H2) as [-> ->];
      [intros l Hin; apply Hl, elem_of_app; by right|]. done.
  - intros h [r1 r2] v l Hv Hin. simpl in *.
    destruct (value h r1) as [v1|] eqn:H1; [|done]. simpl in *.
    destruct (value h r2) as [v2|] eqn:H2; [|done].
    apply elem_of_app in Hin as [Hin|Hin];
      [exact (reach_allocated _ _ _ _ H1 Hin)|exact (reach_allocated _ _ _ _ H2 Hin)].
Qed.

Definition copy_pair (f : R1 → H cell R1) (g : R2 → H cell R2) (r : R1 * R2) :
    H cell (R1 * R2) :=
  r1 ← f r.1; r2 ← g r.2; mret (r1, r2).

#[export] Instance copies_pair (f : R1 → H cell R1) (g : R2 → H cell R2)
    `{!Copies f, !Copies g} : Copies (copy_pair f g).
Proof.
  intros h [r1 r2] v Hv. simpl in Hv.
  destruct (value h r1) as [v1|] eqn:H1; [|done]. simpl in Hv.
  destruct (value h r2) as [v2|] eqn:H2; simplify_eq/=.
  destruct (copies h r1 v1 H1) as (y1 & h1 & Hf & Hp1 & Hc1).
  destruct (copies_later g h h1 r2 v2 H2 Hp1) as (y2 & h2 & Hg & Hp2 & Hp & Hc2).
  exists (y1, y2), h2. split; [|split; [done|]].
  { unfold copy_pair, mbind, H_bind. simpl. by rewrite Hf, Hg. }
  destruct (fresh_copy_prefix _ _ _ _ _ Hc1 Hp2) as [Hv1 Hr1].
  destruct (fresh_copy_later h _ _ _ _ Hc2 (prefix_length _ _ Hp1)) as [Hv2 Hr2].
  split; [by simpl; rewrite Hv1, Hv2|].
  simpl. intros l [Hl|Hl]%elem_of_app; auto.
Qed.
End Pairs.

Section StructShapes.
Context {cell R V F FV : Type} {SF : Shape cell F FV}.
Context (fields : R → F) (build : R → FV → V).

Definition struct_shape : Shape cell R V := {|
  value h r := build r <$> value h (fields r);
  reach h r := reach h (fields r);
|}.

Lemma struct_laws {LF : ShapeLaws cell F FV} : ShapeLaws cell R V (SH := struct_shape).
Proof.
  split.
  - intros h h' r v Hv Hl. simpl in *. destruct (value h (fields r)) as [fv|] eqn:Hf; [|done].
    destruct (value_local h h' _ fv Hf Hl) as [-> ->]. done.
  - intros h r v l Hv. simpl in *. destruct (value h (fields r)) as [fv|] eqn:Hf; [|done].
    by eapply reach_allocated.
Qed.

(** A method copies a struct if it copies its tuple and keeps the other fields. *)
Lemma copies_struct (rebuild : R → F → R) (c : F → H cell F) (f : R → H cell R) :
  Copies c → (∀ r y, fields (rebuild r y) = y) → (∀ r y, build (rebuild r y) = build r) →
  (∀ r h, f r h = (y ← c (fields r); mret (rebuild r y)) h) →
  Copies (SH := struct_shape) f.
Proof.
  intros Hc Hfields Hbuild Hf h r v Hv. simpl in Hv.
  destruct (value h (fields r)) as [fv|] eqn:Hfv; simplify_eq/=.
  destruct (Hc h _ fv Hfv) as (y & h' & Hy & Hp & Hv' & Hr').
  exists (rebuild r y), h'. rewrite Hf. unfold mbind, H_bind. rewrite Hy.
  split; [done|]. split; [done|]. unfold fresh_copy. simpl.
  rewrite Hfields, Hbuild, Hv'. done.
Qed.
End StructShapes.
