(* ===== verification/Threads.v ===== *)
(** * Programs that run concurrently

    A handler that shares state with others is a program of atomic operations ([prog], a
    free monad): between two of its operations anything may happen. [trace_of] are the
    operations of a finished run with their answers, whatever these were; [yields] is the
    logic of traces. A [pool] runs any number of such programs over a shared state, step by
    step in any order, while an environment interferes. *)

From stdpp Require Import base list option relations.
From S2P Require Import Prelude.

(** ** Programs *)

Section Programs.
Context {op : Type → Type}.

(** A program is done, or does an operation and goes on with its answer. It is an inductive
    type: every run ends. *)
Inductive prog (A : Type) : Type :=
| Ret (a : A)
| Do {X : Type} (o : op X) (k : X → prog A).

(** An operation that was done, and its answer. *)
Inductive event : Type :=
| Ev {X : Type} (o : op X) (x : X).

Definition trace : Type := list event.
End Programs.
Arguments prog : clear implicits.
Arguments event : clear implicits.
Arguments trace : clear implicits.
Arguments Ret {op A} a.
Arguments Do {op A X} o k.
Arguments Ev {op X} o x.

#[export] Instance prog_ret {op} : MRet (prog op) := λ A a, Ret a.
#[export] Instance prog_bind {op} : MBind (prog op) := λ A B k,
  fix go p := match p with
  | Ret a => k a
  | Do o f => Do o (λ x, go (f x))
  end.

(** A single operation. *)
Definition perform {op X} (o : op X) : prog op X := Do o Ret.

(** Go's [for _, x := range l] over an accumulator. *)
Fixpoint forP {op A B} (l : list A) (acc : B) (body : A → B → prog op B) : prog op B :=
  match l with
  | [] => mret acc
  | x :: l' => acc' ← body x acc; forP l' acc' body
  end.

(** A loop whose body may leave the function early: [Err] is a [return] from inside the
    loop. *)
Fixpoint forP_return {op A B E} (l : list A) (acc : B) (body : A → B → prog op (res E B)) :
    prog op (res E B) :=
  match l with
  | [] => mret (Ok acc)
  | x :: l' =>
      r ← body x acc;
      match r with
      | Err e => mret (Err e)
      | Ok acc' => forP_return l' acc' body
      end
  end.

(** The traces of the runs of a program, with their results. *)
Fixpoint trace_of {op A} (p : prog op A) (tr : trace op) (a : A) : Prop :=
  match p with
  | Ret b => tr = [] ∧ a = b
  | Do o k => ∃ x tr', tr = Ev o x :: tr' ∧ trace_of (k x) tr' a
  end.

(** After the operations [tr], the program [p] has become [p']. *)
Fixpoint reaches {op A} (p : prog op A) (tr : trace op) (p' : prog op A) : Prop :=
  (tr = [] ∧ p' = p) ∨
  match p with
  | Ret _ => False
  | Do o k => ∃ x tr', tr = Ev o x :: tr' ∧ reaches (k x) tr' p'
  end.

(** Every run of [p] satisfies [P]. *)
Definition yields {op A} (P : trace op → A → Prop) (p : prog op A) : Prop :=
  ∀ tr a, trace_of p tr a → P tr a.

(** Running a program alone, with the operations given by a handler on a state. *)
Fixpoint exec {op S A} (h : ∀ X, op X → M S X) (p : prog op A) (s : S) : (trace op * A) * S :=
  match p with
  | Ret a => (([], a), s)
  | Do o k =>
      let r := h _ o s in
      let r' := exec h (k r.1) r.2 in
      ((Ev o r.1 :: r'.1.1, r'.1.2), r'.2)
  end.

(** Its result and its effect. *)
Definition run {op S A} (h : ∀ X, op X → M S X) (p : prog op A) : M S A := λ s,
  ((exec h p s).1.2, (exec h p s).2).

(** The trace is what happens from [s] to [s'] if the operations act by the handler, and
    [others] act before, between and after them. *)
Fixpoint replay {op S} (h : ∀ X, op X → M S X) (others : S → S → Prop) (tr : trace op)
    (s s' : S) : Prop :=
  match tr with
  | [] => rtc others s s'
  | Ev o x :: tr' => ∃ s1, rtc others s s1 ∧ (h _ o s1).1 = x ∧ replay h others tr' (h _ o s1).2 s'
  end.

(** The program with its operations translated to another type of operations. *)
Definition hoist {op op' : Type → Type} (h : ∀ X, op X → op' X) {A} : prog op A → prog op' A :=
  fix go p := match p with
  | Ret a => Ret a
  | Do o k => Do (h _ o) (λ x, go (k x))
  end.

(** Each operation is justified ([G]) by the operations before it, of which [tr] have been
    done already. *)
Fixpoint guarded {op A} (G : trace op → ∀ X, op X → Prop) (tr : trace op) (p : prog op A) :
    Prop :=
  match p with
  | Ret _ => True
  | Do o k => G tr _ o ∧ ∀ x, guarded G (tr ++ [Ev o x]) (k x)
  end.

(** Weakest preconditions of a program that others interfere with ([others], before, between
    and after its operations): from [s], after the operations [tr], every operation leaves a
    state with the invariant [I], and the end satisfies [Q]. *)
Fixpoint wp {op S A} (h : ∀ X, op X → M S X) (others : S → S → Prop) (I : S → Prop)
    (p : prog op A) (Q : trace op → A → S → Prop) (tr : trace op) (s : S) : Prop :=
  match p with
  | Ret a => ∀ s', rtc others s s' → Q tr a s'
  | Do o k => ∀ s', rtc others s s' →
      let r := h _ o s' in
      I r.2 ∧ wp h others I (k r.1) Q (tr ++ [Ev o r.1]) r.2
  end.

(** ** Traces *)

Section Traces.
Context {op : Type → Type}.
Implicit Types tr : trace op.

Lemma trace_of_bind {A B} (p : prog op A) (k : A → prog op B) tr b :
  trace_of (p ≫= k) tr b ↔
  ∃ tr1 a tr2, tr = tr1 ++ tr2 ∧ trace_of p tr1 a ∧ trace_of (k a) tr2 b.
Proof.
  revert tr; induction p as [a|X o f IH]; intros tr.
  - split; [intros H; by exists [], a, tr|]. intros (tr1 & a' & tr2 & -> & [-> ->] & H). exact H.
  - split.
    + intros (x & tr' & -> & H). apply IH in H as (tr1 & a & tr2 & -> & H1 & H2).
      exists (Ev o x :: tr1), a, tr2. split; [done|]. split; [|done]. by exists x, tr1.
    + intros (tr1 & a & tr2 & -> & (x & tr' & -> & H1) & H2).
      exists x, (tr' ++ tr2). split; [done|]. apply IH. by exists tr', a, tr2.
Qed.

Lemma exec_trace {S A} (h : ∀ X, op X → M S X) (p : prog op A) s :
  trace_of p (exec h p s).1.1 (exec h p s).1.2.
Proof. revert s; induction p as [a|X o k IH]; intros s; simpl; eauto. Qed.

Lemma replay_app {S} (h : ∀ X, op X → M S X) others tr1 tr2 s s' :
  replay h others (tr1 ++ tr2) s s' ↔
  ∃ s1, replay h others tr1 s s1 ∧ replay h others tr2 s1 s'.
Proof.
  revert s. induction tr1 as [|[X o x] tr1 IH]; intros s; simpl.
  - split.
    + intros Hr. exists s. split; [apply rtc_refl|done].
    + intros (s1 & Hs & Hr). destruct tr2 as [|[X o x] tr2]; simpl in *; [by etrans|].
      destruct Hr as (s2 & ? & ? & ?). exists s2. split; [by etrans|done].
  - split.
    + intros (s1 & Hs & Hx & (s2 & ? & ?)%IH). exists s2. split; [by exists s1|done].
    + intros (s2 & (s1 & ? & ? & ?) & ?). exists s1. split_and!; [done|done|].
      apply IH. by exists s2.
Qed.

(** A program that runs alone replays its trace. *)
Lemma replay_others {S} (h : ∀ X, op X → M S X) others tr s s1 s' :
  rtc others s s1 → replay h others tr s1 s' → replay h others tr s s'.
Proof.
  destruct tr as [|[X o x] tr]; simpl; [intros; by etrans|].
  intros Hs (s2 & Hs2 & Hr). exists s2. split; [by etrans|done].
Qed.

Lemma exec_replay {S A} (h : ∀ X, op X → M S X) others (p : prog op A) s :
  replay h others (exec h p s).1.1 s (exec h p s).2.
Proof.
  revert s; induction p as [a|X o k IH]; intros s; simpl; [apply rtc_refl|].
  exists s. split; [apply rtc_refl|]. split; [done|apply IH].
Qed.

(** Running alone is a morphism of monads. *)
Lemma run_bind {S A B} (h : ∀ X, op X → M S X) (p : prog op A) (k : A → prog op B) s :
  run h (p ≫= k) s = (run h p ≫= λ a, run h (k a)) s.
Proof.
  unfold run. revert s; induction p as [a|X o f IH]; intros s; [done|].
  exact (IH (h X o s).1 (h X o s).2).
Qed.

Lemma run_perform {S X} (h : ∀ X, op X → M S X) (o : op X) s : run h (perform o) s = h X o s.
Proof. unfold run. simpl. by destruct (h X o s). Qed.

Lemma reaches_refl {A} (p : prog op A) : reaches p [] p.
Proof. destruct p; by left. Qed.

Lemma reaches_trans {A} (p p' p'' : prog op A) tr tr' :
  reaches p tr p' → reaches p' tr' p'' → reaches p (tr ++ tr') p''.
Proof.
  revert tr; induction p as [a|X o k IH]; intros tr [[-> ->]|Hp]; try done.
  destruct Hp as (x & tr1 & -> & Hp). intros Hp'. right. exists x, (tr1 ++ tr').
  split; [done|]. by apply IH.
Qed.

Lemma reaches_step {A X} (p : prog op A) tr (o : op X) k x :
  reaches p tr (Do o k) → reaches p (tr ++ [Ev o x]) (k x).
Proof.
  intros Hp. eapply reaches_trans; [exact Hp|]. right. exists x, [].
  split; [done|apply reaches_refl].
Qed.

Lemma reaches_trace {A} (p p' : prog op A) tr tr' a :
  reaches p tr p' → trace_of p' tr' a → trace_of p (tr ++ tr') a.
Proof.
  revert tr; induction p as [b|X o k IH]; intros tr [[-> ->]|Hp]; try done.
  destruct Hp as (x & tr1 & -> & Hp). intros Hp'. exists x, (tr1 ++ tr').
  split; [done|]. by apply IH.
Qed.

Lemma reaches_ret {A} (p : prog op A) tr a : reaches p tr (Ret a) → trace_of p tr a.
Proof. intros Hp. rewrite <-(app_nil_r tr). by eapply reaches_trace; [exact Hp|]. Qed.

(** If every operation can be answered, every program can be finished. *)
Lemma trace_exists {A} (inh : ∀ X, op X → X) (p : prog op A) : ∃ tr a, trace_of p tr a.
Proof.
  induction p as [a|X o k IH]; [by exists [], a|].
  destruct (IH (inh X o)) as (tr & a & Htr). exists (Ev o (inh X o) :: tr), a, (inh X o), tr.
  done.
Qed.

(** *** Programs with the same traces *)

#[export] Instance prog_equiv {A} : Equiv (prog op A) := λ p q,
  ∀ tr a, trace_of p tr a ↔ trace_of q tr a.

#[export] Instance prog_equivalence {A} : Equivalence (≡@{prog op A}).
Proof.
  split; [by intros p tr a|by intros p q H tr a; rewrite (H tr a)|].
  intros p q r H1 H2 tr a. by rewrite (H1 tr a).
Qed.

Lemma bind_equiv {A B} (p q : prog op A) (k k' : A → prog op B) :
  p ≡ q → (∀ a, k a ≡ k' a) → p ≫= k ≡ q ≫= k'.
Proof.
  intros Hp Hk tr b. rewrite !trace_of_bind.
  by setoid_rewrite (Hp _ _); setoid_rewrite (Hk _ _ _).
Qed.

Lemma bind_assoc {A B C} (p : prog op A) (k : A → prog op B) (k' : B → prog op C) :
  (p ≫= k) ≫= k' ≡ p ≫= (λ a, k a ≫= k').
Proof.
  induction p as [a|X o f IH]; [done|]. intros tr c. simpl.
  split; intros (x & tr' & -> & H); exists x, tr'; (split; [done|]); by apply IH.
Qed.

Lemma bind_ret {A} (p : prog op A) : p ≫= mret ≡ p.
Proof.
  induction p as [a|X o f IH]; [done|]. intros tr c. simpl.
  split; intros (x & tr' & -> & H); exists x, tr'; (split; [done|]); by apply IH.
Qed.

#[export] Instance yields_proper {A} (P : trace op → A → Prop) :
  Proper ((≡) ==> iff) (yields P).
Proof. intros p q Hpq. unfold yields. by setoid_rewrite (Hpq _ _). Qed.

(** *** Loops *)

Lemma forP_app {A B} (l1 l2 : list A) (acc : B) (body : A → B → prog op B) :
  forP (l1 ++ l2) acc body ≡ acc' ← forP l1 acc body; forP l2 acc' body.
Proof.
  revert acc; induction l1 as [|x l1 IH]; intros acc; [done|]. simpl.
  etrans; [|symmetry; apply bind_assoc]. by apply bind_equiv.
Qed.

Lemma forP_ext {A B} (l : list A) (acc : B) (b1 b2 : A → B → prog op B) :
  (∀ x acc, x ∈ l → b1 x acc ≡ b2 x acc) → forP l acc b1 ≡ forP l acc b2.
Proof.
  revert acc; induction l as [|x l IH]; intros acc Hb; [done|]. simpl.
  apply bind_equiv; [apply Hb; by left|]. intros acc'. apply IH.
  intros y acc'' Hy. apply Hb. by right.
Qed.

(** Iterations that do nothing can be dropped. *)
Lemma forP_filter {A B} (Q : A → Prop) `{∀ x, Decision (Q x)} (l : list A) (acc : B)
    (body : A → B → prog op B) :
  (∀ x acc, x ∈ l → ¬ Q x → body x acc = Ret acc) →
  forP l acc body ≡ forP (filter Q l) acc body.
Proof.
  revert acc; induction l as [|x l IH]; intros acc Hb; [done|].
  assert (Hl : ∀ acc, forP l acc body ≡ forP (filter Q l) acc body).
  { intros acc'. apply IH. intros y acc'' Hy. apply Hb. by right. }
  rewrite filter_cons. case_decide as HQ; simpl.
  - by apply bind_equiv.
  - rewrite Hb by (done || by left). apply Hl.
Qed.

(** A nested loop is one loop over the flattened list. *)
Lemma forP_flat_map {A B C} (f : A → list C) (l : list A) (acc : B)
    (body : C → B → prog op B) :
  forP l acc (λ x acc, forP (f x) acc body) ≡ forP (l ≫= f) acc body.
Proof.
  revert acc; induction l as [|x l IH]; intros acc; [done|].
  rewrite bind_cons. etrans; [|symmetry; apply forP_app]. simpl. by apply bind_equiv.
Qed.

Lemma forP_fmap {A B C} (f : A → C) (l : list A) (acc : B) (body : C → B → prog op B) :
  forP (f <$> l) acc body ≡ forP l acc (λ x, body (f x)).
Proof.
  revert acc; induction l as [|x l IH]; intros acc; [done|]. simpl. by apply bind_equiv.
Qed.

(** *** The logic of traces *)

Lemma yields_ret {A} (P : trace op → A → Prop) a : P [] a → yields P (mret a).
Proof. by intros HP tr b [-> ->]. Qed.

Lemma yields_do {A X} (o : op X) (k : X → prog op A) (P : trace op → A → Prop) :
  (∀ x, yields (λ tr, P (Ev o x :: tr)) (k x)) → yields P (Do o k).
Proof. intros Hk tr a (x & tr' & -> & H). by apply Hk. Qed.

Lemma yields_perform {X} (o : op X) (P : trace op → X → Prop) :
  (∀ x, P [Ev o x] x) → yields P (perform o).
Proof. intros HP. apply yields_do. intros x. by apply yields_ret. Qed.

Lemma yields_perform_bind {A X} (o : op X) (k : X → prog op A) (P : trace op → A → Prop) :
  (∀ x, yields (λ tr, P (Ev o x :: tr)) (k x)) → yields P (perform o ≫= k).
Proof. apply yields_do. Qed.

Lemma yields_bind {A B} (Q : trace op → A → Prop) (P : trace op → B → Prop) p k :
  yields Q p → (∀ tr a, Q tr a → yields (λ tr', P (tr ++ tr')) (k a)) → yields P (p ≫= k).
Proof.
  intros Hp Hk tr b (tr1 & a & tr2 & -> & H1 & H2)%trace_of_bind.
  apply Hp in H1. by apply (Hk _ _ H1).
Qed.

Lemma yields_weaken {A} (Q P : trace op → A → Prop) p :
  yields Q p → (∀ tr a, Q tr a → P tr a) → yields P p.
Proof. intros Hp HQP tr a Htr. by apply HQP, Hp. Qed.

Lemma yields_and {A} (P Q : trace op → A → Prop) p :
  yields P p → yields Q p → yields (λ tr a, P tr a ∧ Q tr a) p.
Proof. intros HP HQ tr a Htr. split; [by apply HP|by apply HQ]. Qed.

Lemma yields_forP {A B} (I : list A → trace op → B → Prop) (l : list A) (acc : B)
    (body : A → B → prog op B) :
  I [] [] acc →
  (∀ done x todo tr acc, l = done ++ x :: todo → I done tr acc →
    yields (λ tr' acc', I (done ++ [x]) (tr ++ tr') acc') (body x acc)) →
  yields (I l) (forP l acc body).
Proof.
  intros Hnil Hbody.
  assert (Hgen : ∀ todo done tr acc, l = done ++ todo → I done tr acc →
    yields (λ tr' acc', I l (tr ++ tr') acc') (forP todo acc body)).
  { induction todo as [|x todo IH]; intros done tr acc' Hl HI.
    - apply yields_ret. rewrite app_nil_r in *. by subst.
    - simpl. eapply yields_bind; [by eapply Hbody|]. intros tr' acc'' HI'.
      eapply yields_weaken; [apply (IH (done ++ [x]) (tr ++ tr') acc''); [|exact HI']|].
      + by rewrite Hl, <-(assoc_L (++)).
      + intros tr'' b. by rewrite (assoc_L (++)). }
  by apply (Hgen l [] []).
Qed.
(** *** Operations that need a justification *)

Lemma guarded_bind {A B} G tr (p : prog op A) (k : A → prog op B) :
  guarded G tr p → (∀ tr' a, trace_of p tr' a → guarded G (tr ++ tr') (k a)) →
  guarded G tr (p ≫= k).
Proof.
  revert tr; induction p as [a|X o f IH]; intros tr Hp Hk.
  - specialize (Hk [] a). rewrite app_nil_r in Hk. by apply Hk.
  - destruct Hp as [Ho Hp]. split; [exact Ho|]. intros x. apply IH; [apply Hp|].
    intros tr' a Htr. rewrite <-(assoc_L (++)). apply Hk. by exists x, tr'.
Qed.

Lemma guarded_reaches {A X} G tr tr' (p : prog op A) (o : op X) k :
  guarded G tr p → reaches p tr' (Do o k) → G (tr ++ tr') X o.
Proof.
  intros Hp Hr. assert (Hg : guarded G (tr ++ tr') (Do o k)); [|by destruct Hg].
  generalize dependent (Do o k). intros p' Hr.
  revert tr tr' Hp Hr. induction p as [a|Y o' f IH]; intros tr tr' Hp [[-> ->]|Hr].
  - by rewrite app_nil_r.
  - done.
  - by rewrite app_nil_r.
  - destruct Hr as (x & tr1 & -> & Hr). destruct Hp as [_ Hp].
    replace (tr ++ Ev o' x :: tr1) with ((tr ++ [Ev o' x]) ++ tr1) by by rewrite <-(assoc_L (++)).
    by eapply IH.
Qed.

Lemma guarded_ret {A} G tr (a : A) : guarded G tr (mret a : prog op A).
Proof. done. Qed.

Lemma guarded_perform {X} G tr (o : op X) : G tr X o → guarded G tr (perform o).
Proof. by split. Qed.

Lemma guarded_forP {A B} G tr (l : list A) (acc : B) (body : A → B → prog op B) :
  (∀ tr x acc, x ∈ l → guarded G tr (body x acc)) → guarded G tr (forP l acc body).
Proof.
  revert tr acc. induction l as [|x l IH]; intros tr acc Hb; [apply guarded_ret|]. simpl.
  apply guarded_bind; [apply Hb; by left|]. intros tr' acc' _. apply IH.
  intros tr1 y acc1 Hy. apply Hb. by right.
Qed.

Lemma guarded_forP_return {A B E} G tr (l : list A) (acc : B)
    (body : A → B → prog op (res E B)) :
  (∀ tr x acc, x ∈ l → guarded G tr (body x acc)) → guarded G tr (forP_return l acc body).
Proof.
  revert tr acc. induction l as [|x l IH]; intros tr acc Hb; [apply guarded_ret|]. simpl.
  apply guarded_bind; [apply Hb; by left|]. intros tr' [acc'|e] _; [|apply guarded_ret].
  apply IH. intros tr1 y acc1 Hy. apply Hb. by right.
Qed.

Lemma guarded_weaken {A} (G G' : trace op → ∀ X, op X → Prop) tr (p : prog op A) :
  (∀ tr X o, G tr X o → G' tr X o) → guarded G tr p → guarded G' tr p.
Proof.
  intros HG. revert tr. induction p as [a|X o k IH]; intros tr; [done|].
  intros [Ho Hk]. split; [by apply HG|]. intros x. apply IH, Hk.
Qed.

(** The operations before are more and more. *)
Lemma guarded_prefix {A} G tr (p : prog op A) :
  guarded G tr p → guarded (λ tr' X o, G tr' X o ∧ tr `prefix_of` tr') tr p.
Proof.
  assert (Hgen : ∀ tr0, tr0 `prefix_of` tr → guarded G tr p →
    guarded (λ tr' X o, G tr' X o ∧ tr0 `prefix_of` tr') tr p); [|by apply Hgen].
  intros tr0. revert tr. induction p as [a|X o k IH]; intros tr Htr; [done|]. intros [Ho Hk].
  split; [done|]. intros x. apply IH; [by apply prefix_app_r|apply Hk].
Qed.

(** All operations of a run of such a program are justified. *)
Lemma guarded_trace {A} G tr0 (p : prog op A) tr a :
  guarded G tr0 p → trace_of p tr a →
  ∀ tr1 X (o : op X) x tr2, tr = tr1 ++ Ev o x :: tr2 → G (tr0 ++ tr1) X o.
Proof.
  intros Hp Htr tr1 X o x tr2 ->. assert (Hr : ∃ k, reaches p tr1 (Do o k)).
  { clear Hp. revert tr1 Htr. induction p as [b|Y o' f IH]; intros tr1 Htr.
    { destruct Htr as [Htr _]. by apply app_nil in Htr as [_ ?]. }
    destruct Htr as (y & tr' & Heq & Htr). destruct tr1 as [|e tr1].
    - apply (f_equal head) in Heq. apply (inj Some) in Heq.
      change ((λ e : event op, let 'Ev o1 _ := e in
        ∃ k, reaches (Do o' f) [] (Do o1 k)) (Ev o x)).
      rewrite Heq. exists f. by left.
    - injection Heq as -> <-.
      destruct (IH y tr1 Htr) as [k Hk]. exists k. right. by exists y, tr1. }
  destruct Hr as [k Hr]. by eapply guarded_reaches.
Qed.

Lemma guarded_elem {A} (Φ : ∀ X, op X → Prop) (p : prog op A) tr a X (o : op X) x :
  guarded (λ _, Φ) [] p → trace_of p tr a → Ev o x ∈ tr → Φ X o.
Proof.
  intros Hp Htr (tr1 & tr2 & Heq)%list_elem_of_split.
  exact (guarded_trace _ _ _ _ _ Hp Htr _ _ _ _ _ Heq).
Qed.

(** What is guarded only if the trace so far is fine may rely on it. *)
Lemma guarded_assume {A} (F : trace op → Prop) (Q : ∀ X, op X → Prop) tr (p : prog op A) :
  (∀ tr e, F (tr ++ [e]) → F tr) →
  (F tr → guarded (λ tr X o, F tr → Q X o) tr p) → guarded (λ tr X o, F tr → Q X o) tr p.
Proof.
  intros HF. revert tr. induction p as [a|X o k IH]; intros tr Hp; [done|]. split.
  - intros Htr. by apply (Hp Htr).
  - intros x. apply IH. intros Htr%HF. by apply (Hp Htr).
Qed.

(** *** Lists of traces that get longer *)

Definition extends (trs trs' : list (trace op)) : Prop :=
  ∀ tr, tr ∈ trs → ∃ tr', tr ++ tr' ∈ trs'.

Lemma extends_new (trs : list (trace op)) : extends trs (trs ++ [[]]).
Proof. intros tr Htr. exists []. rewrite app_nil_r. apply elem_of_app. by left. Qed.

Lemma extends_insert (trs : list (trace op)) i tr l : trs !! i = Some tr → extends trs (<[i := tr ++ l]> trs).
Proof.
  intros Hi tr' [j Hj]%list_elem_of_lookup. destruct (decide (i = j)) as [<-|Hne].
  - rewrite Hj in Hi. injection Hi as ->. exists l.
    by eapply list_elem_of_lookup_2, list_lookup_insert_eq, lookup_lt_Some.
  - exists []. rewrite app_nil_r. apply (list_elem_of_lookup_2 _ j).
    by rewrite list_lookup_insert_ne.
Qed.

(** The traces after one more event. *)
Lemma elem_of_insert_trace (trs : list (trace op)) i tr tr' (e e' : event op) :
  trs !! i = Some tr → tr' ∈ <[i := tr ++ [e]]> trs → e' ∈ tr' →
  e' = e ∨ ∃ tr0, tr0 ∈ trs ∧ e' ∈ tr0.
Proof.
  intros Hi [j Hj]%list_elem_of_lookup He.
  apply list_lookup_insert_Some in Hj as [(_ & <- & _)|[_ Hj]].
  - apply elem_of_app in He as [He| ->%list_elem_of_singleton]; [right|by left].
    exists tr. split; [by eapply list_elem_of_lookup_2|done].
  - right. exists tr'. split; [by eapply list_elem_of_lookup_2|done].
Qed.

(** *** The number of operations *)

(** Whatever the answers, at most [n] operations. *)
Definition at_most {A} (n : nat) (p : prog op A) : Prop := yields (λ tr _, length tr ≤ n) p.

#[export] Instance at_most_proper {A} n : Proper ((≡) ==> iff) (at_most (A:=A) n).
Proof. intros p q Hpq. unfold at_most. by rewrite Hpq. Qed.

Lemma at_most_ret {A} n (a : A) : at_most n (mret a).
Proof. apply yields_ret. simpl. lia. Qed.

Lemma at_most_op {X} n (o : op X) : at_most (S n) (perform o).
Proof. apply yields_perform. intros x. simpl. lia. Qed.

Lemma at_most_bind {A B} n m (p : prog op A) (k : A → prog op B) :
  at_most n p → (∀ a, at_most m (k a)) → at_most (n + m) (p ≫= k).
Proof.
  intros Hp Hk. eapply yields_bind; [exact Hp|]. intros tr a Htr.
  eapply yields_weaken; [apply Hk|]. intros tr' b Htr'. rewrite length_app. simpl in *. lia.
Qed.

Lemma at_most_op_bind {X A} n (o : op X) (k : X → prog op A) :
  (∀ x, at_most n (k x)) → at_most (S n) (perform o ≫= k).
Proof. intros Hk. apply (at_most_bind 1); [apply at_most_op|exact Hk]. Qed.

Lemma at_most_weaken {A} n m (p : prog op A) : n ≤ m → at_most n p → at_most m p.
Proof. intros Hnm Hp. eapply yields_weaken; [exact Hp|]. simpl. lia. Qed.

Lemma at_most_forP {A B} n (l : list A) (acc : B) (body : A → B → prog op B) :
  (∀ x acc, at_most n (body x acc)) → at_most (n * length l) (forP l acc body).
Proof.
  intros Hbody. revert acc; induction l as [|x l IH]; intros acc; [apply at_most_ret|].
  simpl. apply (at_most_weaken (n + n * length l)); [lia|]. by apply at_most_bind.
Qed.
End Traces.

(** *** Translations *)

Section Hoist.
Context {op op' : Type → Type} (h : ∀ X, op X → op' X).

Definition hoist_event (e : event op) : event op' := let 'Ev o x := e in Ev (h _ o) x.

Lemma hoist_trace {A} (p : prog op A) tr a :
  trace_of (hoist h p) tr a ↔ ∃ tr', tr = hoist_event <$> tr' ∧ trace_of p tr' a.
Proof.
  revert tr; induction p as [b|X o k IH]; intros tr.
  - split; [by intros [-> ->]; exists []|]. by intros (tr' & -> & -> & ->).
  - split.
    + intros (x & tr' & -> & H). apply IH in H as (tr1 & -> & H).
      exists (Ev o x :: tr1). split; [done|]. by exists x, tr1.
    + intros (tr' & -> & x & tr1 & -> & H). exists x, (hoist_event <$> tr1).
      split; [done|]. apply IH. by exists tr1.
Qed.

(** A handler of the translated operations that does the same. *)
Lemma run_hoist {S A} (f : ∀ X, op' X → M S X) (p : prog op A) s :
  run f (hoist h p) s = run (λ X o, f X (h X o)) p s.
Proof.
  unfold run. revert s; induction p as [a|X o k IH]; intros s; [done|].
  exact (IH (f X (h X o) s).1 (f X (h X o) s).2).
Qed.

Lemma hoist_guarded {A} G G' tr0 tr (p : prog op A) :
  (∀ tr X (o : op X), G tr X o → G' (tr0 ++ (hoist_event <$> tr)) X (h X o)) →
  guarded G tr p → guarded G' (tr0 ++ (hoist_event <$> tr)) (hoist h p).
Proof.
  intros HG. revert tr; induction p as [a|X o k IH]; intros tr Hp; [done|].
  destruct Hp as [Ho Hp]. split; [by apply HG|]. intros x. rewrite <-(assoc_L (++)).
  specialize (IH x (tr ++ [Ev o x]) (Hp x)). by rewrite fmap_app in IH.
Qed.
End Hoist.

(** *** Weakest preconditions *)

Section WP.
Context {op : Type → Type} {S : Type}.
Context (h : ∀ X, op X → M S X) (others : S → S → Prop) (I : S → Prop).
Implicit Types s : S.

Abbreviation wp := (wp h others I).

Lemma wp_others {A} (p : prog op A) Q tr s s' : wp p Q tr s → rtc others s s' → wp p Q tr s'.
Proof.
  destruct p as [a|X o k]; intros Hp Hs s'' Hs''; apply Hp; by etrans.
Qed.

Lemma wp_ret {A} (a : A) Q tr s : (∀ s', rtc others s s' → Q tr a s') → wp (mret a) Q tr s.
Proof. done. Qed.

Lemma wp_bind {A B} (p : prog op A) (k : A → prog op B) Q tr s :
  wp p (λ tr a s, wp (k a) Q tr s) tr s → wp (p ≫= k) Q tr s.
Proof.
  revert tr s. induction p as [a|X o f IH]; intros tr s Hp; [by apply Hp, rtc_refl|].
  intros s' Hs. destruct (Hp s' Hs) as [HI Hk]. split; [exact HI|]. by apply IH.
Qed.

Lemma wp_perform {X} (o : op X) Q tr s :
  (∀ s', rtc others s s' → let r := h _ o s' in
    I r.2 ∧ ∀ s'', rtc others r.2 s'' → Q (tr ++ [Ev o r.1]) r.1 s'') →
  wp (perform o) Q tr s.
Proof. intros Ho. exact Ho. Qed.

Lemma wp_mono {A} (p : prog op A) (Q Q' : trace op → A → S → Prop) tr s :
  wp p Q tr s → (∀ tr a s, Q tr a s → Q' tr a s) → wp p Q' tr s.
Proof.
  intros Hp HQ. revert tr s Hp. induction p as [a|X o k IH]; intros tr s Hp s' Hs.
  - by apply HQ, Hp.
  - destruct (Hp s' Hs) as [HI Hk]. split; [exact HI|by apply IH].
Qed.

(** The end of a run, with its trace. *)
Lemma wp_trace {A} (p : prog op A) Q tr s :
  wp p Q tr s → wp p (λ tr' a s', Q tr' a s' ∧ ∃ tr1, tr' = tr ++ tr1 ∧ trace_of p tr1 a) tr s.
Proof.
  revert tr s. induction p as [a|X o k IH]; intros tr s Hp s' Hs.
  - split; [by apply Hp|]. exists []. by rewrite app_nil_r.
  - destruct (Hp s' Hs) as [HI Hk]. split; [exact HI|]. eapply wp_mono; [by apply IH|].
    intros tr' a s'' (HQ & tr1 & -> & Htr). split; [done|].
    exists (Ev o (h X o s').1 :: tr1). split; [by rewrite <-(assoc_L (++))|]. by eexists _, _.
Qed.

Lemma wp_sound {A} (p : prog op A) Q tr0 s tr a s' :
  wp p Q tr0 s → trace_of p tr a → replay h others tr s s' → Q (tr0 ++ tr) a s'.
Proof.
  revert tr0 s tr. induction p as [b|X o k IH]; intros tr0 s tr Hp Htr Hr.
  - destruct Htr as [-> ->]. rewrite app_nil_r. by apply Hp.
  - destruct Htr as (x & tr' & -> & Htr). destruct Hr as (s1 & Hs & <- & Hr).
    destruct (Hp s1 Hs) as [_ Hk].
    replace (tr0 ++ Ev o (h X o s1).1 :: tr') with ((tr0 ++ [Ev o (h X o s1).1]) ++ tr')
      by by rewrite <-(assoc_L (++)).
    by eapply IH.
Qed.

Lemma wp_forP {A B} (J : list A → B → trace op → S → Prop) (l : list A) (acc : B)
    (body : A → B → prog op B) tr s :
  (∀ s s' tr acc, J l acc tr s → rtc others s s' → J l acc tr s') →
  (∀ done x todo acc tr s, l = done ++ x :: todo → J done acc tr s →
    wp (body x acc) (λ tr' acc', J (done ++ [x]) acc' tr') tr s) →
  J [] acc tr s → wp (forP l acc body) (λ tr' acc', J l acc' tr') tr s.
Proof.
  intros Hst Hbody.
  assert (Hgen : ∀ todo done acc tr s, l = done ++ todo → J done acc tr s →
    wp (forP todo acc body) (λ tr' acc', J l acc' tr') tr s).
  { induction todo as [|x todo IH]; intros done acc' tr' s' Hl HJ.
    - rewrite app_nil_r in Hl. subst done. apply wp_ret. intros s'' Hs. by eapply Hst.
    - simpl. eapply wp_bind, wp_mono; [by eapply Hbody|]. intros tr1 acc1 s1 HJ1.
      eapply (IH (done ++ [x])); [by rewrite <-(assoc_L (++))|exact HJ1]. }
  by apply (Hgen l []).
Qed.

Lemma wp_forP_return {A B E} (J : list A → B → trace op → S → Prop)
    (X : E → trace op → S → Prop) (l : list A) (acc : B)
    (body : A → B → prog op (res E B)) tr s :
  (∀ s s' tr acc, J l acc tr s → rtc others s s' → J l acc tr s') →
  (∀ s s' tr e, X e tr s → rtc others s s' → X e tr s') →
  (∀ done x todo acc tr s, l = done ++ x :: todo → J done acc tr s →
    wp (body x acc) (λ tr' r s', match r with
      | Ok acc' => J (done ++ [x]) acc' tr' s'
      | Err e => X e tr' s'
      end) tr s) →
  J [] acc tr s →
  wp (forP_return l acc body) (λ tr' r s', match r with
    | Ok acc' => J l acc' tr' s'
    | Err e => X e tr' s'
    end) tr s.
Proof.
  intros HstJ HstX Hbody.
  assert (Hgen : ∀ todo done acc tr s, l = done ++ todo → J done acc tr s →
    wp (forP_return todo acc body) (λ tr' r s', match r with
      | Ok acc' => J l acc' tr' s' | Err e => X e tr' s' end) tr s).
  { induction todo as [|x todo IH]; intros done acc' tr' s' Hl HJ.
    - rewrite app_nil_r in Hl. subst done. apply wp_ret. intros s'' Hs. by eapply HstJ.
    - simpl. eapply wp_bind, wp_mono; [by eapply Hbody|]. intros tr1 [acc1|e] s1 HJ1.
      + eapply (IH (done ++ [x])); [by rewrite <-(assoc_L (++))|exact HJ1].
      + apply wp_ret. intros s'' Hs. by eapply HstX. }
  by apply (Hgen l []).
Qed.
End WP.

(** [guarded_step] decomposes a program down to its operations. *)
Ltac guarded_step :=
  lazymatch goal with
  | |- guarded _ _ (mret _) => exact I
  | |- guarded _ _ (perform _) => apply guarded_perform
  | |- guarded _ _ (_ ≫= _) => apply guarded_bind; [|intros ???]
  | |- guarded _ _ (forP _ _ _) => apply guarded_forP; intros ????
  | |- guarded _ _ (forP_return _ _ _) => apply guarded_forP_return; intros ????
  | |- guarded _ _ (if ?b then _ else _) => destruct b eqn:?
  | |- guarded _ _ (match ?x with _ => _ end) => destruct x eqn:?
  end.

(** [at_most_step] counts the operations of a program up to its next call of another. *)
Ltac at_most_step :=
  lazymatch goal with
  | |- at_most _ (mret _) => apply at_most_ret
  | |- at_most _ (mbind _ (perform _)) => apply at_most_op_bind; intros ?
  | |- at_most _ (perform _) => apply at_most_op
  | |- at_most _ (match ?x with _ => _ end) => destruct x eqn:?
  | |- at_most _ (if ?b then _ else _) => destruct b eqn:?
  end.

(** ** Pools *)

(** A job is a program to run and what its operations do to the shared state [S]; the
    environment may change the shared state by [interfere]. *)
Section Pools.
Context {op : Type → Type} {J S A : Type}.
Context (program : J → prog op A) (handle : J → ∀ X, op X → M S X).
Context (interfere : S → S → Prop).

(** A running job: what it did and what is left of its program. *)
Record thread := {
  th_job : J;
  th_trace : trace op;
  th_prog : prog op A;
}.

Record pool := {
  pool_shared : S;
  pool_threads : list thread;
}.

Definition start_thread (j : J) : thread :=
  {| th_job := j; th_trace := []; th_prog := program j |}.

(** One operation of one thread. *)
Inductive thread_step : pool → pool → Prop :=
| step_thread i t X (o : op X) k c :
    pool_threads c !! i = Some t → th_prog t = Do o k →
    thread_step c (let r := handle (th_job t) X o (pool_shared c) in {|
      pool_shared := r.2;
      pool_threads := <[i := {| th_job := th_job t; th_trace := th_trace t ++ [Ev o r.1];
                                th_prog := k r.1 |}]> (pool_threads c) |}).

Inductive pool_step : pool → pool → Prop :=
| step_run c c' : thread_step c c' → pool_step c c'
| step_spawn j c : pool_step c {| pool_shared := pool_shared c;
                                  pool_threads := pool_threads c ++ [start_thread j] |}
| step_interfere s c : interfere (pool_shared c) s →
    pool_step c {| pool_shared := s; pool_threads := pool_threads c |}.

(** What the threads did is what their programs do. *)
Definition threads_ok (c : pool) : Prop :=
  ∀ i t, pool_threads c !! i = Some t → reaches (program (th_job t)) (th_trace t) (th_prog t).

Lemma threads_ok_step c c' : threads_ok c → pool_step c c' → threads_ok c'.
Proof.
  intros Hok Hstep. destruct Hstep as [c c' Hstep|j c|s c _].
  - destruct Hstep as [i t X o k c Hi Hk]. intros n t' Ht. cbn [pool_threads] in Ht.
    apply list_lookup_insert_Some in Ht as [(-> & <- & _)|[_ Ht]]; [|by eapply Hok].
    simpl. apply reaches_step. rewrite <-Hk. by eapply Hok.
  - intros n t' Ht. apply lookup_app_Some in Ht as [Ht|[_ Ht]]; [by eapply Hok|].
    apply list_lookup_singleton_Some in Ht as [_ <-]. apply reaches_refl.
  - exact Hok.
Qed.

Lemma pool_threads_ok s c :
  rtc pool_step {| pool_shared := s; pool_threads := [] |} c → threads_ok c.
Proof. intros Hr. eapply rtc_invariant; [apply threads_ok_step|done|]. by intros i t Ht. Qed.

(** An invariant of the shared state and the traces of the threads. Each operation may rely
    on what justifies it in the trace of its own thread. *)
Lemma pool_trace_invariant (G : trace op → ∀ X, op X → Prop) (I : S → list (trace op) → Prop) s c :
  (∀ j, guarded G [] (program j)) →
  (∀ j s trs i tr X (o : op X), I s trs → trs !! i = Some tr → G tr X o →
    I (handle j X o s).2 (<[i := tr ++ [Ev o (handle j X o s).1]]> trs)) →
  (∀ s trs, I s trs → I s (trs ++ [[]])) →
  (∀ s s' trs, I s trs → interfere s s' → I s' trs) →
  I s [] → rtc pool_step {| pool_shared := s; pool_threads := [] |} c →
  I (pool_shared c) (th_trace <$> pool_threads c).
Proof.
  intros Hprog Hop Hnew Henv Hs Hr.
  cut (threads_ok c ∧ I (pool_shared c) (th_trace <$> pool_threads c)); [tauto|].
  refine (rtc_invariant _ (λ c, threads_ok c ∧ I (pool_shared c) (th_trace <$> pool_threads c))
    _ _ _ Hr _); [|by split; [intros i t|]].
  intros c1 c2 [Hth HI] Hstep. split; [by eapply threads_ok_step|].
  destruct Hstep as [c1 c2 Hstep|j c1|s' c1 Hs']; simpl.
  - destruct Hstep as [i t X o k c1 Hi Hk]. simpl. rewrite list_fmap_insert. apply Hop; [done|by rewrite list_lookup_fmap, Hi|].
    apply (guarded_reaches G [] (th_trace t) (program (th_job t)) o k); [apply Hprog|].
    rewrite <-Hk. by apply (Hth i).
  - rewrite fmap_app. by apply Hnew.
  - by eapply Henv.
Qed.

(** *** Schedules: running threads in a given order *)

Definition step_at (c : pool) (i : nat) : pool :=
  match pool_threads c !! i with
  | Some t => match th_prog t with
      | Ret _ => c
      | Do o k =>
          let r := handle (th_job t) _ o (pool_shared c) in
          {| pool_shared := r.2;
             pool_threads := <[i := {| th_job := th_job t; th_trace := th_trace t ++ [Ev o r.1];
                                       th_prog := k r.1 |}]> (pool_threads c) |}
      end
  | None => c
  end.

Definition schedule (order : list nat) (c : pool) : pool := foldl step_at c order.

Lemma schedule_steps order c : rtc pool_step c (schedule order c).
Proof.
  revert c; induction order as [|i order IH]; intros c; [apply rtc_refl|].
  simpl. etrans; [|apply IH]. unfold step_at.
  destruct (pool_threads c !! i) as [t|] eqn:Hi; [|apply rtc_refl].
  destruct (th_prog t) as [a|X o k] eqn:Hp; [apply rtc_refl|].
  apply rtc_once, step_run. exact (step_thread i t X o k c Hi Hp).
Qed.

Definition spawn (js : list J) (c : pool) : pool :=
  {| pool_shared := pool_shared c; pool_threads := pool_threads c ++ (start_thread <$> js) |}.

Lemma spawn_steps js c : rtc pool_step c (spawn js c).
Proof.
  unfold spawn. revert c; induction js as [|j js IH]; intros c.
  { rewrite app_nil_r. destruct c. apply rtc_refl. }
  eapply rtc_l; [apply (step_spawn j c)|].
  specialize (IH {| pool_shared := pool_shared c;
    pool_threads := pool_threads c ++ [start_thread j] |}).
  simpl in IH. by rewrite <-(assoc_L (++)) in IH.
Qed.

(** *** Termination and progress *)

(** The programs of the threads, one of which has done one operation. *)
Definition progs_step (ps' ps : list (prog op A)) : Prop :=
  ∃ i X (o : op X) k x, ps !! i = Some (Do o k) ∧ ps' = <[i := k x]> ps.

Lemma progs_step_wf : well_founded progs_step.
Proof.
  intros ps. induction ps as [|p ps IHps].
  { constructor. intros ps' (i & X & o & k & x & Hi & _). done. }
  revert ps IHps. induction p as [a|X o k IHp]; intros ps Hps.
  - induction Hps as [ps _ IH]. constructor. intros ps' (i & Y & o & k & y & Hi & ->).
    destruct i as [|i]; [done|]. simpl in *. apply IH. by exists i, Y, o, k, y.
  - induction Hps as [ps Hps IH]. constructor. intros ps' (i & Y & o' & k' & y & Hi & ->).
    destruct i as [|i].
    + simpl in Hi. assert (Hk : ∃ x, k' y = k x).
      { change (match Do o k with Ret _ => False | Do _ f => ∃ x, k' y = f x end).
        apply (inj Some) in Hi. rewrite Hi. by exists y. }
      destruct Hk as [x Hk]. simpl. rewrite Hk. apply IHp. by constructor.
    + simpl in *. apply IH. by exists i, Y, o', k', y.
Qed.

(** A step of a thread, after whatever the environment did. *)
Definition turn (c c' : pool) : Prop :=
  ∃ s, rtc interfere (pool_shared c) s ∧
    thread_step {| pool_shared := s; pool_threads := pool_threads c |} c'.

(** The threads of a pool do finitely many operations, however they are interleaved,
    whatever the environment does in between and whatever answers they get. *)
Lemma turn_wf : well_founded (flip turn).
Proof.
  intros c. remember (th_prog <$> pool_threads c) as ps eqn:Hps. revert c Hps.
  induction (progs_step_wf ps) as [ps _ IH]. intros c ->. constructor.
  intros c' (s & _ & Hstep). remember {| pool_shared := s; pool_threads := pool_threads c |}
    as c1 eqn:Hc1. assert (Hth : pool_threads c1 = pool_threads c) by by rewrite Hc1.
  rewrite <-Hth in IH. clear Hc1 Hth. destruct Hstep as [i t X o k c1 Hi Hk].
  eapply IH; [|reflexivity].
  exists i, X, o, k, (handle (th_job t) X o (pool_shared c1)).1. split.
  - by rewrite list_lookup_fmap, Hi, <-Hk.
  - simpl. by rewrite list_fmap_insert.
Qed.

(** A turn starts no job and forgets none. *)
Lemma turn_jobs c c' :
  turn c c' → th_job <$> pool_threads c' = th_job <$> pool_threads c.
Proof.
  intros (s & _ & Hstep). inversion Hstep as [i t X o k c1 Hi Hk Hc1 Hc']; subst; simpl in *.
  rewrite list_fmap_insert. apply list_insert_id. by rewrite list_lookup_fmap, Hi.
Qed.

Lemma turn_threads_ok c c' : threads_ok c → turn c c' → threads_ok c'.
Proof.
  intros Hok (s & _ & Hstep). eapply threads_ok_step; [|by apply step_run]. exact Hok.
Qed.

(** If a thread has not finished, there is a turn. *)
Lemma turn_progress c :
  (∀ i t, pool_threads c !! i = Some t → ∃ a, th_prog t = Ret a) ∨ ∃ c', turn c c'.
Proof.
  assert (Hdec : (∀ t, t ∈ pool_threads c → ∃ a, th_prog t = Ret a) ∨
    ∃ t X (o : op X) k, t ∈ pool_threads c ∧ th_prog t = Do o k).
  { induction (pool_threads c) as [|t l IH]; [left; by intros t ?%elem_of_nil|].
    destruct (th_prog t) as [a|X o k] eqn:Hp; [|right; exists t, X, o, k; split; [by left|done]].
    destruct IH as [IH|(t' & X & o & k & Ht & Hk)].
    - left. intros t' [->|Ht]%elem_of_cons; eauto.
    - right. exists t', X, o, k. split; [by right|done]. }
  destruct Hdec as [Hdone|(t & X & o & k & Ht & Hk)]; [left|right].
  - intros i t Hi. apply Hdone. by eapply list_elem_of_lookup_2.
  - apply list_elem_of_lookup in Ht as [i Hi]. eexists _, (pool_shared c).
    split; [apply rtc_refl|]. by eapply (step_thread i t X o k
      {| pool_shared := pool_shared c; pool_threads := pool_threads c |}).
Qed.
End Pools.

(** ** Eventually

    Every way to go on comes to a state with [P]. *)
Inductive eventually {C : Type} (R : C → C → Prop) (P : C → Prop) (c : C) : Prop :=
| eventually_now : P c → eventually R P c
| eventually_later : (∃ c', R c c') → (∀ c', R c c' → eventually R P c') → eventually R P c.

(** With finitely many steps, an invariant that lets no state be stuck before [P] leads
    there. *)
Lemma eventually_wf {C} (R : C → C → Prop) (I P : C → Prop) :
  well_founded (flip R) → (∀ c c', I c → R c c' → I c') →
  (∀ c, I c → P c ∨ ∃ c', R c c') → ∀ c, I c → eventually R P c.
Proof.
  intros Hwf Hinv Hstuck c. induction (Hwf c) as [c _ IH]. intros Hc.
  destruct (Hstuck c Hc) as [HP|Hex]; [by apply eventually_now|].
  apply eventually_later; [done|]. intros c' Hc'. apply IH; [done|]. by eapply Hinv.
Qed.
