(* ===== verification/GoStrings.v ===== *)
(** * The functions of Go's packages [strings], [slices] and [net/url] that the
    program calls, on byte strings ([string] is a sequence of bytes, as in Go). *)

From stdpp Require Import base list strings.
From Stdlib Require Import Ascii.
From S2P Require Import Prelude.

(** [strings.Contains(s, substr)]. *)
Fixpoint Contains (s substr : string) : bool :=
  String.prefix substr s ||
  match s with
  | EmptyString => false
  | String _ s' => Contains s' substr
  end.

(** [strings.HasSuffix(s, suffix)]:
    [len(s) >= len(suffix) && s[len(s)-len(suffix):] == suffix]. *)
Definition HasSuffix (s suffix : string) : bool :=
  (String.length suffix <=? String.length s)%nat &&
  bool_decide (String.substring (String.length s - String.length suffix)
                 (String.length suffix) s = suffix).

(** [strings.Split(s, sep)] for a separator of one byte (the only kind used). *)
Fixpoint Split (sep : ascii) (s : string) : list string :=
  match s with
  | EmptyString => [""]
  | String a s' =>
      if Ascii.eqb a sep then "" :: Split sep s'
      else match Split sep s' with
           | [] => [String a ""]
           | h :: t => String a h :: t
           end
  end.

(** [strings.Join(elems, sep)]. *)
Fixpoint Join (sep : ascii) (l : list string) : string :=
  match l with
  | [] => ""
  | [x] => x
  | x :: l' => x +:+ String sep (Join sep l')
  end.

(** [strings.ReplaceAll(s, old, new)] for [old], [new] of one byte. *)
Fixpoint ReplaceAll (old new : ascii) (s : string) : string :=
  match s with
  | EmptyString => ""
  | String a s' => String (if Ascii.eqb a old then new else a) (ReplaceAll old new s')
  end.

(** [slices.Contains]. *)
Definition slices_Contains (l : list string) (x : string) : bool := bool_decide (x ∈ l).

(** Does the byte [c] occur in [s]? *)
Fixpoint has_byte (c : ascii) (s : string) : bool :=
  match s with
  | EmptyString => false
  | String a s' => Ascii.eqb a c || has_byte c s'
  end.

(** ** Lemmas *)

#[local] Arguments String.append : simpl nomatch.

Create Rewrite HintDb gostrings.

Lemma str_app_nil_r s : s +:+ "" = s.
Proof. induction s as [|a s IH]; simpl; [done|]. by rewrite IH. Qed.

Lemma str_app_assoc (a b c : string) : a +:+ (b +:+ c) = (a +:+ b) +:+ c.
Proof. induction a as [|x a IH]; simpl; [done|]. by rewrite IH. Qed.

Lemma str_length_app a b : String.length (a +:+ b) = String.length a + String.length b.
Proof. induction a as [|x a IH]; simpl; [done|]. by rewrite IH. Qed.

Lemma str_app_cons a s t : String a s +:+ t = String a (s +:+ t).
Proof. done. Qed.

Lemma str_app_inv_head (a b c : string) : a +:+ b = a +:+ c → b = c.
Proof. induction a as [|x a IH]; simpl; [done|]. intros [=]. auto. Qed.

Lemma str_app_inv_length (a b c d : string) :
  String.length a = String.length c → a +:+ b = c +:+ d → a = c ∧ b = d.
Proof.
  revert c; induction a as [|x a IH]; intros [|y c]; simpl; intros Hl H; try done.
  injection H as -> H. destruct (IH c) as [-> ->]; auto.
Qed.

Lemma str_app_inv_tail (a b c : string) : a +:+ c = b +:+ c → a = b.
Proof.
  intros H. assert (Hl := f_equal String.length H).
  rewrite !str_length_app in Hl. by apply str_app_inv_length in H as [-> _]; [|lia].
Qed.

Lemma prefix_spec p s : String.prefix p s = true ↔ ∃ t, s = p +:+ t.
Proof.
  revert s; induction p as [|a p IH]; intros s; simpl.
  - split; [eauto|]. by destruct s.
  - destruct s as [|b s]; simpl.
    + split; [done|]. by intros [t [=]].
    + destruct (ascii_dec a b) as [->|Hne].
      * rewrite IH. split; intros [t H]; exists t; [by rewrite H|by injection H].
      * split; [done|]. intros [t [=]]. congruence.
Qed.

Lemma Contains_spec s sub : Contains s sub = true ↔ ∃ a b, s = a +:+ sub +:+ b.
Proof.
  induction s as [|x s IH]; cbn [Contains].
  - rewrite orb_false_r, prefix_spec. split.
    + intros [t Ht]. by exists "", t.
    + intros (a & b & H). destruct a; [|done]. by exists b.
  - rewrite orb_true_iff, IH, prefix_spec. split.
    + intros [[t ->]|(a & b & ->)]; [by exists "", t|by exists (String x a), b].
    + intros ([|y a] & b & H); [left; eauto|]. right. injection H as -> H. eauto.
Qed.

Lemma substring_full s : String.substring 0 (String.length s) s = s.
Proof. induction s as [|a s IH]; simpl; [done|]. by rewrite IH. Qed.

Lemma substring_tail p s :
  String.substring (String.length p) (String.length s) (p +:+ s) = s.
Proof. induction p as [|a p IH]; simpl; [apply substring_full|done]. Qed.

Lemma substring_split n s :
  (n ≤ String.length s)%nat →
  ∃ p, s = p +:+ String.substring n (String.length s - n) s ∧ String.length p = n.
Proof.
  revert n; induction s as [|a s IH]; intros [|n] Hn; cbn [String.length] in *.
  - by exists "".
  - lia.
  - exists "". cbn. by rewrite substring_full.
  - destruct (IH n) as (p & Hp & Hl); [lia|]. exists (String a p).
    cbn. by rewrite Hl, <-Hp.
Qed.

Lemma substring_take n s :
  (n ≤ String.length s)%nat →
  ∃ rest, s = String.substring 0 n s +:+ rest ∧ String.length (String.substring 0 n s) = n.
Proof.
  revert n; induction s as [|a s IH]; intros [|n] Hn; cbn in *; try lia; [by exists ""|by eexists|].
  destruct (IH n) as (rest & Hs & Hl); [lia|]. exists rest. rewrite Hl. by rewrite <-Hs.
Qed.

Lemma HasSuffix_spec s suf : HasSuffix s suf = true ↔ ∃ p, s = p +:+ suf.
Proof.
  unfold HasSuffix. rewrite andb_true_iff, Nat.leb_le, bool_decide_eq_true. split.
  - intros [Hle Hs]. destruct (substring_split (String.length s - String.length suf) s)
      as (p & Hp & _); [lia|].
    replace (String.length s - (String.length s - String.length suf))%nat
      with (String.length suf) in Hp by lia.
    rewrite Hs in Hp. by exists p.
  - intros [p ->]. rewrite str_length_app. split; [lia|].
    replace (String.length p + String.length suf - String.length suf)%nat
      with (String.length p) by lia.
    apply substring_tail.
Qed.

Lemma HasSuffix_app p s : HasSuffix (p +:+ s) s = true.
Proof. apply HasSuffix_spec. eauto. Qed.

Lemma HasSuffix_refl s : HasSuffix s s = true.
Proof. apply HasSuffix_spec. by exists "". Qed.

Lemma HasSuffix_trans s t u :
  HasSuffix s t = true → HasSuffix t u = true → HasSuffix s u = true.
Proof.
  rewrite !HasSuffix_spec. intros [p ->] [q ->]. exists (p +:+ q). apply str_app_assoc.
Qed.

(** A string of one byte is contained iff the byte occurs. *)
Lemma Contains_byte s c : Contains s (String c "") = has_byte c s.
Proof.
  induction s as [|a s IH]; cbn [Contains has_byte]; [done|]. rewrite IH. f_equal.
  cbn. destruct (ascii_dec c a) as [->|Hne].
  - rewrite Ascii.eqb_refl. by destruct s.
  - symmetry. apply Ascii.eqb_neq. congruence.
Qed.

Lemma has_byte_app c s t : has_byte c (s +:+ t) = has_byte c s || has_byte c t.
Proof. induction s as [|a s IH]; simpl; [done|]. by rewrite IH, orb_assoc. Qed.

#[export] Hint Rewrite has_byte_app orb_false_r str_app_nil_r str_length_app : gostrings.

(** ** Split and Join *)

Lemma Split_not_nil c s : Split c s ≠ [].
Proof. destruct s as [|a s]; simpl; [done|]. destruct (Ascii.eqb a c), (Split c s); done. Qed.

Lemma Split_free c s : has_byte c s = false → Split c s = [s].
Proof.
  induction s as [|a s IH]; simpl; [done|]. rewrite orb_false_iff.
  intros [Ha Hs]. by rewrite Ha, IH.
Qed.

Lemma Split_app c s t : Split c (s +:+ String c t) =
  match Split c s with
  | [] => Split c t
  | l => l ++ Split c t
  end.
Proof.
  induction s as [|a s IH].
  - simpl. by rewrite Ascii.eqb_refl.
  - cbn. rewrite IH. destruct (Ascii.eqb a c) eqn:Ha.
    + destruct (Split c s) eqn:Hs; [by apply Split_not_nil in Hs|done].
    + destruct (Split c s) eqn:Hs; [by apply Split_not_nil in Hs|done].
Qed.

Lemma Split_cons c s t : has_byte c s = false → Split c (s +:+ String c t) = s :: Split c t.
Proof. intros Hs. by rewrite Split_app, Split_free. Qed.

Lemma Join_Split c s : Join c (Split c s) = s.
Proof.
  induction s as [|a s IH]; [done|]. cbn [Split]. destruct (Ascii.eqb a c) eqn:Ha.
  - apply Ascii.eqb_eq in Ha as ->. cbn.
    destruct (Split c s) eqn:Hs; [by apply Split_not_nil in Hs|]. by rewrite IH.
  - destruct (Split c s) as [|h t] eqn:Hs; [by apply Split_not_nil in Hs|].
    destruct t as [|h' t]; cbn in *; by rewrite IH.
Qed.

Lemma Split_pieces_free c s : Forall (λ p, has_byte c p = false) (Split c s).
Proof.
  induction s as [|a s IH]; cbn; [by repeat constructor|].
  destruct (Ascii.eqb a c) eqn:Ha; [by constructor|].
  destruct (Split c s) as [|h t]; [by repeat constructor; cbn; rewrite Ha|].
  inversion IH; subst. constructor; [|done]. cbn. by rewrite Ha.
Qed.

Lemma Split_Join c l :
  l ≠ [] → Forall (λ p, has_byte c p = false) l → Split c (Join c l) = l.
Proof.
  intros Hl Hf. induction Hf as [|x l Hx Hf IH]; [done|].
  destruct l as [|y l]; [by apply Split_free|].
  change (Join c (x :: y :: l)) with (x +:+ String c (Join c (y :: l))).
  rewrite Split_cons by done. by rewrite IH.
Qed.

(** ** Prefix-free concatenation *)

(** Two strings written as a separator-free piece, the separator and a rest are equal
    only if the pieces are. *)
Lemma sep_inj c a b s t :
  has_byte c a = false → has_byte c b = false →
  a +:+ String c s = b +:+ String c t → a = b ∧ s = t.
Proof.
  intros Ha Hb H. assert (Hs := f_equal (Split c) H).
  rewrite !Split_cons in Hs by done. injection Hs as -> _.
  split; [done|]. apply str_app_inv_head in H. by injection H.
Qed.
