(* ===== verification/GoURL.v ===== *)
(** * The functions of Go's packages [net/url], [strings] (trimming) and
    [path/filepath] that the program calls. *)

From stdpp Require Import base list strings.
From Stdlib Require Import Ascii.
From S2P Require Import Prelude GoStrings.

#[local] Arguments String.append : simpl nomatch.

(** ** Percent-encoding ([url.PathEscape], [url.QueryEscape]) *)

Definition in_range (lo hi c : ascii) : bool :=
  (nat_of_ascii lo <=? nat_of_ascii c)%nat && (nat_of_ascii c <=? nat_of_ascii hi)%nat.

(** RFC 3986's unreserved characters. *)
Definition unreserved (c : ascii) : bool :=
  in_range "a" "z" c || in_range "A" "Z" c || in_range "0" "9" c ||
  has_byte c "-_.~".

(** [!shouldEscape(c, encodePathSegment)]: of the reserved characters a path segment
    keeps "$&+:=@" and escapes "/;,?". *)
Definition path_segment_plain (c : ascii) : bool := unreserved c || has_byte c "$&+:=@".

Definition upperhex (n : nat) : ascii :=
  default "0"%char (String.get n "0123456789ABCDEF").

Fixpoint escape (plain : ascii → bool) (s : string) : string :=
  match s with
  | EmptyString => ""
  | String c s' =>
      if plain c then String c (escape plain s')
      else String "%" (String (upperhex (nat_of_ascii c / 16))
             (String (upperhex (nat_of_ascii c mod 16)) (escape plain s')))
  end.

Definition PathEscape : string → string := escape path_segment_plain.

(** [url.QueryEscape]: only the unreserved characters are kept and a space becomes "+"
    (the program only encodes the constant list of fields, which has no space). *)
Fixpoint QueryEscape (s : string) : string :=
  match s with
  | EmptyString => ""
  | String c s' =>
      (if unreserved c then String c ""
       else if Ascii.eqb c " " then "+"
       else String "%" (String (upperhex (nat_of_ascii c / 16))
              (String (upperhex (nat_of_ascii c mod 16)) ""))) +:+ QueryEscape s'
  end.

(** [url.Values{k: {v}}.Encode()]. *)
Definition Values_Encode1 (k v : string) : string := QueryEscape k +:+ "=" +:+ QueryEscape v.

(** The decoder of the receiving side ([url.PathUnescape]); [None] is its
    [EscapeError]. *)
Definition unhex (c : ascii) : option nat :=
  if in_range "0" "9" c then Some (nat_of_ascii c - nat_of_ascii "0")
  else if in_range "a" "f" c then Some (nat_of_ascii c - nat_of_ascii "a" + 10)
  else if in_range "A" "F" c then Some (nat_of_ascii c - nat_of_ascii "A" + 10)
  else None.

Fixpoint PathUnescape (s : string) : option string :=
  match s with
  | EmptyString => Some ""
  | String c s' =>
      if Ascii.eqb c "%" then
        match s' with
        | String h (String l s'') =>
            match unhex h, unhex l with
            | Some h, Some l => String (ascii_of_nat (16 * h + l)) <$> PathUnescape s''
            | _, _ => None
            end
        | _ => None
        end
      else String c <$> PathUnescape s'
  end.

(** Every byte is either kept or replaced by two digits that decode to it. *)
Lemma hex_digits_decode (c : ascii) :
  unhex (upperhex (nat_of_ascii c / 16)) = Some (nat_of_ascii c / 16) ∧
  unhex (upperhex (nat_of_ascii c mod 16)) = Some (nat_of_ascii c mod 16).
Proof. by destruct c as [[] [] [] [] [] [] [] []]; vm_compute. Qed.

Lemma ascii_hex_eta (c : ascii) :
  ascii_of_nat (16 * (nat_of_ascii c / 16) + nat_of_ascii c mod 16) = c.
Proof. by rewrite <-Nat.div_mod_eq, ascii_nat_embedding. Qed.

Lemma PathUnescape_PathEscape s : PathUnescape (PathEscape s) = Some s.
Proof.
  unfold PathEscape. induction s as [|c s IH]; [done|].
  cbn [escape]. destruct (path_segment_plain c) eqn:Hc.
  - cbn [PathUnescape]. rewrite IH.
    destruct (Ascii.eqb c "%") eqn:Hp; [|done].
    apply Ascii.eqb_eq in Hp as ->. by vm_compute in Hc.
  - cbn [PathUnescape]. rewrite Ascii.eqb_refl.
    destruct (hex_digits_decode c) as [-> ->]. rewrite IH. cbn [fmap option_fmap option_map].
    by rewrite ascii_hex_eta.
Qed.

#[export] Instance PathEscape_inj : Inj (=) (=) PathEscape.
Proof.
  intros s t H. apply (f_equal PathUnescape) in H.
  rewrite !PathUnescape_PathEscape in H. by injection H.
Qed.

(** A byte that is not kept and is neither "%" nor a hexadecimal digit does not occur in
    an escaped string. *)
Lemma escape_free plain d s :
  plain d = false → Ascii.eqb "%" d = false →
  (∀ n : nat, Ascii.eqb (upperhex n) d = false) →
  has_byte d (escape plain s) = false.
Proof.
  intros Hd Hp Hx. induction s as [|c s IH]; [done|]. cbn [escape].
  destruct (plain c) eqn:Hc; cbn [has_byte].
  - rewrite IH, orb_false_r. apply Ascii.eqb_neq. intros ->. congruence.
  - by rewrite Hp, !Hx, IH.
Qed.

Lemma upperhex_cases n (P : ascii → Prop) :
  P "0"%char → (∀ m, m < 16 → P (upperhex m)) → P (upperhex n).
Proof.
  intros H0 H. destruct (decide (n < 16)) as [Hn|Hn]; [by apply H|].
  unfold upperhex. replace (String.get n "0123456789ABCDEF") with (@None ascii); [done|].
  do 16 (destruct n as [|n]; [lia|]). by destruct n.
Qed.

Lemma PathEscape_free d s :
  d ∈ ["/"; "?"; "#"; ";"; ","; " "]%char → has_byte d (PathEscape s) = false.
Proof.
  intros Hd. apply escape_free.
  - by repeat (apply elem_of_cons in Hd as [->|Hd]; [done|]); apply elem_of_nil in Hd.
  - by repeat (apply elem_of_cons in Hd as [->|Hd]; [done|]); apply elem_of_nil in Hd.
  - intros n. apply upperhex_cases.
    + by repeat (apply elem_of_cons in Hd as [->|Hd]; [done|]); apply elem_of_nil in Hd.
    + intros m Hm.
      do 16 (destruct m as [|m];
        [by repeat (apply elem_of_cons in Hd as [->|Hd]; [done|]); apply elem_of_nil in Hd|]).
      lia.
Qed.

(** ** [strings.TrimSpace] *)

(** The UTF-8 encodings of the code points [unicode.IsSpace] accepts. *)
Definition space_runes : list string :=
  let s l := fold_right (λ n, String (ascii_of_nat n)) "" l in
  [ s [9]; s [10]; s [11]; s [12]; s [13]; s [32]; s [194; 133]; s [194; 160];
    s [225; 154; 128]; s [226; 128; 128]; s [226; 128; 129]; s [226; 128; 130];
    s [226; 128; 131]; s [226; 128; 132]; s [226; 128; 133]; s [226; 128; 134];
    s [226; 128; 135]; s [226; 128; 136]; s [226; 128; 137]; s [226; 128; 138];
    s [226; 128; 168]; s [226; 128; 169]; s [226; 128; 175]; s [226; 129; 159];
    s [227; 128; 128] ].

Fixpoint drop_bytes (n : nat) (s : string) : string :=
  match n, s with
  | S n, String _ s => drop_bytes n s
  | _, _ => s
  end.

(** One leading (trailing) space removed, if there is one. *)
Definition trim_left1 (s : string) : option string :=
  r ← list_find (λ r, String.prefix r s = true) space_runes;
  Some (drop_bytes (String.length r.2) s).

Definition trim_right1 (s : string) : option string :=
  r ← list_find (λ r, HasSuffix s r = true) space_runes;
  Some (String.substring 0 (String.length s - String.length r.2) s).

(** Each step removes at least one byte, so the length of the string is enough fuel. *)
Fixpoint trim (step : string → option string) (fuel : nat) (s : string) : string :=
  match fuel with
  | O => s
  | S fuel => match step s with Some s' => trim step fuel s' | None => s end
  end.

Definition TrimSpace (s : string) : string :=
  let l := trim trim_left1 (String.length s) s in
  trim trim_right1 (String.length l) l.

Example TrimSpace_ex : TrimSpace "  plain text
" = "plain text".
Proof. vm_compute. done. Qed.

(** ** [filepath.Join] on Unix *)

(** One path element against the stack of the elements kept so far (innermost first). *)
Definition clean_step (rooted : bool) (stack : list string) (e : string) : list string :=
  if bool_decide (e = "") || bool_decide (e = ".") then stack
  else if bool_decide (e = "..") then
    match stack with
    | top :: stack' => if bool_decide (top = "..") then e :: stack else stack'
    | [] => if rooted then [] else [e]
    end
  else e :: stack.

(** [filepath.Clean]. *)
Definition Clean (path : string) : string :=
  let rooted := String.prefix "/" path in
  let out := Join "/" (reverse (foldl (clean_step rooted) [] (Split "/" path))) in
  if bool_decide (path = "") then "."
  else if rooted then "/" +:+ out
  else if bool_decide (out = "") then "." else out.

(** [filepath.Join]: the elements from the first non-empty one on, joined and cleaned. *)
Fixpoint filepath_Join (elem : list string) : string :=
  match elem with
  | [] => ""
  | e :: rest => if bool_decide (e = "") then filepath_Join rest else Clean (Join "/" elem)
  end.

(** A path element that [Clean] keeps. *)
Definition plain_elem (e : string) : Prop :=
  e ≠ "" ∧ e ≠ "." ∧ e ≠ ".." ∧ has_byte "/" e = false.

#[export] Instance plain_elem_dec e : Decision (plain_elem e).
Proof. unfold plain_elem. apply _. Defined.

Lemma clean_step_plain rooted stack e :
  plain_elem e → clean_step rooted stack e = e :: stack.
Proof.
  intros (H1 & H2 & H3 & _). unfold clean_step.
  by rewrite !bool_decide_eq_false_2.
Qed.

Lemma foldl_clean_plain rooted stack l :
  Forall plain_elem l → foldl (clean_step rooted) stack l = reverse l ++ stack.
Proof.
  intros Hl. revert stack. induction Hl as [|e l He Hl IH]; intros stack; [done|].
  cbn [foldl]. rewrite clean_step_plain, IH by done.
  by rewrite reverse_cons, <-(assoc_L (++)).
Qed.

Lemma plain_not_rooted e s : plain_elem e → String.prefix "/" (e +:+ s) = false.
Proof.
  intros (H1 & _ & _ & H4). apply not_true_is_false. intros [t Ht]%prefix_spec.
  destruct e as [|a e]; [done|]. cbn in Ht. injection Ht as -> _. by cbn in H4.
Qed.

Lemma Join_cons_plain c e l : ∃ s, Join c (e :: l) = e +:+ s.
Proof. destruct l; [exists ""; by rewrite str_app_nil_r|eexists; done]. Qed.

(** On elements that need no cleaning, [filepath.Join] is plain concatenation. *)
Lemma filepath_Join_plain l :
  l ≠ [] → Forall plain_elem l → filepath_Join l = Join "/" l.
Proof.
  intros Hne Hl. destruct l as [|e l]; [done|]. clear Hne.
  assert (He : plain_elem e) by by inversion Hl.
  cbn [filepath_Join]. rewrite bool_decide_eq_false_2 by by destruct He.
  unfold Clean. destruct (Join_cons_plain "/" e l) as [s Hs].
  rewrite Split_Join; [|done|eapply Forall_impl; [done|by intros ? (?&?&?&?)]].
  rewrite foldl_clean_plain, app_nil_r, reverse_involutive by done.
  rewrite Hs, plain_not_rooted by done.
  assert (e +:+ s ≠ "") by by destruct He, e.
  by rewrite !bool_decide_eq_false_2.
Qed.
