(* ===== verification/GoBase64.v ===== *)
(** * Go's [encoding/base64] ([base64.StdEncoding]), as used to read the cluster CA
    certificate: decoding, and encoding as the reference it is proved against. *)

From stdpp Require Import base list strings.
From Stdlib Require Import Ascii.
From S2P Require Import Prelude GoStrings.

#[local] Arguments String.append : simpl nomatch.

Definition alphabet : string :=
  "ABCDEFGHIJKLMNOPQRSTUVWXYZabcdefghijklmnopqrstuvwxyz0123456789+/".

Definition enc6 (n : nat) : ascii := default "A"%char (String.get n alphabet).

Definition dec6_from (c : ascii) : nat → string → option nat :=
  fix go n s :=
    match s with
    | EmptyString => None
    | String a s' => if Ascii.eqb a c then Some n else go (S n) s'
    end.
Definition dec6 (c : ascii) : option nat := dec6_from c 0 alphabet.

(** [DecodeString] skips line breaks wherever they occur. *)
Fixpoint strip_newlines (s : string) : string :=
  match s with
  | EmptyString => ""
  | String a s' =>
      if Ascii.eqb a (ascii_of_nat 10) || Ascii.eqb a (ascii_of_nat 13)
      then strip_newlines s' else String a (strip_newlines s')
  end.

Definition byte (n : nat) : ascii := ascii_of_nat (n mod 256).

(** One quantum of four characters. Not in strict mode: the bits a padded quantum does
    not use are ignored. *)
Definition quantum3 (a b c d : nat) (rest : string) : string :=
  String (byte (a * 4 + b / 16))
    (String (byte (b mod 16 * 16 + c / 4)) (String (byte (c mod 4 * 64 + d)) rest)).

Fixpoint decode_quanta (s : string) : option string :=
  match s with
  | EmptyString => Some ""
  | String c0 (String c1 (String c2 (String c3 s'))) =>
      a ← dec6 c0; b ← dec6 c1;
      if Ascii.eqb c3 "=" && bool_decide (s' = "") then
        if Ascii.eqb c2 "=" then Some (String (byte (a * 4 + b / 16)) "")
        else c ← dec6 c2;
             Some (String (byte (a * 4 + b / 16)) (String (byte (b mod 16 * 16 + c / 4)) ""))
      else
        c ← dec6 c2; d ← dec6 c3; rest ← decode_quanta s';
        Some (quantum3 a b c d rest)
  | _ => None
  end.

(** [base64.StdEncoding.DecodeString]; [None] is a [CorruptInputError]. *)
Definition DecodeString (s : string) : option string := decode_quanta (strip_newlines s).

(** [base64.StdEncoding.EncodeToString]. *)
Fixpoint EncodeToString (s : string) : string :=
  match s with
  | EmptyString => ""
  | String x EmptyString =>
      let x := nat_of_ascii x in
      String (enc6 (x / 4)) (String (enc6 (x mod 4 * 16)) "==")
  | String x (String y EmptyString) =>
      let x := nat_of_ascii x in let y := nat_of_ascii y in
      String (enc6 (x / 4)) (String (enc6 (x mod 4 * 16 + y / 16))
        (String (enc6 (y mod 16 * 4)) "="))
  | String x (String y (String z s')) =>
      let x := nat_of_ascii x in let y := nat_of_ascii y in let z := nat_of_ascii z in
      String (enc6 (x / 4)) (String (enc6 (x mod 4 * 16 + y / 16))
        (String (enc6 (y mod 16 * 4 + z / 64)) (String (enc6 (z mod 64)) (EncodeToString s'))))
  end.

(** ** Round trip *)

Lemma lt64_ind (P : nat → bool) :
  forallb P (seq 0 64) = true → ∀ n, n < 64 → P n = true.
Proof.
  intros H n Hn. rewrite forallb_forall in H. apply H. apply in_seq. lia.
Qed.

Lemma dec6_enc6 n : n < 64 → dec6 (enc6 n) = Some n.
Proof.
  intros Hn. apply (bool_decide_eq_true (dec6 (enc6 n) = Some n)). revert n Hn.
  apply (lt64_ind (λ n, bool_decide (dec6 (enc6 n) = Some n))). vm_compute. done.
Qed.

Definition plain6 (c : ascii) : bool :=
  negb (Ascii.eqb c (ascii_of_nat 10) || Ascii.eqb c (ascii_of_nat 13) || Ascii.eqb c "=").

Lemma enc6_plain n : n < 64 → plain6 (enc6 n) = true.
Proof. revert n. apply lt64_ind. vm_compute. done. Qed.

Lemma enc6_not_pad n : n < 64 → Ascii.eqb (enc6 n) "=" = false.
Proof.
  intros Hn. apply enc6_plain in Hn. unfold plain6 in Hn.
  apply negb_true_iff, orb_false_iff in Hn. by destruct Hn.
Qed.

Lemma strip_plain c s :
  plain6 c = true → strip_newlines (String c s) = String c (strip_newlines s).
Proof.
  intros Hc. unfold plain6 in Hc. apply negb_true_iff, orb_false_iff in Hc as [Hc _].
  cbn [strip_newlines]. by rewrite Hc.
Qed.

Lemma ascii_lt256 c : nat_of_ascii c < 256.
Proof. apply nat_ascii_bounded. Qed.

Lemma byte_eq c n : n = nat_of_ascii c → byte n = c.
Proof.
  intros ->. unfold byte. rewrite Nat.mod_small by apply ascii_lt256.
  apply ascii_nat_embedding.
Qed.

(** The three bytes of a quantum come back from its four sextets. *)
Lemma sextets x y z :
  x < 256 → y < 256 → z < 256 →
  x / 4 < 64 ∧ x mod 4 * 16 + y / 16 < 64 ∧ y mod 16 * 4 + z / 64 < 64 ∧ z mod 64 < 64 ∧
  x / 4 * 4 + (x mod 4 * 16 + y / 16) / 16 = x ∧
  (x mod 4 * 16 + y / 16) mod 16 * 16 + (y mod 16 * 4 + z / 64) / 4 = y ∧
  (y mod 16 * 4 + z / 64) mod 4 * 64 + z mod 64 = z.
Proof.
  intros Hx Hy Hz.
  assert (x / 4 < 64) by (apply Nat.Div0.div_lt_upper_bound; lia).
  assert (y / 16 < 16) by (apply Nat.Div0.div_lt_upper_bound; lia).
  assert (z / 64 < 4) by (apply Nat.Div0.div_lt_upper_bound; lia).
  assert (x mod 4 < 4 ∧ y mod 16 < 16 ∧ z mod 64 < 64) as (? & ? & ?)
    by (repeat split; apply Nat.mod_upper_bound; lia).
  rewrite !(Nat.div_add_l _ _ (y / 16)), !(Nat.div_add_l _ _ (z / 64)) by lia.
  rewrite (Nat.div_small (y / 16)), (Nat.div_small (z / 64)) by lia.
  rewrite (Nat.add_comm (x mod 4 * 16)), (Nat.add_comm (y mod 16 * 4)).
  rewrite !Nat.Div0.mod_add, (Nat.mod_small (y / 16)), (Nat.mod_small (z / 64)) by lia.
  pose proof (Nat.div_mod_eq x 4). pose proof (Nat.div_mod_eq y 16).
  pose proof (Nat.div_mod_eq z 64). repeat split; lia.
Qed.

Lemma string_ind3 (P : string → Prop) :
  P "" → (∀ x, P (String x "")) → (∀ x y, P (String x (String y ""))) →
  (∀ x y z s, P s → P (String x (String y (String z s)))) → ∀ s, P s.
Proof.
  intros H0 H1 H2 H3. fix IH 1. intros [|x [|y [|z s]]]; [done|done|done|].
  apply H3, IH.
Qed.

Ltac sextet_bounds :=
  repeat match goal with
  | c : ascii |- _ =>
      lazymatch goal with
      | _ : nat_of_ascii c < 256 |- _ => fail
      | _ => pose proof (ascii_lt256 c)
      end
  end.

Lemma DecodeString_EncodeToString s : DecodeString (EncodeToString s) = Some s.
Proof.
  unfold DecodeString. induction s as [|x|x y|x y z s IH] using string_ind3; [done|..];
    sextet_bounds.
  - destruct (sextets (nat_of_ascii x) 0 0) as (Ha & Hb & _ & _ & Hx & _); [lia..|].
    change (0 / 16) with 0 in *. rewrite Nat.add_0_r in *.
    cbn [EncodeToString]. rewrite !strip_plain by by apply enc6_plain.
    cbn [strip_newlines decode_quanta]. rewrite !dec6_enc6 by done. cbn -[Nat.div Nat.modulo].
    by rewrite (byte_eq x).
  - destruct (sextets (nat_of_ascii x) (nat_of_ascii y) 0)
      as (Ha & Hb & Hc & _ & Hx & Hy & _); [lia..|].
    change (0 / 64) with 0 in *. rewrite (Nat.add_0_r (_ * 4)) in *.
    cbn [EncodeToString]. rewrite !strip_plain by by apply enc6_plain.
    change (strip_newlines "=") with "=". cbn [decode_quanta].
    rewrite !dec6_enc6 by done.
    change (Ascii.eqb "=" "=" && bool_decide ("" = "")) with true.
    rewrite enc6_not_pad by done. cbn [mbind option_bind].
    by rewrite (byte_eq x), (byte_eq y).
  - destruct (sextets (nat_of_ascii x) (nat_of_ascii y) (nat_of_ascii z))
      as (Ha & Hb & Hc & Hd & Hx & Hy & Hz); [lia..|].
    cbn [EncodeToString]. rewrite !strip_plain by by apply enc6_plain.
    cbn [decode_quanta]. rewrite !dec6_enc6 by done.
    rewrite enc6_not_pad by done. cbn [andb mbind option_bind]. rewrite IH.
    cbn [mbind option_bind]. unfold quantum3.
    by rewrite (byte_eq x), (byte_eq y), (byte_eq z).
Qed.
