(* ===== verification/Kube.v ===== *)
(** * What the program uses of Kubernetes' Go libraries

    The libraries are not part of the repository. Their plain data types are given as
    Rocq data; their functions are fields of type classes, which the components take as
    parameters, with the behaviour the program relies on as laws. [Fake.v] implements the
    classes, so that the theorems that assume laws can be applied to concrete runs. *)

From stdpp Require Import base list strings gmap countable.
From Stdlib Require Import Ascii.
From S2P Require Import Prelude GoStrings.

Create HintDb kube.

(** ** [schema] and [types]: names of kinds and objects *)

Record GroupVersionKind := GVK {
  gvk_Group : string;
  gvk_Version : string;
  gvk_Kind : string;
}.

Record GroupVersion := GV {
  gv_Group : string;
  gv_Version : string;
}.

(** [types.NamespacedName], which is also [client.ObjectKey]. *)
Record NamespacedName := NN {
  nn_Namespace : string;
  nn_Name : string;
}.

#[export] Instance GroupVersionKind_eq_dec : EqDecision GroupVersionKind.
Proof. solve_decision. Defined.
#[export] Instance GroupVersion_eq_dec : EqDecision GroupVersion.
Proof. solve_decision. Defined.
#[export] Instance NamespacedName_eq_dec : EqDecision NamespacedName.
Proof. solve_decision. Defined.

#[export] Instance GroupVersionKind_countable : Countable GroupVersionKind.
Proof.
  apply (inj_countable' (λ g, (gvk_Group g, gvk_Version g, gvk_Kind g))
    (λ p, GVK p.1.1 p.1.2 p.2)). by intros [].
Defined.
#[export] Instance NamespacedName_countable : Countable NamespacedName.
Proof.
  apply (inj_countable' (λ n, (nn_Namespace n, nn_Name n)) (λ p, NN p.1 p.2)). by intros [].
Defined.

(** ** Errors *)

(** The errors that come from the libraries are opaque; the program only classifies them
    with the predicates of [k8s.io/apimachinery/pkg/api/errors] and of client-go's
    [discovery], and prints them. [Quote] is [strconv.Quote] (the verb [%q]). *)
Class ApiErrors := {
  api_error : Type;
  api_error_text : api_error → string;
  IsNotFound : api_error → bool;
  IsAlreadyExists : api_error → bool;
  IsGroupDiscoveryFailedError : api_error → bool;
  Quote : string → string;
}.

Section Errors.
Context `{ApiErrors}.

(** The errors the program handles: an error of a library, one of Go's standard
    library, and the errors it builds: [fmt.Errorf] without an error argument, with
    the last argument an error wrapped by [%w], with one printed by [%v], and
    [errors.Join]. *)
Inductive goerr : Type :=
| EApi (e : api_error)
| EStd (text : string)
| Errorf (format : string) (args : list string)
| ErrorfW (format : string) (args : list string) (wrapped : goerr)
| ErrorfV (format : string) (args : list string) (printed : goerr)
| EJoin (es : list goerr).

(** [errors.Join]: nil errors are dropped, and the result is nil if none is left. *)
Definition errors_Join (es : list (option goerr)) : option goerr :=
  match omap id es with
  | [] => None
  | l => Some (EJoin l)
  end.

(** [stderrors.Join(errs...)] on a slice that holds no nil error. *)
Definition Join_all (es : list goerr) : option goerr :=
  match es with
  | [] => None
  | _ => Some (EJoin es)
  end.

(** [client.IgnoreNotFound] on a library error: nil on a NotFound error. *)
Definition IgnoreNotFound (e : api_error) : option goerr :=
  if IsNotFound e then None else Some (EApi e).

(** [fmt.Sprintf] for the verbs the program uses, all of them on strings or on values
    already rendered as strings. *)
Fixpoint Sprintf (format : string) (args : list string) : string :=
  match format with
  | String "%" (String v rest) =>
      match args with
      | [] => String "%" (String v (Sprintf rest []))
      | a :: args' => (if Ascii.eqb v "q" then Quote a else a) +:+ Sprintf rest args'
      end
  | String c rest => String c (Sprintf rest args)
  | EmptyString => ""
  end.

Definition newline : Ascii.ascii := Ascii.ascii_of_nat 10.

(** [err.Error()]. *)
Fixpoint Error (e : goerr) : string :=
  match e with
  | EApi e => api_error_text e
  | EStd t => t
  | Errorf f args => Sprintf f args
  | ErrorfW f args e | ErrorfV f args e => Sprintf f (args ++ [Error e])
  | EJoin es => Join newline (map Error es)
  end.

(** [errors.Is] reachability: the errors a caller can find in [e]. *)
Inductive in_chain (t : goerr) : goerr → Prop :=
| chain_here : in_chain t t
| chain_wrap f args e : in_chain t e → in_chain t (ErrorfW f args e)
| chain_join es e : e ∈ es → in_chain t e → in_chain t (EJoin es).

Lemma Join_all_None es : Join_all es = None ↔ es = [].
Proof. by destruct es. Qed.

Lemma Join_all_chain es e e' :
  Join_all es = Some e → e' ∈ es → in_chain e' e.
Proof.
  destruct es as [|x es]; [done|]. intros [= <-] He.
  eapply chain_join; [done|constructor].
Qed.
End Errors.

(** ** Discovery *)

(** [metav1.APIResource] and [metav1.APIResourceList]: the resources of one served group
    version. *)
Record APIResource := {
  ar_Name : string;
  ar_Kind : string;
  ar_Verbs : list string;
}.

Record APIResourceList := {
  arl_GroupVersion : string;
  arl_APIResources : list APIResource;
}.

(** [schema.ParseGroupVersion]. *)
Class GroupVersionParser `{ApiErrors} := {
  ParseGroupVersion : string → res api_error GroupVersion;
}.

(** ** Unstructured objects *)

(** The contents of an [unstructured.Unstructured]: the JSON value [map[string]any].
    A float64 is kept by its text; the program only copies it. *)
Inductive value : Type :=
| VMap (m : gmap string value)
| VList (l : list value)
| VString (s : string)
| VInt (z : Z)
| VFloat (text : string)
| VBool (b : bool)
| VNull.

Abbreviation object := (gmap string value).

(** Neither path is a prefix of the other: what is written at one is not read at the
    other. *)
Definition disjoint_paths (p q : list string) : Prop := ¬ p `prefix_of` q ∧ ¬ q `prefix_of` p.

#[export] Instance disjoint_paths_dec p q : Decision (disjoint_paths p q).
Proof. unfold disjoint_paths. apply _. Defined.

(** The package [unstructured]. *)
Class Unstructured `{ApiErrors} := {
  NestedFieldCopy : object → list string → res goerr (option value);
  SetNestedField : object → value → list string → res goerr object;
  GroupVersionKind_of : object → GroupVersionKind;
  SetGroupVersionKind : GroupVersionKind → object → object;
  GetAPIVersion : object → string;
  GetKind : object → string;
  GetName : object → string;
  SetName : string → object → object;
  GetNamespace : object → string;
  SetNamespace : string → object → object;
  GetLabels : object → option (gmap string string);
  SetLabels : option (gmap string string) → object → object;
  GetAnnotations : object → option (gmap string string);
  SetAnnotations : option (gmap string string) → object → object;
  SetResourceVersion : string → object → object;
  SetUID : string → object → object;
  SetGeneration : Z → object → object;
  SetManagedFields : option (list value) → object → object;
}.

Section UnstructuredLaws.
Context `{Unstructured}.

(** [f] writes [v] at path [p] ([None]: removes the field) of an object whose
    metadata, if present, is a map; other paths read the same. *)
Definition meta_ok (o : object) : Prop :=
  o !! "metadata" = None ∨ ∃ m, o !! "metadata" = Some (VMap m).

Definition writes (f : object → object) (p : list string) (v : option value) : Prop :=
  ∀ o, meta_ok o → meta_ok (f o) ∧ NestedFieldCopy (f o) p = Ok v ∧
    ∀ q, q ≠ [] → disjoint_paths p q → NestedFieldCopy (f o) q = NestedFieldCopy o q.

Definition string_field (s : string) : option value :=
  if bool_decide (s = "") then None else Some (VString s).

Definition string_at (r : res goerr (option value)) : string :=
  match r with Ok (Some (VString s)) => s | _ => "" end.

Definition string_map (l : gmap string string) : value := VMap (VString <$> l).

(** A kind whose group and version can be written as an apiVersion. *)
Definition gvk_wf (g : GroupVersionKind) : Prop :=
  has_byte "/" (gvk_Group g) = false ∧ has_byte "/" (gvk_Version g) = false.
End UnstructuredLaws.

#[export] Instance gvk_wf_dec g : Decision (gvk_wf g).
Proof. unfold gvk_wf. apply _. Defined.

(** The documented behaviour of the package: nested fields are read and written step by
    step through maps, creating the maps that are missing and failing on a value that is
    not a map; the accessors read and write the standard fields. *)
Class UnstructuredLaws `{U : Unstructured} : Prop := {
  nested_read_one o f : NestedFieldCopy o [f] = Ok (o !! f);
  nested_read_map o f p m :
    p ≠ [] → o !! f = Some (VMap m) → NestedFieldCopy o (f :: p) = NestedFieldCopy m p;
  nested_read_missing o f p :
    p ≠ [] → o !! f = None → NestedFieldCopy o (f :: p) = Ok None;
  nested_read_not_map o f p w v :
    p ≠ [] → o !! f = Some w → (∀ m, w ≠ VMap m) → NestedFieldCopy o (f :: p) ≠ Ok (Some v);
  nested_write_one o v f : SetNestedField o v [f] = Ok (<[f:=v]> o);
  nested_write_map o v f p m :
    p ≠ [] → o !! f = Some (VMap m) →
    SetNestedField o v (f :: p) =
      match SetNestedField m v p with
      | Ok m' => Ok (<[f:=VMap m']> o)
      | Err e => Err e
      end;
  nested_write_missing o v f p :
    p ≠ [] → o !! f = None →
    SetNestedField o v (f :: p) =
      match SetNestedField ∅ v p with
      | Ok m' => Ok (<[f:=VMap m']> o)
      | Err e => Err e
      end;
  nested_write_not_map o v f p w :
    p ≠ [] → o !! f = Some w → (∀ m, w ≠ VMap m) → is_ok (SetNestedField o v (f :: p)) = false;
  get_name o : GetName o = string_at (NestedFieldCopy o ["metadata"; "name"]);
  get_namespace o : GetNamespace o = string_at (NestedFieldCopy o ["metadata"; "namespace"]);
  get_api_version o : GetAPIVersion o = string_at (NestedFieldCopy o ["apiVersion"]);
  get_kind o : GetKind o = string_at (NestedFieldCopy o ["kind"]);
  set_name s : writes (SetName s) ["metadata"; "name"] (string_field s);
  set_namespace s : writes (SetNamespace s) ["metadata"; "namespace"] (string_field s);
  set_labels l : writes (SetLabels l) ["metadata"; "labels"] (string_map <$> l);
  set_annotations l : writes (SetAnnotations l) ["metadata"; "annotations"] (string_map <$> l);
  set_resource_version s :
    writes (SetResourceVersion s) ["metadata"; "resourceVersion"] (string_field s);
  set_uid s : writes (SetUID s) ["metadata"; "uid"] (string_field s);
  set_generation z :
    writes (SetGeneration z) ["metadata"; "generation"]
      (if bool_decide (z = 0%Z) then None else Some (VInt z));
  set_managed_fields l :
    writes (SetManagedFields l) ["metadata"; "managedFields"] (VList <$> l);
  set_gvk_get g o : gvk_wf g → GroupVersionKind_of (SetGroupVersionKind g o) = g;
  set_gvk_other g o q :
    q ≠ [] → disjoint_paths ["apiVersion"] q → disjoint_paths ["kind"] q →
    NestedFieldCopy (SetGroupVersionKind g o) q = NestedFieldCopy o q;
  get_gvk_strings o1 o2 :
    GetAPIVersion o1 = GetAPIVersion o2 → GetKind o1 = GetKind o2 →
    GroupVersionKind_of o1 = GroupVersionKind_of o2;
  get_gvk_fields o1 o2 :
    NestedFieldCopy o1 ["apiVersion"] = NestedFieldCopy o2 ["apiVersion"] →
    NestedFieldCopy o1 ["kind"] = NestedFieldCopy o2 ["kind"] →
    GroupVersionKind_of o1 = GroupVersionKind_of o2;
}.
