(* ===== verification/Api.v ===== *)
(** * The KRMSyncer custom resource ([syncer/api/v1alpha1]) *)

From stdpp Require Import base list strings gmap.
From S2P Require Import Prelude Kube.

(** One rule: which objects to sync and which of their fields. *)
Record ResourceRule := {
  rule_Group : string;
  rule_Version : string;
  rule_Kind : string;
  rule_Namespaces : list string;
  rule_SyncFields : list string;
}.

(** [Mode] is a Go string type: nothing but the CRD's validation restricts it to the two
    constants, and it may be empty. *)
Definition Mode : Type := string.
Definition ModePush : Mode := "push".
Definition ModePull : Mode := "pull".

Definition GKEEndpoint : Type := string.
Definition GKEEndpointDefault : GKEEndpoint := "Default".
Definition GKEEndpointDNS : GKEEndpoint := "DNS".
Definition GKEEndpointPrivateIP : GKEEndpoint := "PrivateIP".

Record GKECluster := {
  gke_Project : string;
  gke_Location : string;
  gke_Name : string;
  gke_Endpoint : GKEEndpoint;
}.

(** A nil pointer is [None]. *)
Record RemoteConfig := {
  rc_GKECluster : option GKECluster;
}.

Record KRMSyncerSpec := {
  spec_Suspend : bool;
  spec_Mode : Mode;
  spec_Remote : option RemoteConfig;
  spec_Rules : list ResourceRule;
}.

(** The fields of [metav1.Condition] that the program sets. *)
Record Condition := {
  cond_Type : string;
  cond_Status : string;
  cond_Reason : string;
  cond_Message : string;
}.

Record KRMSyncerStatus := {
  status_Conditions : list Condition;
}.

(** Of the object's metadata the program uses the namespace and the name. *)
Record KRMSyncer := {
  ks_Namespace : string;
  ks_Name : string;
  ks_Spec : KRMSyncerSpec;
  ks_Status : KRMSyncerStatus;
}.

#[export] Instance ResourceRule_eq_dec : EqDecision ResourceRule.
Proof. solve_decision. Defined.
#[export] Instance GKECluster_eq_dec : EqDecision GKECluster.
Proof. unfold GKEEndpoint. solve_decision. Defined.
#[export] Instance RemoteConfig_eq_dec : EqDecision RemoteConfig.
Proof. solve_decision. Defined.
#[export] Instance KRMSyncerSpec_eq_dec : EqDecision KRMSyncerSpec.
Proof. unfold Mode. solve_decision. Defined.
#[export] Instance Condition_eq_dec : EqDecision Condition.
Proof. solve_decision. Defined.
#[export] Instance KRMSyncerStatus_eq_dec : EqDecision KRMSyncerStatus.
Proof. solve_decision. Defined.
#[export] Instance KRMSyncer_eq_dec : EqDecision KRMSyncer.
Proof. solve_decision. Defined.

(** [client.ObjectKeyFromObject] of a KRMSyncer. *)
Definition syncer_key (s : KRMSyncer) : NamespacedName := NN (ks_Namespace s) (ks_Name s).

(** [if mode == "" { mode = krmv1alpha1.ModePull }] *)
Definition effective_mode (m : Mode) : Mode :=
  if bool_decide (m = "") then ModePull else m.
