(* ===== verification/DeepCopy.v ===== *)
(** * Deep copies ([syncer/api/v1alpha1/zz_generated.deepcopy.go])

    The generated methods [DeepCopyInto], [DeepCopy] and [DeepCopyObject] on the memory
    model of [Heap]. The structs are those of [Api] with their pointers and slices as
    references; what they mean in a heap are the same structs with the data in the place of
    the references (a nil and an empty slice are different). The metadata and the conditions
    are types of the Kubernetes libraries, whose own deep copies are assumed to keep the
    promise [Copies]. *)

From stdpp Require Import base list strings option.
From S2P Require Import Prelude Heap Api.

(** ** The library types *)

(** [metav1.ObjectMeta], [metav1.ListMeta] and [metav1.Condition] in memory, what they mean,
    and the arrays of the types they use. *)
Class MetaTypes := {
  ObjectMeta : Type; ObjectMeta_value : Type;
  ListMeta : Type; ListMeta_value : Type;
  metav1_Condition : Type; Condition_value : Type;
  meta_cell : Type;
}.

Record TypeMeta := { tm_Kind : string; tm_APIVersion : string }.

(** ** The structs

    Each takes the types of its references as parameters: [goslice] and [goptr] for the
    struct in memory, lists and options for its value. *)

Record ResourceRule_of (strs : Type) := {
  m_Group : string;
  m_Version : string;
  m_Kind : string;
  m_Namespaces : strs;
  m_SyncFields : strs;
}.
Arguments m_Group {_} _.
Arguments m_Version {_} _.
Arguments m_Kind {_} _.
Arguments m_Namespaces {_} _.
Arguments m_SyncFields {_} _.

Record RemoteConfig_of (gke : Type) := { m_GKECluster : gke }.
Arguments m_GKECluster {_} _.

Record KRMSyncerSpec_of (remote rules : Type) := {
  m_Suspend : bool;
  m_Mode : Mode;
  m_Remote : remote;
  m_Rules : rules;
}.
Arguments m_Suspend {_ _} _.
Arguments m_Mode {_ _} _.
Arguments m_Remote {_ _} _.
Arguments m_Rules {_ _} _.

Record KRMSyncerStatus_of (conditions : Type) := { m_Conditions : conditions }.
Arguments m_Conditions {_} _.

Record KRMSyncer_of (meta spec status : Type) := {
  m_TypeMeta : TypeMeta;
  m_ObjectMeta : meta;
  m_Spec : spec;
  m_Status : status;
}.
Arguments m_TypeMeta {_ _ _} _.
Arguments m_ObjectMeta {_ _ _} _.
Arguments m_Spec {_ _ _} _.
Arguments m_Status {_ _ _} _.

Record KRMSyncerList_of (meta items : Type) := {
  m_ListTypeMeta : TypeMeta;
  m_ListMeta : meta;
  m_Items : items;
}.
Arguments m_ListTypeMeta {_ _} _.
Arguments m_ListMeta {_ _} _.
Arguments m_Items {_ _} _.

Section Structs.
Context {MT : MetaTypes}.

Definition RuleM : Type := ResourceRule_of (goslice string).
Definition RemoteM : Type := RemoteConfig_of (goptr GKECluster).
Definition SpecM : Type := KRMSyncerSpec_of (goptr RemoteM) (goslice RuleM).
Definition StatusM : Type := KRMSyncerStatus_of (goslice metav1_Condition).
Definition SyncerM : Type := KRMSyncer_of ObjectMeta SpecM StatusM.
Definition ListM : Type := KRMSyncerList_of ListMeta (goslice SyncerM).

Definition RuleV : Type := ResourceRule_of (option (list string)).
Definition RemoteV : Type := RemoteConfig_of (option GKECluster).
Definition SpecV : Type := KRMSyncerSpec_of (option RemoteV) (option (list RuleV)).
Definition StatusV : Type := KRMSyncerStatus_of (option (list Condition_value)).
Definition SyncerV : Type := KRMSyncer_of ObjectMeta_value SpecV StatusV.
Definition ListV : Type := KRMSyncerList_of ListMeta_value (option (list SyncerV)).

(** The arrays of a program that uses the API. *)
Inductive cell : Type :=
| AStrings (a : list string)
| AGKEClusters (a : list GKECluster)
| ARemotes (a : list RemoteM)
| ARules (a : list RuleM)
| ASpecs (a : list SpecM)
| AStatuses (a : list StatusM)
| AConditions (a : list metav1_Condition)
| ASyncers (a : list SyncerM)
| ALists (a : list ListM)
| AMeta (a : meta_cell).

#[export] Instance stored_strings : Stored cell string :=
  {| box := AStrings; unbox c := match c with AStrings a => Some a | _ => None end;
     unbox_box _ := eq_refl |}.
#[export] Instance stored_gke : Stored cell GKECluster :=
  {| box := AGKEClusters; unbox c := match c with AGKEClusters a => Some a | _ => None end;
     unbox_box _ := eq_refl |}.
#[export] Instance stored_remotes : Stored cell RemoteM :=
  {| box := ARemotes; unbox c := match c with ARemotes a => Some a | _ => None end;
     unbox_box _ := eq_refl |}.
#[export] Instance stored_rules : Stored cell RuleM :=
  {| box := ARules; unbox c := match c with ARules a => Some a | _ => None end;
     unbox_box _ := eq_refl |}.
#[export] Instance stored_specs : Stored cell SpecM :=
  {| box := ASpecs; unbox c := match c with ASpecs a => Some a | _ => None end;
     unbox_box _ := eq_refl |}.
#[export] Instance stored_statuses : Stored cell StatusM :=
  {| box := AStatuses; unbox c := match c with AStatuses a => Some a | _ => None end;
     unbox_box _ := eq_refl |}.
#[export] Instance stored_conditions : Stored cell metav1_Condition :=
  {| box := AConditions; unbox c := match c with AConditions a => Some a | _ => None end;
     unbox_box _ := eq_refl |}.
#[export] Instance stored_syncers : Stored cell SyncerM :=
  {| box := ASyncers; unbox c := match c with ASyncers a => Some a | _ => None end;
     unbox_box _ := eq_refl |}.
#[export] Instance stored_lists : Stored cell ListM :=
  {| box := ALists; unbox c := match c with ALists a => Some a | _ => None end;
     unbox_box _ := eq_refl |}.
End Structs.

(** The deep copies of the library types. *)
Class MetaCopies `{MT : MetaTypes} := {
  ObjectMeta_zero : ObjectMeta;
  ListMeta_zero : ListMeta;
  Condition_zero : metav1_Condition;
  ObjectMeta_DeepCopyInto : ObjectMeta → H cell ObjectMeta;
  ListMeta_DeepCopyInto : ListMeta → H cell ListMeta;
  Condition_DeepCopyInto : metav1_Condition → H cell metav1_Condition;
  #[global] ObjectMeta_shape :: Shape cell ObjectMeta ObjectMeta_value;
  #[global] ListMeta_shape :: Shape cell ListMeta ListMeta_value;
  #[global] Condition_shape :: Shape cell metav1_Condition Condition_value;
}.

Class MetaLaws `{MC : MetaCopies} : Prop := {
  #[global] ObjectMeta_laws :: ShapeLaws cell ObjectMeta ObjectMeta_value;
  #[global] ListMeta_laws :: ShapeLaws cell ListMeta ListMeta_value;
  #[global] Condition_laws :: ShapeLaws cell metav1_Condition Condition_value;
  #[global] ObjectMeta_copies :: Copies ObjectMeta_DeepCopyInto;
  #[global] ListMeta_copies :: Copies ListMeta_DeepCopyInto;
  #[global] Condition_copies :: Copies Condition_DeepCopyInto;
}.

Section Methods.
Context `{MC : MetaCopies}.

(** ** Zero values *)

#[export] Instance string_zero : Zero string := "".
#[export] Instance gke_zero : Zero GKECluster :=
  {| gke_Project := ""; gke_Location := ""; gke_Name := ""; gke_Endpoint := "" |}.
#[export] Instance rule_zero : Zero RuleM :=
  {| m_Group := ""; m_Version := ""; m_Kind := ""; m_Namespaces := None; m_SyncFields := None |}.
#[export] Instance remote_zero : Zero RemoteM := {| m_GKECluster := None |}.
#[export] Instance spec_zero : Zero SpecM :=
  {| m_Suspend := false; m_Mode := ""; m_Remote := None; m_Rules := None |}.
#[export] Instance status_zero : Zero StatusM := {| m_Conditions := None |}.
#[export] Instance condition_zero : Zero metav1_Condition := Condition_zero.
#[export] Instance syncer_zero : Zero SyncerM :=
  {| m_TypeMeta := {| tm_Kind := ""; tm_APIVersion := "" |}; m_ObjectMeta := ObjectMeta_zero;
     m_Spec := zero; m_Status := zero |}.
#[export] Instance list_zero : Zero ListM :=
  {| m_ListTypeMeta := {| tm_Kind := ""; tm_APIVersion := "" |}; m_ListMeta := ListMeta_zero;
     m_Items := None |}.

(** ** The generated methods *)

(** A method [DeepCopyInto] first assigns the whole struct and then replaces the fields that
    need it; the record at its end has the other fields from that assignment. *)
Definition GKECluster_DeepCopyInto (inp : GKECluster) : H cell GKECluster := mret inp.

Definition GKECluster_DeepCopy : goptr GKECluster → H cell (goptr GKECluster) :=
  copy_pointer GKECluster_DeepCopyInto.

Definition ResourceRule_DeepCopyInto (inp : RuleM) : H cell RuleM :=
  namespaces ← copy_plain_slice (m_Namespaces inp);
  syncFields ← copy_plain_slice (m_SyncFields inp);
  mret {|
    m_Group := m_Group inp; m_Version := m_Version inp; m_Kind := m_Kind inp;
    m_Namespaces := namespaces; m_SyncFields := syncFields
  |}.

Definition ResourceRule_DeepCopy : goptr RuleM → H cell (goptr RuleM) :=
  copy_pointer ResourceRule_DeepCopyInto.

(** [**out = **in] is an assignment of the struct. *)
Definition RemoteConfig_DeepCopyInto (inp : RemoteM) : H cell RemoteM :=
  gkeCluster ← copy_pointer mret (m_GKECluster inp);
  mret {| m_GKECluster := gkeCluster |}.

Definition RemoteConfig_DeepCopy : goptr RemoteM → H cell (goptr RemoteM) :=
  copy_pointer RemoteConfig_DeepCopyInto.

Definition KRMSyncerSpec_DeepCopyInto (inp : SpecM) : H cell SpecM :=
  remote ← copy_pointer RemoteConfig_DeepCopyInto (m_Remote inp);
  rules ← copy_slice ResourceRule_DeepCopyInto (m_Rules inp);
  mret {|
    m_Suspend := m_Suspend inp; m_Mode := m_Mode inp; m_Remote := remote; m_Rules := rules
  |}.

Definition KRMSyncerSpec_DeepCopy : goptr SpecM → H cell (goptr SpecM) :=
  copy_pointer KRMSyncerSpec_DeepCopyInto.

Definition KRMSyncerStatus_DeepCopyInto (inp : StatusM) : H cell StatusM :=
  conditions ← copy_slice Condition_DeepCopyInto (m_Conditions inp);
  mret {| m_Conditions := conditions |}.

Definition KRMSyncerStatus_DeepCopy : goptr StatusM → H cell (goptr StatusM) :=
  copy_pointer KRMSyncerStatus_DeepCopyInto.

Definition KRMSyncer_DeepCopyInto (inp : SyncerM) : H cell SyncerM :=
  objectMeta ← ObjectMeta_DeepCopyInto (m_ObjectMeta inp);
  spec ← KRMSyncerSpec_DeepCopyInto (m_Spec inp);
  status ← KRMSyncerStatus_DeepCopyInto (m_Status inp);
  mret {|
    m_TypeMeta := m_TypeMeta inp; m_ObjectMeta := objectMeta; m_Spec := spec;
    m_Status := status
  |}.

Definition KRMSyncer_DeepCopy : goptr SyncerM → H cell (goptr SyncerM) :=
  copy_pointer KRMSyncer_DeepCopyInto.

Definition KRMSyncerList_DeepCopyInto (inp : ListM) : H cell ListM :=
  listMeta ← ListMeta_DeepCopyInto (m_ListMeta inp);
  items ← copy_slice KRMSyncer_DeepCopyInto (m_Items inp);
  mret {| m_ListTypeMeta := m_ListTypeMeta inp; m_ListMeta := listMeta; m_Items := items |}.

Definition KRMSyncerList_DeepCopy : goptr ListM → H cell (goptr ListM) :=
  copy_pointer KRMSyncerList_DeepCopyInto.

(** A value of the interface [runtime.Object]: a nil interface is [None]; an interface that
    is not nil holds a dynamic type and a pointer, which may be nil. *)
Inductive runtime_Object : Type :=
| ObjKRMSyncer (p : goptr SyncerM)
| ObjKRMSyncerList (p : goptr ListM).

Definition KRMSyncer_DeepCopyObject (inp : goptr SyncerM) : H cell (option runtime_Object) :=
  c ← KRMSyncer_DeepCopy inp;
  match c with
  | Some _ => mret (Some (ObjKRMSyncer c))
  | None => mret None
  end.

Definition KRMSyncerList_DeepCopyObject (inp : goptr ListM) : H cell (option runtime_Object) :=
  c ← KRMSyncerList_DeepCopy inp;
  match c with
  | Some _ => mret (Some (ObjKRMSyncerList c))
  | None => mret None
  end.
End Methods.

(** ** What the structs mean *)

#[export] Instance plain_gke : Plain GKECluster := I.

Section Meaning.
Context `{MC : MetaCopies}.

#[export] Instance rule_shape : Shape cell RuleM RuleV :=
  struct_shape (λ r : RuleM, (m_Namespaces r, m_SyncFields r))
    (λ r v, {| m_Group := m_Group r; m_Version := m_Version r; m_Kind := m_Kind r;
               m_Namespaces := v.1; m_SyncFields := v.2 |}).

#[export] Instance remote_shape : Shape cell RemoteM RemoteV :=
  struct_shape (λ r : RemoteM, m_GKECluster r) (λ _ v, {| m_GKECluster := v |}).

#[export] Instance spec_shape : Shape cell SpecM SpecV :=
  struct_shape (λ r : SpecM, (m_Remote r, m_Rules r))
    (λ r v, {| m_Suspend := m_Suspend r; m_Mode := m_Mode r; m_Remote := v.1;
               m_Rules := v.2 |}).

#[export] Instance status_shape : Shape cell StatusM StatusV :=
  struct_shape (λ r : StatusM, m_Conditions r) (λ _ v, {| m_Conditions := v |}).

#[export] Instance syncer_shape : Shape cell SyncerM SyncerV :=
  struct_shape (λ r : SyncerM, (m_ObjectMeta r, (m_Spec r, m_Status r)))
    (λ r v, {| m_TypeMeta := m_TypeMeta r; m_ObjectMeta := v.1; m_Spec := v.2.1;
               m_Status := v.2.2 |}).

#[export] Instance list_shape : Shape cell ListM ListV :=
  struct_shape (λ r : ListM, (m_ListMeta r, m_Items r))
    (λ r v, {| m_ListTypeMeta := m_ListTypeMeta r; m_ListMeta := v.1; m_Items := v.2 |}).
End Meaning.

Section MeaningLaws.
Context `{ML : MetaLaws}.

#[export] Instance rule_laws : ShapeLaws cell RuleM RuleV.
Proof. apply struct_laws, _. Qed.
#[export] Instance remote_laws : ShapeLaws cell RemoteM RemoteV.
Proof. apply struct_laws, _. Qed.
#[export] Instance spec_laws : ShapeLaws cell SpecM SpecV.
Proof. apply struct_laws, _. Qed.
#[export] Instance status_laws : ShapeLaws cell StatusM StatusV.
Proof. apply struct_laws, _. Qed.
#[export] Instance syncer_laws : ShapeLaws cell SyncerM SyncerV.
Proof. apply struct_laws, _. Qed.
#[export] Instance list_laws : ShapeLaws cell ListM ListV.
Proof. apply struct_laws, _. Qed.
End MeaningLaws.

(** ** The methods copy *)

(** A method binds the copies of its fields in the order of the tuple. *)
Ltac bind_cases :=
  unfold copy_pair, mbind, H_bind, mret, H_ret; simpl;
  repeat lazymatch goal with
  | |- context [match ?m ?h with Some _ => _ | None => _ end] =>
      destruct (m h) as [[? ?]|]; [|done]
  end.

Section MethodLemmas.
Context `{ML : MetaLaws}.

#[export] Instance copies_GKECluster : Copies GKECluster_DeepCopyInto.
Proof. apply plain_copies. Qed.

#[export] Instance copies_ResourceRule : Copies ResourceRule_DeepCopyInto.
Proof.
  eapply (copies_struct _ _ (λ (r : RuleM) y, {| m_Group := m_Group r;
    m_Version := m_Version r; m_Kind := m_Kind r; m_Namespaces := y.1; m_SyncFields := y.2 |})
    (copy_pair copy_plain_slice copy_plain_slice)); [apply _|by intros ? []|done|].
  intros r h. unfold ResourceRule_DeepCopyInto. by bind_cases.
Qed.

#[export] Instance copies_RemoteConfig : Copies RemoteConfig_DeepCopyInto.
Proof.
  by eapply (copies_struct _ _ (λ (r : RemoteM) y, {| m_GKECluster := y |})
    (copy_pointer mret)); [apply _|..].
Qed.

#[export] Instance copies_KRMSyncerSpec : Copies KRMSyncerSpec_DeepCopyInto.
Proof.
  eapply (copies_struct _ _ (λ (r : SpecM) y, {| m_Suspend := m_Suspend r;
    m_Mode := m_Mode r; m_Remote := y.1; m_Rules := y.2 |})
    (copy_pair (copy_pointer RemoteConfig_DeepCopyInto) (copy_slice ResourceRule_DeepCopyInto)));
    [apply _|by intros ? []|done|].
  intros r h. unfold KRMSyncerSpec_DeepCopyInto. by bind_cases.
Qed.

#[export] Instance copies_KRMSyncerStatus : Copies KRMSyncerStatus_DeepCopyInto.
Proof.
  by eapply (copies_struct _ _ (λ (r : StatusM) y, {| m_Conditions := y |})
    (copy_slice Condition_DeepCopyInto)); [apply _|..].
Qed.

#[export] Instance copies_KRMSyncer : Copies KRMSyncer_DeepCopyInto.
Proof.
  eapply (copies_struct _ _ (λ (r : SyncerM) y, {| m_TypeMeta := m_TypeMeta r;
    m_ObjectMeta := y.1; m_Spec := y.2.1; m_Status := y.2.2 |})
    (copy_pair ObjectMeta_DeepCopyInto
      (copy_pair KRMSyncerSpec_DeepCopyInto KRMSyncerStatus_DeepCopyInto)));
    [apply _|by intros ? [? []]|done|].
  intros r h. unfold KRMSyncer_DeepCopyInto. by bind_cases.
Qed.

#[export] Instance copies_KRMSyncerList : Copies KRMSyncerList_DeepCopyInto.
Proof.
  eapply (copies_struct _ _ (λ (r : ListM) y, {| m_ListTypeMeta := m_ListTypeMeta r;
    m_ListMeta := y.1; m_Items := y.2 |})
    (copy_pair ListMeta_DeepCopyInto (copy_slice KRMSyncer_DeepCopyInto)));
    [apply _|by intros ? []|done|].
  intros r h. unfold KRMSyncerList_DeepCopyInto. by bind_cases.
Qed.
End MethodLemmas.

(** ** Properties *)

(** A method [DeepCopy]: nil gives nil; otherwise it does not panic, leaves all memory there
    is alone, and returns a pointer to a copy that means the same and shares no array with
    anything there was. *)
Definition deep_copies {cell R V} `{Shape cell R V, Stored cell R}
    (f : goptr R → H cell (goptr R)) : Prop :=
  (∀ h, f None h = Some (None, h)) ∧
  ∀ h p v, value h (Some p : goptr R) = Some (Some v) →
    ∃ q h', f (Some p) h = Some (Some q, h') ∧ h `prefix_of` h' ∧
      fresh_copy h h' (Some q : goptr R) (Some v).

Lemma copy_pointer_deep {cell R V} `{Stored cell R, Zero R, Shape cell R V}
    {SL : ShapeLaws cell R V} (f : R → H cell R) {CF : Copies f} : deep_copies (copy_pointer f).
Proof.
  split; [done|]. intros h p v Hv.
  destruct (copies_pointer f h _ _ Hv) as ([q|] & h' & Hf & Hp & Hc); [by eauto 6|].
  by destruct Hc as [[=] _].
Qed.

Section Properties.
Context `{ML : MetaLaws}.

(** [C36] Every generated DeepCopy method copies deeply: nil gives nil, and for a pointer to
    valid data it does not panic, leaves all memory that existed as it is, and returns a
    pointer to data that means exactly the same (nil and empty slices kept apart, the
    order of elements kept) and reaches only memory allocated by the copy. *)
Theorem DeepCopy_is_deep :
  deep_copies GKECluster_DeepCopy ∧ deep_copies ResourceRule_DeepCopy ∧
  deep_copies RemoteConfig_DeepCopy ∧ deep_copies KRMSyncerSpec_DeepCopy ∧
  deep_copies KRMSyncerStatus_DeepCopy ∧ deep_copies KRMSyncer_DeepCopy ∧
  deep_copies KRMSyncerList_DeepCopy.
Proof. split_and!; apply copy_pointer_deep, _. Qed.

(** [C37] A copied KRMSyncer and its original are independent: whatever is written later to
    the arrays one of them reaches, and whatever is allocated, the other still means what it
    meant when the copy was made. *)
Theorem DeepCopy_is_independent h p v q h' :
  value h (Some p : goptr SyncerM) = Some (Some v) →
  KRMSyncer_DeepCopy (Some p) h = Some (Some q, h') →
  (∀ h2, (∀ l, l < length h' → l ∉ reach h' (Some q : goptr SyncerM) → h2 !! l = h' !! l) →
    value h2 (Some p : goptr SyncerM) = Some (Some v)) ∧
  (∀ h2, (∀ l, l < length h' → l ∉ reach h' (Some p : goptr SyncerM) → h2 !! l = h' !! l) →
    value h2 (Some q : goptr SyncerM) = Some (Some v)).
Proof.
  intros Hv Hf.
  destruct (copies_pointer KRMSyncer_DeepCopyInto h _ _ Hv) as (q' & h1 & Hf' & Hp & Hc).
  unfold KRMSyncer_DeepCopy in Hf. rewrite Hf in Hf'. simplify_eq.
  destruct Hc as [Hv1 Hr]. destruct (value_prefix _ _ _ _ Hv Hp) as [Hvp Hrp].
  split; intros h2 Hh2.
  - refine (proj1 (value_local _ h2 _ _ Hvp _)). intros l Hl.
    apply Hh2; [exact (reach_allocated _ _ _ _ Hvp Hl)|]. intros Hl'%Hr.
    rewrite Hrp in Hl. apply (reach_allocated _ _ _ _ Hv) in Hl. lia.
  - refine (proj1 (value_local _ h2 _ _ Hv1 _)). intros l Hl.
    apply Hh2; [exact (reach_allocated _ _ _ _ Hv1 Hl)|]. apply Hr in Hl. rewrite Hrp.
    intros Hl'%(reach_allocated _ _ _ _ Hv). lia.
Qed.

(** [C38] DeepCopyObject keeps the dynamic type and never returns an interface that holds a
    nil pointer: nil gives the nil interface; a pointer to valid data gives an interface that
    holds a non-nil pointer of the same type to a deep copy. *)
Theorem DeepCopyObject_types h :
  KRMSyncer_DeepCopyObject None h = Some (None, h) ∧
  KRMSyncerList_DeepCopyObject None h = Some (None, h) ∧
  (∀ p v, value h (Some p : goptr SyncerM) = Some (Some v) →
    ∃ q h', KRMSyncer_DeepCopyObject (Some p) h = Some (Some (ObjKRMSyncer (Some q)), h') ∧
      h `prefix_of` h' ∧ fresh_copy h h' (Some q : goptr SyncerM) (Some v)) ∧
  (∀ p v, value h (Some p : goptr ListM) = Some (Some v) →
    ∃ q h', KRMSyncerList_DeepCopyObject (Some p) h =
        Some (Some (ObjKRMSyncerList (Some q)), h') ∧
      h `prefix_of` h' ∧ fresh_copy h h' (Some q : goptr ListM) (Some v)).
Proof.
  split_and!; [done|done|..]; intros p v Hv.
  - destruct (proj2 (copy_pointer_deep KRMSyncer_DeepCopyInto) h p v Hv) as (q & h' & Hf & ?).
    exists q, h'. split; [|done].
    unfold KRMSyncer_DeepCopyObject, KRMSyncer_DeepCopy, mbind, H_bind. by rewrite Hf.
  - destruct (proj2 (copy_pointer_deep KRMSyncerList_DeepCopyInto) h p v Hv)
      as (q & h' & Hf & ?).
    exists q, h'. split; [|done].
    unfold KRMSyncerList_DeepCopyObject, KRMSyncerList_DeepCopy, mbind, H_bind. by rewrite Hf.
Qed.
End Properties.

(** ** A concrete program

    Metadata with a name, a namespace and a list of finalizers; conditions without
    references. *)
Module Example_memory.

#[export] Instance plain_condition : Plain Condition := I.

#[export] Instance types : MetaTypes := {|
  ObjectMeta := string * string * goslice string;
  ObjectMeta_value := string * string * option (list string);
  ListMeta := string; ListMeta_value := string;
  metav1_Condition := Condition; Condition_value := Condition;
  meta_cell := Empty_set;
|}.

#[export] Instance meta_copies : MetaCopies := {|
  ObjectMeta_zero := ("", "", None);
  ListMeta_zero := "";
  Condition_zero :=
    {| cond_Type := ""; cond_Status := ""; cond_Reason := ""; cond_Message := "" |};
  ObjectMeta_DeepCopyInto := copy_pair (copy_pair mret mret) copy_plain_slice;
  ListMeta_DeepCopyInto := mret;
  Condition_DeepCopyInto := mret;
  ObjectMeta_shape := pair_shape;
  ListMeta_shape := plain_shape;
  Condition_shape := plain_shape;
|}.

#[export] Instance meta_laws : MetaLaws.
Proof.
  split.
  - exact (@pair_laws _ _ _ _ _ _ _ _ _).
  - exact plain_laws.
  - exact plain_laws.
  - exact (@copies_pair _ _ _ _ _ _ _ _ _ _ _ _ _).
  - exact plain_copies.
  - exact plain_copies.
Defined.

(** A list of one KRMSyncer with two rules; the second has an empty slice of namespaces and
    its sync fields are part of a longer array. *)
Definition memory : heap cell := [
  AStrings ["finalizer"];
  AGKEClusters [{| gke_Project := "p"; gke_Location := "l"; gke_Name := "n";
    gke_Endpoint := "DNS" |}];
  ARemotes [{| m_GKECluster := Some (Ref 1 0) |}];
  AStrings ["a"; "b"; "spec"; "status"];
  ARules [
    {| m_Group := "apps"; m_Version := "v1"; m_Kind := "Deployment";
       m_Namespaces := Some (Slice 3 0 2 4); m_SyncFields := None |};
    {| m_Group := "apps"; m_Version := "v1"; m_Kind := "*";
       m_Namespaces := Some (Slice 3 0 0 4); m_SyncFields := Some (Slice 3 2 2 2) |}];
  ASyncers [{| m_TypeMeta := {| tm_Kind := "KRMSyncer"; tm_APIVersion := "v1alpha1" |};
    m_ObjectMeta := ("ns", "syncer", Some (Slice 0 0 1 1));
    m_Spec := {| m_Suspend := false; m_Mode := ModePush; m_Remote := Some (Ref 2 0);
      m_Rules := Some (Slice 4 0 2 2) |};
    m_Status := {| m_Conditions := None |} |}];
  ALists [{| m_ListTypeMeta := {| tm_Kind := "KRMSyncerList"; tm_APIVersion := "v1alpha1" |};
    m_ListMeta := "7"; m_Items := Some (Slice 5 0 1 1) |}]].

Definition syncer_p : ref SyncerM := Ref 5 0.
Definition list_p : ref ListM := Ref 6 0.

Definition syncer_v : SyncerV := {|
  m_TypeMeta := {| tm_Kind := "KRMSyncer"; tm_APIVersion := "v1alpha1" |};
  m_ObjectMeta := ("ns", "syncer", Some ["finalizer"]);
  m_Spec := {| m_Suspend := false; m_Mode := ModePush;
    m_Remote := Some {| m_GKECluster := Some {| gke_Project := "p"; gke_Location := "l";
      gke_Name := "n"; gke_Endpoint := "DNS" |} |};
    m_Rules := Some [
      {| m_Group := "apps"; m_Version := "v1"; m_Kind := "Deployment";
         m_Namespaces := Some ["a"; "b"]; m_SyncFields := None |};
      {| m_Group := "apps"; m_Version := "v1"; m_Kind := "*";
         m_Namespaces := Some []; m_SyncFields := Some ["spec"; "status"] |}] |};
  m_Status := {| m_Conditions := None |} |}.

Example memory_means : value memory (Some syncer_p : goptr SyncerM) = Some (Some syncer_v).
Proof. reflexivity. Qed.

(** The copy: the struct, its finalizers, the remote, the cluster, the rules and their three
    slices. *)
Example copy_in_memory : ∃ h', KRMSyncer_DeepCopy (Some syncer_p) memory = Some (Some (Ref 7 0), h') ∧
  reach h' (Some (Ref 7 0) : goptr SyncerM) = [7; 8; 9; 10; 11; 12; 13; 14] ∧
  value h' (Some (Ref 7 0) : goptr SyncerM) = Some (Some syncer_v).
Proof. eexists. split; [reflexivity|]. split; reflexivity. Qed.
End Example_memory.
Import Example_memory.

Lemma DeepCopy_is_deep_witness :
  value memory (Some syncer_p : goptr SyncerM) =
    Some (Some syncer_v) ∧
  ∃ q h', KRMSyncer_DeepCopy (Some syncer_p) memory =
      Some (Some q, h') ∧
    fresh_copy memory h' (Some q : goptr SyncerM) (Some syncer_v).
Proof.
  split; [reflexivity|].
  destruct DeepCopy_is_deep as (_ & _ & _ & _ & _ & [_ Hdeep] & _).
  destruct (Hdeep memory syncer_p syncer_v)
    as (q & h' & Hq & _ & Hc); [reflexivity|]. exists q, h'. split; [exact Hq|exact Hc].
Defined.

(** Emptying an array of strings of the copy leaves the original as it is. *)
Lemma DeepCopy_is_independent_witness :
  ∃ h', KRMSyncer_DeepCopy (Some syncer_p) memory = Some (Some (Ref 7 0), h') ∧
    12 ∈ reach h' (Some (Ref 7 0) : goptr SyncerM) ∧
    value (<[12 := AStrings []]> h') (Some syncer_p : goptr SyncerM) = Some (Some syncer_v).
Proof.
  destruct copy_in_memory as (h' & Hf & Hr & _). exists h'. split; [exact Hf|].
  assert (H12 : 12 ∈ reach h' (Some (Ref 7 0) : goptr SyncerM)).
  { rewrite Hr. do 5 right. left. }
  split; [exact H12|].
  refine (proj1 (DeepCopy_is_independent memory syncer_p syncer_v (Ref 7 0) h' _ Hf) _ _);
    [reflexivity|].
  intros l _ Hl. apply list_lookup_insert_ne. intros <-. exact (Hl H12).
Defined.

Lemma DeepCopyObject_types_witness :
  ∃ q h', KRMSyncerList_DeepCopyObject (Some list_p) memory =
      Some (Some (ObjKRMSyncerList (Some q)), h').
Proof.
  destruct (DeepCopyObject_types memory) as (_ & _ & _ & Hlist).
  edestruct (Hlist list_p) as (q & h' & Hq & _); [reflexivity|].
  exists q, h'. exact Hq.
Defined.
