(* ===== verification/Fake.v ===== *)
(** * A concrete implementation of the library interfaces

    The classes of [Kube.v] implemented by executable functions, with proofs of their
    laws. The components never mention this file's functions; it exists so that their
    theorems can be applied to concrete data and evaluated. The instances are local: a
    section that uses them says so. *)

From stdpp Require Import base list strings gmap.
From Stdlib Require Import Ascii.
From S2P Require Import Prelude GoStrings Kube Api.

(** ** Errors *)

Inductive fake_error : Type :=
| FNotFound
| FAlreadyExists
| FGroupDiscovery
| FOther (text : string).

#[export] Instance fake_error_eq_dec : EqDecision fake_error.
Proof. solve_decision. Defined.

#[local] Instance FakeErrors : ApiErrors := {|
  api_error := fake_error;
  api_error_text e := match e with
    | FNotFound => "not found"
    | FAlreadyExists => "already exists"
    | FGroupDiscovery => "unable to retrieve the complete list of server APIs"
    | FOther t => t
    end;
  IsNotFound e := bool_decide (e = FNotFound);
  IsAlreadyExists e := bool_decide (e = FAlreadyExists);
  IsGroupDiscoveryFailedError e := bool_decide (e = FGroupDiscovery);
  Quote s := String (ascii_of_nat 34) (s +:+ String (ascii_of_nat 34) "");
|}.

(** ** Group versions *)

Definition fake_parse (s : string) : res fake_error GroupVersion :=
  match Split "/" s with
  | [v] => Ok (GV "" v)
  | [g; v] => Ok (GV g v)
  | _ => Err (FOther "unexpected GroupVersion string")
  end.

#[local] Instance FakeParser : GroupVersionParser := {| ParseGroupVersion := fake_parse |}.

(** ** Unstructured objects *)

Fixpoint fake_read (o : object) (p : list string) : res goerr (option value) :=
  match p with
  | [] => Ok (Some (VMap o))
  | f :: p' =>
      match p' with
      | [] => Ok (o !! f)
      | _ =>
          match o !! f with
          | None | Some VNull => Ok None
          | Some (VMap m) => fake_read m p'
          | Some _ => Err (EStd "accessor error")
          end
      end
  end.

Fixpoint fake_write (o : object) (v : value) (p : list string) : res goerr object :=
  match p with
  | [] => Ok o
  | f :: p' =>
      match p' with
      | [] => Ok (<[f:=v]> o)
      | _ =>
          let under m :=
            match fake_write m v p' with
            | Ok m' => Ok (<[f:=VMap m']> o)
            | Err e => Err e
            end in
          match o !! f with
          | None => under ∅
          | Some (VMap m) => under m
          | Some _ => Err (EStd "value cannot be set")
          end
      end
  end.

Definition put_or_remove (f : string) (v : option value) (m : object) : object :=
  match v with Some v => <[f:=v]> m | None => delete f m end.

Definition fake_set_meta (f : string) (v : option value) (o : object) : object :=
  match o !! "metadata" with
  | Some (VMap m) => <["metadata" := VMap (put_or_remove f v m)]> o
  | None => match v with
      | Some _ => <["metadata" := VMap (put_or_remove f v ∅)]> o
      | None => o
      end
  | Some _ => o
  end.

Definition fake_string (o : object) (p : list string) : string := string_at (fake_read o p).

Definition value_string (v : value) : option string :=
  match v with VString s => Some s | _ => None end.

Definition fake_string_map (o : object) (f : string) : option (gmap string string) :=
  match fake_read o ["metadata"; f] with
  | Ok (Some (VMap m)) =>
      if bool_decide (map_Forall (λ _ v, is_Some (value_string v)) m)
      then Some (omap value_string m) else None
  | _ => None
  end.

Definition fake_api_version (g : GroupVersionKind) : string :=
  if bool_decide (gvk_Group g = "") then gvk_Version g
  else gvk_Group g +:+ String "/" (gvk_Version g).

Definition fake_gvk (o : object) : GroupVersionKind :=
  match fake_parse (fake_string o ["apiVersion"]) with
  | Ok gv => GVK (gv_Group gv) (gv_Version gv) (fake_string o ["kind"])
  | Err _ => GVK "" "" ""
  end.

#[local] Instance FakeUnstructured : Unstructured := {|
  NestedFieldCopy := fake_read;
  SetNestedField := fake_write;
  GroupVersionKind_of := fake_gvk;
  SetGroupVersionKind g o :=
    <["kind" := VString (gvk_Kind g)]> (<["apiVersion" := VString (fake_api_version g)]> o);
  GetAPIVersion o := fake_string o ["apiVersion"];
  GetKind o := fake_string o ["kind"];
  GetName o := fake_string o ["metadata"; "name"];
  SetName s := fake_set_meta "name" (string_field s);
  GetNamespace o := fake_string o ["metadata"; "namespace"];
  SetNamespace s := fake_set_meta "namespace" (string_field s);
  GetLabels o := fake_string_map o "labels";
  SetLabels l := fake_set_meta "labels" (string_map <$> l);
  GetAnnotations o := fake_string_map o "annotations";
  SetAnnotations l := fake_set_meta "annotations" (string_map <$> l);
  SetResourceVersion s := fake_set_meta "resourceVersion" (string_field s);
  SetUID s := fake_set_meta "uid" (string_field s);
  SetGeneration z :=
    fake_set_meta "generation" (if bool_decide (z = 0%Z) then None else Some (VInt z));
  SetManagedFields l := fake_set_meta "managedFields" (VList <$> l);
|}.

Lemma put_or_remove_eq f v m : put_or_remove f v m !! f = v.
Proof. destruct v; simpl; [apply lookup_insert_eq|apply lookup_delete_eq]. Qed.

Lemma put_or_remove_ne f g v m : f ≠ g → put_or_remove f v m !! g = m !! g.
Proof. intros. destruct v; simpl; [by apply lookup_insert_ne|by apply lookup_delete_ne]. Qed.

(** Reading below two maps that agree on a field. *)
Lemma fake_read_cong m1 m2 f p : m1 !! f = m2 !! f → fake_read m1 (f :: p) = fake_read m2 (f :: p).
Proof. intros H. simpl. by rewrite H. Qed.

Lemma disjoint_head f p g q : f ≠ g → disjoint_paths (f :: p) (g :: q).
Proof. intros Hne. by split; intros [=]%prefix_cons_inv_1. Qed.

Lemma fake_read_meta o m f p :
  o !! "metadata" = Some (VMap m) →
  fake_read o ("metadata" :: f :: p) = fake_read m (f :: p).
Proof. intros H. cbn [fake_read]. by rewrite H. Qed.

Lemma fake_set_meta_writes f v : writes (fake_set_meta f v) ["metadata"; f] v.
Proof.
  intros o Hok. unfold fake_set_meta.
  assert (Hdisj : ∀ g p, disjoint_paths ["metadata"; f] ("metadata" :: g :: p) → f ≠ g).
  { intros g p [Hp _] ->. apply Hp. by exists p. }
  assert (Hcase : ∀ m, (∀ g p, f ≠ g → fake_read o ("metadata" :: g :: p) = fake_read m (g :: p)) →
    let o' := <["metadata" := VMap (put_or_remove f v m)]> o in
    meta_ok o' ∧ fake_read o' ["metadata"; f] = Ok v ∧
    ∀ q, q ≠ [] → disjoint_paths ["metadata"; f] q → fake_read o' q = fake_read o q).
  { intros m Hm o'. assert (Ho' : o' !! "metadata" = Some (VMap (put_or_remove f v m)))
      by apply lookup_insert_eq.
    split; [right; eauto|]. split.
    - rewrite (fake_read_meta _ _ _ _ Ho'). cbn [fake_read]. by rewrite put_or_remove_eq.
    - intros [|g [|h q]] Hq Hd; [done|..];
        (destruct (decide (g = "metadata")) as [->|Hg];
         [|apply fake_read_cong, lookup_insert_ne; congruence]).
      + exfalso. apply Hd. by exists [f].
      + apply Hdisj in Hd. rewrite (fake_read_meta _ _ _ _ Ho'), Hm by done.
        apply fake_read_cong. by apply put_or_remove_ne. }
  destruct Hok as [Hnone|[m Hm]].
  - rewrite Hnone. destruct v as [v|].
    + apply (Hcase ∅). intros g p Hg. cbn [fake_read]. rewrite Hnone.
      by destruct p; cbn [fake_read]; rewrite lookup_empty.
    + split; [by left|]. split; [|done]. cbn. by rewrite Hnone.
  - rewrite Hm. apply Hcase. intros g p _. by apply fake_read_meta.
Qed.

Lemma fake_parse_api_version g :
  gvk_wf g → fake_parse (fake_api_version g) = Ok (GV (gvk_Group g) (gvk_Version g)).
Proof.
  intros [Hg Hv]. unfold fake_parse, fake_api_version. case_bool_decide as Heq.
  - by rewrite Heq, Split_free.
  - by rewrite Split_cons, Split_free.
Qed.

#[local] Instance FakeUnstructuredLaws : UnstructuredLaws.
Proof.
  constructor; cbn -[fake_read fake_write]; try done; try (intros; apply fake_set_meta_writes).
  - intros o f [|g p] m Hp Ho; [done|]. cbn [fake_read]. by rewrite Ho.
  - intros o f [|g p] Hp Ho; [done|]. cbn [fake_read]. by rewrite Ho.
  - intros o f [|g p] w v Hp Ho Hw; [done|]. cbn [fake_read]. rewrite Ho.
    destruct w as [m| | | | | |]; try done. exfalso; by apply (Hw m).
  - intros o v f [|g p] m Hp Ho; [done|]. cbn [fake_write]. by rewrite Ho.
  - intros o v f [|g p] Hp Ho; [done|]. cbn [fake_write]. by rewrite Ho.
  - intros o v f [|g p] w Hp Ho Hw; [done|]. cbn [fake_write]. rewrite Ho.
    destruct w as [m| | | | | |]; try done. exfalso; by apply (Hw m).
  - intros g o Hg. unfold fake_gvk, fake_string. cbn -[fake_api_version].
    rewrite lookup_insert_ne, !lookup_insert_eq by done. simpl.
    rewrite fake_parse_api_version by done. by destruct g.
  - intros g o [|f q] Hq H1 H2; [done|]. apply fake_read_cong.
    destruct (decide (f = "kind")) as [->|Hk]; [destruct H2 as [H2 _]; destruct H2; by exists q|].
    destruct (decide (f = "apiVersion")) as [->|Ha]; [destruct H1 as [H1 _]; destruct H1; by exists q|].
    by rewrite !lookup_insert_ne by congruence.
  - intros o1 o2 H1 H2. unfold fake_gvk. by rewrite H1, H2.
  - intros o1 o2 H1 H2. unfold fake_gvk, fake_string. by rewrite H1, H2.
Qed.
