(* ===== verification/Rules.v ===== *)
(** * Resource rules: validation, expansion to kinds, and matching

    [validateRule] and [expandRule] decide which watches a KRMSyncer needs when it is set
    up; [ruleMatchesGVK] decides, for every object event, whether a rule applies. The
    theorems relate the three. *)

From stdpp Require Import base list strings gmap.
From Stdlib Require Import Ascii.
From S2P Require Import Prelude GoStrings Kube Api Fake.

Definition KCCGlobGroup : string := "*.cnrm.cloud.google.com".
Definition KCCGroup : string := "cnrm.cloud.google.com".
Definition KCCSuffix : string := ".cnrm.cloud.google.com".

Definition hasGlob (rule : ResourceRule) : bool :=
  Contains (rule_Group rule) "*" || Contains (rule_Version rule) "*" ||
  Contains (rule_Kind rule) "*".

(** The test on the group that [validateRule], [expandRule] and [ruleMatchesGVK] share. *)
Definition isKCC (rule : ResourceRule) : bool :=
  bool_decide (rule_Group rule = KCCGlobGroup) ||
  HasSuffix (rule_Group rule) KCCSuffix ||
  bool_decide (rule_Group rule = KCCGroup).

Definition isKCCGlob (rule : ResourceRule) : bool :=
  isKCC rule && bool_decide (rule_Version rule = "*") && bool_decide (rule_Kind rule = "*").

Definition rule_gvk (rule : ResourceRule) : GroupVersionKind :=
  GVK (rule_Group rule) (rule_Version rule) (rule_Kind rule).

Section Rules.
Context `{ApiErrors}.

Definition invalidGlob : goerr :=
  Errorf "globbing ('*') is only allowed for version and kind if group is KCC (e.g. *.cnrm.cloud.google.com)" [].

Definition validateRule (rule : ResourceRule) : option goerr :=
  if hasGlob rule then
    if negb (isKCC rule) || bool_decide (rule_Version rule ≠ "*") ||
       bool_decide (rule_Kind rule ≠ "*")
    then Some invalidGlob
    else None
  else None.

Context `{!GroupVersionParser}.

Definition groupMatch (rule : ResourceRule) (gv : GroupVersion) : bool :=
  if bool_decide (rule_Group rule = KCCGlobGroup)
  then HasSuffix (gv_Group gv) KCCGroup
  else bool_decide (gv_Group gv = rule_Group rule).

(** The kinds of one resource list of the discovery result; subresources ("a/b") are
    skipped. *)
Definition expand_resource (gv : GroupVersion) (r : APIResource) : option GroupVersionKind :=
  if Contains (ar_Name r) "/" then None
  else Some (GVK (gv_Group gv) (gv_Version gv) (ar_Kind r)).

Definition expand_list (rule : ResourceRule) (rl : APIResourceList) : list GroupVersionKind :=
  match ParseGroupVersion (arl_GroupVersion rl) with
  | Err _ => []
  | Ok gv =>
      if groupMatch rule gv then omap (expand_resource gv) (arl_APIResources rl) else []
  end.

Definition expandRule (rule : ResourceRule) (resourceLists : list APIResourceList) :
    res goerr (list GroupVersionKind) :=
  match validateRule rule with
  | Some err => Err err
  | None =>
      if isKCCGlob rule then Ok (resourceLists ≫= expand_list rule)
      else Ok [rule_gvk rule]
  end.

Definition ruleMatchesGVK (rule : ResourceRule) (gvk : GroupVersionKind) : bool :=
  if isKCCGlob rule then
    if bool_decide (rule_Group rule = KCCGlobGroup)
    then HasSuffix (gvk_Group gvk) KCCGroup
    else bool_decide (gvk_Group gvk = rule_Group rule)
  else
    bool_decide (rule_Group rule = gvk_Group gvk) &&
    bool_decide (rule_Version rule = gvk_Version gvk) &&
    bool_decide (rule_Kind rule = gvk_Kind gvk).

(** [gvk] is the kind of a resource (not a subresource) that discovery lists. *)
Definition served (resourceLists : list APIResourceList) (gvk : GroupVersionKind) : Prop :=
  ∃ rl gv r, rl ∈ resourceLists ∧ ParseGroupVersion (arl_GroupVersion rl) = Ok gv ∧
    r ∈ arl_APIResources rl ∧ has_byte "/" (ar_Name r) = false ∧
    gvk = GVK (gv_Group gv) (gv_Version gv) (ar_Kind r).

(** ** Lemmas *)

Lemma isKCCGlob_spec rule :
  isKCCGlob rule = true ↔ isKCC rule = true ∧ rule_Version rule = "*" ∧ rule_Kind rule = "*".
Proof. unfold isKCCGlob. rewrite !andb_true_iff, !bool_decide_eq_true. tauto. Qed.

Lemma hasGlob_spec rule :
  hasGlob rule = true ↔ has_byte "*" (rule_Group rule) = true ∨
    has_byte "*" (rule_Version rule) = true ∨ has_byte "*" (rule_Kind rule) = true.
Proof.
  unfold hasGlob. rewrite (Contains_byte (rule_Group rule) "*"),
    (Contains_byte (rule_Version rule) "*"), (Contains_byte (rule_Kind rule) "*").
  rewrite !orb_true_iff. tauto.
Qed.

(** A KCC glob has a "*", so the set up runs discovery before it expands one. *)
Lemma isKCCGlob_hasGlob rule : isKCCGlob rule = true → hasGlob rule = true.
Proof.
  intros (_ & Hv & _)%isKCCGlob_spec. apply hasGlob_spec. rewrite Hv. auto.
Qed.

Lemma validateRule_None rule :
  validateRule rule = None ↔ hasGlob rule = false ∨ isKCCGlob rule = true.
Proof.
  unfold validateRule, isKCCGlob. destruct (hasGlob rule); [|tauto].
  destruct (isKCC rule); cbn; [|split; [done|by intros [|]]].
  destruct (decide (rule_Version rule = "*")) as [Hv|Hv].
  - rewrite (bool_decide_eq_false_2 (_ ≠ _)), (bool_decide_eq_true_2 (_ = _)) by tauto. cbn.
    destruct (decide (rule_Kind rule = "*")) as [Hk|Hk].
    + rewrite bool_decide_eq_false_2, bool_decide_eq_true_2 by tauto. tauto.
    + rewrite bool_decide_eq_true_2, bool_decide_eq_false_2 by tauto. naive_solver.
  - rewrite (bool_decide_eq_true_2 (_ ≠ _)), (bool_decide_eq_false_2 (_ = _)) by tauto.
    naive_solver.
Qed.

Lemma groupMatch_matches rule gv gvk :
  isKCCGlob rule = true → gvk_Group gvk = gv_Group gv →
  ruleMatchesGVK rule gvk = groupMatch rule gv.
Proof. intros Hk Hg. unfold ruleMatchesGVK, groupMatch. by rewrite Hk, Hg. Qed.

Lemma expand_resource_spec gv r gvk :
  expand_resource gv r = Some gvk ↔
    has_byte "/" (ar_Name r) = false ∧ gvk = GVK (gv_Group gv) (gv_Version gv) (ar_Kind r).
Proof.
  unfold expand_resource. rewrite (Contains_byte (ar_Name r) "/").
  destruct (has_byte "/" (ar_Name r)); naive_solver.
Qed.

Lemma expand_resource_group gv r gvk :
  expand_resource gv r = Some gvk → gvk_Group gvk = gv_Group gv.
Proof. unfold expand_resource. by destruct (Contains _ _); intros [= <-]. Qed.

Lemma elem_of_expand_list rule rl gvk :
  gvk ∈ expand_list rule rl ↔ ∃ gv r, ParseGroupVersion (arl_GroupVersion rl) = Ok gv ∧
    groupMatch rule gv = true ∧ r ∈ arl_APIResources rl ∧ expand_resource gv r = Some gvk.
Proof.
  unfold expand_list. destruct (ParseGroupVersion _) as [gv|e].
  - destruct (groupMatch rule gv) eqn:Hm.
    + rewrite list_elem_of_omap. naive_solver.
    + split; [by intros ?%elem_of_nil|naive_solver congruence].
  - split; [by intros ?%elem_of_nil|naive_solver].
Qed.

Lemma expandRule_KCC rule lists gvk :
  isKCCGlob rule = true →
  gvk ∈ lists ≫= expand_list rule ↔ served lists gvk ∧ ruleMatchesGVK rule gvk = true.
Proof.
  intros Hk. rewrite list_elem_of_bind. unfold served. split.
  - intros (rl & (gv & r & Hp & Hm & Hr & He)%elem_of_expand_list & Hrl).
    split; [exists rl, gv, r; by rewrite <-expand_resource_spec|].
    rewrite (groupMatch_matches rule gv) by eauto using expand_resource_group. done.
  - intros [(rl & gv & r & Hrl & Hp & Hr & He%expand_resource_spec) Hm]. exists rl. split; [|done].
    apply elem_of_expand_list. exists gv, r. repeat split; try done.
    rewrite <-(groupMatch_matches rule gv gvk) by eauto using expand_resource_group. done.
Qed.

Lemma ruleMatches_literal rule gvk :
  isKCCGlob rule = false → ruleMatchesGVK rule gvk = true ↔ gvk = rule_gvk rule.
Proof.
  intros Hk. unfold ruleMatchesGVK, rule_gvk. rewrite Hk.
  rewrite !andb_true_iff, !bool_decide_eq_true. destruct gvk; simpl. naive_solver.
Qed.

(** ** Properties *)

(** [C17] Set up and event handling agree on every rule: a kind is watched because of a
    rule that passes validation exactly if the rule matches it when an event arrives
    and, for a KCC glob, discovery serves it. So no watch is started whose events the
    rule ignores, and no served kind the rule matches is left unwatched. *)
Theorem expandRule_ruleMatchesGVK rule lists gvks gvk :
  expandRule rule lists = Ok gvks →
  gvk ∈ gvks ↔
    ruleMatchesGVK rule gvk = true ∧ (isKCCGlob rule = true → served lists gvk).
Proof.
  unfold expandRule. destruct (validateRule rule); [done|].
  destruct (isKCCGlob rule) eqn:Hk; intros [= <-].
  - rewrite expandRule_KCC by done. tauto.
  - rewrite list_elem_of_singleton, ruleMatches_literal by done. naive_solver.
Qed.

(** A rule is rejected exactly if one of its three parts holds a "*" and it is not
    a KCC glob (a KCC group with version and kind "*"), always with the same error; the
    expansion of an accepted rule without glob is its own kind, which has no "*". *)
Theorem expandRule_validates rule lists :
  match expandRule rule lists with
  | Err e => e = invalidGlob ∧ hasGlob rule = true ∧ isKCCGlob rule = false
  | Ok gvks => hasGlob rule = true ∧ isKCCGlob rule = true ∨
      gvks = [rule_gvk rule] ∧ has_byte "*" (rule_Group rule) = false ∧
      has_byte "*" (rule_Version rule) = false ∧ has_byte "*" (rule_Kind rule) = false
  end.
Proof.
  unfold expandRule. destruct (validateRule rule) as [e|] eqn:Hv.
  - assert (Hn : validateRule rule ≠ None) by congruence.
    rewrite validateRule_None in Hn. unfold validateRule in Hv.
    destruct (hasGlob rule), (isKCCGlob rule); try tauto.
    destruct (_ || _); [by injection Hv as <-|done].
  - apply validateRule_None in Hv as [Hg|Hk].
    + destruct (isKCCGlob rule) eqn:Hk; [by rewrite isKCCGlob_hasGlob in Hg|].
      right. split; [done|]. apply not_true_iff_false in Hg. rewrite hasGlob_spec in Hg.
      rewrite <-!not_true_iff_false. tauto.
    + rewrite Hk. left. by rewrite isKCCGlob_hasGlob.
Qed.

(** The group glob "*.cnrm.cloud.google.com" matches every group that ends in
    "cnrm.cloud.google.com", the bare group and groups with no dot before the suffix
    included. *)
Theorem KCCGlob_matches_suffix rule gvk :
  rule_Group rule = KCCGlobGroup → rule_Version rule = "*" → rule_Kind rule = "*" →
  ruleMatchesGVK rule gvk = true ↔ ∃ prefix, gvk_Group gvk = prefix +:+ "cnrm.cloud.google.com".
Proof.
  intros Hg Hv Hk. unfold ruleMatchesGVK.
  replace (isKCCGlob rule) with true.
  2: { symmetry. apply isKCCGlob_spec. unfold isKCC. by rewrite Hg, bool_decide_eq_true_2. }
  rewrite Hg, bool_decide_eq_true_2 by done. apply HasSuffix_spec.
Qed.

(** A KCC glob with any other "*" in its group (such as
    "pubsub*.cnrm.cloud.google.com") passes validation, but the group is then compared
    literally: when no served group has a "*" in its name the rule expands to nothing,
    without an error. *)
Theorem partial_group_glob_expands_to_nothing rule prefix lists :
  rule_Group rule = prefix +:+ KCCSuffix → rule_Group rule ≠ KCCGlobGroup →
  has_byte "*" (rule_Group rule) = true → rule_Version rule = "*" → rule_Kind rule = "*" →
  (∀ rl gv, rl ∈ lists → ParseGroupVersion (arl_GroupVersion rl) = Ok gv →
    has_byte "*" (gv_Group gv) = false) →
  validateRule rule = None ∧ expandRule rule lists = Ok [].
Proof.
  intros Hg Hne Hb Hv Hk Hlists.
  assert (HK : isKCCGlob rule = true).
  { apply isKCCGlob_spec. split; [|done]. unfold isKCC. rewrite Hg, HasSuffix_app.
    by rewrite orb_true_r. }
  assert (HV : validateRule rule = None) by (apply validateRule_None; auto).
  split; [done|]. unfold expandRule. rewrite HV, HK. f_equal.
  induction lists as [|rl lists IH]; [done|]. rewrite bind_cons, IH by set_solver.
  rewrite app_nil_r. unfold expand_list.
  destruct (ParseGroupVersion _) as [gv|] eqn:Hp; [|done].
  unfold groupMatch. rewrite bool_decide_eq_false_2 by done.
  case_bool_decide as Heq; [|done].
  specialize (Hlists rl gv ltac:(apply elem_of_cons; by left) Hp). congruence.
Qed.
End Rules.

(** ** Witnesses *)

Section RulesWitnesses.
#[local] Existing Instance FakeErrors.
#[local] Existing Instance FakeParser.

Definition glob_rule (group : string) : ResourceRule :=
  {| rule_Group := group; rule_Version := "*"; rule_Kind := "*";
     rule_Namespaces := []; rule_SyncFields := ["status"] |}.

Definition demo_lists : list APIResourceList :=
  [ {| arl_GroupVersion := "pubsub.cnrm.cloud.google.com/v1beta1";
       arl_APIResources :=
         [ {| ar_Name := "pubsubtopics"; ar_Kind := "PubSubTopic"; ar_Verbs := ["list"] |};
           {| ar_Name := "pubsubtopics/status"; ar_Kind := "PubSubTopic"; ar_Verbs := [] |} ] |};
    {| arl_GroupVersion := "v1";
       arl_APIResources :=
         [ {| ar_Name := "services"; ar_Kind := "Service"; ar_Verbs := ["list"] |} ] |} ].

Definition demo_topic : GroupVersionKind :=
  GVK "pubsub.cnrm.cloud.google.com" "v1beta1" "PubSubTopic".

Lemma expandRule_ruleMatchesGVK_witness :
  expandRule (glob_rule KCCGlobGroup) demo_lists = Ok [demo_topic] ∧
  (demo_topic ∈ [demo_topic] ↔
    ruleMatchesGVK (glob_rule KCCGlobGroup) demo_topic = true ∧
    (isKCCGlob (glob_rule KCCGlobGroup) = true → served demo_lists demo_topic)).
Proof.
  split; [reflexivity|].
  apply (expandRule_ruleMatchesGVK (glob_rule KCCGlobGroup) demo_lists). reflexivity.
Defined.

Lemma KCCGlob_matches_suffix_witness :
  ruleMatchesGVK (glob_rule KCCGlobGroup) (GVK "evilcnrm.cloud.google.com" "v1" "K") = true ↔
  ∃ prefix, "evilcnrm.cloud.google.com" = prefix +:+ "cnrm.cloud.google.com".
Proof.
  apply (KCCGlob_matches_suffix (glob_rule KCCGlobGroup)
    (GVK "evilcnrm.cloud.google.com" "v1" "K")); reflexivity.
Defined.

Lemma partial_group_glob_expands_to_nothing_witness :
  validateRule (glob_rule "pubsub*.cnrm.cloud.google.com") = None ∧
  expandRule (glob_rule "pubsub*.cnrm.cloud.google.com") demo_lists = Ok [].
Proof.
  apply (partial_group_glob_expands_to_nothing _ "pubsub*" demo_lists); try reflexivity.
  - discriminate.
  - intros rl gv Hrl. unfold demo_lists in Hrl.
    repeat (apply elem_of_cons in Hrl as [->|Hrl]; [intros [= <-]; reflexivity|]).
    by apply elem_of_nil in Hrl.
Defined.
End RulesWitnesses.
