(* ===== verification/FieldFilter.v ===== *)
(** * The object sent to the destination: [filterFields] and [isFullSync]

    The copy of a source object that holds its identity, the fields the rule syncs and,
    when the full "spec" is synced, its labels and annotations. The main theorem compares
    the copying loop with a direct description of its result. *)

From stdpp Require Import base list strings gmap.
From Stdlib Require Import Ascii.
From S2P Require Import Prelude GoStrings Kube Api Fake.

(** The sync fields include the full "spec"; otherwise the syncer is in status mode. *)
Definition isFullSync (fields : list string) : bool :=
  existsb (λ field, bool_decide (field = "spec")) fields.

Section FieldFilter.
Context `{Unstructured}.

Definition identity_of (src : object) : object :=
  SetNamespace (GetNamespace src)
    (SetName (GetName src) (SetGroupVersionKind (GroupVersionKind_of src) ∅)).

(** The loop of [filterFields]. *)
Fixpoint copyFields (src : object) (fields : list string) (dest : object) :
    res goerr object :=
  match fields with
  | [] => Ok dest
  | field :: fields' =>
      let parts := Split "." field in
      match NestedFieldCopy src parts with
      | Err err => Err (ErrorfV "failed to get field %s: %v" [field] err)
      | Ok None => copyFields src fields' dest
      | Ok (Some val) =>
          match SetNestedField dest val parts with
          | Err err => Err (ErrorfV "failed to set field %s: %v" [field] err)
          | Ok dest' => copyFields src fields' dest'
          end
      end
  end.

Definition filterFields (src : object) (fields : list string) : res goerr object :=
  let dest := identity_of src in
  let dest :=
    if isFullSync fields
    then SetAnnotations (GetAnnotations src) (SetLabels (GetLabels src) dest)
    else dest in
  copyFields src fields dest.

(** The server-side fields [Reconcile] clears before it sends the object. *)
Definition clearServerFields (destObj : object) : object :=
  SetManagedFields None (SetGeneration 0 (SetUID "" (SetResourceVersion "" destObj))).

(** ** The result, described directly *)

(** The sync fields the CRD admits
    ([+kubebuilder:validation:items:Enum=spec;status;spec.resourceID]). *)
Definition crd_field (f : string) : Prop := f ∈ ["spec"; "status"; "spec.resourceID"].

(** Of the spec only its resource ID. *)
Definition resourceID_only (spec : option value) : option value :=
  match spec with
  | Some (VMap m) => (λ v, VMap {["resourceID" := v]}) <$> m !! "resourceID"
  | _ => None
  end.

Definition expected_spec (src : object) (fields : list string) : option value :=
  if decide ("spec" ∈ fields) then src !! "spec"
  else if decide ("spec.resourceID" ∈ fields) then resourceID_only (src !! "spec")
  else None.

Definition expected_status (src : object) (fields : list string) : option value :=
  if decide ("status" ∈ fields) then src !! "status" else None.

End FieldFilter.

(** ** Lemmas *)

Section FieldFilterLemmas.
Context `{UL : UnstructuredLaws}.

Lemma writes_top f k p v o :
  writes f ("metadata" :: p) v → meta_ok o → k ≠ "metadata" → f o !! k = o !! k.
Proof.
  intros Hf Ho Hk. destruct (Hf o Ho) as (_ & _ & Hq).
  specialize (Hq [k] ltac:(done)). rewrite !nested_read_one in Hq.
  apply (inj (@Ok goerr _)), Hq. by apply disjoint_head.
Qed.

Lemma set_gvk_top g o k :
  k ≠ "apiVersion" → k ≠ "kind" → SetGroupVersionKind g o !! k = o !! k.
Proof.
  intros Ha Hk. apply (inj (@Ok goerr _)). rewrite <-!nested_read_one.
  by apply set_gvk_other; [|apply disjoint_head..].
Qed.

(** Where [f] writes one metadata field, the object keeps its other metadata fields. *)
Lemma writes_meta_other f a b v o :
  writes f ["metadata"; a] v → meta_ok o → a ≠ b →
  NestedFieldCopy (f o) ["metadata"; b] = NestedFieldCopy o ["metadata"; b].
Proof.
  intros Hf Ho Hne. destruct (Hf o Ho) as (_ & _ & Hq). apply Hq; [done|].
  split; intros ?%prefix_cons_inv_2%prefix_cons_inv_1; congruence.
Qed.

Lemma writes_meta_same f a v o :
  writes f ["metadata"; a] v → meta_ok o → NestedFieldCopy (f o) ["metadata"; a] = Ok v.
Proof. intros Hf Ho. by destruct (Hf o Ho) as (_ & ? & _). Qed.

Lemma writes_meta_ok f p v o : writes f p v → meta_ok o → meta_ok (f o).
Proof. intros Hf Ho. by destruct (Hf o Ho). Qed.

Lemma meta_ok_ext o o' : o !! "metadata" = o' !! "metadata" → meta_ok o → meta_ok o'.
Proof. unfold meta_ok. by intros ->. Qed.

(** Reads below "metadata" see only the field "metadata". *)
Lemma read_meta_ext o o' p :
  meta_ok o → o !! "metadata" = o' !! "metadata" →
  NestedFieldCopy o ("metadata" :: p) = NestedFieldCopy o' ("metadata" :: p).
Proof.
  intros Hok Heq. destruct p as [|f p].
  { by rewrite !nested_read_one, Heq. }
  destruct Hok as [Hn|[m Hm]].
  - by rewrite (nested_read_missing o), (nested_read_missing o') by (done || congruence).
  - by rewrite (nested_read_map o _ _ m), (nested_read_map o' _ _ m) by (done || congruence).
Qed.

(** *** The identity *)

Lemma meta_ok_empty g : meta_ok (SetGroupVersionKind g ∅).
Proof. left. by rewrite set_gvk_top by done. Qed.

(** An object with just a kind, a name and a namespace: [identity_of] and the object that
    names what to delete. *)
Definition stub (g : GroupVersionKind) (name ns : string) : object :=
  SetNamespace ns (SetName name (SetGroupVersionKind g ∅)).

Lemma named_ok g name : meta_ok (SetName name (SetGroupVersionKind g ∅)).
Proof. eapply writes_meta_ok; [apply set_name|apply meta_ok_empty]. Qed.

Lemma stub_ok g name ns : meta_ok (stub g name ns).
Proof. eapply writes_meta_ok; [apply set_namespace|apply named_ok]. Qed.

Lemma stub_gvk_field g name ns k :
  k ≠ "metadata" → stub g name ns !! k = SetGroupVersionKind g ∅ !! k.
Proof.
  intros Hm. unfold stub.
  erewrite writes_top; [|apply set_namespace|apply named_ok|done].
  by erewrite writes_top; [|apply set_name|apply meta_ok_empty|done].
Qed.

Lemma stub_top g name ns k :
  k ≠ "metadata" → k ≠ "apiVersion" → k ≠ "kind" → stub g name ns !! k = None.
Proof. intros Hm Ha Hk. by rewrite stub_gvk_field, set_gvk_top. Qed.

Lemma stub_meta g name ns f :
  NestedFieldCopy (stub g name ns) ["metadata"; f] =
    Ok (if decide (f = "namespace") then string_field ns
        else if decide (f = "name") then string_field name else None).
Proof.
  unfold stub. assert (Hg := meta_ok_empty g). assert (Hn := named_ok g name).
  case_decide as H1; [subst f; by apply writes_meta_same with (1 := set_namespace _)|].
  erewrite writes_meta_other; [|apply set_namespace|done|congruence].
  case_decide as H2; [subst f; by apply writes_meta_same with (1 := set_name _)|].
  erewrite writes_meta_other; [|apply set_name|done|congruence].
  rewrite set_gvk_other; [|done|by apply disjoint_head..].
  by rewrite nested_read_missing.
Qed.

Lemma stub_gvk g name ns : gvk_wf g → GroupVersionKind_of (stub g name ns) = g.
Proof.
  intros Hwf. transitivity (GroupVersionKind_of (SetGroupVersionKind g ∅)); [|by apply set_gvk_get].
  apply get_gvk_fields; by rewrite !nested_read_one, stub_gvk_field.
Qed.

Lemma identity_ok src : meta_ok (identity_of src).
Proof. apply stub_ok. Qed.

Lemma identity_top src k :
  k ≠ "metadata" → k ≠ "apiVersion" → k ≠ "kind" → identity_of src !! k = None.
Proof. apply stub_top. Qed.

Lemma identity_meta src f :
  NestedFieldCopy (identity_of src) ["metadata"; f] =
    Ok (if decide (f = "namespace") then string_field (GetNamespace src)
        else if decide (f = "name") then string_field (GetName src) else None).
Proof. apply stub_meta. Qed.

Lemma string_at_field s : string_at (Ok (string_field s)) = s.
Proof. unfold string_field. case_bool_decide; by subst. Qed.

Lemma stub_name g name ns : GetName (stub g name ns) = name ∧ GetNamespace (stub g name ns) = ns.
Proof. rewrite get_name, get_namespace, !stub_meta. split; apply string_at_field. Qed.

(** *** The loop *)

(** What the loop has copied after the fields [seen], onto [base]. *)
Definition copied (src base : object) (seen : list string) (dest : object) : Prop :=
  dest !! "spec" = expected_spec src seen ∧ dest !! "status" = expected_status src seen ∧
  ∀ k, k ≠ "spec" → k ≠ "status" → dest !! k = base !! k.

Lemma expected_spec_snoc src seen f :
  expected_spec src (seen ++ [f]) =
    if decide (f = "spec") then src !! "spec"
    else if decide (f = "spec.resourceID") then
      (if decide ("spec" ∈ seen) then src !! "spec" else resourceID_only (src !! "spec"))
    else expected_spec src seen.
Proof.
  unfold expected_spec.
  rewrite (decide_ext ("spec" ∈ seen ++ [f]) ("spec" ∈ seen ∨ f = "spec"))
    by (rewrite elem_of_app, list_elem_of_singleton; naive_solver).
  rewrite (decide_ext ("spec.resourceID" ∈ seen ++ [f])
    ("spec.resourceID" ∈ seen ∨ f = "spec.resourceID"))
    by (rewrite elem_of_app, list_elem_of_singleton; naive_solver).
  repeat case_decide; (done || naive_solver).
Qed.

Lemma expected_status_snoc src seen f :
  expected_status src (seen ++ [f]) =
    if decide (f = "status") then src !! "status" else expected_status src seen.
Proof.
  unfold expected_status.
  rewrite (decide_ext ("status" ∈ seen ++ [f]) ("status" ∈ seen ∨ f = "status"))
    by (rewrite elem_of_app, list_elem_of_singleton; naive_solver).
  repeat case_decide; (done || naive_solver).
Qed.

Lemma expected_spec_absent src seen : src !! "spec" = None → expected_spec src seen = None.
Proof. unfold expected_spec. intros ->. by repeat case_decide. Qed.

Lemma expected_status_absent src seen :
  src !! "status" = None → expected_status src seen = None.
Proof. unfold expected_status. intros ->. by case_decide. Qed.

(** A top-level write of the source's own value. *)
Lemma copied_top src base seen dest f :
  f = "spec" ∨ f = "status" → copied src base seen dest →
  copied src base (seen ++ [f])
    (match src !! f with Some v => <[f := v]> dest | None => dest end).
Proof.
  intros Hf (Hspec & Hst & Ho). unfold copied.
  rewrite expected_spec_snoc, expected_status_snoc.
  destruct Hf as [-> | ->]; cbn [decide]; destruct (src !! _) as [v|] eqn:Hv; simpl;
    rewrite ?lookup_insert_eq, ?lookup_insert_ne by done;
    (split_and!; [..|intros k ??; rewrite ?lookup_insert_ne by done; by apply Ho]);
    try done; by rewrite ?Hspec, ?Hst, ?expected_spec_absent, ?expected_status_absent.
Qed.

(** Writing the value that is already there changes nothing. *)
Lemma write_nested_same (o : object) f g m v :
  o !! f = Some (VMap m) → m !! g = Some v → SetNestedField o v [f; g] = Ok o.
Proof.
  intros Hm Hv. rewrite (nested_write_map _ _ _ _ m), nested_write_one by done.
  by rewrite (insert_id m), insert_id.
Qed.

(** Writing the resource ID under the spec copied so far. *)
Lemma copied_resourceID src base seen dest m v :
  copied src base seen dest → src !! "spec" = Some (VMap m) → m !! "resourceID" = Some v →
  ∃ dest', SetNestedField dest v ["spec"; "resourceID"] = Ok dest' ∧
    copied src base (seen ++ ["spec.resourceID"]) dest'.
Proof.
  intros (Hspec & Hst & Ho) Hm Hv. unfold copied.
  rewrite expected_spec_snoc, expected_status_snoc. simpl.
  unfold expected_spec, resourceID_only in Hspec |- *. rewrite Hm in *. rewrite Hv in *.
  simpl in *.
  destruct (decide ("spec" ∈ seen)); [|destruct (decide ("spec.resourceID" ∈ seen))].
  - exists dest. by rewrite (write_nested_same _ _ _ m).
  - exists dest. by rewrite (write_nested_same _ _ _ {["resourceID" := v]})
      by (done || apply lookup_singleton_eq).
  - rewrite nested_write_missing, nested_write_one by done.
    eexists; split; [done|]. rewrite lookup_insert_eq, lookup_insert_ne by done.
    split_and!; [done..|]. intros k ??. rewrite lookup_insert_ne by done. by apply Ho.
Qed.

Lemma copied_no_resourceID src base seen dest :
  copied src base seen dest →
  (∀ m v, src !! "spec" = Some (VMap m) → m !! "resourceID" ≠ Some v) →
  copied src base (seen ++ ["spec.resourceID"]) dest.
Proof.
  intros (Hspec & Hst & Ho) Hno. unfold copied.
  rewrite expected_spec_snoc, expected_status_snoc. simpl. split_and!; [|done..].
  assert (Hn : resourceID_only (src !! "spec") = None).
  { unfold resourceID_only. destruct (src !! "spec") as [[m| | | | | |]|]; try done.
    destruct (m !! "resourceID") as [v|] eqn:Hv; [by destruct (Hno m v)|done]. }
  rewrite Hspec. unfold expected_spec. rewrite Hn. by repeat case_decide.
Qed.

Lemma copyFields_copied src base fields : Forall crd_field fields → ∀ seen dest dest',
  copied src base seen dest → copyFields src fields dest = Ok dest' →
  copied src base (seen ++ fields) dest'.
Proof.
  induction 1 as [|f fields Hf Hfs IH]; intros seen dest dest' Hc.
  { intros [= <-]. by rewrite app_nil_r. }
  replace (seen ++ f :: fields) with ((seen ++ [f]) ++ fields)
    by by rewrite <-(assoc_L (++)).
  cbn [copyFields].
  apply elem_of_cons in Hf as [->|[->|[->|Hf%elem_of_nil]%elem_of_cons]%elem_of_cons];
    [..|done].
  - change (Split "." "spec") with ["spec"].
    rewrite nested_read_one. apply (copied_top _ _ _ _ "spec") in Hc; [|by left].
    destruct (src !! "spec"); [rewrite nested_write_one|]; eauto.
  - change (Split "." "status") with ["status"].
    rewrite nested_read_one. apply (copied_top _ _ _ _ "status") in Hc; [|by right].
    destruct (src !! "status"); [rewrite nested_write_one|]; eauto.
  - change (Split "." "spec.resourceID") with ["spec"; "resourceID"].
    destruct (NestedFieldCopy src ["spec"; "resourceID"]) as [[v|]|] eqn:Hr; [| |done].
    + destruct (src !! "spec") as [w|] eqn:Hs; [|by rewrite nested_read_missing in Hr].
      assert (∃ m, w = VMap m) as [m ->].
      { destruct w as [m| | | | | |]; [by exists m|exfalso..];
          by apply (nested_read_not_map src "spec" ["resourceID"] _ v ltac:(done) Hs). }
      rewrite (nested_read_map _ _ _ m), nested_read_one in Hr by done. injection Hr as Hr.
      destruct (copied_resourceID src base seen dest m v) as (d & -> & Hd); [done..|].
      by apply IH.
    + apply IH. apply copied_no_resourceID; [done|]. intros m v Hm Hv.
      rewrite (nested_read_map _ _ _ m), nested_read_one in Hr by done. congruence.
Qed.

(** *** The base object the loop starts from *)

Definition filter_base (src : object) (fields : list string) : object :=
  if isFullSync fields
  then SetAnnotations (GetAnnotations src) (SetLabels (GetLabels src) (identity_of src))
  else identity_of src.

Lemma labels_ok src : meta_ok (SetLabels (GetLabels src) (identity_of src)).
Proof. eapply writes_meta_ok; [apply set_labels|apply identity_ok]. Qed.

Lemma filter_base_ok src fields : meta_ok (filter_base src fields).
Proof.
  unfold filter_base. destruct (isFullSync fields); [|apply identity_ok].
  eapply writes_meta_ok; [apply set_annotations|apply labels_ok].
Qed.

Lemma filter_base_top src fields k :
  k ≠ "metadata" → filter_base src fields !! k = identity_of src !! k.
Proof.
  intros Hk. unfold filter_base. destruct (isFullSync fields); [|done].
  erewrite writes_top; [|apply set_annotations|apply labels_ok|done].
  by erewrite writes_top; [|apply set_labels|apply identity_ok|].
Qed.

(** The metadata of the result: identity, and labels and annotations in full mode. *)
Definition expected_meta (src : object) (fields : list string) (f : string) : option value :=
  if decide (f = "namespace") then string_field (GetNamespace src)
  else if decide (f = "name") then string_field (GetName src)
  else if isFullSync fields then
    if decide (f = "annotations") then string_map <$> GetAnnotations src
    else if decide (f = "labels") then string_map <$> GetLabels src else None
  else None.

Lemma filter_base_meta src fields f :
  NestedFieldCopy (filter_base src fields) ["metadata"; f] = Ok (expected_meta src fields f).
Proof.
  unfold filter_base, expected_meta. destruct (isFullSync fields); [|apply identity_meta].
  destruct (decide (f = "annotations")) as [->|Ha];
    [by rewrite (writes_meta_same _ _ _ _ (set_annotations _) (labels_ok src))|].
  erewrite writes_meta_other; [|apply set_annotations|apply labels_ok|congruence].
  destruct (decide (f = "labels")) as [->|Hl];
    [by rewrite (writes_meta_same _ _ _ _ (set_labels _) (identity_ok src))|].
  erewrite writes_meta_other; [|apply set_labels|apply identity_ok|congruence].
  apply identity_meta.
Qed.

Lemma identity_gvk src :
  gvk_wf (GroupVersionKind_of src) →
  GroupVersionKind_of (identity_of src) = GroupVersionKind_of src.
Proof. apply stub_gvk. Qed.

Lemma filter_base_copied src fields : copied src (filter_base src fields) [] (filter_base src fields).
Proof. unfold copied. split_and!; [by rewrite filter_base_top, identity_top..|done]. Qed.

Lemma filterFields_copied src fields dest :
  Forall crd_field fields → filterFields src fields = Ok dest →
  copied src (filter_base src fields) fields dest.
Proof.
  intros Hcrd Hf. apply (copyFields_copied _ _ _ Hcrd []) with (2 := Hf).
  apply filter_base_copied.
Qed.

(** Totality: the only field whose reading can fail is "spec.resourceID", and only on a
    spec that is not a map. *)
Lemma copyFields_ok src base fields : Forall crd_field fields →
  (src !! "spec" = None ∨ ∃ m, src !! "spec" = Some (VMap m)) →
  ∀ seen dest, copied src base seen dest → is_ok (copyFields src fields dest) = true.
Proof.
  intros Hcrd Hspec. induction Hcrd as [|f fields Hf Hfs IH]; intros seen dest Hc; [done|].
  cbn [copyFields].
  apply elem_of_cons in Hf as [->|[->|[->|Hf%elem_of_nil]%elem_of_cons]%elem_of_cons];
    [..|done].
  - change (Split "." "spec") with ["spec"]. rewrite nested_read_one.
    apply (copied_top _ _ _ _ "spec") in Hc; [|by left].
    destruct (src !! "spec"); [rewrite nested_write_one|]; by eapply IH.
  - change (Split "." "status") with ["status"]. rewrite nested_read_one.
    apply (copied_top _ _ _ _ "status") in Hc; [|by right].
    destruct (src !! "status"); [rewrite nested_write_one|]; by eapply IH.
  - change (Split "." "spec.resourceID") with ["spec"; "resourceID"].
    destruct Hspec as [Hn|[m Hm]].
    + rewrite nested_read_missing by done. eapply IH, copied_no_resourceID; [done|].
      by rewrite Hn.
    + rewrite (nested_read_map _ _ _ m), nested_read_one by done.
      destruct (m !! "resourceID") as [v|] eqn:Hv.
      * destruct (copied_resourceID src base seen dest m v) as (d & -> & Hd); [done..|].
        by eapply IH.
      * eapply IH, copied_no_resourceID; [done|]. intros m' v Hm'. congruence.
Qed.

(** The direct description of the object sent for the sync fields [fields]. *)
Definition describes (src : object) (fields : list string) (dest : object) : Prop :=
  dest !! "spec" = expected_spec src fields ∧
  dest !! "status" = expected_status src fields ∧
  GroupVersionKind_of dest = GroupVersionKind_of src ∧
  GetName dest = GetName src ∧ GetNamespace dest = GetNamespace src ∧
  (∀ f, NestedFieldCopy dest ["metadata"; f] = Ok (expected_meta src fields f)) ∧
  (∀ k, k ∉ ["spec"; "status"; "metadata"; "apiVersion"; "kind"] → dest !! k = None).

(** An object with no metadata but what its author writes: none of the server's. *)
Definition unmanaged (o : object) : Prop :=
  ∀ f, f ∉ ["namespace"; "name"; "annotations"; "labels"] →
    NestedFieldCopy o ["metadata"; f] = Ok None.

Lemma filterFields_described src fields dest :
  Forall crd_field fields → gvk_wf (GroupVersionKind_of src) →
  filterFields src fields = Ok dest → describes src fields dest ∧ meta_ok dest.
Proof.
  intros Hcrd Hwf Hf. destruct (filterFields_copied _ _ _ Hcrd Hf) as (Hs & Hst & Ho).
  assert (Hmeta : ∀ f, NestedFieldCopy dest ["metadata"; f] = Ok (expected_meta src fields f)).
  { intros f. rewrite <-filter_base_meta. symmetry.
    apply read_meta_ext; [apply filter_base_ok|]. by rewrite Ho. }
  unfold describes. split_and!; [done|done| | | |done| |].
  - rewrite <-(identity_gvk src Hwf).
    apply get_gvk_fields; by rewrite !nested_read_one, Ho, filter_base_top.
  - rewrite get_name, Hmeta. apply string_at_field.
  - rewrite get_namespace, Hmeta. apply string_at_field.
  - intros k Hk. rewrite !not_elem_of_cons in Hk. destruct Hk as (? & ? & ? & ? & ? & _).
    by rewrite Ho, filter_base_top, identity_top.
  - apply (meta_ok_ext (filter_base src fields)); [by rewrite Ho|apply filter_base_ok].
Qed.

(** Removing a metadata field the description does not have changes nothing of it. *)
Lemma describes_without f g src fields dest :
  writes f ["metadata"; g] None → expected_meta src fields g = None →
  describes src fields dest ∧ meta_ok dest → describes src fields (f dest) ∧ meta_ok (f dest).
Proof.
  intros Hf Hg [(Hs & Hst & Hk & Hn & Hns & Hm & Ho) Hok].
  assert (Hok' : meta_ok (f dest)) by by eapply writes_meta_ok.
  assert (Htop : ∀ k, k ≠ "metadata" → f dest !! k = dest !! k)
    by by intros k Hne; eapply writes_top.
  assert (Hmeta : ∀ h, NestedFieldCopy (f dest) ["metadata"; h] = NestedFieldCopy dest ["metadata"; h]).
  { intros h. destruct (decide (g = h)) as [<-|Hne]; [|by eapply writes_meta_other].
    by rewrite (writes_meta_same _ _ _ _ Hf Hok), Hm, Hg. }
  unfold describes. split; [|done]. split_and!.
  - by rewrite Htop.
  - by rewrite Htop.
  - rewrite <-Hk. apply get_gvk_fields; by rewrite !nested_read_one, Htop.
  - by rewrite <-Hn, !get_name, Hmeta.
  - by rewrite <-Hns, !get_namespace, Hmeta.
  - intros h. by rewrite Hmeta.
  - intros k Hk'. rewrite Htop; [by apply Ho|]. set_solver.
Qed.

Lemma expected_meta_other src fields f :
  f ∉ ["namespace"; "name"; "annotations"; "labels"] → expected_meta src fields f = None.
Proof.
  intros Hf. rewrite !not_elem_of_cons in Hf. destruct Hf as (? & ? & ? & ? & _).
  unfold expected_meta. repeat case_decide; by destruct (isFullSync fields).
Qed.

Lemma describes_unmanaged src fields dest : describes src fields dest → unmanaged dest.
Proof. intros (_ & _ & _ & _ & _ & Hm & _) f Hf. by rewrite Hm, expected_meta_other. Qed.

(** Clearing the server's fields keeps the description. *)
Lemma clearServerFields_described src fields dest :
  describes src fields dest ∧ meta_ok dest →
  describes src fields (clearServerFields dest) ∧ meta_ok (clearServerFields dest).
Proof.
  intros Hd. unfold clearServerFields.
  eapply describes_without; [apply (set_managed_fields None)|apply expected_meta_other; by apply (bool_decide_unpack _)|].
  eapply describes_without; [apply (set_generation 0)|apply expected_meta_other; by apply (bool_decide_unpack _)|].
  eapply describes_without; [apply (set_uid "")|apply expected_meta_other; by apply (bool_decide_unpack _)|].
  eapply describes_without; [apply (set_resource_version "")|apply expected_meta_other; by apply (bool_decide_unpack _)|done].
Qed.

(** ** Properties *)

(** [C18] [filterFields] against its direct description, for sync fields the CRD admits:
    the object it returns holds the spec (the whole spec if "spec" is synced, else only
    its resource ID if "spec.resourceID" is), the status if "status" is synced, the
    source's kind, name and namespace, its labels and annotations only in full mode,
    and nothing else. The order and repetition of the fields play no role. *)
Theorem filterFields_spec src fields dest :
  Forall crd_field fields → gvk_wf (GroupVersionKind_of src) →
  filterFields src fields = Ok dest →
  dest !! "spec" = expected_spec src fields ∧
  dest !! "status" = expected_status src fields ∧
  GroupVersionKind_of dest = GroupVersionKind_of src ∧
  GetName dest = GetName src ∧ GetNamespace dest = GetNamespace src ∧
  (∀ f, NestedFieldCopy dest ["metadata"; f] = Ok (expected_meta src fields f)) ∧
  (∀ k, k ∉ ["spec"; "status"; "metadata"; "apiVersion"; "kind"] → dest !! k = None).
Proof. intros Hcrd Hwf Hf. by apply filterFields_described. Qed.

(** [filterFields] succeeds on every source object whose spec is a map or absent,
    whatever CRD fields are synced. *)
Theorem filterFields_total src fields :
  Forall crd_field fields →
  (src !! "spec" = None ∨ ∃ m, src !! "spec" = Some (VMap m)) →
  ∃ dest, filterFields src fields = Ok dest.
Proof.
  intros Hcrd Hspec.
  assert (Hok : is_ok (filterFields src fields) = true).
  { apply (copyFields_ok src (filter_base src fields) fields Hcrd Hspec []).
    apply filter_base_copied. }
  destruct (filterFields src fields); [eauto|done].
Qed.
End FieldFilterLemmas.

#[export] Hint Resolve writes_meta_ok : kube.
#[export] Hint Resolve set_name set_namespace set_labels set_annotations
  set_resource_version set_uid set_generation set_managed_fields : kube.

(** ** Witnesses *)

Section FieldFilterWitnesses.
#[local] Existing Instance FakeErrors.
#[local] Existing Instance FakeUnstructured.
#[local] Existing Instance FakeUnstructuredLaws.

(** The object of the repository's unit test of [filterFields]. *)
Definition demo_object : object := {[
  "apiVersion" := VString "syncer.gkelabs.io/v1alpha1";
  "kind" := VString "KRMSyncer";
  "metadata" := VMap {[ "name" := VString "test"; "namespace" := VString "default";
    "labels" := VMap {[ "l1" := VString "v1" ]};
    "annotations" := VMap {[ "a1" := VString "v1" ]} ]};
  "spec" := VMap {[ "resourceID" := VString "id1";
    "resource" := VMap {[ "ID" := VString "id2" ]}; "other" := VString "val" ]};
  "status" := VMap {[ "phase" := VString "Active" ]} ]}.

Definition demo_fields : list string := ["spec.resourceID"; "status"].

Definition demo_dest : object :=
  match filterFields demo_object demo_fields with Ok o => o | Err _ => ∅ end.

Lemma demo_crd : Forall crd_field demo_fields.
Proof. repeat constructor; set_solver. Qed.

Lemma filterFields_spec_witness :
  filterFields demo_object demo_fields = Ok demo_dest ∧
  demo_dest !! "spec" = Some (VMap {["resourceID" := VString "id1"]}) ∧
  demo_dest !! "spec" = expected_spec demo_object demo_fields ∧
  GetName demo_dest = "test" ∧ GetName demo_dest = GetName demo_object.
Proof.
  destruct (filterFields_spec demo_object demo_fields demo_dest demo_crd)
    as (Hs & _ & _ & Hn & _); [by split|reflexivity|].
  by split_and!.
Defined.

Lemma filterFields_total_witness :
  ∃ dest, filterFields demo_object demo_fields = Ok dest.
Proof.
  apply (filterFields_total demo_object demo_fields demo_crd).
  right. eexists. reflexivity.
Defined.
End FieldFilterWitnesses.
