(* ===== verification/Tracker.v ===== *)
(** * Failure tracking and its gauges ([syncer/controllers/metrics.go])

    A [failureTracker] holds the set of objects whose latest attempt failed and keeps a
    Prometheus gauge equal to their number. Trackers of watches on the same kind share
    one gauge ([FailedObjects.WithLabelValues] returns the same gauge for the same
    labels), so the gauges are a store the trackers point into. *)

From stdpp Require Import base list strings gmap relations.
From S2P Require Import Prelude Kube.

(** [prometheus.Gauge]: a number that [Inc] and [Dec] change by one. *)
Class PrometheusGauge := {
  gauge : Type;
  NewGauge : gauge;
  gauge_value : gauge → Z;
  Inc : gauge → gauge;
  Dec : gauge → gauge;
}.

Class PrometheusGaugeLaws `{PrometheusGauge} : Prop := {
  gauge_new : gauge_value NewGauge = 0%Z;
  gauge_inc g : gauge_value (Inc g) = (gauge_value g + 1)%Z;
  gauge_dec g : gauge_value (Dec g) = (gauge_value g - 1)%Z;
}.

(** The gauges of the program: [SetupFailed], and one of [FailedObjects] per kind. *)
Inductive gauge_id : Type :=
| SetupFailed
| FailedObjects (gvk : GroupVersionKind).

#[export] Instance gauge_id_eq_dec : EqDecision gauge_id.
Proof. solve_decision. Defined.
#[export] Instance gauge_id_countable : Countable gauge_id.
Proof.
  apply (inj_countable' (λ g, match g with SetupFailed => None | FailedObjects k => Some k end)
    (λ o, match o with None => SetupFailed | Some k => FailedObjects k end)). by intros [].
Defined.

Definition failedObjectsGauge (gvk : GroupVersionKind) : gauge_id := FailedObjects gvk.

Record failureTracker := {
  ft_gauge : gauge_id;
  ft_failed : gset NamespacedName;
}.

Definition newFailureTracker (g : gauge_id) : failureTracker :=
  {| ft_gauge := g; ft_failed := ∅ |}.

Section Tracker.
Context `{PrometheusGauge}.

Abbreviation gauges := (gmap gauge_id gauge).

(** A gauge nobody touched yet is at its initial value. *)
Definition gauge_at (gs : gauges) (g : gauge_id) : gauge := default NewGauge (gs !! g).
Definition on_gauge (f : gauge → gauge) (g : gauge_id) (gs : gauges) : gauges :=
  <[g := f (gauge_at gs g)]> gs.

(** A nil tracker ([None]) ignores all updates. *)
Definition markFailed (t : option failureTracker) (key : NamespacedName) (gs : gauges) :
    option failureTracker * gauges :=
  match t with
  | None => (None, gs)
  | Some t =>
      if decide (key ∈ ft_failed t) then (Some t, gs)
      else (Some {| ft_gauge := ft_gauge t; ft_failed := {[key]} ∪ ft_failed t |},
            on_gauge Inc (ft_gauge t) gs)
  end.

Definition markSucceeded (t : option failureTracker) (key : NamespacedName) (gs : gauges) :
    option failureTracker * gauges :=
  match t with
  | None => (None, gs)
  | Some t =>
      if decide (key ∈ ft_failed t)
      then (Some {| ft_gauge := ft_gauge t; ft_failed := ft_failed t ∖ {[key]} |},
            on_gauge Dec (ft_gauge t) gs)
      else (Some t, gs)
  end.

(** One attempt on an object: [true] is a failure. *)
Definition mark (t : option failureTracker) (a : NamespacedName * bool) (gs : gauges) :
    option failureTracker * gauges :=
  if a.2 then markFailed t a.1 gs else markSucceeded t a.1 gs.

(** Is [key] failing for a tracker? *)
Definition failing (t : option failureTracker) (key : NamespacedName) : Prop :=
  match t with Some t => key ∈ ft_failed t | None => False end.

(** *** A tracker and the gauge it points to *)

Definition run_marks (t : option failureTracker) (gs : gauges)
    (hist : list (NamespacedName * bool)) : option failureTracker * gauges :=
  foldl (λ s a, mark s.1 a s.2) (t, gs) hist.

(** The outcome of the latest attempt on [key]. *)
Definition latest (key : NamespacedName) (hist : list (NamespacedName * bool)) :
    option bool :=
  snd <$> last (filter (λ a, a.1 = key) hist).

(** *** All trackers of the program: attempts interleave in any order *)

Record metrics := {
  m_trackers : list failureTracker;
  m_gauges : gauges;
}.

Inductive metrics_step : metrics → metrics → Prop :=
| step_new g m :
    metrics_step m {| m_trackers := m_trackers m ++ [newFailureTracker g];
                      m_gauges := m_gauges m |}
| step_mark i t a t' gs m :
    m_trackers m !! i = Some t →
    mark (Some t) a (m_gauges m) = (Some t', gs) →
    metrics_step m {| m_trackers := <[i := t']> (m_trackers m); m_gauges := gs |}.

(** The number of objects the trackers of gauge [g] hold. *)
Definition failing_total (g : gauge_id) (l : list failureTracker) : nat :=
  sum_list_with (λ t, if decide (ft_gauge t = g) then size (ft_failed t) else 0) l.
End Tracker.

Section TrackerLaws.
Context `{PrometheusGaugeLaws}.

Lemma gauge_at_on_gauge f g g' gs :
  gauge_at (on_gauge f g gs) g' = if decide (g = g') then f (gauge_at gs g) else gauge_at gs g'.
Proof.
  unfold gauge_at, on_gauge. case_decide as Hg.
  - subst g'. by rewrite lookup_insert_eq.
  - by rewrite lookup_insert_ne.
Qed.

(** One update changes the set of the tracker and its gauge by the same amount. *)
Lemma mark_spec t a gs :
  ∃ t' gs', mark (Some t) a gs = (Some t', gs') ∧ ft_gauge t' = ft_gauge t ∧
    (∀ k, k ∈ ft_failed t' ↔ if decide (k = a.1) then a.2 = true else k ∈ ft_failed t) ∧
    (∀ g, gauge_value (gauge_at gs' g) = gauge_value (gauge_at gs g) +
      if decide (ft_gauge t = g) then Z.of_nat (size (ft_failed t')) - Z.of_nat (size (ft_failed t)) else 0)%Z.
Proof.
  destruct a as [key [|]]; unfold mark, markFailed, markSucceeded; simpl;
    destruct (decide (key ∈ ft_failed t)) as [Hin|Hin]; do 2 eexists;
    (split_and!; [done|done|..]).
  - intros k. case_decide; [by subst|done].
  - intros g. case_decide; lia.
  - intros k. simpl. case_decide; set_solver.
  - intros g. simpl. rewrite gauge_at_on_gauge. case_decide; [subst g|lia].
    rewrite gauge_inc, size_union, size_singleton by set_solver. lia.
  - intros k. simpl. case_decide; set_solver.
  - intros g. simpl. rewrite gauge_at_on_gauge. case_decide; [subst g|lia].
    rewrite gauge_dec, size_difference, size_singleton by set_solver.
    assert (size (ft_failed t) ≠ 0%nat) by (intros ?%size_empty_inv; set_solver). lia.
  - intros k. case_decide; [subst; naive_solver|done].
  - intros g. case_decide; lia.
Qed.

Lemma latest_snoc key hist a :
  latest key (hist ++ [a]) = if decide (a.1 = key) then Some a.2 else latest key hist.
Proof.
  unfold latest. rewrite filter_app, filter_cons, filter_nil.
  case_decide; [by rewrite last_snoc|by rewrite app_nil_r].
Qed.

Lemma failing_total_insert g l i t t' :
  l !! i = Some t → ft_gauge t' = ft_gauge t →
  Z.of_nat (failing_total g (<[i := t']> l)) = (Z.of_nat (failing_total g l) +
    if decide (ft_gauge t = g) then Z.of_nat (size (ft_failed t')) - Z.of_nat (size (ft_failed t)) else 0)%Z.
Proof.
  unfold failing_total. revert i. induction l as [|x l IH]; intros [|i] Hi Hg; simplify_eq/=.
  - rewrite Hg. case_decide; lia.
  - specialize (IH i Hi Hg). lia.
Qed.

(** ** Properties *)

(** Started fresh, a tracker counts exactly the objects whose latest attempt
    failed, whatever the history of attempts: an object is failing iff its latest mark
    is a failure, the gauge has grown by the number of failing objects (repeated
    failures of one object count once), and other gauges are untouched. *)
Theorem tracker_counts_latest_failures g gs hist :
  ∃ t gs', run_marks (Some (newFailureTracker g)) gs hist = (Some t, gs') ∧
    (∀ key, key ∈ ft_failed t ↔ latest key hist = Some true) ∧
    ∀ g', gauge_value (gauge_at gs' g') = (gauge_value (gauge_at gs g') +
      if decide (g = g') then Z.of_nat (size (ft_failed t)) else 0)%Z.
Proof.
  cut (∃ t gs', run_marks (Some (newFailureTracker g)) gs hist = (Some t, gs') ∧
    ft_gauge t = g ∧ (∀ key, key ∈ ft_failed t ↔ latest key hist = Some true) ∧
    ∀ g', gauge_value (gauge_at gs' g') = (gauge_value (gauge_at gs g') +
      if decide (g = g') then Z.of_nat (size (ft_failed t)) else 0)%Z); [naive_solver|].
  induction hist as [|a hist IH] using rev_ind.
  { do 2 eexists. split_and!; [done|done|set_solver|].
    intros g'. cbn [newFailureTracker ft_failed]. rewrite size_empty. case_decide; lia. }
  destruct IH as (t & gs1 & Hrun & Hg & Hk & Hv).
  destruct (mark_spec t a gs1) as (t' & gs2 & Hm & Hg' & Hk' & Hv').
  exists t', gs2. split_and!.
  - unfold run_marks in *. by rewrite foldl_app, Hrun.
  - congruence.
  - intros key. rewrite Hk', latest_snoc. destruct a as [k b]; simpl.
    destruct (decide (key = k)) as [->|Hne].
    + rewrite decide_True by done. naive_solver.
    + rewrite decide_False by done. apply Hk.
  - intros g'. rewrite Hv', Hv, Hg. case_decide; lia.
Qed.

(** However the attempts of all watches interleave, every gauge equals the number
    of failing objects over the trackers that share it. *)
Theorem gauges_equal_failing_objects m :
  rtc metrics_step {| m_trackers := []; m_gauges := ∅ |} m →
  ∀ g, gauge_value (gauge_at (m_gauges m) g) = Z.of_nat (failing_total g (m_trackers m)).
Proof.
  intros Hr. refine (rtc_invariant _ (λ m, ∀ g, gauge_value (gauge_at (m_gauges m) g) =
    Z.of_nat (failing_total g (m_trackers m))) _ _ _ Hr _); clear m Hr.
  2: { intros g. apply gauge_new. }
  intros m m' IH Hstep g. destruct Hstep as [g' m|i t a t' gs m Hi Hm]; simpl.
  - rewrite IH. unfold failing_total. rewrite sum_list_with_app.
    cbn [sum_list_with newFailureTracker ft_failed]. rewrite size_empty.
    case_decide; lia.
  - destruct (mark_spec t a (m_gauges m)) as (t'' & gs'' & Hm' & Hg & _ & Hv).
    rewrite Hm in Hm'. injection Hm' as <- <-.
    by rewrite Hv, IH, (failing_total_insert _ _ _ t).
Qed.
End TrackerLaws.

(** ** A gauge for concrete runs *)

#[local] Instance FakeGauge : PrometheusGauge := {|
  gauge := Z; NewGauge := 0%Z; gauge_value := id; Inc := Z.succ; Dec := Z.pred;
|}.
#[local] Instance FakeGaugeLaws : PrometheusGaugeLaws.
Proof. constructor; simpl; unfold id; lia. Qed.

Lemma gauges_equal_failing_objects_witness :
  let t := {| ft_gauge := SetupFailed; ft_failed := {[NN "ns" "a"]} |} in
  let m := {| m_trackers := [t]; m_gauges := {[SetupFailed := 1%Z]} |} in
  rtc metrics_step {| m_trackers := []; m_gauges := ∅ |} m ∧
  gauge_value (gauge_at (m_gauges m) SetupFailed) = Z.of_nat (failing_total SetupFailed (m_trackers m)).
Proof.
  assert (Hr : rtc metrics_step {| m_trackers := []; m_gauges := ∅ |}
    {| m_trackers := [{| ft_gauge := SetupFailed; ft_failed := {[NN "ns" "a"]} |}];
       m_gauges := {[SetupFailed := 1%Z]} |}).
  { eapply rtc_l; [apply (step_new SetupFailed)|]. eapply rtc_l; [|apply rtc_refl].
    refine (step_mark 0 (newFailureTracker SetupFailed) (NN "ns" "a", true)
      {| ft_gauge := SetupFailed; ft_failed := {[NN "ns" "a"]} |} {[SetupFailed := 1%Z]}
      {| m_trackers := [newFailureTracker SetupFailed]; m_gauges := ∅ |} _ _); reflexivity. }
  split; [exact Hr|]. exact (gauges_equal_failing_objects _ Hr SetupFailed).
Defined.

Definition demo_history : list (NamespacedName * bool) :=
  [(NN "ns" "a", true); (NN "ns" "a", true); (NN "ns" "b", true); (NN "ns" "b", false)].

Lemma tracker_counts_latest_failures_witness :
  ∃ t gs', run_marks (Some (newFailureTracker SetupFailed)) ∅ demo_history = (Some t, gs') ∧
    (∀ key, key ∈ ft_failed t ↔ latest key demo_history = Some true) ∧
    ∀ g', gauge_value (gauge_at gs' g') = (gauge_value (gauge_at ∅ g') +
      if decide (SetupFailed = g') then Z.of_nat (size (ft_failed t)) else 0)%Z.
Proof. exact (tracker_counts_latest_failures SetupFailed ∅ demo_history). Defined.
