(* ===== verification/Client.v ===== *)
(** * Clusters and the clients that talk to them

    The interface of controller-runtime's [client.Client] (methods [Get], [List],
    [Create], [Delete], [Patch] and [Status().Patch]) over an abstract world: the state
    of all clusters and of everything else outside the program. An operation may answer
    anything and change the world in any way, so a theorem for all implementations
    covers every behaviour of the API servers and of the other actors between two calls.

    A handler is a program ([Threads.prog]) of atomic operations: the calls of clusters, the
    choice of a remote client and the marks of the failure tracker. Its calls, with their
    answers, are the observable behaviour the theorems are about. *)

From stdpp Require Import base list strings gmap.
From S2P Require Import Prelude Threads Kube Api.

(** [client.PatchOption] values the program passes. *)
Inductive PatchOption : Type :=
| ForceOwnership
| FieldOwner (owner : string).

(** [corev1.Namespace] with only a name in its metadata. *)
Record Namespace := { ns_name : string }.

Class ApiClient `{ApiErrors} := {
  world : Type;
  client : Type;
  do_Get : client → NamespacedName → GroupVersionKind → world → res api_error object * world;
  do_List : client → world → res api_error (list KRMSyncer) * world;
  do_GetNamespace : client → NamespacedName → world → option api_error * world;
  do_Create : client → Namespace → world → option api_error * world;
  do_Delete : client → object → world → option api_error * world;
  do_Patch : client → object → list PatchOption → world →
    (option api_error * object) * world;
  do_StatusPatch : client → object → list PatchOption → world → option api_error * world;
}.

Section Client.
Context `{ApiClient}.

Inductive request : Type :=
| ReqGet (key : NamespacedName) (gvk : GroupVersionKind)
| ReqList
| ReqGetNamespace (key : NamespacedName)
| ReqCreate (ns : Namespace)
| ReqDelete (obj : object)
| ReqPatch (obj : object) (opts : list PatchOption)
| ReqStatusPatch (obj : object) (opts : list PatchOption).

Record call := Call {
  call_client : client;
  call_request : request;
  call_error : option api_error;
}.

Definition err_of {A} (r : res api_error A) : option api_error :=
  match r with Ok _ => None | Err e => Some e end.

(** The atomic operations of a handler, with the types of their answers. [OpRemoteClient] is
    [getRemoteClient], whose cache is shared under a mutex; [OpMark] is [markFailed]
    ([true]) or [markSucceeded] of the failure tracker, under its mutex. *)
Inductive operation : Type → Type :=
| OpGet (c : client) (key : NamespacedName) (gvk : GroupVersionKind) :
    operation (res api_error object)
| OpList (c : client) : operation (res api_error (list KRMSyncer))
| OpGetNamespace (c : client) (key : NamespacedName) : operation (option api_error)
| OpCreate (c : client) (ns : Namespace) : operation (option api_error)
| OpDelete (c : client) (obj : object) : operation (option api_error)
| OpPatch (c : client) (obj : object) (opts : list PatchOption) :
    operation (option api_error * object)
| OpStatusPatch (c : client) (obj : object) (opts : list PatchOption) :
    operation (option api_error)
| OpRemoteClient (namespace : string) (remote : option RemoteConfig) :
    operation (res goerr client)
| OpMark (key : NamespacedName) (failed : bool) : operation unit.

Definition handler : Type → Type := prog operation.
#[export] Instance handler_ret : MRet handler := prog_ret.
#[export] Instance handler_bind : MBind handler := prog_bind.

(** The call an operation makes, with its error. *)
Definition call_of (e : event operation) : option call :=
  let 'Ev o x := e in
  match o in operation X return X → option call with
  | OpGet c key gvk => λ r, Some (Call c (ReqGet key gvk) (err_of r))
  | OpList c => λ r, Some (Call c ReqList (err_of r))
  | OpGetNamespace c key => λ e, Some (Call c (ReqGetNamespace key) e)
  | OpCreate c ns => λ e, Some (Call c (ReqCreate ns) e)
  | OpDelete c obj => λ e, Some (Call c (ReqDelete obj) e)
  | OpPatch c obj opts => λ r, Some (Call c (ReqPatch obj opts) r.1)
  | OpStatusPatch c obj opts => λ e, Some (Call c (ReqStatusPatch obj opts) e)
  | OpRemoteClient _ _ => λ _, None
  | OpMark _ _ => λ _, None
  end x.

Definition calls_of (tr : trace operation) : list call := omap call_of tr.

(** The client of a remote cluster that an operation asks for, with the answer: the namespace
    and the remote connection of a KRMSyncer, and the client or the error. *)
Definition remote_answer : Type := string * option RemoteConfig * res goerr client.

Definition remote_of (e : event operation) : option remote_answer :=
  let 'Ev o x := e in
  match o in operation X return X → option remote_answer with
  | OpRemoteClient ns remote => λ answer, Some (ns, remote, answer)
  | _ => λ _, None
  end x.

Definition remotes_of (tr : trace operation) : list remote_answer := omap remote_of tr.

(** What the operations do to a state [S] that contains the world ([lift]), given the two
    that work on the program's own shared state. *)
Definition do_operation {S} (lift : ∀ X, M world X → M S X)
    (remoteClient : string → option RemoteConfig → M S (res goerr client))
    (mark : NamespacedName → bool → M S unit) (X : Type) (o : operation X) : M S X :=
  match o in operation X return M S X with
  | OpGet c key gvk => lift _ (do_Get c key gvk)
  | OpList c => lift _ (do_List c)
  | OpGetNamespace c key => lift _ (do_GetNamespace c key)
  | OpCreate c ns => lift _ (do_Create c ns)
  | OpDelete c obj => lift _ (do_Delete c obj)
  | OpPatch c obj opts => lift _ (do_Patch c obj opts)
  | OpStatusPatch c obj opts => lift _ (do_StatusPatch c obj opts)
  | OpRemoteClient namespace remote => remoteClient namespace remote
  | OpMark key failed => mark key failed
  end.

Context `{!Unstructured}.

(** [c.Get(ctx, key, u)]: the kind is the one set on the target object [u]. *)
Definition Get (c : client) (key : NamespacedName) (u : object) :
    handler (res api_error object) :=
  perform (OpGet c key (GroupVersionKind_of u)).

(** [c.List(ctx, &krmsyncers)]. *)
Definition List (c : client) : handler (res api_error (list KRMSyncer)) := perform (OpList c).

(** [c.Get(ctx, key, ns)] for a [corev1.Namespace], of which only the error is used. *)
Definition GetNamespaceObject (c : client) (key : NamespacedName) :
    handler (option api_error) :=
  perform (OpGetNamespace c key).

Definition Create (c : client) (ns : Namespace) : handler (option api_error) :=
  perform (OpCreate c ns).

Definition Delete (c : client) (obj : object) : handler (option api_error) :=
  perform (OpDelete c obj).

(** [c.Patch(ctx, obj, client.Apply, opts...)] also overwrites [obj] with the server's
    answer, which it returns here. *)
Definition Patch (c : client) (obj : object) (opts : list PatchOption) :
    handler (option api_error * object) :=
  perform (OpPatch c obj opts).

Definition StatusPatch (c : client) (obj : object) (opts : list PatchOption) :
    handler (option api_error) :=
  perform (OpStatusPatch c obj opts).

(** The kinds of calls. *)
Definition is_write (rq : request) : bool :=
  match rq with
  | ReqCreate _ | ReqDelete _ | ReqPatch _ _ | ReqStatusPatch _ _ => true
  | _ => false
  end.

(** ** The logic of calls

    A handler [emits P] if, whatever the answers, the calls of a run and its result satisfy
    [P]. *)
Definition emits {A} (P : list call → A → Prop) (p : handler A) : Prop :=
  yields (λ tr a, P (calls_of tr) a) p.

Lemma emits_ret {A} (P : list call → A → Prop) a : P [] a → emits P (mret a).
Proof. intros HP. by apply yields_ret. Qed.

Lemma emits_bind {A B} (Q : list call → A → Prop) (P : list call → B → Prop)
    (p : handler A) (k : A → handler B) :
  emits Q p → (∀ l a, Q l a → emits (λ l', P (l ++ l')) (k a)) → emits P (p ≫= k).
Proof.
  intros Hp Hk. eapply yields_bind; [exact Hp|]. intros tr a HQ.
  eapply yields_weaken; [by apply (Hk _ _ HQ)|]. intros tr' b. unfold calls_of.
  by rewrite omap_app.
Qed.

Lemma emits_weaken {A} (Q P : list call → A → Prop) (p : handler A) :
  emits Q p → (∀ l a, Q l a → P l a) → emits P p.
Proof. intros Hp HQP. eapply yields_weaken; [exact Hp|]. intros tr a. apply HQP. Qed.

Lemma emits_op {X} (o : operation X) (P : list call → X → Prop) :
  (∀ x, P (option_list (call_of (Ev o x))) x) → emits P (perform o).
Proof.
  intros HP. apply yields_perform. intros x. specialize (HP x).
  unfold calls_of. simpl in *. by destruct (call_of (Ev o x)).
Qed.

Lemma emits_op_bind {X A} (o : operation X) (P : list call → A → Prop) (k : X → handler A) :
  (∀ x, emits (λ l, P (option_list (call_of (Ev o x)) ++ l)) (k x)) →
  emits P (perform o ≫= k).
Proof.
  intros Hk. eapply emits_bind; [|intros l x HQ; exact HQ].
  by apply (emits_op o (λ l x, emits (λ l', P (l ++ l')) (k x))).
Qed.

Lemma emits_forP {A B} (I : list A → list call → B → Prop) (l : list A) (acc : B)
    (body : A → B → handler B) :
  I [] [] acc →
  (∀ done x todo calls acc, l = done ++ x :: todo → I done calls acc →
    emits (λ calls' acc', I (done ++ [x]) (calls ++ calls') acc') (body x acc)) →
  emits (I l) (forP l acc body).
Proof.
  intros Hnil Hbody. apply (yields_forP (λ done tr, I done (calls_of tr))); [done|].
  intros seen x todo tr acc' Hl HI. eapply yields_weaken; [by eapply Hbody|].
  intros tr' acc''. unfold calls_of. by rewrite omap_app.
Qed.

(** *** The clients a handler asks for

    A handler [asks P] if, whatever the answers, the clients it asks for, its calls and its
    result satisfy [P]. *)
Definition asks {A} (P : list remote_answer → list call → A → Prop) (p : handler A) : Prop :=
  yields (λ tr a, P (remotes_of tr) (calls_of tr) a) p.

Lemma asks_bind {A B} (Q : list remote_answer → list call → A → Prop)
    (P : list remote_answer → list call → B → Prop) (p : handler A) (k : A → handler B) :
  asks Q p → (∀ rs l a, Q rs l a → asks (λ rs' l', P (rs ++ rs') (l ++ l')) (k a)) →
  asks P (p ≫= k).
Proof.
  intros Hp Hk. eapply yields_bind; [exact Hp|]. intros tr a HQ.
  eapply yields_weaken; [by apply (Hk _ _ _ HQ)|]. intros tr' b.
  unfold remotes_of, calls_of. by rewrite !omap_app.
Qed.

Lemma asks_ret {A} (P : list remote_answer → list call → A → Prop) a :
  P [] [] a → asks P (mret a).
Proof. intros HP. by apply yields_ret. Qed.

Lemma asks_forP {A B} (I : list A → list remote_answer → list call → B → Prop) (l : list A)
    (acc : B) (body : A → B → handler B) :
  I [] [] [] acc →
  (∀ done x todo rs calls acc, l = done ++ x :: todo → I done rs calls acc →
    asks (λ rs' calls' acc', I (done ++ [x]) (rs ++ rs') (calls ++ calls') acc') (body x acc)) →
  asks (I l) (forP l acc body).
Proof.
  intros Hnil Hbody. apply (yields_forP (λ done tr, I done (remotes_of tr) (calls_of tr))); [done|].
  intros seen x todo tr acc' Hl HI. eapply yields_weaken; [by eapply Hbody|].
  intros tr' acc''. unfold remotes_of, calls_of. by rewrite !omap_app.
Qed.

(** Programs that only call clusters ask for no client. *)
Definition asks_none {A} (p : handler A) : Prop := yields (λ tr _, remotes_of tr = []) p.

Lemma asks_emits {A} (P : list call → A → Prop) (p : handler A) :
  asks_none p → emits P p → asks (λ rs l a, rs = [] ∧ P l a) p.
Proof. apply yields_and. Qed.

Lemma asks_none_op {X} (o : operation X) :
  (∀ x, remote_of (Ev o x) = None) → asks_none (perform o).
Proof.
  intros Ho. apply yields_perform. intros x. unfold remotes_of.
  change (omap remote_of [Ev o x]) with
    (match remote_of (Ev o x) with Some y => [y] | None => [] end).
  by rewrite Ho.
Qed.

Lemma asks_none_bind {A B} (p : handler A) (k : A → handler B) :
  asks_none p → (∀ a, asks_none (k a)) → asks_none (p ≫= k).
Proof.
  intros Hp Hk. eapply yields_bind; [exact Hp|]. intros tr a Htr.
  eapply yields_weaken; [apply Hk|]. intros tr' b Htr'. unfold remotes_of in *.
  by rewrite omap_app, Htr, Htr'.
Qed.
End Client.

(** [asks_none] runs a program that only calls clusters. *)
Ltac asks_none :=
  repeat lazymatch goal with
  | |- asks_none (mret _) => by apply yields_ret
  | |- asks_none (mbind _ _) => apply asks_none_bind; [|intros ?]
  | |- asks_none (perform _) => by apply asks_none_op
  | |- asks_none (match ?x with _ => _ end) => destruct x eqn:?
  | |- asks_none (if ?b then _ else _) => destruct b eqn:?
  end.

(** [emits_step] runs the program of the goal to its next call, branch or return. *)
Ltac emits_step :=
  lazymatch goal with
  | |- emits _ (mret _) => apply emits_ret
  | |- emits _ (mbind _ (perform _)) =>
      let x := fresh "x" in apply emits_op_bind; intros x; cbn [option_list call_of app]
  | |- emits _ (perform _) => apply emits_op; intros ?; cbn [option_list call_of]
  | |- emits _ (match ?x with _ => _ end) => destruct x eqn:?
  | |- emits _ (if ?b then _ else _) => destruct b eqn:?
  end.

Ltac unfold_calls := unfold Get, List, GetNamespaceObject, Create, Delete, Patch, StatusPatch.
