(* ===== verification/FakeCluster.v ===== *)
(** * Clusters for concrete runs

    An implementation of [ApiClient] with clusters that hold objects and namespaces, and
    of the provider of remote connections. It exists so that the theorems can be applied
    to concrete data; the instances are local, and a section that uses them says so. *)

From stdpp Require Import base list strings gmap.
From S2P Require Import Prelude Threads GoStrings Kube Api Fake FieldFilter Client.

#[local] Existing Instance FakeErrors.
#[local] Existing Instance FakeUnstructured.

(** A client is the number of its cluster; the program runs on cluster 0. Every call to
    a cluster that is down fails. *)
Record fake_world := {
  fw_objects : gmap (nat * GroupVersionKind * NamespacedName) object;
  fw_namespaces : gset (nat * string);
  fw_syncers : list KRMSyncer;
  fw_down : gset nat;
}.

Definition fake_id (c : nat) (o : object) : nat * GroupVersionKind * NamespacedName :=
  (c, fake_gvk o, NN (fake_string o ["metadata"; "namespace"]) (fake_string o ["metadata"; "name"])).

Definition set_objects (f : gmap (nat * GroupVersionKind * NamespacedName) object →
    gmap (nat * GroupVersionKind * NamespacedName) object) (w : fake_world) : fake_world :=
  {| fw_objects := f (fw_objects w); fw_namespaces := fw_namespaces w;
     fw_syncers := fw_syncers w; fw_down := fw_down w |}.

Definition if_up {A} (c : nat) (down : fake_error → A) (up : A) (w : fake_world) : A :=
  if decide (c ∈ fw_down w) then down (FOther "connection refused") else up.

(** A patch keeps the status of the live object, a patch of the status only changes that. *)
Definition fake_patch (o : object) (live : option object) : object :=
  match live ≫= (λ l : object, l !! "status") with
  | Some st => <["status" := st]> o
  | None => delete "status" o
  end.

Definition fake_status_patch (o live : object) : object :=
  match o !! "status" with
  | Some st => <["status" := st]> live
  | None => live
  end.

(** A cluster serves an object under its own name, and only KRMSyncers that its CRD
    admits. *)
Definition fake_lookup (w : fake_world) (id : nat * GroupVersionKind * NamespacedName) :
    option object :=
  match fw_objects w !! id with
  | Some o => if decide (fake_id id.1.1 o = id) then Some o else None
  | None => None
  end.

Definition admitted (k : KRMSyncer) : bool :=
  forallb (λ rule, bool_decide (Forall crd_field (rule_SyncFields rule)))
    (spec_Rules (ks_Spec k)).

#[local] Instance FakeCluster : ApiClient := {|
  world := fake_world;
  client := nat;
  do_Get c key gvk w :=
    (if_up c Err (match fake_lookup w (c, gvk, key) with
      | Some o => Ok o | None => Err FNotFound end) w, w);
  do_List c w := (if_up c Err (Ok (filter (λ k, admitted k = true) (fw_syncers w))) w, w);
  do_GetNamespace c key w :=
    (if_up c Some (if decide ((c, nn_Name key) ∈ fw_namespaces w) then None
      else Some FNotFound) w, w);
  do_Create c ns w :=
    if_up c (λ e, (Some e, w))
      (if decide ((c, ns_name ns) ∈ fw_namespaces w) then (Some FAlreadyExists, w)
       else (None, {| fw_objects := fw_objects w;
                      fw_namespaces := {[(c, ns_name ns)]} ∪ fw_namespaces w;
                      fw_syncers := fw_syncers w; fw_down := fw_down w |})) w;
  do_Delete c o w :=
    if_up c (λ e, (Some e, w))
      (match fake_lookup w (fake_id c o) with
       | Some _ => (None, set_objects (delete (fake_id c o)) w)
       | None => (Some FNotFound, w)
       end) w;
  do_Patch c o opts w :=
    if_up c (λ e, ((Some e, o), w))
      ((None, o), set_objects (<[fake_id c o := fake_patch o (fake_lookup w (fake_id c o))]>) w) w;
  do_StatusPatch c o opts w :=
    if_up c (λ e, (Some e, w))
      (match fake_lookup w (fake_id c o) with
       | Some live => (None, set_objects (<[fake_id c o := fake_status_patch o live]>) w)
       | None => (Some FNotFound, w)
       end) w;
|}.

Lemma fake_string_but_status o o' f p :
  (∀ k, k ≠ "status" → o' !! k = o !! k) → f ≠ "status" →
  fake_string o' (f :: p) = fake_string o (f :: p).
Proof. intros Ho Hf. unfold fake_string. f_equal. by apply fake_read_cong, Ho. Qed.

(** The name does not depend on the status. *)
Lemma fake_id_but_status c o o' :
  (∀ k, k ≠ "status" → o' !! k = o !! k) → fake_id c o' = fake_id c o.
Proof.
  intros Ho. assert (Hs := λ f p, fake_string_but_status o o' f p Ho).
  unfold fake_id, fake_gvk. by rewrite !Hs.
Qed.

Lemma fake_patch_ne o live k : k ≠ "status" → fake_patch o live !! k = o !! k.
Proof. intros Hk. unfold fake_patch. case_match; by rewrite ?lookup_insert_ne, ?lookup_delete_ne. Qed.

Lemma fake_status_patch_ne (o live : object) k :
  k ≠ "status" → fake_status_patch o live !! k = live !! k.
Proof. intros Hk. unfold fake_status_patch. case_match; [by rewrite lookup_insert_ne|done]. Qed.

(** What is served after an object was stored under its name or deleted. *)
Lemma fake_lookup_stored w c o o' :
  fake_id c o' = fake_id c o →
  fake_lookup (set_objects (<[fake_id c o := o']>) w) (fake_id c o) = Some o'.
Proof.
  intros Hid. unfold fake_lookup. simpl. rewrite lookup_insert_eq. by rewrite decide_True.
Qed.

Lemma fake_lookup_other w f id :
  f (fw_objects w) !! id = fw_objects w !! id → fake_lookup (set_objects f w) id = fake_lookup w id.
Proof. intros Hf. unfold fake_lookup. simpl. by rewrite Hf. Qed.

Lemma fake_lookup_id w id o : fake_lookup w id = Some o → fake_id id.1.1 o = id.
Proof. unfold fake_lookup. destruct (_ !! id); [case_decide|]; by intros [= <-]. Qed.

Lemma fake_lookup_Some w id o : fake_lookup w id = Some o → fw_objects w !! id = Some o.
Proof. unfold fake_lookup. destruct (_ !! id); [case_decide|]; by intros [= <-]. Qed.

(** Runs of a handler that only calls clusters. *)
Definition fake_exec {A} (p : handler A) (w : fake_world) :
    (trace operation * A) * fake_world :=
  exec (do_operation (λ _ m, m) (λ _ _, mret (Err (EStd "no remote"))) (λ _ _, mret tt)) p w.
