(* ===== verification/Apply.v ===== *)
(** * Writing an object to the destination cluster

    [destinationExists] and [applyToDestination] of
    [syncer/controllers/krmsyncer_controller.go], and the protocol of API calls they
    follow. *)

From stdpp Require Import base list strings gmap.
From S2P Require Import Prelude Threads GoStrings Kube Api Fake Client FakeCluster.

Section Apply.
Context `{ApiClient, !Unstructured}.

(** [client.ObjectKeyFromObject]. *)
Definition ObjectKeyFromObject (obj : object) : NamespacedName :=
  NN (GetNamespace obj) (GetName obj).

Definition destinationExists (destClient : client) (obj : object) : handler (res goerr bool) :=
  let existing := SetGroupVersionKind (GroupVersionKind_of obj) ∅ in
  r ← Get destClient (ObjectKeyFromObject obj) existing;
  match r with
  | Ok _ => mret (Ok true)
  | Err err =>
      if IsNotFound err then mret (Ok false)
      else mret (Err (ErrorfW "failed to check destination object: %w" [] (EApi err)))
  end.

(** The first part of [applyToDestination]: the namespace exists or is created.
    AlreadyExists is ignored, since concurrent workers may race to create it. *)
Definition ensureNamespace (destClient : client) (nsName : string) : handler (option goerr) :=
  if bool_decide (nsName = "") then mret None else
  err ← GetNamespaceObject destClient (NN "" nsName);
  match err with
  | None => mret None
  | Some err =>
      if IsNotFound err then
        err ← Create destClient {| ns_name := nsName |};
        match err with
        | None => mret None
        | Some err =>
            if IsAlreadyExists err then mret None
            else mret (Some (ErrorfV "failed to create destination namespace %q: %v"
                               [nsName] (EApi err)))
        end
      else mret (Some (ErrorfV "failed to check destination namespace %q: %v"
                         [nsName] (EApi err)))
  end.

Definition patchOpts : list PatchOption := [ForceOwnership; FieldOwner "krm-syncer"].

(** The object sent to the status subresource. *)
Definition statusObj (obj : object) (status : value) : object := {[
  "apiVersion" := VString (GetAPIVersion obj);
  "kind" := VString (GetKind obj);
  "metadata" := VMap {[ "name" := VString (GetName obj);
                        "namespace" := VString (GetNamespace obj) ]};
  "status" := status ]}.

Definition applyToDestination (destClient : client) (obj : object) : handler (option goerr) :=
  nsErr ← ensureNamespace destClient (GetNamespace obj);
  match nsErr with
  | Some err => mret (Some err)
  | None =>
      match NestedFieldCopy obj ["status"] with
      | Err err => mret (Some (ErrorfV "failed to copy status: %v" [] err))
      | Ok found =>
          patched ← Patch destClient obj patchOpts;
          match patched.1 with
          | Some err =>
              mret (Some (ErrorfV "failed to apply object to destination: %v" [] (EApi err)))
          | None =>
              match found with
              | None => mret None
              | Some status =>
                  err ← StatusPatch destClient (statusObj patched.2 status) patchOpts;
                  match err with
                  | Some err => mret (Some (ErrorfV
                      "failed to apply status subresource to destination: %v" [] (EApi err)))
                  | None => mret None
                  end
              end
          end
      end
  end.

(** ** The protocol *)

(** The calls that make sure a namespace exists, and their result. *)
Inductive namespace_phase (c : client) (ns : string) : list call → option goerr → Prop :=
| ns_cluster_scoped :
    ns = "" → namespace_phase c ns [] None
| ns_exists :
    ns ≠ "" → namespace_phase c ns [Call c (ReqGetNamespace (NN "" ns)) None] None
| ns_created e :
    ns ≠ "" → IsNotFound e = true →
    namespace_phase c ns [Call c (ReqGetNamespace (NN "" ns)) (Some e);
                          Call c (ReqCreate {| ns_name := ns |}) None] None
| ns_raced e e' :
    ns ≠ "" → IsNotFound e = true → IsAlreadyExists e' = true →
    namespace_phase c ns [Call c (ReqGetNamespace (NN "" ns)) (Some e);
                          Call c (ReqCreate {| ns_name := ns |}) (Some e')] None
| ns_create_failed e e' :
    ns ≠ "" → IsNotFound e = true → IsAlreadyExists e' = false →
    namespace_phase c ns [Call c (ReqGetNamespace (NN "" ns)) (Some e);
                          Call c (ReqCreate {| ns_name := ns |}) (Some e')]
      (Some (ErrorfV "failed to create destination namespace %q: %v" [ns] (EApi e')))
| ns_check_failed e :
    ns ≠ "" → IsNotFound e = false →
    namespace_phase c ns [Call c (ReqGetNamespace (NN "" ns)) (Some e)]
      (Some (ErrorfV "failed to check destination namespace %q: %v" [ns] (EApi e))).

(** The calls that write the object whose status is [found], and their result. [obj'] is
    the server's answer to the first patch: the status that is sent afterwards is the
    one read before it. *)
Inductive write_phase (c : client) (obj : object) (found : option value) :
    list call → option goerr → Prop :=
| write_failed e :
    write_phase c obj found [Call c (ReqPatch obj patchOpts) (Some e)]
      (Some (ErrorfV "failed to apply object to destination: %v" [] (EApi e)))
| write_no_status :
    found = None → write_phase c obj found [Call c (ReqPatch obj patchOpts) None] None
| write_with_status status obj' :
    found = Some status →
    write_phase c obj found [Call c (ReqPatch obj patchOpts) None;
      Call c (ReqStatusPatch (statusObj obj' status) patchOpts) None] None
| write_status_failed status obj' e :
    found = Some status →
    write_phase c obj found [Call c (ReqPatch obj patchOpts) None;
      Call c (ReqStatusPatch (statusObj obj' status) patchOpts) (Some e)]
      (Some (ErrorfV "failed to apply status subresource to destination: %v" [] (EApi e))).

Inductive apply_protocol (c : client) (obj : object) (found : option value) :
    list call → option goerr → Prop :=
| apply_no_namespace l e :
    namespace_phase c (GetNamespace obj) l (Some e) → apply_protocol c obj found l (Some e)
| apply_written l1 l2 r :
    namespace_phase c (GetNamespace obj) l1 None → write_phase c obj found l2 r →
    apply_protocol c obj found (l1 ++ l2) r.

(** A call that does not fail the sync. *)
Definition tolerated (cl : call) : Prop :=
  match call_error cl with
  | None => True
  | Some e => match call_request cl with
      | ReqGetNamespace _ => IsNotFound e = true
      | ReqCreate _ => IsAlreadyExists e = true
      | _ => False
      end
  end.

(** ** Lemmas *)

Lemma ensureNamespace_emits c ns :
  emits (namespace_phase c ns) (ensureNamespace c ns).
Proof.
  unfold ensureNamespace. unfold_calls. case_bool_decide as Hns.
  - emits_step. by constructor.
  - emits_step. repeat emits_step; unfold id; by constructor.
Qed.
Ltac success_cases :=
  rewrite ?Forall_cons, ?Forall_nil; unfold tolerated; simpl;
  split; intros; destruct_and?; split_and?; (done || congruence).

Lemma write_phase_success c obj found l r :
  write_phase c obj found l r → r = None ↔ Forall tolerated l.
Proof.
  intros Hw. destruct Hw; success_cases.
Qed.

Lemma namespace_phase_success c ns l r :
  namespace_phase c ns l r → r = None ↔ Forall tolerated l.
Proof.
  intros Hp. destruct Hp; success_cases.
Qed.

Lemma apply_protocol_success c obj found l r :
  apply_protocol c obj found l r → r = None ↔ Forall tolerated l.
Proof.
  intros [l' e Hn|l1 l2 r' Hn Hw].
  - by apply namespace_phase_success in Hn.
  - apply namespace_phase_success in Hn. apply write_phase_success in Hw.
    rewrite Forall_app. naive_solver.
Qed.

(** The only writes of a run are to the destination and none precedes a failure of the
    namespace. *)
Lemma apply_protocol_client c obj found l r :
  apply_protocol c obj found l r → Forall (λ cl, call_client cl = c) l.
Proof.
  intros [l' e Hn|l1 l2 r' Hn Hw].
  - by destruct Hn; repeat constructor.
  - apply Forall_app. split; [by destruct Hn; repeat constructor|].
    by destruct Hw; repeat constructor.
Qed.

Lemma destinationExists_emits c obj :
  emits (λ l r, ∃ gvk e,
    l = [Call c (ReqGet (ObjectKeyFromObject obj) gvk) e] ∧
    gvk = GroupVersionKind_of (SetGroupVersionKind (GroupVersionKind_of obj) ∅) ∧
    match e with
    | None => r = Ok true
    | Some e => if IsNotFound e then r = Ok false
        else r = Err (ErrorfW "failed to check destination object: %w" [] (EApi e))
    end) (destinationExists c obj).
Proof.
  unfold destinationExists. unfold_calls. emits_step.
  repeat emits_step; do 2 eexists; (split_and!; [done|done|]);
    simpl; repeat case_match; (done || congruence).
Qed.

(** They ask for no other client. *)
Lemma destinationExists_asks_none c obj : asks_none (destinationExists c obj).
Proof. unfold destinationExists. unfold_calls. asks_none. Qed.

Lemma applyToDestination_asks_none c obj : asks_none (applyToDestination c obj).
Proof. unfold applyToDestination, ensureNamespace. unfold_calls. asks_none. Qed.
End Apply.

Section ApplyProperties.
Context {AE : ApiErrors} {AC : ApiClient} {UN : Unstructured} {UL : UnstructuredLaws}.

Lemma applyToDestination_emits c obj :
  emits (apply_protocol c obj (obj !! "status")) (applyToDestination c obj).
Proof.
  unfold applyToDestination. eapply emits_bind; [apply ensureNamespace_emits|].
  intros l [e|] Hns; [apply emits_ret; rewrite app_nil_r; by constructor|].
  rewrite nested_read_one.
  eapply emits_weaken; [|intros l' r Hw; by apply apply_written].
  unfold_calls. emits_step. emits_step; [emits_step; constructor|].
  destruct (obj !! "status") as [status|] eqn:Hst.
  - emits_step. unfold id. repeat emits_step; simpl; by constructor.
  - emits_step. by constructor.
Qed.

(** ** Properties *)

(** [C20] Every run of [applyToDestination] follows the protocol: the namespace of a
    namespaced object is read and, only if it is NotFound, created, where AlreadyExists
    counts as success; then the object is sent once, by server-side apply with forced
    ownership as "krm-syncer"; then, only if that succeeded and the object has a status,
    the status the object had before the first patch is sent to the status subresource.
    The first failed step ends the run with its error. *)
Theorem applyToDestination_protocol c obj :
  emits (apply_protocol c obj (obj !! "status")) (applyToDestination c obj).
Proof. apply applyToDestination_emits. Qed.

(** [applyToDestination] returns no error exactly if every call it made succeeded, up
    to NotFound when it reads the namespace and AlreadyExists when it creates it; and all
    calls go to the destination. So no failure is swallowed and none is invented. *)
Theorem applyToDestination_success c obj :
  emits (λ l r, (r = None ↔ Forall tolerated l) ∧
    Forall (λ cl, call_client cl = c) l) (applyToDestination c obj).
Proof.
  eapply emits_weaken; [apply applyToDestination_emits|].
  intros l r Hp. split; [by eapply apply_protocol_success|by eapply apply_protocol_client].
Qed.
End ApplyProperties.

(** ** Witnesses *)

Section ApplyWitnesses.
#[local] Existing Instance FakeErrors.
#[local] Existing Instance FakeUnstructured.
#[local] Existing Instance FakeUnstructuredLaws.
#[local] Existing Instance FakeCluster.

(** An object with a status, applied to an empty cluster. *)
Definition apply_object : object := {[
  "apiVersion" := VString "v1"; "kind" := VString "ConfigMap";
  "metadata" := VMap {[ "name" := VString "a"; "namespace" := VString "ns" ]};
  "status" := VMap {[ "phase" := VString "Ready" ]} ]}.

Definition empty_world : fake_world :=
  {| fw_objects := ∅; fw_namespaces := ∅; fw_syncers := []; fw_down := ∅ |}.

Definition apply_run : trace operation * option goerr :=
  (fake_exec (applyToDestination 1 apply_object) empty_world).1.

Lemma applyToDestination_protocol_witness :
  emits (apply_protocol 1 apply_object (apply_object !! "status"))
    (applyToDestination 1 apply_object) ∧
  apply_run.2 = None ∧
  calls_of apply_run.1 =
    [Call 1 (ReqGetNamespace (NN "" "ns")) (Some FNotFound);
     Call 1 (ReqCreate {| ns_name := "ns" |}) None;
     Call 1 (ReqPatch apply_object patchOpts) None;
     Call 1 (ReqStatusPatch apply_object patchOpts) None].
Proof.
  split; [apply applyToDestination_protocol|]. split; reflexivity.
Defined.

Lemma applyToDestination_success_witness :
  emits (λ l r, (r = None ↔ Forall tolerated l) ∧
    Forall (λ cl, call_client cl = 1) l) (applyToDestination 1 apply_object) ∧
  length (calls_of apply_run.1) = 4.
Proof. split; [apply applyToDestination_success|reflexivity]. Defined.
End ApplyWitnesses.
