(* ===== verification/RemoteClients.v ===== *)
(** * Remote connections and the cache of Push destination clients
      ([RemoteConfigProvider] of [syncer/controllers/remote_cluster.go] and
      [syncer/controllers/remote_clients.go])

    The provider is an interface: the handlers are proved against [RemoteConfigProvider],
    which the GKE provider of [GKE.v] implements. The cache maps the provider's keys to
    clients; the theorems say that a key gets one client for the life of the cache. *)

From stdpp Require Import base list strings gmap.
From S2P Require Import Prelude GoStrings Kube Api Fake Client FakeCluster.

(** The interface [RemoteConfigProvider]: how connections are identified and configured.
    [RESTConfig] may call the network; [Key] is a function of its arguments. *)
Class RemoteConfigProvider `{ApiClient} := {
  rest_Config : Type;
  Key : string → option RemoteConfig → res goerr string;
  RESTConfig : string → option RemoteConfig → world → res goerr rest_Config * world;
}.

(** [client.New] of controller-runtime. *)
Class ClientFactory `{RemoteConfigProvider} := {
  client_New : rest_Config → world → res api_error client * world;
}.

Section RemoteClients.
Context `{ClientFactory}.

(** [remoteClientCache], without the provider. *)
Abbreviation clients := (gmap string client).

Definition newRemoteClientCache : clients := ∅.

(** [RESTConfig] and then [client.New]: what both the cache and [getRemoteClient] do to
    build a client. *)
Definition buildClient (namespace : string) (remote : option RemoteConfig) :
    M world (res goerr client) :=
  cfg ← RESTConfig namespace remote;
  match cfg with
  | Err err => mret (Err err)
  | Ok restConfig =>
      cl ← client_New restConfig;
      match cl with
      | Err err => mret (Err (EApi err))
      | Ok cl => mret (Ok cl)
      end
  end.

(** [remoteClientCache.get]: the state is the world and the cache. The body after [Key]
    runs under the cache's mutex. *)
Definition get (namespace : string) (remote : option RemoteConfig) :
    M (world * clients) (res goerr client) := λ '(w, cs),
  match Key namespace remote with
  | Err err => (Err err, (w, cs))
  | Ok key =>
      match cs !! key with
      | Some cl => (Ok cl, (w, cs))
      | None =>
          let '(r, w') := buildClient namespace remote w in
          match r with
          | Err err => (Err err, (w', cs))
          | Ok cl => (Ok cl, (w', <[key := cl]> cs))
          end
      end
  end.

#[local] Arguments get : simpl never.

(** A sequence of calls of [get] by the push watchers, in the order in which they take
    the mutex, and their results; [acts] is what the rest of the system does to the world
    before each call. *)
Fixpoint gets_of (reqs : list (string * option RemoteConfig * (world → world)))
    (s : world * clients) : list (res goerr client) * (world * clients) :=
  match reqs with
  | [] => ([], s)
  | (ns, remote, act) :: reqs' =>
      let '(r, s') := get ns remote (act s.1, s.2) in
      let '(rs, s'') := gets_of reqs' s' in (r :: rs, s'')
  end.

(** ** Lemmas *)

(** What one call does to the cache. *)
Lemma get_cases ns remote w cs :
  let '(r, (w', cs')) := get ns remote (w, cs) in
  (∃ e, r = Err e ∧ cs' = cs) ∨
  (∃ key cl, r = Ok cl ∧ Key ns remote = Ok key ∧
    (cs !! key = Some cl ∧ cs' = cs ∧ w' = w ∨
     cs !! key = None ∧ cs' = <[key := cl]> cs)).
Proof.
  unfold get. destruct (Key ns remote) as [key|e]; [|eauto].
  destruct (cs !! key) as [cl|] eqn:Hk; [naive_solver|].
  destruct (buildClient ns remote w) as [[cl|e] w']; simpl; [right|left]; eauto 10.
Qed.

(** The cache never forgets or replaces a client. *)
Lemma get_grows ns remote w cs :
  cs ⊆ (get ns remote (w, cs)).2.2.
Proof.
  assert (Hc := get_cases ns remote w cs).
  destruct (get ns remote (w, cs)) as [r [w' cs']]; simpl.
  destruct Hc as [(e & _ & ->)|(key & cl & _ & _ & [(_ & -> & _)|(Hk & ->)])]; try done.
  by apply insert_subseteq.
Qed.

Lemma get_caches ns remote w cs key cl :
  (get ns remote (w, cs)).1 = Ok cl → Key ns remote = Ok key →
  (get ns remote (w, cs)).2.2 !! key = Some cl.
Proof.
  assert (Hc := get_cases ns remote w cs).
  destruct (get ns remote (w, cs)) as [r [w' cs']]; simpl. intros -> Hkey.
  destruct Hc as [(e & ? & _)|(key' & cl' & [= <-] & Hkey' & Hc)]; [done|].
  rewrite Hkey in Hkey'. injection Hkey' as <-.
  destruct Hc as [(? & -> & _)|(_ & ->)]; [done|]. apply lookup_insert_eq.
Qed.

Lemma gets_of_known reqs s key cl :
  s.2 !! key = Some cl →
  ∀ i ns remote act, reqs !! i = Some (ns, remote, act) → Key ns remote = Ok key →
  (gets_of reqs s).1 !! i = Some (Ok cl).
Proof.
  revert s; induction reqs as [|[[ns' remote'] act'] reqs IH]; intros [w cs] Hk i ns remote act Hi Hkey;
    [done|]. simpl in *.
  assert (Hg := get_grows ns' remote' (act' w) cs).
  destruct (get ns' remote' (act' w, cs)) as [r s'] eqn:Hget. simpl in Hg.
  destruct (gets_of reqs s') as [rs s''] eqn:Hrs. simpl.
  destruct i as [|i]; simplify_eq/=.
  - unfold get in Hget. rewrite Hkey, Hk in Hget. by simplify_eq/=.
  - replace rs with (gets_of reqs s').1 by by rewrite Hrs.
    eapply IH; [by eapply lookup_weaken|done..].
Qed.

(** ** Properties *)

(** One client per connection: whatever the providers, the clusters and the other
    watchers do, once a [get] returned a client for a key, every later [get] of that key,
    by whichever KRMSyncer, returns the same client. *)
Theorem get_one_client_per_key reqs w i j ns1 remote1 act1 ns2 remote2 act2 key cl :
  reqs !! i = Some (ns1, remote1, act1) → reqs !! j = Some (ns2, remote2, act2) →
  Key ns1 remote1 = Ok key → Key ns2 remote2 = Ok key → i ≤ j →
  (gets_of reqs (w, newRemoteClientCache)).1 !! i = Some (Ok cl) →
  (gets_of reqs (w, newRemoteClientCache)).1 !! j = Some (Ok cl).
Proof.
  generalize newRemoteClientCache as cs. intros cs Hi Hj Hk1 Hk2 Hij.
  revert w cs i j Hi Hj Hij; induction reqs as [|[[ns remote] act] reqs IH];
    intros w cs i j Hi Hj Hij; [done|]. simpl.
  assert (Hcache := get_caches ns remote (act w) cs key cl).
  destruct (get ns remote (act w, cs)) as [r s'] eqn:Hget.
  assert (Hknown := gets_of_known reqs s' key cl).
  specialize (IH s'.1 s'.2). rewrite <-surjective_pairing in IH.
  destruct (gets_of reqs s') as [rs s'']. simpl in *.
  destruct i as [|i], j as [|j]; simplify_eq/=; [done| |lia|eauto with lia].
  intros [= ->]. eauto.
Qed.

(** A [get] that finds its client in the cache touches nothing: no call to the
    provider, no new client, the same cache; and a [get] that fails leaves the cache as
    it was, so that errors are not cached and the next [get] tries again. *)
Theorem get_hit_and_miss ns remote w cs :
  (∀ key cl, Key ns remote = Ok key → cs !! key = Some cl →
    get ns remote (w, cs) = (Ok cl, (w, cs))) ∧
  (∀ e, (get ns remote (w, cs)).1 = Err e → (get ns remote (w, cs)).2.2 = cs) ∧
  (∀ key, Key ns remote = Ok key → cs !! key = None →
    (get ns remote (w, cs)).1 = (buildClient ns remote w).1).
Proof.
  split_and!.
  - intros key cl Hk Hc. unfold get. by rewrite Hk, Hc.
  - intros e. assert (Hc := get_cases ns remote w cs).
    destruct (get ns remote (w, cs)) as [r [w' cs']]; simpl. intros ->. naive_solver.
  - intros key Hk Hc. unfold get. rewrite Hk, Hc.
    by destruct (buildClient ns remote w) as [[]].
Qed.
End RemoteClients.

(** ** A provider for concrete runs *)

Section FakeProvider.
#[local] Existing Instance FakeErrors.
#[local] Existing Instance FakeUnstructured.
#[local] Existing Instance FakeCluster.

(** The connection to a GKE cluster is its name's length; clusters named "" do not
    exist. *)
Definition fake_remote (remote : option RemoteConfig) : option GKECluster :=
  remote ≫= rc_GKECluster.

Definition FakeProvider : RemoteConfigProvider := {|
  rest_Config := nat;
  Key ns remote := match fake_remote remote with
    | Some g => Ok (gke_Name g)
    | None => Err (EStd "no remote")
    end;
  RESTConfig ns remote w := (match fake_remote remote with
    | Some g => Ok (String.length (gke_Name g))
    | None => Err (EStd "no remote")
    end, w);
|}.

#[local] Existing Instance FakeProvider.

Definition FakeFactory : ClientFactory := {|
  client_New cfg w := (if decide (cfg = 0) then Err (FOther "no host") else Ok cfg, w);
|}.

#[local] Existing Instance FakeFactory.

Definition demo_remote (name : string) : option RemoteConfig :=
  Some {| rc_GKECluster := Some {| gke_Project := "p"; gke_Location := "l";
                                   gke_Name := name; gke_Endpoint := "" |} |}.

Definition demo_gets : list (string * option RemoteConfig * (fake_world → fake_world)) :=
  [("ns1", demo_remote "c", id); ("ns2", demo_remote "", id); ("ns2", demo_remote "c", id)].

Definition demo_world : fake_world :=
  {| fw_objects := ∅; fw_namespaces := ∅; fw_syncers := []; fw_down := ∅ |}.

Lemma get_one_client_per_key_witness :
  (gets_of demo_gets (demo_world, newRemoteClientCache)).1 !! 0 = Some (Ok 1) ∧
  (gets_of demo_gets (demo_world, newRemoteClientCache)).1 !! 2 = Some (Ok 1).
Proof.
  split; [reflexivity|].
  exact (get_one_client_per_key demo_gets demo_world 0 2 "ns1" (demo_remote "c") id
    "ns2" (demo_remote "c") id "c" 1 eq_refl eq_refl eq_refl eq_refl
    ltac:(lia) eq_refl).
Defined.
End FakeProvider.
