(* ===== verification/Sync.v ===== *)
(** * Handling an event of a watched object ([DynamicResourceReconciler] of
      [syncer/controllers/krmsyncer_controller.go])

    The whole handler [Reconcile]: the read of the source object, the selection of the
    KRMSyncers and rules, the choice of the destination, deletion, filtering, the
    existence check of status mode, the write, and the failure tracking. *)

From stdpp Require Import base list strings gmap.
From S2P Require Import Prelude Threads GoStrings Kube Api Fake Rules FieldFilter.
From S2P Require Import Tracker Client FakeCluster Apply RemoteClients.

(** A kind watched on a remote cluster. *)
Record RemoteGVK := {
  rgvk_Cluster : string;
  rgvk_GVK : GroupVersionKind;
}.

#[export] Instance RemoteGVK_eq_dec : EqDecision RemoteGVK.
Proof. solve_decision. Defined.
#[export] Instance RemoteGVK_countable : Countable RemoteGVK.
Proof.
  apply (inj_countable' (λ r, (rgvk_Cluster r, rgvk_GVK r))
    (λ p, {| rgvk_Cluster := p.1; rgvk_GVK := p.2 |})). by intros [].
Defined.

Section Sync.
Context {AE : ApiErrors} {AC : ApiClient} {UN : Unstructured}.
Context {RP : RemoteConfigProvider} {CF : ClientFactory} {PG : PrometheusGauge}.

(** The fields fixed when the reconciler is created. Its provider is the class instance;
    its [remoteClients] and [failures] are pointers to shared state, see [controller]. *)
Record DynamicResourceReconciler := {
  dr_LocalClient : client;
  dr_RemoteClient : client;
  dr_GVK : GroupVersionKind;
  dr_Mode : Mode;
  dr_Remote : RemoteGVK;
}.

(** *** What the reconcilers share

    The world, the client cache, and the store of the failure trackers and their gauges. *)
Record shared := {
  sh_world : world;
  sh_clients : gmap string client;
  sh_trackers : list failureTracker;
  sh_gauges : gmap gauge_id gauge;
}.

(** A reconciler with its pointers: does it have the client cache, and which tracker
    ([None]: a nil pointer). *)
Record controller := {
  c_reconciler : DynamicResourceReconciler;
  c_remoteClients : bool;
  c_failures : option nat;
}.

Definition set_world (w : world) (s : shared) : shared :=
  {| sh_world := w; sh_clients := sh_clients s; sh_trackers := sh_trackers s;
     sh_gauges := sh_gauges s |}.

(** [getRemoteClient]: from the cache, or a client of its own. *)
Definition do_RemoteClient (c : controller) (namespace : string)
    (remote : option RemoteConfig) : M shared (res goerr client) := λ s,
  if c_remoteClients c then
    let r := get namespace remote (sh_world s, sh_clients s) in
    (r.1, {| sh_world := r.2.1; sh_clients := r.2.2; sh_trackers := sh_trackers s;
             sh_gauges := sh_gauges s |})
  else
    let r := buildClient namespace remote (sh_world s) in (r.1, set_world r.2 s).

(** [markFailed(key)] and [markSucceeded(key)] of the tracker a pointer points to. *)
Definition mark_at (p : option nat) (key : NamespacedName) (failed : bool) : M shared unit :=
  modify (λ s,
    let r := mark (p ≫= λ i, sh_trackers s !! i) (key, failed) (sh_gauges s) in
    {| sh_world := sh_world s; sh_clients := sh_clients s;
       sh_trackers := match p, r.1 with
         | Some i, Some t => <[i := t]> (sh_trackers s)
         | _, _ => sh_trackers s
         end;
       sh_gauges := r.2 |}).

Definition do_Mark (c : controller) : NamespacedName → bool → M shared unit :=
  mark_at (c_failures c).

(** The operations of a reconciler's handler. *)
Definition at_world (X : Type) (m : M world X) : M shared X := λ s,
  let r := m (sh_world s) in (r.1, set_world r.2 s).

Definition handle (c : controller) : ∀ X, operation X → M shared X :=
  do_operation at_world (do_RemoteClient c) (do_Mark c).

(** The namespaces of a rule; none means all. *)
Definition namespaceMatches (namespaces : list string) (namespace : string) : bool :=
  match namespaces with
  | [] => true
  | _ => existsb (λ ns, bool_decide (ns = namespace)) namespaces
  end.

(** The guards of the loop over the KRMSyncers. *)
Definition syncerMatches (r : DynamicResourceReconciler) (krmsyncer : KRMSyncer) : bool :=
  let spec := ks_Spec krmsyncer in
  if spec_Suspend spec then false
  else if negb (bool_decide (effective_mode (spec_Mode spec) = dr_Mode r)) then false
  else if bool_decide (dr_Mode r = ModePull) then
    match Key (ks_Namespace krmsyncer) (spec_Remote spec) with
    | Err _ => false
    | Ok connKey => bool_decide (connKey = rgvk_Cluster (dr_Remote r))
    end
  else true.

(** The guards of the loop over the rules. *)
Definition ruleMatches (r : DynamicResourceReconciler) (req : NamespacedName)
    (rule : ResourceRule) : bool :=
  if negb (ruleMatchesGVK rule (dr_GVK r)) then false
  else namespaceMatches (rule_Namespaces rule) (nn_Namespace req).

Definition getRemoteClient (krmsyncer : KRMSyncer) : handler (res goerr client) :=
  perform (OpRemoteClient (ks_Namespace krmsyncer) (spec_Remote (ks_Spec krmsyncer))).

Definition destination (r : DynamicResourceReconciler) (krmsyncer : KRMSyncer) :
    handler (res goerr client) :=
  if bool_decide (dr_Mode r = ModePush) then getRemoteClient krmsyncer
  else mret (Ok (dr_LocalClient r)).

(** The object that names what to delete. *)
Definition toDelete (r : DynamicResourceReconciler) (req : NamespacedName) : object :=
  SetNamespace (nn_Namespace req) (SetName (nn_Name req) (SetGroupVersionKind (dr_GVK r) ∅)).

Definition deleteFrom (r : DynamicResourceReconciler) (req : NamespacedName)
    (destClient : client) : handler (option goerr) :=
  err ← Delete destClient (toDelete r req);
  match err with
  | None => mret None
  | Some err => if negb (IsNotFound err) then mret (Some (EApi err)) else mret None
  end.

Definition missingError (r : DynamicResourceReconciler) (krmsyncer : KRMSyncer)
    (destObj : object) : goerr :=
  let name := GetName destObj in
  let ns := GetNamespace destObj in
  let name := if bool_decide (ns = "") then name else ns +:+ "/" +:+ name in
  Errorf ("destination object %s %s does not exist (KRMSyncer %s/%s syncs status only " +:+
    "and does not create objects)")
    [gvk_Kind (dr_GVK r); name; ks_Namespace krmsyncer; ks_Name krmsyncer].

Definition writeTo (r : DynamicResourceReconciler) (u : object) (krmsyncer : KRMSyncer)
    (rule : ResourceRule) (destClient : client) : handler (option goerr) :=
  let syncFields := rule_SyncFields rule in
  match filterFields u syncFields with
  | Err err => mret (Some err)
  | Ok destObj =>
      let destObj := clearServerFields destObj in
      if negb (isFullSync syncFields) then
        exists_ ← destinationExists destClient destObj;
        match exists_ with
        | Err err => mret (Some err)
        | Ok false => mret (Some (missingError r krmsyncer destObj))
        | Ok true => applyToDestination destClient destObj
        end
      else applyToDestination destClient destObj
  end.

(** The body of the loops for a KRMSyncer and a rule that match: the error it appends to
    [syncErrors], if any. [src] is the source object, [None] if it was deleted. *)
Definition syncRule (r : DynamicResourceReconciler) (req : NamespacedName)
    (src : option object) (krmsyncer : KRMSyncer) (rule : ResourceRule) :
    handler (option goerr) :=
  destClient ← destination r krmsyncer;
  match destClient with
  | Err err => mret (Some err)
  | Ok destClient =>
      match src with
      | None => deleteFrom r req destClient
      | Some u => writeTo r u krmsyncer rule destClient
      end
  end.

Definition appendError (errs : list goerr) (err : option goerr) : list goerr :=
  match err with Some e => errs ++ [e] | None => errs end.

(** The loops. *)
Definition syncRules (r : DynamicResourceReconciler) (req : NamespacedName)
    (src : option object) (krmsyncer : KRMSyncer) (errs : list goerr) :
    handler (list goerr) :=
  forP (spec_Rules (ks_Spec krmsyncer)) errs (λ rule errs,
    if negb (ruleMatches r req rule) then mret errs else
    err ← syncRule r req src krmsyncer rule;
    mret (appendError errs err)).

Definition syncAll (r : DynamicResourceReconciler) (req : NamespacedName)
    (src : option object) (krmsyncers : list KRMSyncer) : handler (list goerr) :=
  forP krmsyncers [] (λ krmsyncer errs,
    if negb (syncerMatches r krmsyncer) then mret errs else
    syncRules r req src krmsyncer errs).

(** [Reconcile] after the source object was read. *)
Definition reconcileFrom (r : DynamicResourceReconciler) (req : NamespacedName)
    (src : option object) : handler (option goerr) :=
  krmsyncers ← List (dr_LocalClient r);
  match krmsyncers with
  | Err err => mret (Some (EApi err))
  | Ok krmsyncers =>
      syncErrors ← syncAll r req src krmsyncers;
      match Join_all syncErrors with
      | Some err => perform (OpMark req true) ;; mret (Some err)
      | None => perform (OpMark req false) ;; mret None
      end
  end.

Definition Reconcile (r : DynamicResourceReconciler) (req : NamespacedName) :
    handler (option goerr) :=
  got ← Get (dr_RemoteClient r) req (SetGroupVersionKind (dr_GVK r) ∅);
  match got with
  | Ok u => reconcileFrom r req (Some u)
  | Err err =>
      match IgnoreNotFound err with
      | None => reconcileFrom r req None
      | Some _ => perform (OpMark req true) ;; mret (Some (EApi err))
      end
  end.

(** ** The protocol of a run *)

(** What a run must handle: the rules that match, of the KRMSyncers that match, in the
    order of the list. *)
Definition targets (r : DynamicResourceReconciler) (req : NamespacedName)
    (krmsyncers : list KRMSyncer) : list (KRMSyncer * ResourceRule) :=
  filter (λ k, syncerMatches r k = true) krmsyncers ≫= λ k,
    pair k <$> filter (λ rule, ruleMatches r req rule = true) (spec_Rules (ks_Spec k)).

(** In Pull mode the destination is always the local cluster. *)
Definition may_write_to (r : DynamicResourceReconciler) (c : client) : Prop :=
  dr_Mode r = ModePush ∨ c = dr_LocalClient r.

Definition read_request (r : DynamicResourceReconciler) (req : NamespacedName) : request :=
  ReqGet req (GroupVersionKind_of (SetGroupVersionKind (dr_GVK r) ∅)).

(** The existence check of status mode. *)
Definition check_request (o : object) : request :=
  ReqGet (ObjectKeyFromObject o)
    (GroupVersionKind_of (SetGroupVersionKind (GroupVersionKind_of o) ∅)).

(** What is asked for to choose a KRMSyncer's destination, given the answer. *)
Definition asked (r : DynamicResourceReconciler) (k : KRMSyncer) (dest : res goerr client) :
    list remote_answer :=
  if bool_decide (dr_Mode r = ModePush)
  then [(ks_Namespace k, spec_Remote (ks_Spec k), dest)] else [].

(** The calls for one target, and the error it adds, given what became of the choice of its
    destination. *)
Inductive target_protocol (r : DynamicResourceReconciler) (req : NamespacedName)
    (src : option object) (t : KRMSyncer * ResourceRule) :
    res goerr client → list call → option goerr → Prop :=
| target_no_client e :
    dr_Mode r = ModePush → target_protocol r req src t (Err e) [] (Some e)
| target_deleted c :
    src = None → may_write_to r c →
    target_protocol r req src t (Ok c) [Call c (ReqDelete (toDelete r req)) None] None
| target_already_deleted c e :
    src = None → may_write_to r c → IsNotFound e = true →
    target_protocol r req src t (Ok c) [Call c (ReqDelete (toDelete r req)) (Some e)] None
| target_delete_failed c e :
    src = None → may_write_to r c → IsNotFound e = false →
    target_protocol r req src t (Ok c) [Call c (ReqDelete (toDelete r req)) (Some e)]
      (Some (EApi e))
| target_filter_failed u c e :
    src = Some u → may_write_to r c → filterFields u (rule_SyncFields t.2) = Err e →
    target_protocol r req src t (Ok c) [] (Some e)
| target_full u d c l res :
    src = Some u → filterFields u (rule_SyncFields t.2) = Ok d →
    isFullSync (rule_SyncFields t.2) = true → may_write_to r c →
    apply_protocol c (clearServerFields d) (clearServerFields d !! "status") l res →
    target_protocol r req src t (Ok c) l res
| target_missing u d c e :
    src = Some u → filterFields u (rule_SyncFields t.2) = Ok d →
    isFullSync (rule_SyncFields t.2) = false → may_write_to r c → IsNotFound e = true →
    target_protocol r req src t (Ok c) [Call c (check_request (clearServerFields d)) (Some e)]
      (Some (missingError r t.1 (clearServerFields d)))
| target_check_failed u d c e :
    src = Some u → filterFields u (rule_SyncFields t.2) = Ok d →
    isFullSync (rule_SyncFields t.2) = false → may_write_to r c → IsNotFound e = false →
    target_protocol r req src t (Ok c) [Call c (check_request (clearServerFields d)) (Some e)]
      (Some (ErrorfW "failed to check destination object: %w" [] (EApi e)))
| target_status u d c l res :
    src = Some u → filterFields u (rule_SyncFields t.2) = Ok d →
    isFullSync (rule_SyncFields t.2) = false → may_write_to r c →
    apply_protocol c (clearServerFields d) (clearServerFields d !! "status") l res →
    target_protocol r req src t (Ok c)
      (Call c (check_request (clearServerFields d)) None :: l) res.

(** What becomes of one target: the answer to the choice of its destination, its calls, and
    the error it adds. *)
Record attempt := {
  at_Client : res goerr client;
  at_Calls : list call;
  at_Error : option goerr;
}.

Definition attempted (r : DynamicResourceReconciler) (req : NamespacedName)
    (src : option object) (t : KRMSyncer * ResourceRule) (a : attempt) : Prop :=
  target_protocol r req src t (at_Client a) (at_Calls a) (at_Error a).

(** One run per target, in order: all clients asked for, all calls, and all errors. *)
Inductive targets_protocol (r : DynamicResourceReconciler) (req : NamespacedName)
    (src : option object) : list (KRMSyncer * ResourceRule) →
    list remote_answer → list call → list goerr → Prop :=
| targets_nil : targets_protocol r req src [] [] [] []
| targets_snoc ts t dest rs l l' errs e :
    targets_protocol r req src ts rs l errs → target_protocol r req src t dest l' e →
    targets_protocol r req src (ts ++ [t]) (rs ++ asked r t.1 dest) (l ++ l')
      (appendError errs e).

(** What the read of the source says: an object, no object, or nothing. *)
Definition source_of (got : res api_error object) : option (option object) :=
  match got with
  | Ok u => Some (Some u)
  | Err e => if IsNotFound e then Some None else None
  end.

(** A whole run, for the answers [got] and [listed] to its two reads; the second is not
    made if the source cannot be read. *)
Inductive sync_protocol (r : DynamicResourceReconciler) (req : NamespacedName)
    (got : res api_error object) :
    option (res api_error (list KRMSyncer)) → list remote_answer → list call →
    option goerr → Prop :=
| sync_unreadable e :
    got = Err e → IsNotFound e = false →
    sync_protocol r req got None []
      [Call (dr_RemoteClient r) (read_request r req) (Some e)] (Some (EApi e))
| sync_unlisted src e :
    source_of got = Some src →
    sync_protocol r req got (Some (Err e)) []
      [Call (dr_RemoteClient r) (read_request r req) (err_of got);
       Call (dr_LocalClient r) ReqList (Some e)] (Some (EApi e))
| sync_run src items rs l errs :
    source_of got = Some src →
    targets_protocol r req src (targets r req items) rs l errs →
    sync_protocol r req got (Some (Ok items)) rs
      (Call (dr_RemoteClient r) (read_request r req) (err_of got) ::
       Call (dr_LocalClient r) ReqList None :: l) (Join_all errs).

(** *** What a trace shows *)

(** The answer to the read of the source, the first operation, and to the list of the
    KRMSyncers, the second. *)
Definition got_of (tr : trace operation) : option (res api_error object) :=
  match tr with
  | Ev o x :: _ => match o in operation X return X → option (res api_error object) with
      | OpGet _ _ _ => λ r, Some r
      | _ => λ _, None
      end x
  | [] => None
  end.

Definition listed_of (tr : trace operation) : option (res api_error (list KRMSyncer)) :=
  match tr with
  | _ :: Ev o x :: _ =>
      match o in operation X return X → option (res api_error (list KRMSyncer)) with
      | OpList _ => λ r, Some r
      | _ => λ _, None
      end x
  | _ => None
  end.

(** The marks of the tracker. *)
Definition mark_of (e : event operation) : option (NamespacedName * bool) :=
  let 'Ev o _ := e in
  match o with OpMark key failed => Some (key, failed) | _ => None end.
Definition marks_of (tr : trace operation) : list (NamespacedName * bool) := omap mark_of tr.

(** ** Lemmas *)

(** Choosing the destination makes no call to a cluster; it asks for a client, and fails, only
    in Push mode. *)
Lemma destination_asks r k :
  asks (λ rs l x, rs = asked r k x ∧ l = [] ∧ match x with
    | Ok c => may_write_to r c | Err _ => dr_Mode r = ModePush end) (destination r k).
Proof.
  unfold destination, may_write_to, asked. case_bool_decide as Hm.
  - apply yields_perform. intros [c|e]; auto.
  - apply yields_ret. auto.
Qed.
End Sync.

Section SyncLemmas.
Context {AE : ApiErrors} {AC : ApiClient} {UN : Unstructured} {UL : UnstructuredLaws}.
Context {RP : RemoteConfigProvider} {CF : ClientFactory} {PG : PrometheusGauge}.
Implicit Types r : DynamicResourceReconciler.

Lemma deleteFrom_emits r req t c :
  may_write_to r c → emits (target_protocol r req None t (Ok c)) (deleteFrom r req c).
Proof.
  intros Hc. unfold deleteFrom. eapply emits_bind.
  - by apply (emits_op _ (λ l x, l = [Call c (ReqDelete (toDelete r req)) x])).
  - intros l [e|] ->; [destruct (IsNotFound e) eqn:He|]; apply emits_ret; simpl;
      by constructor.
Qed.

Lemma writeTo_emits r req u k rule c :
  may_write_to r c →
  emits (target_protocol r req (Some u) (k, rule) (Ok c)) (writeTo r u k rule c).
Proof.
  intros Hc. unfold writeTo.
  destruct (filterFields u (rule_SyncFields rule)) as [d|e] eqn:Hd;
    [|by apply emits_ret, (target_filter_failed _ _ _ _ u)].
  assert (Happly := applyToDestination_emits c (clearServerFields d)).
  destruct (isFullSync (rule_SyncFields rule)) eqn:Hfull; cbn [negb].
  - eapply emits_weaken; [exact Happly|]. intros l x. by apply (target_full _ _ _ _ u).
  - eapply emits_bind; [apply destinationExists_emits|].
    intros l x (gvk & e & -> & -> & Hx). destruct e as [e|].
    + destruct (IsNotFound e) eqn:He; subst x; apply emits_ret; simpl;
        [by apply (target_missing _ _ _ (k, rule) u d)|by apply (target_check_failed _ _ _ _ u d)].
    + subst x. eapply emits_weaken; [exact Happly|].
      intros l x. by apply (target_status _ _ _ _ u d).
Qed.

Lemma writeTo_asks_none r u k rule c : asks_none (writeTo r u k rule c).
Proof.
  unfold writeTo. destruct (filterFields _ _); [|asks_none].
  destruct (negb _); [|apply applyToDestination_asks_none].
  apply asks_none_bind; [apply destinationExists_asks_none|].
  intros [[]|]; [apply applyToDestination_asks_none|asks_none..].
Qed.

Lemma deleteFrom_asks_none r req c : asks_none (deleteFrom r req c).
Proof. unfold deleteFrom. unfold_calls. asks_none. Qed.

(** For a target, the client of its destination is asked for, and then the calls are those
    of its protocol. *)
Lemma syncRule_asks r req src k rule :
  asks (λ rs l e, ∃ dest, rs = asked r k dest ∧
    target_protocol r req src (k, rule) dest l e) (syncRule r req src k rule).
Proof.
  unfold syncRule. eapply asks_bind; [apply destination_asks|].
  intros rs l x (-> & -> & Hx).
  assert (Hrest : ∀ p : handler (option goerr), asks_none p →
    emits (target_protocol r req src (k, rule) x) p →
    asks (λ rs' l' e, ∃ dest, asked r k x ++ rs' = asked r k dest ∧
      target_protocol r req src (k, rule) dest ([] ++ l') e) p).
  { intros p Hn He. eapply yields_weaken; [exact (asks_emits _ _ Hn He)|].
    intros tr e [-> Hp]. exists x. by rewrite app_nil_r. }
  destruct x as [c|e].
  - destruct src as [u|]; apply Hrest.
    + apply writeTo_asks_none.
    + by apply writeTo_emits.
    + apply deleteFrom_asks_none.
    + by apply deleteFrom_emits.
  - apply Hrest; [asks_none|]. by apply emits_ret, target_no_client.
Qed.

(** The nested loops with their guards are one loop over the targets. *)
Lemma syncAll_targets r req src items :
  syncAll r req src items ≡
  forP (targets r req items) [] (λ t errs,
    err ← syncRule r req src t.1 t.2; mret (appendError errs err)).
Proof.
  unfold syncAll, targets. etrans; [|apply forP_flat_map].
  etrans; [apply (forP_filter (λ k, syncerMatches r k = true));
    by intros k errs _ ->%not_true_is_false|].
  apply forP_ext. intros k errs [Hk _]%list_elem_of_filter.
  rewrite Hk. etrans; [|symmetry; apply forP_fmap]. unfold syncRules. simpl.
  etrans; [apply (forP_filter (λ rule, ruleMatches r req rule = true));
    by intros rule errs' _ ->%not_true_is_false|].
  apply forP_ext. intros rule errs' [Hr _]%list_elem_of_filter. by rewrite Hr.
Qed.

Lemma syncAll_asks r req src items :
  asks (targets_protocol r req src (targets r req items)) (syncAll r req src items).
Proof.
  unfold asks. rewrite syncAll_targets.
  apply (asks_forP (targets_protocol r req src)); [constructor|].
  intros done [k rule] todo rs l errs _ HI.
  eapply asks_bind; [apply syncRule_asks|].
  intros rs' l' e (dest & -> & He). apply asks_ret. rewrite !app_nil_r. by constructor.
Qed.

(** *** Only the last operation of a run touches the tracker *)

Abbreviation quiet p := (yields (λ tr _, marks_of tr = []) p).

Lemma quiet_bind {A B} (p : handler A) (k : A → handler B) :
  quiet p → (∀ a, quiet (k a)) → quiet (p ≫= k).
Proof.
  intros Hp Hk. eapply yields_bind; [exact Hp|]. intros tr a Htr.
  eapply yields_weaken; [apply Hk|]. intros tr' b Htr'. unfold marks_of in *.
  by rewrite omap_app, Htr, Htr'.
Qed.

Lemma quiet_ret {A} (a : A) : quiet (mret a : handler A).
Proof. by apply yields_ret. Qed.

Lemma quiet_op {X} (o : operation X) : (∀ x, mark_of (Ev o x) = None) → quiet (perform o).
Proof.
  intros Ho. apply yields_perform. intros x. unfold marks_of.
  change (omap mark_of [Ev o x]) with
    (match mark_of (Ev o x) with Some y => [y] | None => [] end).
  by rewrite Ho.
Qed.

Ltac quiet_step :=
  lazymatch goal with
  | |- yields _ (mret _) => apply quiet_ret
  | |- yields _ (mbind _ _) => apply quiet_bind; [|intros ?]
  | |- yields _ (perform _) => by apply quiet_op
  | |- yields _ (match ?x with _ => _ end) => destruct x eqn:?
  | |- yields _ (if ?b then _ else _) => destruct b eqn:?
  end.

Lemma applyToDestination_quiet c o : quiet (applyToDestination c o).
Proof.
  unfold applyToDestination, ensureNamespace. unfold_calls. by repeat quiet_step.
Qed.

Lemma syncRule_quiet r req src k rule : quiet (syncRule r req src k rule).
Proof.
  unfold syncRule, destination, getRemoteClient. quiet_step; [by repeat quiet_step|].
  quiet_step; [|quiet_step]. destruct src as [u|].
  - unfold writeTo, destinationExists. unfold_calls.
    repeat (quiet_step || apply applyToDestination_quiet).
  - unfold deleteFrom. unfold_calls. by repeat quiet_step.
Qed.

Lemma forP_quiet {A B} (l : list A) (acc : B) (body : A → B → handler B) :
  (∀ x acc, quiet (body x acc)) → quiet (forP l acc body).
Proof.
  intros Hbody. revert acc; induction l as [|x l IH]; intros acc; [apply quiet_ret|].
  simpl. apply quiet_bind; [apply Hbody|apply IH].
Qed.

Lemma syncAll_quiet r req src items : quiet (syncAll r req src items).
Proof.
  apply forP_quiet. intros k errs. quiet_step; [apply quiet_ret|].
  apply forP_quiet. intros rule errs'. quiet_step; [apply quiet_ret|].
  quiet_step; [apply syncRule_quiet|quiet_step].
Qed.

(** *** The number of operations of a run *)

Lemma applyToDestination_at_most c o : at_most 4 (applyToDestination c o).
Proof.
  unfold applyToDestination. apply (at_most_bind 2 2).
  - unfold ensureNamespace. unfold_calls. repeat at_most_step.
  - intros e. unfold_calls. repeat at_most_step.
Qed.

Lemma syncRule_at_most r req src k rule : at_most 6 (syncRule r req src k rule).
Proof.
  unfold syncRule. apply (at_most_bind 1 5).
  - unfold destination, getRemoteClient. repeat at_most_step.
  - intros [c|e]; [|at_most_step]. destruct src as [u|].
    + unfold writeTo. at_most_step; [|at_most_step]. destruct (negb _).
      * apply (at_most_bind 1 4); [unfold destinationExists; unfold_calls; repeat at_most_step|].
        intros [[]|]; [apply applyToDestination_at_most|at_most_step..].
      * apply (at_most_weaken 4); [lia|apply applyToDestination_at_most].
    + unfold deleteFrom. unfold_calls. repeat at_most_step.
Qed.

Lemma syncAll_at_most r req src items :
  at_most (6 * length (targets r req items)) (syncAll r req src items).
Proof.
  rewrite syncAll_targets. apply at_most_forP. intros t errs.
  apply (at_most_bind 6 0); [apply syncRule_at_most|]. intros e. at_most_step.
Qed.

(** What the answer to the list asks for. *)
Definition work (r : DynamicResourceReconciler) (req : NamespacedName)
    (tr : trace operation) : nat :=
  match listed_of tr with Some (Ok items) => length (targets r req items) | _ => 0 end.

(** *** The shape of a run *)

(** The end of a run: one mark with its outcome. *)
Definition outcome (req : NamespacedName) (res : option goerr) : event operation :=
  Ev (OpMark req (bool_decide (res ≠ None))) tt.

Lemma finish_trace req (errs : list goerr) tr (res : option goerr) :
  trace_of (match Join_all errs with
    | Some err => perform (OpMark req true) ;; mret (Some err)
    | None => perform (OpMark req false) ;; mret None
    end : handler (option goerr)) tr res → res = Join_all errs ∧ tr = [outcome req res].
Proof.
  destruct (Join_all errs) as [e|]; intros ([] & tr' & -> & -> & ->); done.
Qed.

Lemma reconcileFrom_trace r req src tr res :
  trace_of (reconcileFrom r req src) tr res →
  ∃ listed rest, tr = Ev (OpList (dr_LocalClient r)) listed :: rest ∧
    match listed with
    | Err e => rest = [] ∧ res = Some (EApi e)
    | Ok items => ∃ tr' errs, rest = tr' ++ [outcome req res] ∧
        trace_of (syncAll r req src items) tr' errs ∧ res = Join_all errs
    end.
Proof.
  unfold reconcileFrom. intros (tr1 & x & tr2 & -> & (listed & tr3 & -> & -> & ->) & H)%trace_of_bind.
  exists listed, tr2. split; [done|]. destruct listed as [items|e].
  - apply trace_of_bind in H as (tr4 & errs & tr5 & -> & Hs & [-> ->]%finish_trace).
    by exists tr4, errs.
  - by destruct H as [-> ->].
Qed.

Lemma Reconcile_trace r req tr res :
  trace_of (Reconcile r req) tr res →
  ∃ got rest, tr = Ev (OpGet (dr_RemoteClient r) req
      (GroupVersionKind_of (SetGroupVersionKind (dr_GVK r) ∅))) got :: rest ∧
    match source_of got with
    | None => ∃ e, got = Err e ∧ IsNotFound e = false ∧ res = Some (EApi e) ∧
        rest = [outcome req res]
    | Some src => trace_of (reconcileFrom r req src) rest res
    end.
Proof.
  unfold Reconcile. intros (tr1 & x & tr2 & -> & (got & tr3 & -> & -> & ->) & H)%trace_of_bind.
  exists got, tr2. split; [done|]. destruct got as [u|e]; [done|]. simpl.
  unfold IgnoreNotFound in H. destruct (IsNotFound e) eqn:He; [done|].
  exists e. destruct H as ([] & tr' & -> & -> & ->). done.
Qed.

(** A run follows the protocol of the answers to its reads. *)
Lemma Reconcile_emits r req tr res :
  trace_of (Reconcile r req) tr res →
  ∃ got, got_of tr = Some got ∧
    sync_protocol r req got (listed_of tr) (remotes_of tr) (calls_of tr) res.
Proof.
  intros (got & rest & -> & H)%Reconcile_trace. exists got. split; [done|].
  destruct (source_of got) as [src|] eqn:Hsrc.
  - apply reconcileFrom_trace in H as (listed & rest' & -> & H). simpl.
    destruct listed as [items|e].
    + destruct H as (tr' & errs & -> & Htr & ->). unfold calls_of, remotes_of. simpl.
      rewrite !omap_app. simpl. rewrite !app_nil_r.
      eapply sync_run; [done|]. exact (syncAll_asks _ _ _ _ _ _ Htr).
    + destruct H as [-> ->]. by eapply sync_unlisted.
  - destruct H as (e & -> & He & -> & ->). by apply sync_unreadable.
Qed.

Lemma Reconcile_length r req tr res :
  trace_of (Reconcile r req) tr res → length tr ≤ 3 + 6 * work r req tr.
Proof.
  intros (got & rest & -> & H)%Reconcile_trace. unfold work.
  destruct (source_of got) as [src|]; [|destruct H as (e & _ & _ & _ & ->); simpl; lia].
  apply reconcileFrom_trace in H as (listed & rest' & -> & H). simpl.
  destruct listed as [items|e]; [|destruct H as [-> _]; simpl; lia].
  destruct H as (tr' & errs & -> & Htr & _). apply syncAll_at_most in Htr.
  rewrite length_app. simpl in *. lia.
Qed.

(** *** The calls of a run *)

Lemma targets_protocol_runs r req src ts rs l errs :
  targets_protocol r req src ts rs l errs →
  ∃ runs, Forall2 (attempted r req src) ts runs ∧
    rs = concat (zip_with (λ t run, asked r t.1 (at_Client run)) ts runs) ∧
    l = concat (at_Calls <$> runs) ∧ errs = omap at_Error runs.
Proof.
  induction 1 as [|ts t dest rs l l' errs e _ (runs & HF & -> & -> & ->) Ht]; [by exists []|].
  exists (runs ++ [{| at_Client := dest; at_Calls := l'; at_Error := e |}]). split_and!.
  - apply Forall2_app; [done|by repeat constructor].
  - rewrite zip_with_app by by eapply Forall2_length. rewrite concat_app. simpl.
    by rewrite app_nil_r.
  - by rewrite fmap_app, concat_app; simpl; rewrite app_nil_r.
  - rewrite omap_app. destruct e; simpl; by rewrite ?app_nil_r.
Qed.

Lemma targets_protocol_call r req src ts rs l errs cl :
  targets_protocol r req src ts rs l errs → cl ∈ l →
  ∃ t dest l' e, t ∈ ts ∧ target_protocol r req src t dest l' e ∧ cl ∈ l'.
Proof.
  induction 1 as [|ts t dest rs l l' errs e _ IH Ht]; [by intros ?%elem_of_nil|].
  intros [Hin|Hin]%elem_of_app.
  - destruct (IH Hin) as (t' & dest' & lt & e' & Hts & Ht' & Hcl).
    exists t', dest', lt, e'. split_and!; [apply elem_of_app; by left|done..].
  - exists t, dest, l', e. split_and!; [apply elem_of_app; right; by left|done..].
Qed.

(** Every call but the two reads is made for a target. *)
Lemma sync_protocol_call r req got listed rs l res cl :
  sync_protocol r req got listed rs l res → cl ∈ l →
  cl = Call (dr_RemoteClient r) (read_request r req) (err_of got) ∨
  (∃ e, cl = Call (dr_LocalClient r) ReqList e) ∨
  ∃ src items t dest l' e, source_of got = Some src ∧ listed = Some (Ok items) ∧
    t ∈ targets r req items ∧ target_protocol r req src t dest l' e ∧ cl ∈ l'.
Proof.
  intros [e -> _|src e _|src items rs' l' errs Hsrc Ht]; simpl;
    rewrite ?elem_of_cons, ?elem_of_nil;
    [by intros [->|[]]; left|by intros [->|[->|[]]]; eauto|].
  intros [->|[->|Hin]]; [by left|by right; left; eexists|right; right].
  destruct (targets_protocol_call _ _ _ _ _ _ _ _ Ht Hin) as (t & dest & lt & e & ?).
  exists src, items, t, dest, lt, e. tauto.
Qed.
End SyncLemmas.
