(* ===== verification/SyncSpec.v ===== *)
(** * What handling an event guarantees

    The properties of [Sync.Reconcile], from the protocol of its calls: which clusters and
    objects it writes and when, how errors of targets combine, and how failures are
    tracked. They are about every trace, so they hold whatever the API servers answer and
    whatever else runs between two operations. *)

From stdpp Require Import base list strings gmap.
From S2P Require Import Prelude Threads GoStrings Kube Api Fake Rules FieldFilter.
From S2P Require Import Tracker Client FakeCluster Apply RemoteClients Sync.

Section SyncSpec.
Context {AE : ApiErrors} {AC : ApiClient} {UN : Unstructured} {UL : UnstructuredLaws}.
Context {RP : RemoteConfigProvider} {CF : ClientFactory} {PG : PrometheusGauge}.
Implicit Types r : DynamicResourceReconciler.

(** *** The calls of a protocol *)

Lemma namespace_phase_call c ns l res cl :
  namespace_phase c ns l res → cl ∈ l →
  call_client cl = c ∧ (call_request cl = ReqGetNamespace (NN "" ns) ∨
    call_request cl = ReqCreate {| ns_name := ns |}).
Proof.
  destruct 1; rewrite ?elem_of_cons, elem_of_nil; naive_solver.
Qed.

Lemma apply_protocol_call c o st l res cl :
  apply_protocol c o st l res → cl ∈ l →
  call_client cl = c ∧
  (call_request cl = ReqGetNamespace (NN "" (GetNamespace o)) ∨
   call_request cl = ReqCreate {| ns_name := GetNamespace o |} ∨
   call_request cl = ReqPatch o patchOpts ∨
   ∃ o' v, st = Some v ∧ call_request cl = ReqStatusPatch (statusObj o' v) patchOpts).
Proof.
  intros [l' e Hn|l1 l2 r' Hn Hw].
  - intros Hin. destruct (namespace_phase_call _ _ _ _ _ Hn Hin). tauto.
  - intros [Hin|Hin]%elem_of_app.
    + destruct (namespace_phase_call _ _ _ _ _ Hn Hin). tauto.
    + destruct Hw; rewrite ?elem_of_cons, elem_of_nil in Hin; naive_solver.
Qed.

(** What the calls of a target can be. *)
Lemma target_protocol_call r req src t dest l e cl :
  target_protocol r req src t dest l e → cl ∈ l →
  may_write_to r (call_client cl) ∧
  match src with
  | None => call_request cl = ReqDelete (toDelete r req)
  | Some u => ∃ d, filterFields u (rule_SyncFields t.2) = Ok d ∧
      let o := clearServerFields d in
      (call_request cl = check_request o ∧ isFullSync (rule_SyncFields t.2) = false ∨
       call_request cl = ReqGetNamespace (NN "" (GetNamespace o)) ∨
       call_request cl = ReqCreate {| ns_name := GetNamespace o |} ∨
       call_request cl = ReqPatch o patchOpts ∨
       ∃ o' v, o !! "status" = Some v ∧ call_request cl = ReqStatusPatch (statusObj o' v) patchOpts)
  end.
Proof.
  destruct 1 as [| | | | |u d c l res -> Hd Hf Hc Hp| | |u d c l res -> Hd Hf Hc Hp]; subst;
    rewrite ?elem_of_cons, ?elem_of_nil; try (intros; destruct_or?; subst; naive_solver).
  - intros Hin. destruct (apply_protocol_call _ _ _ _ _ _ Hp Hin) as [-> ?].
    split; [done|]. exists d. simpl. tauto.
  - intros [->|Hin]; [naive_solver|].
    destruct (apply_protocol_call _ _ _ _ _ _ Hp Hin) as [-> ?].
    split; [done|]. exists d. simpl. tauto.
Qed.

(** Every write of a run is made for a target. *)
Lemma run_write r req tr res cl :
  trace_of (Reconcile r req) tr res → cl ∈ calls_of tr → is_write (call_request cl) = true →
  ∃ got src items t dest l' e, got_of tr = Some got ∧ source_of got = Some src ∧
    listed_of tr = Some (Ok items) ∧ t ∈ targets r req items ∧
    target_protocol r req src t dest l' e ∧ cl ∈ l'.
Proof.
  intros (got & Hgot & Hp)%Reconcile_emits Hin Hw. exists got.
  destruct (sync_protocol_call _ _ _ _ _ _ _ _ Hp Hin) as [->|[[e ->]|H]]; [done|done|].
  destruct H as (src & items & t & dest & l' & e & ?). by exists src, items, t, dest, l', e.
Qed.

Lemma targets_elem r req items k rule :
  (k, rule) ∈ targets r req items ↔
  (k ∈ items ∧ syncerMatches r k = true) ∧
  (rule ∈ spec_Rules (ks_Spec k) ∧ ruleMatches r req rule = true).
Proof.
  unfold targets. rewrite list_elem_of_bind. split.
  - intros (k' & (rule' & [= -> ->] & Hr)%list_elem_of_fmap & Hk).
    apply list_elem_of_filter in Hr, Hk. tauto.
  - intros [[??] [??]]. exists k. split; [|by apply list_elem_of_filter].
    apply list_elem_of_fmap. exists rule. split; [done|]. by apply list_elem_of_filter.
Qed.

Lemma syncerMatches_spec r k :
  syncerMatches r k = true ↔
  spec_Suspend (ks_Spec k) = false ∧ effective_mode (spec_Mode (ks_Spec k)) = dr_Mode r ∧
  (dr_Mode r = ModePull →
    Key (ks_Namespace k) (spec_Remote (ks_Spec k)) = Ok (rgvk_Cluster (dr_Remote r))).
Proof.
  unfold syncerMatches. destruct (spec_Suspend _); [naive_solver|].
  case_bool_decide; simpl; [|naive_solver].
  case_bool_decide; [|naive_solver].
  destruct (Key _ _) as [key|]; [|naive_solver].
  rewrite bool_decide_eq_true. naive_solver.
Qed.

Lemma namespaceMatches_spec namespaces ns :
  namespaceMatches namespaces ns = true ↔ namespaces = [] ∨ ns ∈ namespaces.
Proof.
  unfold namespaceMatches. destruct namespaces as [|n l]; [naive_solver|].
  rewrite existsb_exists. setoid_rewrite bool_decide_eq_true.
  setoid_rewrite <-list_elem_of_In. naive_solver.
Qed.

Lemma ruleMatches_spec r req rule :
  ruleMatches r req rule = true ↔
  ruleMatchesGVK rule (dr_GVK r) = true ∧
  (rule_Namespaces rule = [] ∨ nn_Namespace req ∈ rule_Namespaces rule).
Proof.
  unfold ruleMatches. rewrite <-namespaceMatches_spec.
  destruct (ruleMatchesGVK _ _); naive_solver.
Qed.

(** A write and the object it writes, where the request shows it. *)
Definition writes_object (o : object) (rq : request) : Prop :=
  match rq with
  | ReqPatch o' _ => o' = o
  | ReqCreate ns => ns_name ns = GetNamespace o
  | ReqStatusPatch _ _ => True
  | _ => False
  end.

(** In [l], every write is preceded by a successful check, on the same cluster, that the
    object exists. *)
Definition checked (l : list call) : Prop :=
  ∀ l1 cl l2, l = l1 ++ cl :: l2 → is_write (call_request cl) = true →
    ∃ o, Call (call_client cl) (check_request o) None ∈ l1 ∧ writes_object o (call_request cl).

Lemma checked_app l1 l2 : checked l1 → checked l2 → checked (l1 ++ l2).
Proof.
  intros H1 H2 la cl lb Heq Hw.
  apply app_eq_inv in Heq as [(k & -> & Hk)|(k & -> & Hk)].
  - destruct k as [|cl' k]; simplify_eq/=.
    + destruct (H2 [] cl lb) as (o & Ho & ?); [done|done|]. by apply elem_of_nil in Ho.
    + by eapply H1.
  - destruct (H2 k cl lb) as (o & Ho & ?); [done|done|].
    exists o. split; [|done]. apply elem_of_app. by right.
Qed.

Lemma checked_status r req u t dest l e :
  isFullSync (rule_SyncFields t.2) = false →
  target_protocol r req (Some u) t dest l e → checked l.
Proof.
  intros Hst Hp l1 cl l2 Heq Hw.
  assert (Hin : cl ∈ l) by (rewrite Heq; apply elem_of_app; right; by left).
  destruct Hp as [| | | | |? d c l res _ _ Hf|? d c e _ _ _ _ _|? d c e _ _ _ _ _|
    ? d c l res _ _ _ _ Hp]; subst; try done;
    try (by apply elem_of_nil in Hin); try (by apply list_elem_of_singleton in Hin as ->);
    [congruence|].
  destruct l1 as [|cl' l1]; simplify_eq/=.
  assert (Hcl : cl ∈ l1 ++ cl :: l2) by (apply elem_of_app; right; by left).
  destruct (apply_protocol_call _ _ _ _ _ _ Hp Hcl) as [-> Hrq].
  exists (clearServerFields d). split; [by left|].
  destruct Hrq as [Hrq|[Hrq|[Hrq|(?&?&?&Hrq)]]]; rewrite Hrq in Hw |- *; done.
Qed.

Lemma checked_targets r req u ts rs l errs :
  Forall (λ t, isFullSync (rule_SyncFields t.2) = false) ts →
  targets_protocol r req (Some u) ts rs l errs → checked l.
Proof.
  intros Hts Hp. induction Hp as [|ts t dest rs l l' errs e Hp IH Ht]; [by intros [] ???|].
  apply Forall_app in Hts as [Hts [Hst _]%Forall_cons].
  apply checked_app; [by apply IH|by eapply checked_status].
Qed.

(** No errors are collected iff no target reported one. *)
Lemma omap_error_nil (runs : list attempt) :
  omap at_Error runs = [] ↔ ∀ run, run ∈ runs → at_Error run = None.
Proof.
  split.
  - intros Hn run Hrun. destruct (at_Error run) as [e|] eqn:He; [|done].
    assert (Hin : e ∈ omap at_Error runs) by (apply list_elem_of_omap; by exists run).
    rewrite Hn in Hin. by apply elem_of_nil in Hin.
  - intros Hall. apply elem_of_nil_inv. intros e (run & Hrun & He)%list_elem_of_omap.
    by rewrite (Hall run Hrun) in He.
Qed.

(** *** Success *)

(** A call that does not make a run fail: it succeeded, or it asked for something that
    was already so. *)
Definition benign (cl : call) : Prop :=
  match call_error cl with
  | None => True
  | Some e => match call_request cl with
      | ReqDelete _ | ReqGetNamespace _ => IsNotFound e = true
      | ReqCreate _ => IsAlreadyExists e = true
      | _ => False
      end
  end.

Lemma tolerated_benign cl : tolerated cl → benign cl.
Proof. unfold tolerated, benign. repeat case_match; done. Qed.

Lemma apply_protocol_benign c o st l :
  apply_protocol c o st l None → Forall benign l.
Proof.
  intros Hp. apply apply_protocol_success in Hp. destruct Hp as [Hp _].
  eapply Forall_impl; [by apply Hp|apply tolerated_benign].
Qed.

Lemma target_protocol_benign r req src t dest l :
  target_protocol r req src t dest l None → Forall benign l.
Proof.
  intros Hp. remember None as e eqn:He.
  destruct Hp; subst; try done; try (by repeat constructor);
    [by eapply apply_protocol_benign|].
  constructor; [done|by eapply apply_protocol_benign].
Qed.

Lemma targets_protocol_benign r req src ts rs l errs :
  targets_protocol r req src ts rs l errs → errs = [] → Forall benign l.
Proof.
  induction 1 as [|ts t dest rs l l' errs [e|] _ IH Ht]; intros Hn; [done|by destruct errs|].
  apply Forall_app. split; [by apply IH|by eapply target_protocol_benign].
Qed.

(** *** When a run succeeds *)

(** An operation that gives no reason to fail. *)
Definition fine (tr : trace operation) : Prop :=
  Forall benign (calls_of tr) ∧ Forall (λ a, is_ok a.2 = true) (remotes_of tr).

Lemma fine_app tr1 tr2 : fine (tr1 ++ tr2) ↔ fine tr1 ∧ fine tr2.
Proof.
  unfold fine, calls_of, remotes_of. rewrite !omap_app, !Forall_app. tauto.
Qed.

(** The source object can be filtered as the rule asks. *)
Definition filterable (src : option object) (rule : ResourceRule) : Prop :=
  match src with
  | None => True
  | Some u => is_ok (filterFields u (rule_SyncFields rule)) = true
  end.

Lemma apply_protocol_fine c o st l res :
  apply_protocol c o st l res → res = None ↔ Forall benign l.
Proof.
  intros Hp. split; [intros ->; by eapply apply_protocol_benign|].
  intros Hl. eapply apply_protocol_success; [done|]. rewrite Forall_forall in Hl |- *.
  intros cl Hin. destruct (apply_protocol_call _ _ _ _ _ _ Hp Hin) as [_ Hrq].
  specialize (Hl cl Hin). unfold benign, tolerated in *. destruct (call_error cl); [|done].
  destruct Hrq as [Hrq|[Hrq|[Hrq|(?&?&?&Hrq)]]]; by rewrite Hrq in *.
Qed.

Lemma applyToDestination_fine c o :
  yields (λ tr res, res = None ↔ fine tr) (applyToDestination c o).
Proof.
  assert (Hr := applyToDestination_asks_none c o).
  eapply yields_weaken; [exact (yields_and _ _ _ (applyToDestination_emits c o) Hr)|].
  intros tr res [Hp Htr]. unfold fine. rewrite Htr.
  rewrite (apply_protocol_fine _ _ _ _ _ Hp). split; [intros Hb; split; [exact Hb|constructor]|tauto].
Qed.

Lemma writeTo_fine r u k rule c :
  yields (λ tr res, res = None ↔ fine tr ∧ filterable (Some u) rule) (writeTo r u k rule c).
Proof.
  unfold writeTo, filterable. destruct (filterFields u _) as [d|e]; cbn [is_ok];
    [|by apply yields_ret; split; [|intros [_ ?]]].
  assert (Ha : ∀ o, yields (λ tr res, res = None ↔ fine tr ∧ true = true)
    (applyToDestination c o)).
  { intros o. eapply yields_weaken; [apply applyToDestination_fine|].
    intros tr res ->. split; [done|by intros [? _]]. }
  destruct (isFullSync _); cbn [negb]; [apply Ha|].
  eapply yields_bind with
    (Q := λ tr x, match x with Ok true => fine tr | _ => ¬ fine tr end).
  - unfold destinationExists. unfold_calls. cbv zeta. apply yields_perform_bind. intros [o|e].
    + apply yields_ret. split; repeat constructor.
    + simpl. assert (Hbad : ¬ fine [Ev (OpGet c (ObjectKeyFromObject (clearServerFields d))
        (GroupVersionKind_of (SetGroupVersionKind
          (GroupVersionKind_of (clearServerFields d)) ∅))) (Err e)]).
      { intros [[Hb _]%Forall_cons _]. exact Hb. }
      destruct (IsNotFound e); by apply yields_ret.
  - intros tr [[|]|e] Htr.
    + eapply yields_weaken; [apply Ha|]. intros tr' res. simpl. rewrite fine_app. tauto.
    + apply yields_ret. rewrite app_nil_r. split; [done|tauto].
    + apply yields_ret. rewrite app_nil_r. split; [done|tauto].
Qed.

Lemma deleteFrom_fine r req c :
  yields (λ tr res, res = None ↔ fine tr) (deleteFrom r req c).
Proof.
  unfold deleteFrom. unfold_calls. apply yields_perform_bind. intros [e|]; simpl.
  - destruct (IsNotFound e) eqn:He; simpl; apply yields_ret.
    + split; [|done]. intros _. split; [|constructor]. by repeat constructor.
    + split; [done|]. intros [[Hb _]%Forall_cons _]. unfold benign in Hb. simpl in Hb. congruence.
  - apply yields_ret. split; [|done]. intros _. split; repeat constructor.
Qed.

Lemma syncRule_fine r req src k rule :
  yields (λ tr res, res = None ↔ fine tr ∧ filterable src rule) (syncRule r req src k rule).
Proof.
  unfold syncRule.
  eapply yields_bind with (Q := λ tr x, is_ok x = true ↔ fine tr).
  - unfold destination, getRemoteClient. case_bool_decide.
    + apply yields_perform. intros [c|e]; split; try done.
      * intros _. split; repeat constructor.
      * intros [_ [Hb _]%Forall_cons]. done.
    + apply yields_ret. split; [|done]. intros _. split; constructor.
  - intros tr [c|e] Htr; simpl in Htr.
    + assert (Hfine : fine tr) by (by apply Htr). destruct src as [u|].
      * eapply yields_weaken; [apply writeTo_fine|]. intros tr' res. rewrite fine_app. tauto.
      * eapply yields_weaken; [apply deleteFrom_fine|]. intros tr' res. simpl.
        rewrite fine_app. tauto.
    + apply yields_ret. rewrite app_nil_r. split; [done|].
      intros [Hfine%Htr _]. done.
Qed.

Lemma syncAll_fine r req src items :
  yields (λ tr errs, errs = [] ↔ fine tr ∧ ∀ t, t ∈ targets r req items → filterable src t.2)
    (syncAll r req src items).
Proof.
  rewrite syncAll_targets.
  eapply yields_weaken; [apply (yields_forP (λ ts tr errs,
    errs = [] ↔ fine tr ∧ ∀ t, t ∈ ts → filterable src t.2))|done].
  - split; [|done]. intros _. split; [split; constructor|]. intros t Ht. by apply elem_of_nil in Ht.
  - intros ts [k rule] todo tr errs _ IH.
    eapply yields_bind; [apply syncRule_fine|]. intros tr' e He.
    apply yields_ret. rewrite app_nil_r, fine_app.
    assert (Hnil : appendError errs e = [] ↔ errs = [] ∧ e = None).
    { destruct e; simpl; [|tauto]. split; [by intros [_ [=]]%app_eq_nil|by intros [_ [=]]]. }
    rewrite Hnil, IH, He. setoid_rewrite elem_of_app. setoid_rewrite list_elem_of_singleton.
    simpl. naive_solver.
Qed.

(** The outcome is marked by the last operation, and by no other; only a failed list ends a
    run without a mark. *)
Definition outcome_marked (req : NamespacedName) (tr : trace operation) (res : option goerr) : Prop :=
  match listed_of tr with
  | Some (Err e) => res = Some (EApi e) ∧ marks_of tr = []
  | _ => ∃ tr', tr = tr' ++ [outcome req res] ∧ marks_of tr' = []
  end.

Lemma Reconcile_accounted r req tr res :
  trace_of (Reconcile r req) tr res → outcome_marked req tr res.
Proof.
  intros (got & rest & -> & H)%Reconcile_trace.
  destruct (source_of got) as [src|].
  - apply reconcileFrom_trace in H as (listed & rest' & -> & H). simpl.
    destruct listed as [items|e]; [|by destruct H as [-> ->]].
    destruct H as (tr' & errs & -> & Htr & ->).
    eexists (_ :: _ :: tr'). split; [done|]. exact (syncAll_quiet _ _ _ _ _ _ Htr).
  - destruct H as (e & -> & _ & -> & ->). simpl. by eexists [_].
Qed.

(** ** Properties *)

(** The handler is the specified protocol: for the answers it got to its first two
    reads, it reads the source object, lists the KRMSyncers, runs the per-target protocol
    once for every matching rule of every matching KRMSyncer in order, and returns the
    join of the targets' errors; an unreadable source or list ends it with that error. *)
Theorem Reconcile_protocol r req tr res :
  trace_of (Reconcile r req) tr res →
  ∃ got, got_of tr = Some got ∧
    sync_protocol r req got (listed_of tr) (remotes_of tr) (calls_of tr) res.
Proof. apply Reconcile_emits. Qed.

(** Nothing is written but on behalf of a KRMSyncer that asks for it: every write
    belongs to a listed KRMSyncer that is not suspended, has the watcher's mode and, in
    Pull mode, the watcher's remote connection, and to one of its rules that matches the
    kind and the namespace of the event. In Pull mode only the local cluster is
    written. *)
Theorem Reconcile_writes_for_targets r req tr res cl :
  trace_of (Reconcile r req) tr res → cl ∈ calls_of tr → is_write (call_request cl) = true →
  (dr_Mode r = ModePush ∨ call_client cl = dr_LocalClient r) ∧
  ∃ items k rule, listed_of tr = Some (Ok items) ∧ k ∈ items ∧
    spec_Suspend (ks_Spec k) = false ∧
    effective_mode (spec_Mode (ks_Spec k)) = dr_Mode r ∧
    (dr_Mode r = ModePull →
      Key (ks_Namespace k) (spec_Remote (ks_Spec k)) = Ok (rgvk_Cluster (dr_Remote r))) ∧
    rule ∈ spec_Rules (ks_Spec k) ∧ ruleMatchesGVK rule (dr_GVK r) = true ∧
    (rule_Namespaces rule = [] ∨ nn_Namespace req ∈ rule_Namespaces rule).
Proof.
  intros Hl Hin Hw.
  destruct (run_write _ _ _ _ _ Hl Hin Hw)
    as (got & src & items & [k rule] & dest & l' & e & _ & _ & Hi & Ht & Hp & Hcl).
  apply target_protocol_call with (2 := Hcl) in Hp as [Hc _]. split; [exact Hc|].
  apply targets_elem in Ht as [[? (?&?&?)%syncerMatches_spec] [? (?&?)%ruleMatches_spec]].
  by exists items, k, rule.
Qed.

(** What names the object to delete: the event's namespace and name, and the controller's
    kind. *)
Definition event_object (r : DynamicResourceReconciler) (req : NamespacedName) (o : object) :
    Prop :=
  GetNamespace o = nn_Namespace req ∧ GetName o = nn_Name req ∧
  (gvk_wf (dr_GVK r) → GroupVersionKind_of o = dr_GVK r).

Lemma toDelete_event r req : event_object r req (toDelete r req).
Proof.
  unfold event_object. change (toDelete r req) with (stub (dr_GVK r) (nn_Name req) (nn_Namespace req)).
  split_and!; [apply stub_name..|apply stub_gvk].
Qed.

(** [C9] Deletion happens exactly for what is gone: a run deletes something only if the
    source answered NotFound, and then every write is the deletion of the object with the
    event's name and namespace and the watched kind; if the source has the object, no
    write is a deletion. *)
Theorem Reconcile_deletes_only_what_is_gone r req tr res cl :
  trace_of (Reconcile r req) tr res → cl ∈ calls_of tr → is_write (call_request cl) = true →
  match got_of tr with
  | Some (Ok _) => ∀ o, call_request cl ≠ ReqDelete o
  | Some (Err e) => IsNotFound e = true ∧ call_request cl = ReqDelete (toDelete r req) ∧
      event_object r req (toDelete r req)
  | None => False
  end.
Proof.
  intros Hl Hin Hw.
  destruct (run_write _ _ _ _ _ Hl Hin Hw)
    as (got & src & items & t & dest & l' & e & -> & Hs & _ & _ & Hp & Hcl).
  apply target_protocol_call with (2 := Hcl) in Hp as [_ Hp].
  destruct got as [u|e']; simpl in Hs.
  - injection Hs as <-. destruct Hp as (d & _ & Hp). intros o Ho.
    rewrite Ho in Hp. unfold check_request in Hp. naive_solver.
  - destruct (IsNotFound e'); [|done]. injection Hs as <-.
    split_and!; [done|done|apply toDelete_event].
Qed.

(** [C7] What is sent: when the source object's rules name CRD fields, every
    server-side apply of a run sends, with forced ownership as "krm-syncer", the object
    described by the source and the sync fields of one of the targets: the source's kind,
    name and namespace, exactly the selected spec and status, labels and annotations only
    in full mode, and none of the server's metadata (resourceVersion, uid, generation,
    managedFields). *)
Theorem Reconcile_sends_described_object r req tr res u items cl o opts :
  got_of tr = Some (Ok u) → listed_of tr = Some (Ok items) →
  gvk_wf (GroupVersionKind_of u) →
  (∀ t, t ∈ targets r req items → Forall crd_field (rule_SyncFields t.2)) →
  trace_of (Reconcile r req) tr res → cl ∈ calls_of tr → call_request cl = ReqPatch o opts →
  opts = patchOpts ∧ ∃ t, t ∈ targets r req items ∧ describes u (rule_SyncFields t.2) o ∧
    ∀ f, f ∈ ["resourceVersion"; "uid"; "generation"; "managedFields"] →
      NestedFieldCopy o ["metadata"; f] = Ok None.
Proof.
  intros Hgot Hlisted Hwf Hcrd Hl Hin Hcl.
  destruct (run_write _ _ _ _ _ Hl Hin)
    as (got & src & items' & t & dest & l' & e & Hg & Hs & Hi & Ht & Hp & Hin'); [by rewrite Hcl|].
  rewrite Hgot in Hg. rewrite Hlisted in Hi. simplify_eq/=.
  apply target_protocol_call with (2 := Hin') in Hp as (_ & d & Hd & Hp). simpl in Hp.
  rewrite Hcl in Hp. unfold check_request in Hp.
  assert (Ho : ReqPatch o opts = ReqPatch (clearServerFields d) patchOpts) by naive_solver.
  injection Ho as -> ->. split; [done|]. exists t. split; [done|].
  apply filterFields_described in Hd as Hdesc; [|by apply Hcrd|done].
  apply clearServerFields_described in Hdesc as [Hdesc _]. split; [done|].
  intros f Hf. destruct Hdesc as (_ & _ & _ & _ & _ & -> & _). f_equal.
  apply expected_meta_other. set_solver.
Qed.
(** [C8] Status mode never creates: if no matching rule syncs the full "spec", then
    every write of a run on an existing source object, the creation of a namespace
    included, comes after a read of the same cluster that found the object it writes. *)
Theorem Reconcile_status_mode_never_creates r req tr res u items :
  got_of tr = Some (Ok u) → listed_of tr = Some (Ok items) →
  (∀ t, t ∈ targets r req items → isFullSync (rule_SyncFields t.2) = false) →
  trace_of (Reconcile r req) tr res → checked (calls_of tr).
Proof.
  intros Hgot Hlisted Hst (got & Hg & Hl)%Reconcile_emits. rewrite Hgot in Hg.
  rewrite Hlisted in Hl. simplify_eq. generalize dependent (calls_of tr). intros l Hl.
  inversion Hl as [| |src items' rs l' errs Hs Ht]; simplify_eq/=.
  apply (checked_app [_; _] l'); [|by eapply checked_targets; [apply Forall_forall|]].
  intros [|? [|? [|??]]] cl l2 Heq Hw; simplify_eq/=; done.
Qed.

(** [C15] Failures are isolated: once the source and the list are read, every target is
    attempted, whatever became of the targets before it. In Push mode the run asks for the
    client of each target, in order, with the namespace and the remote of its KRMSyncer (and
    in Pull mode for none); a target without a client fails with the error of that answer,
    and every other target has the calls of its protocol. The run fails exactly if a target
    did, and each of their errors can be found in the returned one. *)
Theorem Reconcile_isolates_failures r req tr res got src items :
  trace_of (Reconcile r req) tr res → got_of tr = Some got → source_of got = Some src →
  listed_of tr = Some (Ok items) →
  ∃ runs, Forall2 (attempted r req src) (targets r req items) runs ∧
    remotes_of tr =
      concat (zip_with (λ t run, asked r t.1 (at_Client run)) (targets r req items) runs) ∧
    calls_of tr = Call (dr_RemoteClient r) (read_request r req) (err_of got) ::
       Call (dr_LocalClient r) ReqList None :: concat (at_Calls <$> runs) ∧
    (res = None ↔ ∀ run, run ∈ runs → at_Error run = None) ∧
    ∀ run e, run ∈ runs → at_Error run = Some e → ∃ err, res = Some err ∧ in_chain e err.
Proof.
  intros (got' & Hg & HP)%Reconcile_emits Hgot Hsrc Hi. rewrite Hi in HP. simplify_eq.
  generalize dependent (calls_of tr). generalize dependent (remotes_of tr). intros rs l HP.
  inversion HP as [| |src' items' rs' l' errs Hsrc' Ht]; simplify_eq.
  apply targets_protocol_runs in Ht as (runs & HF & -> & -> & ->).
  exists runs. split_and!; [done|done|done| |].
  - rewrite Join_all_None. apply omap_error_nil.
  - intros run e Hrun He.
    assert (Hin : e ∈ omap at_Error runs) by (apply list_elem_of_omap; by exists run).
    destruct (Join_all (omap at_Error runs)) as [err|] eqn:Herr.
    + exists err. split; [done|]. by eapply Join_all_chain.
    + apply Join_all_None in Herr. rewrite Herr in Hin. by apply elem_of_nil in Hin.
Qed.

(** Every attempt is accounted for: unless the list of KRMSyncers fails, the last
    operation of a run marks its object in the failure tracker, as failed if it returns an
    error and as succeeded if not, and it makes no other mark; a run whose list fails
    returns the error without a mark. *)
Theorem Reconcile_tracks_failures r req tr res :
  trace_of (Reconcile r req) tr res → outcome_marked req tr res.
Proof. apply Reconcile_accounted. Qed.

(** [C27] When a run succeeds: a run returns no error exactly if the source was read or is
    gone, the KRMSyncers were listed, every target's object can be filtered, every remote
    client that was asked for was obtained, and every other call succeeded, up to NotFound
    for a deletion or a namespace lookup and AlreadyExists for the creation of a namespace.
    So no failure is swallowed, and a run that meets none succeeds. *)
Theorem Reconcile_succeeds_iff r req tr res :
  trace_of (Reconcile r req) tr res →
  res = None ↔ ∃ got src items tr', got_of tr = Some got ∧ source_of got = Some src ∧
    listed_of tr = Some (Ok items) ∧
    (∀ t, t ∈ targets r req items → filterable src t.2) ∧
    (∃ read list, tr = read :: list :: tr') ∧ fine tr'.
Proof.
  intros (got & rest & -> & H)%Reconcile_trace.
  destruct (source_of got) as [src|] eqn:Hsrc.
  - apply reconcileFrom_trace in H as (listed & rest' & -> & H). destruct listed as [items|e].
    + destruct H as (tr' & errs & -> & Htr & ->). apply syncAll_fine in Htr.
      rewrite Join_all_None, Htr. split.
      * intros [Hf Ht]. exists got, src, items. eexists. split_and!; [done..|by eauto|].
        apply fine_app. split; [done|]. split; constructor.
      * intros (got' & src' & items' & tr'' & [= <-] & Hs & [= <-] & Ht & (? & ? & [= <- <- <-]) & Hf).
        rewrite Hsrc in Hs. simplify_eq. apply fine_app in Hf. tauto.
    + destruct H as [-> ->]. split; [done|]. naive_solver.
  - destruct H as (e & -> & He & -> & ->). split; [done|].
    intros (got' & src' & items' & tr'' & [= <-] & Hs & _). congruence.
Qed.

(** Success is not claimed lightly: if a run returns no error, then the source was
    read or is gone, the KRMSyncers were listed, and every other call succeeded, up to
    NotFound for a deletion or a namespace lookup and AlreadyExists for the creation of a
    namespace. *)
Theorem Reconcile_success_means_no_failed_call r req tr :
  trace_of (Reconcile r req) tr None →
  ∃ got src items l', got_of tr = Some got ∧ source_of got = Some src ∧
    listed_of tr = Some (Ok items) ∧
    calls_of tr = Call (dr_RemoteClient r) (read_request r req) (err_of got) :: l' ∧
    ∀ cl, cl ∈ l' → benign cl.
Proof.
  intros (got & Hg & Hl)%Reconcile_emits. exists got.
  inversion Hl as [| |src items rs l' errs Hs Ht Hi Hrs Hcalls Hres]; simplify_eq/=.
  exists src, items. eexists. split_and!; [done..|].
  apply Forall_forall. constructor; [done|].
  eapply targets_protocol_benign; [done|by apply Join_all_None].
Qed.

End SyncSpec.

(** ** Witnesses *)

Section SyncWitnesses.
#[local] Existing Instance FakeErrors.
#[local] Existing Instance FakeUnstructured.
#[local] Existing Instance FakeUnstructuredLaws.
#[local] Existing Instance FakeCluster.
#[local] Existing Instance FakeProvider.
#[local] Existing Instance FakeFactory.
#[local] Existing Instance FakeGauge.

Definition demo_gvk : GroupVersionKind := GVK "" "v1" "ConfigMap".

(** A watcher that pulls from cluster 1 to the local cluster 0. *)
Definition puller : DynamicResourceReconciler := {|
  dr_LocalClient := 0; dr_RemoteClient := 1; dr_GVK := demo_gvk; dr_Mode := ModePull;
  dr_Remote := {| rgvk_Cluster := "c"; rgvk_GVK := demo_gvk |} |}.

Definition demo_rule (fields : list string) : ResourceRule := {|
  rule_Group := ""; rule_Version := "v1"; rule_Kind := "ConfigMap";
  rule_Namespaces := ["ns"]; rule_SyncFields := fields |}.

Definition demo_syncer (fields : list string) : KRMSyncer := {|
  ks_Namespace := "ns"; ks_Name := "s";
  ks_Spec := {| spec_Suspend := false; spec_Mode := ""; spec_Remote := demo_remote "c";
                spec_Rules := [demo_rule fields] |};
  ks_Status := {| status_Conditions := [] |} |}.

Definition source_object : object := {[
  "apiVersion" := VString "v1"; "kind" := VString "ConfigMap";
  "metadata" := VMap {[ "name" := VString "a"; "namespace" := VString "ns";
    "resourceVersion" := VString "7" ]};
  "spec" := VMap {[ "x" := VInt 1 ]};
  "status" := VMap {[ "phase" := VString "Ready" ]} ]}.

(** The source object on cluster [1] or nowhere, and a copy on the local cluster or not. *)
Definition demo_shared (fields : list string) (on : list nat) : shared := {|
  sh_world := {|
    fw_objects := list_to_map ((λ c, ((c, demo_gvk, NN "ns" "a"), source_object)) <$> on);
    fw_namespaces := ∅; fw_syncers := [demo_syncer fields]; fw_down := ∅ |};
  sh_clients := ∅;
  sh_trackers := [newFailureTracker (FailedObjects demo_gvk)];
  sh_gauges := ∅ |}.

Definition demo_controller : controller :=
  {| c_reconciler := puller; c_remoteClients := false; c_failures := Some 0 |}.

Definition demo_req : NamespacedName := NN "ns" "a".

Definition demo_run (fields : list string) (on : list nat) :
    (trace operation * option goerr) * shared :=
  exec (handle demo_controller) (Reconcile puller demo_req) (demo_shared fields on).

Definition demo_trace (fields : list string) (on : list nat) : trace operation :=
  (demo_run fields on).1.1.

Lemma demo_trace_of fields on :
  trace_of (Reconcile puller demo_req) (demo_trace fields on) (demo_run fields on).1.2.
Proof. apply exec_trace. Qed.

Definition run_calls (fields : list string) (on : list nat) : list call :=
  calls_of (demo_trace fields on).

(** The kinds of calls of a run. *)
Definition show (cl : call) : nat * string := (call_client cl, match call_request cl with
  | ReqGet _ _ => "get" | ReqList => "list" | ReqGetNamespace _ => "get-ns"
  | ReqCreate _ => "create-ns" | ReqDelete _ => "delete" | ReqPatch _ _ => "patch"
  | ReqStatusPatch _ _ => "status-patch" end).

Example full_run : show <$> run_calls ["spec"; "status"] [1] =
  [(1, "get"); (0, "list"); (0, "get-ns"); (0, "create-ns"); (0, "patch"); (0, "status-patch")].
Proof. reflexivity. Qed.

Example status_run : show <$> run_calls ["status"] [1; 0] =
  [(1, "get"); (0, "list"); (0, "get"); (0, "get-ns"); (0, "create-ns"); (0, "patch");
   (0, "status-patch")].
Proof. reflexivity. Qed.

Example status_run_missing : show <$> run_calls ["status"] [1] = [(1, "get"); (0, "list"); (0, "get")].
Proof. reflexivity. Qed.

Example delete_run : show <$> run_calls ["spec"] [0] = [(1, "get"); (0, "list"); (0, "delete")].
Proof. reflexivity. Qed.

(** The object a full sync sends. *)
Definition sent_object (fields : list string) : object :=
  match filterFields source_object fields with Ok d => clearServerFields d | Err _ => ∅ end.

Definition sent_call (fields : list string) : call :=
  Call 0 (ReqPatch (sent_object fields) patchOpts) None.

Lemma Reconcile_protocol_witness :
  ∃ got, got_of (demo_trace ["spec"] [1]) = Some got ∧
    sync_protocol puller demo_req got (listed_of (demo_trace ["spec"] [1]))
      (remotes_of (demo_trace ["spec"] [1])) (run_calls ["spec"] [1]) (demo_run ["spec"] [1]).1.2.
Proof. exact (Reconcile_protocol puller demo_req _ _ (demo_trace_of ["spec"] [1])). Defined.

Lemma Reconcile_writes_for_targets_witness :
  sent_call ["spec"] ∈ run_calls ["spec"] [1] ∧
  (dr_Mode puller = ModePush ∨ call_client (sent_call ["spec"]) = dr_LocalClient puller).
Proof.
  assert (Hin : sent_call ["spec"] ∈ run_calls ["spec"] [1])
    by (apply (list_elem_of_lookup_2 _ 4); reflexivity).
  split; [exact Hin|].
  exact (proj1 (Reconcile_writes_for_targets puller demo_req _ _ _
    (demo_trace_of ["spec"] [1]) Hin eq_refl)).
Defined.

Lemma Reconcile_deletes_only_what_is_gone_witness :
  let cl := Call 0 (ReqDelete (toDelete puller demo_req)) None in
  cl ∈ run_calls ["spec"] [0] ∧ IsNotFound FNotFound = true ∧
  call_request cl = ReqDelete (toDelete puller demo_req) ∧
  event_object puller demo_req (toDelete puller demo_req).
Proof.
  intros cl. assert (Hin : cl ∈ run_calls ["spec"] [0])
    by (apply (list_elem_of_lookup_2 _ 2); reflexivity).
  split; [exact Hin|].
  exact (Reconcile_deletes_only_what_is_gone puller demo_req _ _ _
    (demo_trace_of ["spec"] [0]) Hin eq_refl).
Defined.

Lemma demo_targets fields :
  targets puller demo_req [demo_syncer fields] = [(demo_syncer fields, demo_rule fields)].
Proof. reflexivity. Qed.

Lemma Reconcile_sends_described_object_witness :
  describes source_object ["spec"; "status"] (sent_object ["spec"; "status"]) ∧
  NestedFieldCopy (sent_object ["spec"; "status"]) ["metadata"; "resourceVersion"] = Ok None.
Proof.
  destruct (Reconcile_sends_described_object puller demo_req
    (demo_trace ["spec"; "status"] [1]) (demo_run ["spec"; "status"] [1]).1.2 source_object
    [demo_syncer ["spec"; "status"]] (sent_call ["spec"; "status"])
    (sent_object ["spec"; "status"]) patchOpts) as (_ & t & Ht & Hd & Hm).
  - reflexivity.
  - reflexivity.
  - by split.
  - intros t Ht. rewrite demo_targets in Ht. apply list_elem_of_singleton in Ht as ->.
    repeat constructor; set_solver.
  - apply demo_trace_of.
  - apply (list_elem_of_lookup_2 _ 4). reflexivity.
  - reflexivity.
  - rewrite demo_targets in Ht. apply list_elem_of_singleton in Ht as ->.
    split; [exact Hd|]. apply Hm. by left.
Defined.

Lemma Reconcile_status_mode_never_creates_witness :
  checked (run_calls ["status"] [1; 0]) ∧ length (run_calls ["status"] [1; 0]) = 7.
Proof.
  split; [|reflexivity].
  apply (Reconcile_status_mode_never_creates puller demo_req (demo_trace ["status"] [1; 0])
    (demo_run ["status"] [1; 0]).1.2 source_object [demo_syncer ["status"]]); [reflexivity..| |apply demo_trace_of].
  intros t Ht. rewrite demo_targets in Ht. by apply list_elem_of_singleton in Ht as ->.
Defined.

(** A watcher that pushes objects of cluster 0 to the remotes of KRMSyncers: the client of the
    first cannot be built, the object is sent to the second. *)
Definition pusher : controller := {|
  c_reconciler := {| dr_LocalClient := 0; dr_RemoteClient := 0; dr_GVK := demo_gvk;
    dr_Mode := ModePush; dr_Remote := {| rgvk_Cluster := ""; rgvk_GVK := demo_gvk |} |};
  c_remoteClients := true;
  c_failures := None |}.

Definition push_to (name : string) : KRMSyncer := {|
  ks_Namespace := "ns"; ks_Name := "s";
  ks_Spec := {| spec_Suspend := false; spec_Mode := ModePush; spec_Remote := demo_remote name;
                spec_Rules := [demo_rule ["spec"]] |};
  ks_Status := {| status_Conditions := [] |} |}.

Definition push_shared : shared := {|
  sh_world := {| fw_objects := {[ (0, demo_gvk, demo_req) := source_object ]};
    fw_namespaces := ∅; fw_syncers := [push_to ""; push_to "c"]; fw_down := ∅ |};
  sh_clients := ∅; sh_trackers := []; sh_gauges := ∅ |}.

Definition push_run : (trace operation * option goerr) * shared :=
  exec (handle pusher) (Reconcile (c_reconciler pusher) demo_req) push_shared.

Lemma push_run_of :
  trace_of (Reconcile (c_reconciler pusher) demo_req) push_run.1.1 push_run.1.2.
Proof. exact (exec_trace (handle pusher) (Reconcile (c_reconciler pusher) demo_req) push_shared). Qed.

Lemma Reconcile_isolates_failures_witness :
  is_Some push_run.1.2 ∧
  show <$> calls_of push_run.1.1 =
    [(0, "get"); (0, "list"); (1, "get-ns"); (1, "create-ns"); (1, "patch")] ∧
  (λ a, is_ok a.2) <$> remotes_of push_run.1.1 = [false; true] ∧
  ∃ runs, Forall2 (attempted (c_reconciler pusher) demo_req (Some source_object))
      [(push_to "", demo_rule ["spec"]); (push_to "c", demo_rule ["spec"])] runs ∧
    remotes_of push_run.1.1 = concat (zip_with
      (λ t run, asked (c_reconciler pusher) t.1 (at_Client run))
      [(push_to "", demo_rule ["spec"]); (push_to "c", demo_rule ["spec"])] runs) ∧
    (push_run.1.2 = None ↔ ∀ run, run ∈ runs → at_Error run = None).
Proof.
  split; [eexists; reflexivity|]. split; [reflexivity|]. split; [reflexivity|].
  destruct (Reconcile_isolates_failures (c_reconciler pusher) demo_req _ _ (Ok source_object)
    (Some source_object) [push_to ""; push_to "c"] push_run_of)
    as (runs & HF & Hrs & _ & Hn & _); [reflexivity..|].
  exists runs. exact (conj HF (conj Hrs Hn)).
Defined.

(** The object is missing on the destination: the run fails and its last operation marks the
    object. *)
Lemma Reconcile_tracks_failures_witness :
  is_Some (demo_run ["status"] [1]).1.2 ∧
  ∃ tr, demo_trace ["status"] [1] = tr ++ [outcome demo_req (demo_run ["status"] [1]).1.2] ∧
    marks_of tr = [].
Proof.
  split; [by eexists|].
  exact (Reconcile_tracks_failures puller demo_req _ _ (demo_trace_of ["status"] [1])).
Defined.

Lemma Reconcile_succeeds_iff_witness :
  (demo_run ["spec"] [1]).1.2 = None ∧
  ∃ read list tr, demo_trace ["spec"] [1] = read :: list :: tr ∧ fine tr.
Proof.
  assert (Hres : (demo_run ["spec"] [1]).1.2 = None) by reflexivity.
  split; [exact Hres|].
  destruct (proj1 (Reconcile_succeeds_iff puller demo_req _ _ (demo_trace_of ["spec"] [1])) Hres)
    as (got & src & items & tr & _ & _ & _ & _ & (read & list & Htr) & Hf).
  exists read, list, tr. by split.
Defined.

Lemma Reconcile_success_means_no_failed_call_witness :
  (demo_run ["spec"] [1]).1.2 = None ∧
  ∃ got src, got_of (demo_trace ["spec"] [1]) = Some got ∧ source_of got = Some src.
Proof.
  assert (Hres : (demo_run ["spec"] [1]).1.2 = None) by reflexivity.
  split; [exact Hres|].
  assert (Htr := demo_trace_of ["spec"] [1]). rewrite Hres in Htr.
  destruct (Reconcile_success_means_no_failed_call puller demo_req _ Htr)
    as (got & src & _ & _ & Hg & Hs & _). exists got, src. exact (conj Hg Hs).
Defined.
End SyncWitnesses.
