(* ===== verification/Converge.v ===== *)
(** * What a successful run leaves at the destination

    The properties of [SyncSpec] are about the calls; this file is about the state of the
    destination cluster. It uses the documented behaviour of server-side apply
    ([ServerSideApplyLaws]): a live object then has the applied fields, and the status
    subresource changes only the status. *)

From stdpp Require Import base list strings gmap relations.
From S2P Require Import Prelude Threads GoStrings Kube Api Fake Rules FieldFilter.
From S2P Require Import Tracker Client FakeCluster Apply RemoteClients Sync SyncSpec.

(** How a server merges a list depends on the schema of the field. *)
Class ServerSideApply := {
  list_merged : list value → list value → Prop;
}.

(** The live value has what the applied one asks for; a null asks for nothing. *)
Inductive covers `{ServerSideApply} : value → value → Prop :=
| covers_null v : covers VNull v
| covers_same v : covers v v
| covers_map m m' :
    (∀ k v, m !! k = Some v → v ≠ VNull → ∃ v', m' !! k = Some v' ∧ covers v v') →
    covers (VMap m) (VMap m')
| covers_list l l' : list_merged l l' → covers (VList l) (VList l').

Lemma covers_lookup `{ServerSideApply} m m' k v :
  covers (VMap m) (VMap m') → m !! k = Some v → v ≠ VNull → ∃ v', m' !! k = Some v' ∧ covers v v'.
Proof.
  intros Hc Hk Hv. inversion Hc as [|m1|m1 m2 Hm|]; subst; [|by eapply Hm].
  exists v. split; [done|apply covers_same].
Qed.

Section Applied.
Context {AE : ApiErrors} {AC : ApiClient} {UN : Unstructured} {SA : ServerSideApply}.

(** What names an object in a cluster. *)
Definition object_id (o : object) : GroupVersionKind * NamespacedName :=
  (GroupVersionKind_of o, ObjectKeyFromObject o).

(** The live object with a kind, namespace and name, and with those of [o], if it can be
    read. *)
Definition live_at (w : world) (c : client) (id : GroupVersionKind * NamespacedName) :
    res api_error object := (do_Get c id.2 id.1 w).1.
Definition live_object (w : world) (c : client) (o : object) : res api_error object :=
  live_at w c (object_id o).

(** Everything but the status of [o] is there; the status [st] is there. *)
Definition applied (w : world) (c : client) (o : object) : Prop :=
  ∃ live, live_object w c o = Ok live ∧ covers (VMap (delete "status" o)) (VMap live).
Definition status_applied (w : world) (c : client) (o : object) (st : value) : Prop :=
  ∃ live, live_object w c o = Ok live ∧ covers (VMap {[ "status" := st ]}) (VMap live).

(** The same object of the cluster. *)
Definition same_object (o1 o2 : object) : Prop :=
  GetAPIVersion o1 = GetAPIVersion o2 ∧ GetKind o1 = GetKind o2 ∧
  GetName o1 = GetName o2 ∧ GetNamespace o1 = GetNamespace o2.

(** Server-side apply with forced ownership, and on the status subresource. What the server
    manages itself (its part of the metadata) is not covered: the applied objects have
    nothing of it ([unmanaged]). *)
Class ServerSideApplyLaws : Prop := {
  patch_applies c o opts w o' :
    unmanaged o → ForceOwnership ∈ opts → (do_Patch c o opts w).1 = (None, o') →
    same_object o' o ∧ applied (do_Patch c o opts w).2 c o;
  status_patch_applies c o st opts w :
    ForceOwnership ∈ opts → o !! "status" = Some st → (do_StatusPatch c o opts w).1 = None →
    status_applied (do_StatusPatch c o opts w).2 c o st;
  status_patch_keeps c o opts w c' o' :
    (do_StatusPatch c o opts w).1 = None → unmanaged o' →
    applied w c' o' → applied (do_StatusPatch c o opts w).2 c' o';
}.
End Applied.

Section Converge.
Context {AE : ApiErrors} {AC : ApiClient} {UN : Unstructured} {UL : UnstructuredLaws}.
Context {RP : RemoteConfigProvider} {CF : ClientFactory} {PG : PrometheusGauge}.
Context {SA : ServerSideApply} {SL : ServerSideApplyLaws}.

(** What is applied to objects of this name stays so. *)
Definition keeps (id : GroupVersionKind * NamespacedName) (w w' : world) : Prop :=
  ∀ c o, object_id o = id → unmanaged o → (applied w c o → applied w' c o) ∧
    ∀ st, status_applied w c o st → status_applied w' c o st.

(** What the others do between the operations of a run: anything that keeps what has been
    applied to the run's object. *)
Context (others : shared → shared → Prop).
Definition others_keep (id : GroupVersionKind * NamespacedName) : Prop :=
  ∀ s s', others s s' → keeps id (sh_world s) (sh_world s').

Section Keep.
Context (id : GroupVersionKind * NamespacedName) (keep : others_keep id).

Definition synced (s : shared) (c : client) (o : object) : Prop :=
  applied (sh_world s) c o ∧
  ∀ st, o !! "status" = Some st → status_applied (sh_world s) c o st.

Lemma others_applied s s' c o :
  object_id o = id → unmanaged o → rtc others s s' → applied (sh_world s) c o → applied (sh_world s') c o.
Proof.
  intros Hid Hu. induction 1 as [|s1 s2 s3 Hs _ IH]; [done|]. intros Ha. apply IH.
  by apply (keep _ _ Hs c o Hid Hu).
Qed.

Lemma others_status s s' c o st :
  object_id o = id → unmanaged o →
  rtc others s s' → status_applied (sh_world s) c o st → status_applied (sh_world s') c o st.
Proof.
  intros Hid Hu. induction 1 as [|s1 s2 s3 Hs _ IH]; [done|]. intros Ha. apply IH.
  by apply (keep _ _ Hs c o Hid Hu).
Qed.

Lemma same_object_trans o1 o2 o3 :
  same_object o1 o2 → same_object o2 o3 → same_object o1 o3.
Proof. unfold same_object. intuition congruence. Qed.

Lemma same_object_live w c o1 o2 :
  same_object o1 o2 → live_object w c o1 = live_object w c o2.
Proof.
  intros (Ha & Hk & Hn & Hns). unfold live_object, object_id, ObjectKeyFromObject.
  by rewrite Hn, Hns, (get_gvk_strings o1 o2).
Qed.

(** The object sent to the status subresource names the object that was patched and has the
    status. *)
Lemma statusObj_same o st :
  same_object (statusObj o st) o ∧ statusObj o st !! "status" = Some st.
Proof.
  assert (Hread : ∀ f v, NestedFieldCopy ({[ "name" := VString (GetName o);
      "namespace" := VString (GetNamespace o) ]} : object) [f] = Ok (Some v) →
      NestedFieldCopy (statusObj o st) ["metadata"; f] = Ok (Some v)).
  { intros f v <-. by apply nested_read_map. }
  split; [|done]. unfold same_object. split_and!.
  - by rewrite (get_api_version (statusObj o st)), nested_read_one.
  - by rewrite (get_kind (statusObj o st)), nested_read_one.
  - rewrite (get_name (statusObj o st)), (Hread "name" (VString (GetName o))); [done|].
    by rewrite nested_read_one.
  - rewrite (get_namespace (statusObj o st)), (Hread "namespace" (VString (GetNamespace o)));
      [done|]. by rewrite nested_read_one.
Qed.

(** What a replay of one operation does. *)
Lemma replay_perform ctl X (o : operation X) (x : X) s s' :
  replay (handle ctl) others [Ev o x] s s' ↔
  ∃ s1, rtc others s s1 ∧ (handle ctl X o s1).1 = x ∧ rtc others (handle ctl X o s1).2 s'.
Proof. done. Qed.

(** A successful [applyToDestination] leaves the object at the destination. *)
Lemma apply_converges ctl c o tr s s' :
  object_id o = id → unmanaged o →
  trace_of (applyToDestination c o) tr None → replay (handle ctl) others tr s s' →
  synced s' c o.
Proof.
  intros Hid Hu. unfold applyToDestination. intros (tr1 & nsErr & tr2 & -> & _ & Htr)%trace_of_bind.
  intros (s1 & _ & Hr)%replay_app. destruct nsErr as [e|]; [by destruct Htr|].
  rewrite nested_read_one in Htr.
  apply trace_of_bind in Htr as (tr3 & [e o'] & tr4 & -> & Hp & Htr).
  destruct Hp as (x & tr5 & -> & -> & <-). simpl in Htr.
  destruct e as [e|]; [by destruct Htr|].
  apply (replay_app _ _ [_]) in Hr as (s2 & (s3 & _ & Hx & Hs2)%replay_perform & Hr).
  simpl in Hx, Hs2.
  destruct (patch_applies c o patchOpts (sh_world s3) o') as [Hsame Happ]; [done|by left|done|].
  assert (Happ2 : applied (sh_world s2) c o) by (by eapply others_applied).
  destruct (o !! "status") as [st|] eqn:Hst.
  - destruct Htr as (e & tr7 & -> & Htr).
    destruct e as [e|]; [by destruct Htr|]. destruct Htr as [-> _].
    apply replay_perform in Hr as (s4 & Hs4 & Hy & Hs'). simpl in Hy, Hs'.
    destruct (statusObj_same o' st) as [Hsame' Hst'].
    assert (Happ4 : applied (sh_world s4) c o) by (by eapply others_applied).
    split.
    + eapply others_applied; [exact Hid|exact Hu|exact Hs'|]. by apply status_patch_keeps.
    + intros st' Hst0. assert (st' = st) as -> by congruence.
      eapply others_status; [exact Hid|exact Hu|exact Hs'|].
      destruct (status_patch_applies c (statusObj o' st) st patchOpts (sh_world s4))
        as (live & Hlive & Hcov); [by left|done|done|].
      exists live. split; [|done]. etrans; [|exact Hlive].
      symmetry. apply same_object_live. by eapply same_object_trans.
  - destruct Htr as [-> _]. split; [by eapply others_applied|].
    intros st Hst0. congruence.
Qed.

(** The client a target's object is written with: the local one in Pull mode, in Push mode
    the one the run obtained for the KRMSyncer's remote. *)
Definition writes_with (r : DynamicResourceReconciler) (k : KRMSyncer)
    (tr : trace operation) (c : client) : Prop :=
  if decide (dr_Mode r = ModePush)
  then (ks_Namespace k, spec_Remote (ks_Spec k), Ok c) ∈ remotes_of tr
  else c = dr_LocalClient r.

Lemma writes_with_weaken r k tr1 tr2 tr3 c :
  writes_with r k tr2 c → writes_with r k (tr1 ++ tr2 ++ tr3) c.
Proof.
  unfold writes_with, remotes_of. case_decide; [|done].
  rewrite !omap_app, !elem_of_app. tauto.
Qed.

Lemma destination_trace r k tr x :
  trace_of (destination r k) tr x → ∀ c, x = Ok c → writes_with r k tr c.
Proof.
  unfold destination, writes_with. case_bool_decide; case_decide; try done.
  - intros (y & tr' & -> & -> & ->) c ->. by apply list_elem_of_singleton.
  - by intros [-> ->] c [= <-].
Qed.

(** The filtered source is synced. *)
Definition filtered_synced (s : shared) (c : client) (u : object) (rule : ResourceRule) : Prop :=
  ∃ d, filterFields u (rule_SyncFields rule) = Ok d ∧ synced s c (clearServerFields d).

(** What is sent has the name of the source, and nothing of the server's. *)
Definition named (u : object) (rule : ResourceRule) : Prop :=
  ∀ d, filterFields u (rule_SyncFields rule) = Ok d →
    object_id (clearServerFields d) = id ∧ unmanaged (clearServerFields d).

Lemma writeTo_converges ctl r u k rule c tr s s' :
  named u rule → trace_of (writeTo r u k rule c) tr None → replay (handle ctl) others tr s s' →
  filtered_synced s' c u rule.
Proof.
  unfold writeTo. intros Hid Htr Hr.
  destruct (filterFields u (rule_SyncFields rule)) as [d|e] eqn:Hd; [|by destruct Htr].
  exists d. split; [done|]. apply Hid in Hd as [Hd Hu].
  destruct (isFullSync (rule_SyncFields rule)); cbn [negb] in Htr.
  { by eapply apply_converges. }
  apply trace_of_bind in Htr as (tr1 & x & tr2 & -> & _ & Htr).
  apply replay_app in Hr as (s1 & _ & Hr).
  destruct x as [[]|e]; [by eapply apply_converges|by destruct Htr..].
Qed.

Lemma syncRule_converges ctl r req u k rule tr s s' :
  named u rule → trace_of (syncRule r req (Some u) k rule) tr None → replay (handle ctl) others tr s s' →
  ∃ c, writes_with r k tr c ∧ filtered_synced s' c u rule.
Proof.
  intros Hid. unfold syncRule. intros (tr1 & x & tr2 & -> & Hx & Htr)%trace_of_bind Hr.
  apply replay_app in Hr as (s1 & _ & Hr).
  destruct x as [c|e]; [|by destruct Htr]. exists c.
  split; [|by eapply writeTo_converges].
  apply (writes_with_weaken _ _ []). by eapply destination_trace.
Qed.

(** The last target of a run without errors. *)
Lemma syncAll_converges ctl r req u items ts k rule tr s s' :
  named u rule → trace_of (syncAll r req (Some u) items) tr [] → replay (handle ctl) others tr s s' →
  targets r req items = ts ++ [(k, rule)] →
  ∃ c, writes_with r k tr c ∧ filtered_synced s' c u rule.
Proof.
  intros Hid Htr Hr Hts. apply syncAll_targets in Htr. rewrite Hts in Htr.
  apply forP_app in Htr. apply trace_of_bind in Htr as (tr1 & errs & tr2 & -> & _ & Htr).
  apply replay_app in Hr as (s1 & _ & Hr). simpl in Htr.
  apply trace_of_bind in Htr as (tr3 & errs' & tr4 & -> & Htr & [-> <-]).
  apply trace_of_bind in Htr as (tr5 & e & tr6 & -> & Htr & [-> He]).
  destruct e as [e|]; [by destruct errs|]. rewrite !app_nil_r in *.
  destruct (syncRule_converges _ _ _ _ _ _ _ _ _ Hid Htr Hr) as (c & Hc & Hs).
  exists c. split; [|done]. apply (writes_with_weaken _ _ tr1 _ []) in Hc.
  by rewrite app_nil_r in Hc.
Qed.

Lemma outcome_keeps ctl req res s s' c o :
  object_id o = id → unmanaged o →
  replay (handle ctl) others [outcome req res] s s' → synced s c o → synced s' c o.
Proof.
  intros Hid Hu (s1 & Hs1 & _ & Hs')%replay_perform [Ha Hst]. split.
  - eapply others_applied; [done|done|exact Hs'|]. simpl. by eapply others_applied.
  - intros st Ho. eapply others_status; [done|done|exact Hs'|]. simpl. eapply others_status; eauto.
Qed.

Lemma status_applied_field w c o v :
  status_applied w c o v → v ≠ VNull →
  ∃ live v', live_object w c o = Ok live ∧ live !! "status" = Some v' ∧ covers v v'.
Proof.
  intros (live & Hlive & Hcov) Hv.
  destruct (covers_lookup _ _ "status" v Hcov) as (v' & ? & ?);
    [by rewrite lookup_singleton_eq|done|].
  by exists live, v'.
Qed.

End Keep.

(** A synced object is there with its spec and its status. *)
Lemma synced_live s c o :
  synced s c o → ∃ live, live_object (sh_world s) c o = Ok live ∧
    ∀ f v, f = "spec" ∨ f = "status" → o !! f = Some v → v ≠ VNull →
      ∃ v', live !! f = Some v' ∧ covers v v'.
Proof.
  intros [Ha Hst]. destruct Ha as (live & Hlive & Hcov). exists live.
  split; [done|]. intros f v [->| ->] Ho Hv.
  - eapply covers_lookup; [exact Hcov|by rewrite lookup_delete_ne|done].
  - destruct (status_applied_field _ _ _ _ (Hst v Ho) Hv) as (live' & v' & Hl & ? & ?).
    rewrite Hlive in Hl. injection Hl as <-. by exists v'.
Qed.

(** The object that is sent for a source object has its name. *)
Lemma sent_id u rule :
  gvk_wf (GroupVersionKind_of u) → Forall crd_field (rule_SyncFields rule) →
  named (object_id u) u rule.
Proof.
  intros Hwf Hcrd d Hd. apply filterFields_described in Hd; [|done..].
  apply clearServerFields_described in Hd as [Hd _].
  split; [|by eapply describes_unmanaged]. destruct Hd as (_ & _ & Hk & Hn & Hns & _).
  unfold object_id, ObjectKeyFromObject. by rewrite Hk, Hn, Hns.
Qed.

Lemma Reconcile_synced ctl req tr s s' u items ts k rule :
  others_keep (object_id u) →
  let r := c_reconciler ctl in
  trace_of (Reconcile r req) tr None → replay (handle ctl) others tr s s' →
  got_of tr = Some (Ok u) → listed_of tr = Some (Ok items) →
  targets r req items = ts ++ [(k, rule)] →
  gvk_wf (GroupVersionKind_of u) → Forall crd_field (rule_SyncFields rule) →
  ∃ c, writes_with r k tr c ∧ filtered_synced s' c u rule.
Proof.
  intros keep r (got & rest & -> & Htr)%Reconcile_trace Hr Hgot Hlisted Hts Hwf Hcrd.
  injection Hgot as ->. simpl in Htr.
  apply reconcileFrom_trace in Htr as (listed & rest' & -> & Htr).
  injection Hlisted as ->. destruct Htr as (tr' & errs & -> & Htr & Hres).
  symmetry in Hres. apply Join_all_None in Hres as ->.
  destruct Hr as (s1 & _ & _ & s2 & _ & _ & Hr). apply replay_app in Hr as (s3 & Hr & Hend).
  assert (Hid := sent_id u rule Hwf Hcrd).
  destruct (syncAll_converges (object_id u) keep _ _ _ _ _ _ _ _ _ _ _ Hid Htr Hr Hts)
    as (c & Hc & d & Hd & Hs).
  exists c. split; [by apply (writes_with_weaken _ _ [_; _] tr' [_])|].
  exists d. split; [done|]. destruct (Hid d Hd) as [Hname Hu].
  exact (outcome_keeps _ keep _ _ _ _ _ _ _ Hname Hu Hend Hs).
Qed.

(** What a synced object looks like. *)
Definition has_selected (s : shared) (c : client) (u : object) (rule : ResourceRule) : Prop :=
  ∃ live, live_object (sh_world s) c u = Ok live ∧
    (∀ v, expected_spec u (rule_SyncFields rule) = Some v → v ≠ VNull →
      ∃ v', live !! "spec" = Some v' ∧ covers v v') ∧
    (∀ v, expected_status u (rule_SyncFields rule) = Some v → v ≠ VNull →
      ∃ v', live !! "status" = Some v' ∧ covers v v').

Lemma filtered_synced_selected s c u rule :
  gvk_wf (GroupVersionKind_of u) → Forall crd_field (rule_SyncFields rule) →
  filtered_synced s c u rule → has_selected s c u rule.
Proof.
  intros Hwf Hcrd (d & Hd & Hs). destruct (synced_live _ _ _ Hs) as (live & Hlive & Hf).
  exists live. apply filterFields_described in Hd as Hdesc; [|done..].
  apply clearServerFields_described in Hdesc as [(Hspec & Hst & Hk & Hn & Hns & _) _].
  split_and!.
  - rewrite <-Hlive. unfold live_object, object_id, ObjectKeyFromObject. by rewrite Hk, Hn, Hns.
  - intros v Hv. apply Hf; [by left|]. by rewrite Hspec.
  - intros v Hv. apply Hf; [by right|]. by rewrite Hst.
Qed.

(** ** Properties *)

(** [C3] A successful run leaves the destination as the rule says. After a run without
    error on an existing source object, whatever the other actors do that keeps what has
    been applied to the objects of this name, the cluster the run wrote to (the local one in
    Pull mode, the remote of the KRMSyncer in Push mode) has an object of the source's kind,
    namespace and name, with the spec and the status that the last matching rule selects
    from the source. (Rules before the last one are applied before it, with the same field
    owner, so the last one decides.) *)
Theorem Reconcile_converges ctl req tr s s' u items ts k rule :
  others_keep (object_id u) →
  let r := c_reconciler ctl in
  trace_of (Reconcile r req) tr None → replay (handle ctl) others tr s s' →
  got_of tr = Some (Ok u) → listed_of tr = Some (Ok items) →
  targets r req items = ts ++ [(k, rule)] →
  gvk_wf (GroupVersionKind_of u) → Forall crd_field (rule_SyncFields rule) →
  ∃ c, writes_with r k tr c ∧ has_selected s' c u rule.
Proof.
  intros keep r Htr Hr Hgot Hlisted Hts Hwf Hcrd.
  destruct (Reconcile_synced _ _ _ _ _ _ _ _ _ _ keep Htr Hr Hgot Hlisted Hts Hwf Hcrd)
    as (c & Hc & Hs).
  exists c. split; [done|by apply filtered_synced_selected].
Qed.
End Converge.

(** ** A cluster that applies, and a run on it *)

Section ConvergeWitnesses.
#[local] Existing Instance FakeErrors.
#[local] Existing Instance FakeUnstructured.
#[local] Existing Instance FakeUnstructuredLaws.
#[local] Existing Instance FakeCluster.
#[local] Existing Instance FakeProvider.
#[local] Existing Instance FakeFactory.
#[local] Existing Instance FakeGauge.

#[local] Instance FakeServerSideApply : ServerSideApply := {| list_merged := eq |}.

Lemma fake_live w c o :
  live_object w c o = if_up c Err (match fake_lookup w (fake_id c o) with
    | Some live => Ok live | None => Err FNotFound end) w.
Proof. done. Qed.

(** Objects that agree on everything but the status. *)
Lemma covers_but_status (o m m' : object) :
  covers (VMap (delete "status" o)) (VMap m) → (∀ k, k ≠ "status" → m' !! k = m !! k) →
  covers (VMap (delete "status" o)) (VMap m').
Proof.
  intros Hc Hm. apply covers_map. intros k v Hk Hv.
  assert (Hne : k ≠ "status") by by intros ->; rewrite lookup_delete_eq in Hk.
  rewrite Hm by done. by eapply covers_lookup.
Qed.

Lemma fake_patch_covers (o : object) live :
  covers (VMap (delete "status" o)) (VMap (fake_patch o live)).
Proof.
  apply (covers_but_status o (delete "status" o)); [apply covers_same|].
  intros k Hk. by rewrite fake_patch_ne, lookup_delete_ne.
Qed.

#[local] Instance FakeServerSideApplyLaws : ServerSideApplyLaws.
Proof.
  constructor; unfold applied, status_applied; setoid_rewrite fake_live; simpl; unfold if_up.
  - intros c o opts w o' _ _ H. destruct (decide (c ∈ fw_down w)) as [|Hup]; [done|].
    injection H as <-. split; [done|]. cbn [snd fw_down set_objects]. rewrite decide_False by done.
    rewrite fake_lookup_stored by by apply fake_id_but_status, fake_patch_ne.
    eexists. split; [done|apply fake_patch_covers].
  - intros c o st opts w _ Hst H. destruct (decide (c ∈ fw_down w)) as [|Hup]; [done|].
    destruct (fake_lookup w (fake_id c o)) as [live|] eqn:Hlive; [|done].
    cbn [snd fw_down set_objects]. rewrite decide_False by done.
    rewrite fake_lookup_stored.
    2: { etrans; [apply fake_id_but_status, fake_status_patch_ne|exact (fake_lookup_id _ _ _ Hlive)]. }
    eexists. split; [done|].
    apply covers_map. intros k v [<- <-]%lookup_singleton_Some _. exists st.
    unfold fake_status_patch. rewrite Hst, lookup_insert_eq. split; [done|apply covers_same].
  - intros c o opts w c' o' H _ (live & Hlive & Hcov).
    destruct (decide (c ∈ fw_down w)) as [|Hup]; [done|].
    destruct (fake_lookup w (fake_id c o)) as [old|] eqn:Hold; [|done].
    cbn [snd fw_down set_objects].
    destruct (decide (c' ∈ fw_down w)) as [|Hup']; [done|].
    destruct (decide (fake_id c o = fake_id c' o')) as [He|Hne].
    + rewrite <-He in *. rewrite Hold in Hlive. injection Hlive as ->. rewrite fake_lookup_stored.
      2: { etrans; [apply fake_id_but_status, fake_status_patch_ne|exact (fake_lookup_id _ _ _ Hold)]. }
      eexists. split; [done|].
      eapply covers_but_status; [exact Hcov|]. intros k. apply fake_status_patch_ne.
    + rewrite fake_lookup_other by by apply lookup_insert_ne. by exists live.
Qed.

(** Others that change the KRMSyncers during the run. *)
Definition edit_syncers (s s' : shared) : Prop := ∃ l, s' = set_world
  {| fw_objects := fw_objects (sh_world s); fw_namespaces := fw_namespaces (sh_world s);
     fw_syncers := l; fw_down := fw_down (sh_world s) |} s.

Lemma edit_syncers_keep id : others_keep edit_syncers id.
Proof. intros s s' [l ->] c o _ _. split; [done|]. by intros st. Qed.

Lemma Reconcile_converges_witness :
  (demo_run ["spec"; "status"] [1]).1.2 = None ∧
  ∃ live v', live_object (sh_world (demo_run ["spec"; "status"] [1]).2) 0 source_object = Ok live ∧
    live !! "spec" = Some v' ∧ covers (VMap {[ "x" := VInt 1 ]}) v'.
Proof.
  split; [reflexivity|].
  destruct (Reconcile_converges edit_syncers demo_controller demo_req
    (demo_trace ["spec"; "status"] [1]) (demo_shared ["spec"; "status"] [1])
    (demo_run ["spec"; "status"] [1]).2 source_object [demo_syncer ["spec"; "status"]] []
    (demo_syncer ["spec"; "status"]) (demo_rule ["spec"; "status"]))
    as (c & Hc & live & Hlive & Hspec & _).
  - apply edit_syncers_keep.
  - apply (demo_trace_of ["spec"; "status"] [1]).
  - exact (exec_replay (handle demo_controller) edit_syncers (Reconcile puller demo_req)
      (demo_shared ["spec"; "status"] [1])).
  - reflexivity.
  - reflexivity.
  - reflexivity.
  - by split.
  - repeat constructor; set_solver.
  - assert (c = 0) as -> by exact Hc.
    destruct (Hspec (VMap {[ "x" := VInt 1 ]})) as (v' & ? & ?); [reflexivity|done|].
    exists live, v'. split; [exact Hlive|]. split; assumption.
Defined.
End ConvergeWitnesses.
