(* ===== verification/Deletions.v ===== *)
(** * What a successful deletion leaves at the destination

    The counterpart of [Converge] for a source object that is gone: after a run without an
    error, every destination a matching rule names has no such object any more, or one that
    is being deleted. It uses the documented behaviour of deletion ([DeletionLaws]). *)

From stdpp Require Import base list strings gmap relations.
From S2P Require Import Prelude Threads GoStrings Kube Api Fake Rules FieldFilter.
From S2P Require Import Tracker Client FakeCluster Apply RemoteClients Sync SyncSpec Converge.

#[local] Arguments RemoteClients.get : simpl never.

Section Gone.
Context {AE : ApiErrors} {AC : ApiClient} {UN : Unstructured}.
Context {RP : RemoteConfigProvider} {CF : ClientFactory}.

(** No object has this kind, namespace and name, or it waits for its finalizers. *)
Definition gone (w : world) (c : client) (id : GroupVersionKind * NamespacedName) : Prop :=
  match live_at w c id with
  | Err e => IsNotFound e = true
  | Ok live => ∃ t, NestedFieldCopy live ["metadata"; "deletionTimestamp"] = Ok (Some t)
  end.

(** Deleting an object, or learning that there is none; deleting others and connecting to
    clusters bring nothing back. *)
Class DeletionLaws : Prop := {
  delete_gone c o w :
    (do_Delete c o w).1 = None → gone (do_Delete c o w).2 c (object_id o);
  delete_not_found c o w e :
    (do_Delete c o w).1 = Some e → IsNotFound e = true →
    gone (do_Delete c o w).2 c (object_id o);
  delete_keeps c o w c' id : gone w c' id → gone (do_Delete c o w).2 c' id;
  connect_keeps ns remote w c' id : gone w c' id → gone (buildClient ns remote w).2 c' id;
}.
End Gone.

Section Deletions.
Context {AE : ApiErrors} {AC : ApiClient} {UN : Unstructured} {UL : UnstructuredLaws}.
Context {RP : RemoteConfigProvider} {CF : ClientFactory} {PG : PrometheusGauge}.
Context {DL : DeletionLaws}.

Lemma stub_id g name ns : gvk_wf g → object_id (stub g name ns) = (g, NN ns name).
Proof.
  intros Hg. unfold object_id, ObjectKeyFromObject.
  by rewrite stub_gvk, (proj1 (stub_name g name ns)), (proj2 (stub_name g name ns)).
Qed.

(** What is deleted is the object of the event. *)
Lemma toDelete_id (r : DynamicResourceReconciler) req :
  gvk_wf (dr_GVK r) → object_id (toDelete r req) = (dr_GVK r, req).
Proof. destruct req as [ns name]. apply stub_id. Qed.

(** What the others do between the operations of a run: anything that does not bring the
    object back. *)
Context (others : shared → shared → Prop).
Definition others_keep_gone (id : GroupVersionKind * NamespacedName) : Prop := ∀ s s' c,
  others s s' → gone (sh_world s) c id → gone (sh_world s') c id.

Section Keep.
Context (r : DynamicResourceReconciler) (req : NamespacedName).
Context (Hwf : gvk_wf (dr_GVK r)) (keep : others_keep_gone (dr_GVK r, req)).
Abbreviation is_gone s c := (gone (sh_world s) c (dr_GVK r, req)).

Lemma others_gone s s' c : rtc others s s' → is_gone s c → is_gone s' c.
Proof. induction 1 as [|s1 s2 s3 Hs _ IH]; [done|]. intros Hg. apply IH. by eapply keep. Qed.

Lemma remote_client_gone ctl ns remote s c id :
  gone (sh_world s) c id → gone (sh_world (do_RemoteClient ctl ns remote s).2) c id.
Proof.
  intros Hg. assert (Hb := connect_keeps ns remote (sh_world s) c id Hg).
  unfold do_RemoteClient. destruct (c_remoteClients ctl); [|done]. unfold get.
  destruct (Key ns remote); [|done]. destruct (sh_clients s !! _); [done|].
  by destruct (buildClient ns remote (sh_world s)) as [[]].
Qed.

(** Choosing the destination brings nothing back. *)
Lemma destination_gone ctl k tr x s s' c :
  trace_of (destination r k) tr x → replay (handle ctl) others tr s s' →
  is_gone s c → is_gone s' c.
Proof.
  unfold destination. case_bool_decide.
  - intros (y & tr' & -> & -> & _) (s1 & Hs1 & _ & Hs') Hg. eapply others_gone; [exact Hs'|].
    apply remote_client_gone. by eapply others_gone.
  - intros [-> _]. apply others_gone.
Qed.

(** A deletion brings nothing back, and if it does not fail, its object is gone. *)
Lemma deleteFrom_gone ctl d tr e s s' c :
  trace_of (deleteFrom r req d) tr e → replay (handle ctl) others tr s s' →
  (is_gone s c → is_gone s' c) ∧ (e = None → is_gone s' d).
Proof.
  intros (tr1 & x & tr2 & -> & (y & tr3 & -> & -> & ->) & Htr)%trace_of_bind Hr.
  assert (tr2 = []) as -> by by destruct y as [e'|]; [destruct (IsNotFound e')|]; destruct Htr.
  destruct Hr as (s1 & Hs1 & Hy & Hs'). simpl in Hy, Hs'. split.
  - intros Hg. eapply others_gone; [exact Hs'|]. apply delete_keeps. by eapply others_gone.
  - intros ->. eapply others_gone; [exact Hs'|]. simpl.
    rewrite <-(toDelete_id r req Hwf). destruct y as [e'|].
    + eapply delete_not_found; [exact Hy|]. destruct (IsNotFound e') eqn:He; [done|].
      simpl in Htr. by destruct Htr.
    + by apply delete_gone.
Qed.

Lemma syncRule_gone ctl k rule tr e s s' :
  trace_of (syncRule r req None k rule) tr e → replay (handle ctl) others tr s s' →
  (∀ c, is_gone s c → is_gone s' c) ∧ (e = None → ∃ c, writes_with r k tr c ∧ is_gone s' c).
Proof.
  intros (tr1 & x & tr2 & -> & Hx & Htr)%trace_of_bind (s1 & Hr1 & Hr2)%replay_app.
  assert (Hkeep := λ c, destination_gone _ _ _ _ _ _ c Hx Hr1).
  destruct x as [d|err].
  - assert (Hd := λ c, deleteFrom_gone _ _ _ _ _ _ c Htr Hr2). split.
    + intros c Hg. by apply Hd, Hkeep.
    + intros He. exists d. split; [|by apply (Hd d)].
      apply (writes_with_weaken _ _ []). by eapply destination_trace.
  - destruct Htr as [-> ->]. split; [|done]. intros c Hg. eapply others_gone; [exact Hr2|auto].
Qed.

(** Errors are never dropped. *)
Lemma targets_errors src ts errs tr errs' :
  trace_of (forP ts errs (λ t errs, err ← syncRule r req src t.1 t.2; mret (appendError errs err)))
    tr errs' → errs `prefix_of` errs'.
Proof.
  revert errs tr. induction ts as [|t ts IH]; intros errs tr; [by intros [_ ->]|].
  intros (tr1 & errs1 & tr2 & -> & Htr1 & Htr2)%trace_of_bind.
  apply trace_of_bind in Htr1 as (tr3 & e & tr4 & -> & _ & [-> ->]).
  etrans; [|by eapply IH]. destruct e; [by apply prefix_app_r|done].
Qed.

(** All targets of a run without errors. *)
Lemma targets_gone ctl ts errs tr s s' :
  trace_of (forP ts errs (λ t errs, err ← syncRule r req None t.1 t.2; mret (appendError errs err)))
    tr [] →
  replay (handle ctl) others tr s s' →
  (∀ c, is_gone s c → is_gone s' c) ∧
  ∀ t, t ∈ ts → ∃ c, writes_with r t.1 tr c ∧ is_gone s' c.
Proof.
  revert errs tr s. induction ts as [|t ts IH]; intros errs tr s.
  - intros [-> _] Hr. split; [intros c; by apply others_gone|by intros t ?%elem_of_nil].
  - intros (tr1 & errs1 & tr2 & -> & Htr1 & Htr2)%trace_of_bind (s1 & Hr1 & Hr2)%replay_app.
    apply trace_of_bind in Htr1 as (tr3 & e & tr4 & -> & Htr1 & [-> ->]).
    rewrite app_nil_r in *. destruct (syncRule_gone _ _ _ _ _ _ _ Htr1 Hr1) as [Hk1 Hg1].
    destruct (IH _ _ _ Htr2 Hr2) as [Hk2 Hg2]. split; [auto|].
    intros t' [->|Ht']%elem_of_cons.
    + assert (He : e = None).
      { apply targets_errors in Htr2. destruct e; [|done]. apply prefix_nil_inv in Htr2.
        by destruct errs. }
      destruct (Hg1 He) as (c & Hc & Hg). exists c. split; [|auto].
      by apply (writes_with_weaken _ _ [] tr3 tr2).
    + destruct (Hg2 t' Ht') as (c & Hc & Hg). exists c. split; [|done].
      apply (writes_with_weaken _ _ tr3 tr2 []) in Hc. by rewrite app_nil_r in Hc.
Qed.

(** A run that finds its source object gone and returns no error. *)
Lemma Reconcile_gone ctl tr s s' e items :
  trace_of (Reconcile r req) tr None → replay (handle ctl) others tr s s' →
  got_of tr = Some (Err e) → listed_of tr = Some (Ok items) →
  ∀ t, t ∈ targets r req items → ∃ c, writes_with r t.1 tr c ∧ is_gone s' c.
Proof.
  intros (got & rest & -> & Htr)%Reconcile_trace Hr Hgot Hlisted t Ht.
  injection Hgot as ->. simpl in Htr. destruct (IsNotFound e); [|by destruct Htr as (? & _ & _ & ? & _)].
  apply reconcileFrom_trace in Htr as (listed & rest' & -> & Htr).
  injection Hlisted as ->. destruct Htr as (tr' & errs & -> & Htr & Hres).
  symmetry in Hres. apply Join_all_None in Hres as ->.
  destruct Hr as (s1 & _ & _ & s2 & _ & _ & Hr). apply replay_app in Hr as (s3 & Hr & Hend).
  apply syncAll_targets in Htr. destruct (targets_gone _ _ _ _ _ _ Htr Hr) as [_ Hg].
  destruct (Hg t Ht) as (c & Hc & Hgone). exists c. split.
  - by apply (writes_with_weaken _ _ [_; _] tr' [_]).
  - destruct Hend as (s4 & Hs4 & _ & Hs'). eapply others_gone; [exact Hs'|].
    simpl. by eapply others_gone.
Qed.
End Keep.

(** ** Properties *)

(** [C4] A successful run deletes what is gone everywhere. After a run without error on a
    source object that does not exist, whatever the other actors do that does not bring the
    object back, each cluster that a matching rule names (the local one in Pull mode, the
    remote of the KRMSyncer in Push mode) has no object of the controller's kind and of the
    event's namespace and name, or one that is being deleted. *)
Theorem Reconcile_deletes ctl req tr s s' e items :
  let r := c_reconciler ctl in
  gvk_wf (dr_GVK r) → others_keep_gone (dr_GVK r, req) →
  trace_of (Reconcile r req) tr None → replay (handle ctl) others tr s s' →
  got_of tr = Some (Err e) → listed_of tr = Some (Ok items) →
  ∀ k rule, (k, rule) ∈ targets r req items →
    ∃ c, writes_with r k tr c ∧ gone (sh_world s') c (dr_GVK r, req).
Proof.
  intros r Hwf keep Htr Hr Hgot Hlisted k rule Ht.
  exact (Reconcile_gone _ _ Hwf keep _ _ _ _ _ _ Htr Hr Hgot Hlisted _ Ht).
Qed.
End Deletions.

(** ** A cluster that deletes, and a run on it *)

Section DeletionsWitness.
#[local] Existing Instance FakeErrors.
#[local] Existing Instance FakeUnstructured.
#[local] Existing Instance FakeUnstructuredLaws.
#[local] Existing Instance FakeCluster.
#[local] Existing Instance FakeProvider.
#[local] Existing Instance FakeFactory.
#[local] Existing Instance FakeGauge.

Lemma fake_live_at w c id :
  live_at w c id = if_up c Err (match fake_lookup w (c, id.1, id.2) with
    | Some live => Ok live | None => Err FNotFound end) w.
Proof. done. Qed.

Lemma fake_id_object c o : (c, (object_id o).1, (object_id o).2) = fake_id c o.
Proof. done. Qed.

#[local] Instance FakeDeletionLaws : DeletionLaws.
Proof.
  constructor; simpl; unfold if_up.
  - intros c o w. destruct (decide (c ∈ fw_down w)) as [|Hup]; [done|].
    destruct (fake_lookup w (fake_id c o)) eqn:Ho; [|done]. intros _.
    unfold gone. rewrite fake_live_at, fake_id_object. unfold if_up, fake_lookup.
    cbn [snd fw_down fw_objects set_objects]. by rewrite decide_False, lookup_delete_eq.
  - intros c o w e. destruct (decide (c ∈ fw_down w)) as [|Hup]; [by intros [= <-]|].
    destruct (fake_lookup w (fake_id c o)) eqn:Ho; [done|]. intros _ _.
    unfold gone. rewrite fake_live_at, fake_id_object. unfold if_up.
    rewrite decide_False by done. cbn [snd]. by rewrite Ho.
  - intros c o w c' id Hg. destruct (decide (c ∈ fw_down w)); [done|].
    destruct (fake_lookup w (fake_id c o)) eqn:Ho; [|done].
    unfold gone in *. rewrite fake_live_at in *. unfold if_up in *. cbn [snd fw_down set_objects].
    destruct (decide (c' ∈ fw_down w)); [done|].
    destruct (decide (fake_id c o = (c', id.1, id.2))) as [->|Hne].
    + unfold fake_lookup. simpl. by rewrite lookup_delete_eq.
    + rewrite fake_lookup_other; [exact Hg|]. simpl. by apply lookup_delete_ne.
  - intros ns remote w c id Hg. unfold buildClient, mbind, M_bind. simpl.
    destruct (fake_remote remote); simpl; [|done]. by case_decide.
Qed.

Lemma Reconcile_deletes_witness :
  (demo_run ["spec"] [0]).1.2 = None ∧
  gone (sh_world (demo_run ["spec"] [0]).2) 0 (demo_gvk, NN "ns" "a").
Proof.
  split; [reflexivity|].
  destruct (Reconcile_deletes edit_syncers demo_controller demo_req
    (demo_trace ["spec"] [0]) (demo_shared ["spec"] [0]) (demo_run ["spec"] [0]).2 FNotFound
    [demo_syncer ["spec"]]) with (k := demo_syncer ["spec"]) (rule := demo_rule ["spec"])
    as (c & Hc & Hg).
  - by split.
  - intros s s' c [l ->]. done.
  - apply (demo_trace_of ["spec"] [0]).
  - exact (exec_replay (handle demo_controller) edit_syncers (Reconcile puller demo_req)
      (demo_shared ["spec"] [0])).
  - reflexivity.
  - reflexivity.
  - left.
  - assert (c = 0) as -> by exact Hc. exact Hg.
Defined.
End DeletionsWitness.
