(* ===== verification/System.v ===== *)
(** * The system of reconcilers

    Any number of runs of [Sync.Reconcile], of any controllers, over the state they share:
    the clusters, the client cache, the failure trackers and their gauges. The runs
    interleave operation by operation, new events start runs, and the rest of the world
    (clusters, other programs, the set-up of new controllers) acts in between. *)

From stdpp Require Import base list strings gmap relations.
From S2P Require Import Prelude Threads GoStrings Kube Api Fake Rules FieldFilter.
From S2P Require Import Tracker Client FakeCluster Apply RemoteClients Sync SyncSpec.

#[local] Arguments RemoteClients.get : simpl never.

Section System.
Context {AE : ApiErrors} {AC : ApiClient} {UN : Unstructured}.
Context {RP : RemoteConfigProvider} {CF : ClientFactory} {PG : PrometheusGauge}.

(** An event for a controller. *)
Record job := {
  j_controller : controller;
  j_request : NamespacedName;
}.

Definition job_program (j : job) : handler (option goerr) :=
  Reconcile (c_reconciler (j_controller j)) (j_request j).

Definition job_handle (j : job) : ∀ X, operation X → M shared X := handle (j_controller j).

(** The environment changes the world; set-ups make trackers and mark KRMSyncers in theirs. *)
Inductive interfere : shared → shared → Prop :=
| others_act w s : interfere s (set_world w s)
| others_mark t key failed s : interfere s (mark_at t key failed s).2
| others_track g s : interfere s
    {| sh_world := sh_world s; sh_clients := sh_clients s;
       sh_trackers := sh_trackers s ++ [newFailureTracker g]; sh_gauges := sh_gauges s |}.

Abbreviation system := (@pool operation job shared (option goerr)).
Abbreviation system_step := (pool_step job_program job_handle interfere).

(** A process that has just started. *)
Definition start (w : world) : system := {|
  pool_shared := {| sh_world := w; sh_clients := newRemoteClientCache; sh_trackers := [];
                    sh_gauges := ∅ |};
  pool_threads := [] |}.

Definition reachable (c : system) : Prop := ∃ w, rtc system_step (start w) c.

(** *** The metrics of the system *)

Definition metrics_of (s : shared) : metrics :=
  {| m_trackers := sh_trackers s; m_gauges := sh_gauges s |}.

Lemma mark_at_metrics t key failed s :
  rtc metrics_step (metrics_of s) (metrics_of (mark_at t key failed s).2).
Proof.
  unfold mark_at, modify. simpl. destruct t as [i|]; simpl; [|by destruct failed; apply rtc_refl].
  destruct (sh_trackers s !! i) as [t|] eqn:Hi; [|by destruct failed; apply rtc_refl].
  destruct (mark (Some t) (key, failed) (sh_gauges s)) as [t' gs] eqn:Hm.
  assert (Ht : ∃ t1, t' = Some t1).
  { unfold mark, markFailed, markSucceeded in Hm. simpl in Hm.
    destruct failed; case_decide; simplify_eq; eauto. }
  destruct Ht as [t1 ->]. apply rtc_once.
  exact (step_mark i t (key, failed) t1 gs (metrics_of s) Hi Hm).
Qed.

(** An operation changes the metrics by at most one mark. *)
Lemma handle_metrics c X (o : operation X) s :
  rtc metrics_step (metrics_of s) (metrics_of (handle c X o s).2).
Proof.
  destruct o; try apply rtc_refl; simpl.
  - unfold do_RemoteClient. destruct (c_remoteClients c); apply rtc_refl.
  - apply mark_at_metrics.
Qed.

Lemma system_metrics c c' :
  rtc system_step c c' →
  rtc metrics_step (metrics_of (pool_shared c)) (metrics_of (pool_shared c')).
Proof.
  induction 1 as [c|c1 c2 c3 Hstep _ IH]; [done|]. etrans; [|exact IH].
  destruct Hstep as [c1 c2 [i t X o k c _ _]|j c|s c Hs].
  - apply handle_metrics.
  - done.
  - destruct Hs as [w s|t key failed s|g s]; [done| |].
    + apply mark_at_metrics.
    + simpl. apply rtc_once. exact (step_new g (metrics_of s)).
Qed.

(** *** The clients of the system *)

(** A client that was obtained from the cache is there. *)
Definition cached (cs : gmap string client) (a : string * option RemoteConfig * res goerr client) :
    Prop :=
  ∀ cl, a.2 = Ok cl → ∃ key, Key a.1.1 a.1.2 = Ok key ∧ cs !! key = Some cl.

(** Every client a thread with the cache obtained is still cached. *)
Definition clients_cached (c : system) : Prop :=
  ∀ i t a, pool_threads c !! i = Some t → c_remoteClients (j_controller (th_job t)) = true →
    a ∈ remotes_of (th_trace t) → cached (sh_clients (pool_shared c)) a.

Lemma cached_weaken cs cs' a : cs ⊆ cs' → cached cs a → cached cs' a.
Proof.
  intros Hcs Ha cl Hcl. destruct (Ha cl Hcl) as (key & Hkey & Hk). exists key.
  split; [done|by eapply lookup_weaken].
Qed.

(** An operation only adds clients, and what it obtains from the cache is there after it. *)
Lemma handle_clients c X (o : operation X) s :
  let r := handle c X o s in
  sh_clients s ⊆ sh_clients r.2 ∧
  (c_remoteClients c = true → ∀ a, remote_of (Ev o r.1) = Some a → cached (sh_clients r.2) a).
Proof.
  destruct o; try (split; [done|by intros _ a [=]]); simpl.
  unfold do_RemoteClient. destruct (c_remoteClients c); [|split; [done|by intros [=]]].
  split; [apply get_grows|]. intros _ a [= <-] cl Hcl. simpl in *.
  assert (Hg := get_cases namespace remote (sh_world s) (sh_clients s)).
  destruct (get _ _ _) as [r [w' cs']] eqn:Hget. simpl in *. subst r.
  destruct Hg as [(e & [=] & _)|(key & cl' & [= <-] & Hkey & Hcs)]. exists key. split; [done|].
  destruct Hcs as [(Hk & -> & _)|(_ & ->)]; [done|apply lookup_insert_eq].
Qed.

Lemma clients_cached_step c c' :
  clients_cached c → system_step c c' → clients_cached c'.
Proof.
  intros Hok Hstep. destruct Hstep as [c c' Hstep|j c|s c Hs].
  - destruct Hstep as [i t X o k c Hi Hk].
    destruct (handle_clients (j_controller (th_job t)) X o (pool_shared c)) as [Hgrow Hnew].
    intros n t' a Ht. cbn [pool_threads pool_shared] in *.
    apply list_lookup_insert_Some in Ht as [(-> & <- & _)|[_ Ht]].
    + simpl. intros Hc Ha. unfold remotes_of in Ha. rewrite omap_app in Ha.
      apply elem_of_app in Ha as [Ha|Ha].
      * eapply cached_weaken; [exact Hgrow|]. by eapply Hok.
      * apply Hnew; [done|]. apply list_elem_of_omap in Ha as (e & He & Ha).
        by apply list_elem_of_singleton in He as ->.
    + intros Hc Ha. eapply cached_weaken; [exact Hgrow|]. by eapply Hok.
  - intros n t a Ht. apply lookup_app_Some in Ht as [Ht|[_ Ht]]; [by eapply Hok|].
    apply list_lookup_singleton_Some in Ht as [_ <-]. intros _ Ha. by apply elem_of_nil in Ha.
  - intros n t a Ht Hc Ha. replace (sh_clients _) with (sh_clients (pool_shared c));
      [by eapply Hok|by destruct Hs].
Qed.

Lemma reachable_cached c : reachable c → clients_cached c.
Proof.
  intros [w Hr]. eapply rtc_invariant; [apply clients_cached_step|exact Hr|].
  by intros i t a Hi.
Qed.

(** *** Where clients come from *)

(** The client was made from a config of the provider for this remote. *)
Definition built (ns : string) (remote : option RemoteConfig) (cl : client) : Prop :=
  ∃ w cfg w', (RESTConfig ns remote w).1 = Ok cfg ∧ (client_New cfg w').1 = Ok cl.

Definition cache_built (cs : gmap string client) : Prop :=
  ∀ key cl, cs !! key = Some cl → ∃ ns remote, Key ns remote = Ok key ∧ built ns remote cl.

(** A client that was obtained was made for the same remote, or for one with its key. *)
Definition obtained (a : string * option RemoteConfig * res goerr client) : Prop :=
  ∀ cl, a.2 = Ok cl → built a.1.1 a.1.2 cl ∨
    ∃ key ns remote, Key a.1.1 a.1.2 = Ok key ∧ Key ns remote = Ok key ∧ built ns remote cl.

Lemma buildClient_built ns remote w cl :
  (buildClient ns remote w).1 = Ok cl → built ns remote cl.
Proof.
  unfold buildClient, mbind, M_bind. intros Hcl.
  destruct (RESTConfig ns remote w) as [[cfg|e] w'] eqn:Hcfg; cbn [fst snd] in Hcl; [|done].
  destruct (client_New cfg w') as [[cl'|e] w''] eqn:Hnew; cbn [fst snd] in Hcl; [|done].
  injection Hcl as <-. exists w, cfg, w'. by rewrite Hcfg, Hnew.
Qed.

Lemma handle_built c X (o : operation X) s :
  cache_built (sh_clients s) →
  let r := handle c X o s in
  cache_built (sh_clients r.2) ∧ ∀ a, remote_of (Ev o r.1) = Some a → obtained a.
Proof.
  intros Hb. destruct o; try (split; [done|by intros a [=]]); simpl.
  unfold do_RemoteClient. destruct (c_remoteClients c).
  - unfold get. destruct (Key namespace remote) as [key|e] eqn:Hkey;
      [|split; [done|by intros a [= <-] cl [=]]].
    destruct (sh_clients s !! key) as [cl|] eqn:Hk.
    + split; [done|]. intros a [= <-] cl' [= <-]. right.
      destruct (Hb key cl Hk) as (ns & remote' & ? & ?). by exists key, ns, remote'.
    + assert (Hnew := buildClient_built namespace remote (sh_world s)).
      destruct (buildClient namespace remote (sh_world s)) as [[cl|e] w']; simpl in *.
      * split; [|intros a [= <-] cl' [= <-]; left; by apply Hnew].
        intros key' cl' [[<- <-]|[_ Hk']]%lookup_insert_Some; [|by apply Hb].
        exists namespace, remote. split; [done|by apply Hnew].
      * split; [done|by intros a [= <-] cl' [=]].
  - split; [done|]. intros a [= <-] cl Hcl. left. simpl in *. by eapply buildClient_built.
Qed.

Definition clients_built (c : system) : Prop :=
  cache_built (sh_clients (pool_shared c)) ∧
  ∀ i t a, pool_threads c !! i = Some t → a ∈ remotes_of (th_trace t) → obtained a.

Lemma clients_built_step c c' : clients_built c → system_step c c' → clients_built c'.
Proof.
  intros [Hb Hok] Hstep. destruct Hstep as [c c' Hstep|j c|s c Hs].
  - destruct Hstep as [i t X o k c Hi Hk].
    destruct (handle_built (j_controller (th_job t)) X o (pool_shared c) Hb) as [Hb' Hnew].
    split; [done|]. intros n t' a Ht. cbn [pool_threads pool_shared] in *.
    apply list_lookup_insert_Some in Ht as [(-> & <- & _)|[_ Ht]]; [|by eapply Hok].
    simpl. intros Ha. unfold remotes_of in Ha. rewrite omap_app in Ha.
    apply elem_of_app in Ha as [Ha|Ha]; [by eapply Hok|].
    apply list_elem_of_omap in Ha as (e & He & Ha).
    apply list_elem_of_singleton in He as ->. by apply Hnew.
  - split; [done|]. intros n t a Ht.
    apply lookup_app_Some in Ht as [Ht|[_ Ht]]; [by eapply Hok|].
    apply list_lookup_singleton_Some in Ht as [_ <-]. intros Ha. by apply elem_of_nil in Ha.
  - split; [by destruct Hs|exact Hok].
Qed.

Lemma reachable_built c : reachable c → clients_built c.
Proof.
  intros [w Hr]. eapply rtc_invariant; [apply clients_built_step|exact Hr|].
  split; [by intros key cl [=]|by intros i t a Hi].
Qed.

(** *** The threads *)

Lemma reachable_threads c : reachable c → threads_ok job_program c.
Proof. intros [w Hr]. by eapply pool_threads_ok. Qed.

(** Some answer of an operation: every run can be finished. *)
Definition some_answer (X : Type) (o : operation X) : X :=
  match o in operation X return X with
  | OpGet _ _ _ => Ok ∅
  | OpList _ => Ok []
  | OpPatch _ obj _ => (None, obj)
  | OpRemoteClient _ _ => Err (EStd "")
  | OpMark _ _ => tt
  | OpGetNamespace _ _ | OpCreate _ _ | OpDelete _ _ | OpStatusPatch _ _ _ => None
  end.

Lemma thread_completes c i t :
  reachable c → pool_threads c !! i = Some t →
  ∃ tr res, trace_of (job_program (th_job t)) (th_trace t ++ tr) res ∧
    ∀ a, th_prog t = Ret a → tr = [] ∧ res = a.
Proof.
  intros Hok%reachable_threads Hi. specialize (Hok i t Hi).
  destruct (th_prog t) as [a|X o k] eqn:Hp.
  - exists [], a. split; [|by intros b [= ->]]. rewrite app_nil_r. by apply reaches_ret.
  - destruct (trace_exists some_answer (Do o k)) as (tr & res & Htr).
    exists tr, res. split; [by eapply reaches_trace|done].
Qed.

End System.

Section SystemProperties.
Context {AE : ApiErrors} {AC : ApiClient} {UN : Unstructured} {UL : UnstructuredLaws}.
Context {RP : RemoteConfigProvider} {CF : ClientFactory}.
Context {PG : PrometheusGauge} {PL : PrometheusGaugeLaws}.

(** ** Properties *)

(** [C2] Each run in the system follows the protocol: however the runs interleave and
    whatever the environment does, the calls a run has made and the remote clients it has
    asked for so far are the beginning of those of the specified protocol for the answers it
    got to its reads, and a run that has finished made exactly such calls, asked for exactly
    such clients and returned that protocol's result. *)
Theorem runs_follow_protocol c i t :
  reachable c → pool_threads c !! i = Some t →
  let r := c_reconciler (j_controller (th_job t)) in
  let req := j_request (th_job t) in
  ∃ tr got res, got_of (th_trace t ++ tr) = Some got ∧
    sync_protocol r req got (listed_of (th_trace t ++ tr))
      (remotes_of (th_trace t) ++ remotes_of tr) (calls_of (th_trace t) ++ calls_of tr) res ∧
    ∀ a, th_prog t = Ret a → tr = [] ∧ res = a.
Proof.
  intros Hc Hi r req. destruct (thread_completes c i t Hc Hi) as (tr & res & Htr & Hdone).
  destruct (Reconcile_emits _ _ _ _ Htr) as (got & Hgot & Hp).
  exists tr, got, res. split; [done|]. split; [|done].
  unfold remotes_of, calls_of in *. by rewrite <-!omap_app.
Qed.

(** The system refines the metrics specification: however runs and set-ups interleave,
    every failure gauge equals the number of failing objects over the trackers that share
    it. *)
Theorem system_gauges_exact c :
  reachable c →
  ∀ g, gauge_value (gauge_at (sh_gauges (pool_shared c)) g) =
    Z.of_nat (failing_total g (sh_trackers (pool_shared c))).
Proof.
  intros [w Hr%system_metrics].
  exact (gauges_equal_failing_objects (metrics_of (pool_shared c)) Hr).
Qed.

(** One client per connection in the whole system: if two runs, of whichever
    controllers with the client cache, obtained clients for remotes with the same key, they
    obtained the same client. *)
Theorem system_one_client_per_key c i1 t1 i2 t2 ns1 remote1 ns2 remote2 key cl1 cl2 :
  reachable c →
  pool_threads c !! i1 = Some t1 → pool_threads c !! i2 = Some t2 →
  c_remoteClients (j_controller (th_job t1)) = true →
  c_remoteClients (j_controller (th_job t2)) = true →
  (ns1, remote1, Ok cl1) ∈ remotes_of (th_trace t1) →
  (ns2, remote2, Ok cl2) ∈ remotes_of (th_trace t2) →
  Key ns1 remote1 = Ok key → Key ns2 remote2 = Ok key → cl1 = cl2.
Proof.
  intros Hc%reachable_cached H1 H2 Hc1 Hc2 Ha1 Ha2 Hk1 Hk2.
  destruct (Hc _ _ _ H1 Hc1 Ha1 cl1 eq_refl) as (key1 & Hk1' & Hcl1).
  destruct (Hc _ _ _ H2 Hc2 Ha2 cl2 eq_refl) as (key2 & Hk2' & Hcl2).
  simpl in *. congruence.
Qed.

(** [C22] No run is long: however the runs interleave, at any time a run has made at most
    three operations (the two reads and the mark) and six for each rule that matches among
    the KRMSyncers it was told. *)
Theorem runs_are_bounded c i t :
  reachable c → pool_threads c !! i = Some t →
  length (th_trace t) ≤
    3 + 6 * work (c_reconciler (j_controller (th_job t))) (j_request (th_job t)) (th_trace t).
Proof.
  intros Hc Hi. destruct (thread_completes c i t Hc Hi) as (tr & res & Htr & _).
  apply Reconcile_length in Htr. rewrite length_app in Htr.
  destruct (th_trace t) as [|e1 [|e2 l]]; [simpl; lia..|]. unfold work in *. simpl in *. lia.
Qed.

(** Every run ends and is accounted for: from any reachable state, whatever order the
    running handlers take their turns in, whatever the clusters answer and whatever the
    environment does in between, a state is reached in which each of them has returned; and
    the last thing it did was to mark its object in the failure tracker, as failed if it
    returns an error and as succeeded if not (unless the KRMSyncers could not be listed). *)
Theorem every_run_ends c :
  reachable c →
  eventually (turn job_handle interfere) (λ c', th_job <$> pool_threads c' = th_job <$> pool_threads c ∧
    ∀ i t, pool_threads c' !! i = Some t → ∃ res, th_prog t = Ret res ∧
      outcome_marked (j_request (th_job t)) (th_trace t) res) c.
Proof.
  intros Hc%reachable_threads.
  apply (eventually_wf _ (λ c', th_job <$> pool_threads c' = th_job <$> pool_threads c ∧
    threads_ok job_program c')); [apply turn_wf| | |done].
  - intros c1 c2 [Hj Hok] Ht. split; [by rewrite (turn_jobs _ _ _ _ Ht)|].
    by eapply turn_threads_ok.
  - intros c1 [Hj Hok]. destruct (turn_progress job_handle interfere c1) as [Hd|Ht]; [left|by right].
    split; [done|]. intros i t Hi. destruct (Hd i t Hi) as [res Hres]. exists res.
    split; [done|]. specialize (Hok i t Hi). rewrite Hres in Hok.
    by eapply Reconcile_accounted, reaches_ret.
Qed.
End SystemProperties.

(** ** A concrete system *)

Section SystemWitnesses.
#[local] Existing Instance FakeErrors.
#[local] Existing Instance FakeUnstructured.
#[local] Existing Instance FakeUnstructuredLaws.
#[local] Existing Instance FakeCluster.
#[local] Existing Instance FakeProvider.
#[local] Existing Instance FakeFactory.
#[local] Existing Instance FakeGauge.
#[local] Existing Instance FakeGaugeLaws.

(** The KRMSyncer that names the remote of two watchers that push. *)
Definition push_syncer : KRMSyncer := push_to "c".

Definition push_world : fake_world := {|
  fw_objects := {[ (0, demo_gvk, NN "ns" "a") := source_object ]};
  fw_namespaces := ∅; fw_syncers := [push_syncer]; fw_down := ∅ |}.

Definition push_job : job := {| j_controller := pusher; j_request := demo_req |}.

(** Two runs for the same object, operation by operation in turns, until both have their
    client. *)
Definition two_runs : pool :=
  schedule job_handle [0; 1; 0; 1; 0; 1] (spawn job_program [push_job; push_job] (start push_world)).

Lemma two_runs_reachable : reachable two_runs.
Proof.
  exists push_world. etrans; [apply (spawn_steps job_program job_handle)|].
  apply schedule_steps.
Qed.

Definition two_runs_thread (i : nat) : thread :=
  default (start_thread job_program push_job) (pool_threads two_runs !! i).

Lemma two_runs_lookup i : i < 2 → pool_threads two_runs !! i = Some (two_runs_thread i).
Proof.
  intros Hi. unfold two_runs_thread.
  assert (Hlen : length (pool_threads two_runs) = 2) by reflexivity.
  destruct (lookup_lt_is_Some_2 (pool_threads two_runs) i) as [t Ht]; [lia|]. by rewrite Ht.
Qed.

Lemma two_runs_job i : i < 2 → th_job (two_runs_thread i) = push_job.
Proof. intros Hi. destruct i as [|[|i]]; [reflexivity|reflexivity|lia]. Qed.

Example two_runs_clients :
  remotes_of (th_trace (two_runs_thread 0)) = [("ns", demo_remote "c", Ok 1)] ∧
  remotes_of (th_trace (two_runs_thread 1)) = [("ns", demo_remote "c", Ok 1)].
Proof. split; reflexivity. Qed.

Lemma runs_follow_protocol_witness :
  calls_of (th_trace (two_runs_thread 0)) =
    [Call 0 (ReqGet demo_req demo_gvk) None; Call 0 ReqList None] ∧
  ∃ tr got res, got_of (th_trace (two_runs_thread 0) ++ tr) = Some got ∧
    sync_protocol (c_reconciler pusher) demo_req got
      (listed_of (th_trace (two_runs_thread 0) ++ tr))
      (remotes_of (th_trace (two_runs_thread 0)) ++ remotes_of tr)
      (calls_of (th_trace (two_runs_thread 0)) ++ calls_of tr) res.
Proof.
  split; [reflexivity|].
  assert (Hrun := runs_follow_protocol two_runs 0 (two_runs_thread 0) two_runs_reachable
    (two_runs_lookup 0 ltac:(lia))).
  rewrite (two_runs_job 0 ltac:(lia)) in Hrun.
  destruct Hrun as (tr & got & res & Hgot & Hp & _).
  exists tr, got, res. split; [exact Hgot|exact Hp].
Defined.

Lemma system_gauges_exact_witness :
  gauge_value (gauge_at (sh_gauges (pool_shared two_runs)) SetupFailed) =
    Z.of_nat (failing_total SetupFailed (sh_trackers (pool_shared two_runs))).
Proof. exact (system_gauges_exact two_runs two_runs_reachable SetupFailed). Defined.

Lemma system_one_client_per_key_witness :
  ∃ cl1 cl2, (("ns", demo_remote "c", Ok cl1) ∈ remotes_of (th_trace (two_runs_thread 0))) ∧
    (("ns", demo_remote "c", Ok cl2) ∈ remotes_of (th_trace (two_runs_thread 1))) ∧ cl1 = cl2.
Proof.
  destruct two_runs_clients as [H0 H1]. exists 1, 1.
  assert (Hin0 : ("ns", demo_remote "c", Ok 1) ∈ remotes_of (th_trace (two_runs_thread 0)))
    by (rewrite H0; left).
  assert (Hin1 : ("ns", demo_remote "c", Ok 1) ∈ remotes_of (th_trace (two_runs_thread 1)))
    by (rewrite H1; left).
  split; [exact Hin0|]. split; [exact Hin1|].
  assert (Hc : ∀ i, i < 2 → c_remoteClients (j_controller (th_job (two_runs_thread i))) = true).
  { intros i Hi. by rewrite two_runs_job. }
  apply (system_one_client_per_key two_runs 0 (two_runs_thread 0) 1 (two_runs_thread 1)
    "ns" (demo_remote "c") "ns" (demo_remote "c") "c" 1 1 two_runs_reachable);
    [apply two_runs_lookup; lia..|apply Hc; lia|apply Hc; lia|exact Hin0|exact Hin1|
     reflexivity|reflexivity].
Defined.

Lemma runs_are_bounded_witness :
  length (th_trace (two_runs_thread 0)) = 3 ∧
  length (th_trace (two_runs_thread 0)) ≤
    3 + 6 * work (c_reconciler pusher) demo_req (th_trace (two_runs_thread 0)).
Proof.
  split; [reflexivity|].
  assert (Hb := runs_are_bounded two_runs 0 (two_runs_thread 0) two_runs_reachable
    (two_runs_lookup 0 ltac:(lia))).
  rewrite (two_runs_job 0 ltac:(lia)) in Hb. exact Hb.
Defined.

Lemma every_run_ends_witness :
  length (pool_threads two_runs) = 2 ∧
  eventually (turn job_handle interfere)
    (λ c', ∀ i t, pool_threads c' !! i = Some t → ∃ res, th_prog t = Ret res) two_runs.
Proof.
  split; [reflexivity|].
  assert (He := every_run_ends two_runs two_runs_reachable).
  induction He as [c [_ Hc]|c Hex _ IH]; [apply eventually_now|by apply eventually_later].
  intros i t Hi. destruct (Hc i t Hi) as (res & Hres & _). by exists res.
Defined.
End SystemWitnesses.
