(* ===== verification/GKE.v ===== *)
(** * GKE clusters: names, keys, endpoints and the cluster cache
      ([syncer/controllers/remote_cluster.go])

    What [GKEConfigProvider] does up to the connection settings of a cluster: the key of a
    connection, the request to the GKE API, the cache of its answers, and the endpoint and
    CA to use. [Transport.v] builds the connections. *)

From stdpp Require Import base list strings gmap.
From Stdlib Require Import Ascii.
From S2P Require Import Prelude GoStrings GoURL GoBase64 Kube Api Fake.

#[local] Arguments String.append : simpl nomatch.
#[local] Open Scope Z_scope.

(** ** The GKE API's cluster resource *)

(** [gkeCluster], its nested anonymous structs flattened. *)
Record gkeCluster := {
  Endpoint : string;
  MasterAuth_ClusterCACertificate : string;
  PrivateClusterConfig_PrivateEndpoint : string;
  DNSEndpointConfig_Endpoint : string;
  DNSEndpointConfig_AllowExternalTraffic : option bool;
  IPEndpointsConfig_PrivateEndpoint : string;
}.

Record cachedGKECluster := {
  cached_cluster : gkeCluster;
  cached_fetchedAt : Z;
}.

(** An HTTP response: its body, and the error that reading past the body gives (none:
    EOF) and that closing it gives. *)
Record http_response {goerr : Type} := {
  resp_StatusCode : Z;
  resp_Status : string;
  resp_Body : string;
  resp_ReadError : option goerr;
  resp_CloseError : option goerr;
}.
Arguments http_response : clear implicits.

(** An HTTP GET request of the program. *)
Record http_request := {
  hreq_URL : string;
  hreq_UserAgent : string;
  hreq_Timeout : Z;
}.

(** What the provider uses of [net/http], [encoding/json], [net/url], [time], of
    [golang.org/x/oauth2] and of client-go's [transport]. The answers of the network and
    the clock come from [net_world]; [transport.New] and [url.Parse] are functions of
    their arguments. *)
Class GoNet `{ApiErrors} := {
  net_world : Type;
  time_Now : net_world → Z;
  token_source : Type;
  google_DefaultTokenSource : list string → net_world → res goerr token_source * net_world;
  oauth2_ReuseTokenSource : token_source → token_source;
  round_tripper : Type;
  http_DefaultTransport : round_tripper;
  http_NewRequest : http_request → option goerr;
  http_Do : round_tripper → token_source → http_request → net_world →
    res goerr (http_response goerr) * net_world;
  json_Unmarshal_cluster : string → res goerr gkeCluster;
  json_Unmarshal_message : string → res goerr string;
  transport_New : string → res goerr round_tripper;
  url_Parse_Host : string → res goerr string;
}.

Definition Nanosecond : Z := 1.
Definition Second : Z := 1000000000 * Nanosecond.
Definition Minute : Z := 60 * Second.

Definition defaultContainerAPIEndpoint : string := "https://container.googleapis.com".
Definition gkeClusterTTL : Z := 10 * Minute.
Definition gkeAuthScopes : list string := [
  "https://www.googleapis.com/auth/cloud-platform";
  "https://www.googleapis.com/auth/userinfo.email"].
Definition gkeClusterFields : string :=
  "endpoint,masterAuth.clusterCaCertificate,privateClusterConfig.privateEndpoint,controlPlaneEndpointsConfig".
Definition userAgent : string := "kube-etl-krmsyncer".

(** ** Names and keys *)

Section Names.
Context `{ApiErrors}.

Definition ref_of (remote : option RemoteConfig) : option GKECluster :=
  remote ≫= rc_GKECluster.

Definition clusterPath (g : GKECluster) : string :=
  "projects/" +:+ gke_Project g +:+ "/locations/" +:+ gke_Location g +:+
  "/clusters/" +:+ gke_Name g.

Definition gkeClusterName (remote : option RemoteConfig) : res goerr string :=
  match ref_of remote with
  | None => Err (Errorf "spec.remote.gkeCluster must be set" [])
  | Some g =>
      if bool_decide (gke_Project g = "") || bool_decide (gke_Location g = "") ||
         bool_decide (gke_Name g = "")
      then Err (Errorf "spec.remote.gkeCluster requires project, location and name" [])
      else Ok (clusterPath g)
  end.

Definition keyEndpoint (endpoint : GKEEndpoint) : GKEEndpoint :=
  if bool_decide (endpoint = "") then GKEEndpointDefault else endpoint.

(** [GKEConfigProvider.Key]. *)
Definition Key (namespace : string) (remote : option RemoteConfig) : res goerr string :=
  match gkeClusterName remote with
  | Err err => Err err
  | Ok name =>
      match ref_of remote with
      | None => Err (EStd "unreachable: a named remote has a cluster")
      | Some g => Ok ("gke/" +:+ name +:+ "/" +:+ keyEndpoint (gke_Endpoint g))
      end
  end.

(** ** Endpoints *)

(** The fields of [rest.Config] the provider sets. *)
Record endpointConfig := {
  cfg_Host : string;
  cfg_CAData : string;
}.

Definition ipRESTConfig (c : gkeCluster) (host : string) : res goerr endpointConfig :=
  match DecodeString (MasterAuth_ClusterCACertificate c) with
  | None => Err (ErrorfW "decoding cluster CA certificate: %w" [] (EStd "illegal base64 data"))
  | Some caData => Ok {| cfg_Host := "https://" +:+ host; cfg_CAData := caData |}
  end.

Definition restConfig (c : gkeCluster) (endpoint : GKEEndpoint) : res goerr endpointConfig :=
  if bool_decide (endpoint = GKEEndpointDNS) then
    let host := DNSEndpointConfig_Endpoint c in
    if bool_decide (host = "") ||
       bool_decide (DNSEndpointConfig_AllowExternalTraffic c = None) ||
       negb (default false (DNSEndpointConfig_AllowExternalTraffic c))
    then Err (Errorf ("DNS endpoint is not enabled for external traffic on the cluster; enable it with " +:+
      "`gcloud container clusters update --enable-dns-access`, or set spec.remote.gkeCluster.endpoint to Default or PrivateIP") [])
    else Ok {| cfg_Host := "https://" +:+ host; cfg_CAData := "" |}
  else if bool_decide (endpoint = GKEEndpointPrivateIP) then
    let host := IPEndpointsConfig_PrivateEndpoint c in
    let host := if bool_decide (host = "") then PrivateClusterConfig_PrivateEndpoint c else host in
    if bool_decide (host = "")
    then Err (Errorf ("cluster has no private endpoint. IP access may be disabled, " +:+
      "set spec.remote.gkeCluster.endpoint to DNS or Default") [])
    else ipRESTConfig c host
  else if bool_decide (endpoint = GKEEndpointDefault) || bool_decide (endpoint = "") then
    if bool_decide (Endpoint c = "")
    then Err (Errorf ("cluster has no IP endpoint. IP access may be disabled, " +:+
      "set spec.remote.gkeCluster.endpoint to DNS") [])
    else ipRESTConfig c (Endpoint c)
  else Err (Errorf "unsupported endpoint %q" [endpoint]).
End Names.

(** ** The provider *)

Section Provider.
Context `{GoNet}.

(** The provider's settings, which do not change. *)
Record GKEConfigProvider := {
  p_TokenSource : option token_source;
  p_ContainerAPIEndpoint : string;
  p_Transport : option round_tripper;
  p_ttl : Z;
  p_clusterTransport : option (string → res goerr round_tripper);
}.

(** Its mutable fields, and the world. *)
Record gke_state := {
  g_ts : option token_source;
  g_cache : gmap string cachedGKECluster;
  g_world : net_world;
}.

Definition set_world (w : net_world) (s : gke_state) : gke_state :=
  {| g_ts := g_ts s; g_cache := g_cache s; g_world := w |}.
Definition set_ts (ts : token_source) (s : gke_state) : gke_state :=
  {| g_ts := Some ts; g_cache := g_cache s; g_world := g_world s |}.
Definition set_cache (f : gmap string cachedGKECluster → gmap string cachedGKECluster)
    (s : gke_state) : gke_state :=
  {| g_ts := g_ts s; g_cache := f (g_cache s); g_world := g_world s |}.

Definition on_world {A} (op : net_world → A * net_world) : M gke_state A := λ s,
  let r := op (g_world s) in (r.1, set_world r.2 s).

Context (p : GKEConfigProvider).

Definition clusterTTL : Z := if bool_decide (0 < p_ttl p) then p_ttl p else gkeClusterTTL.

Definition newClusterTransport (caData : string) : res goerr round_tripper :=
  match p_clusterTransport p with
  | Some f => f caData
  | None => transport_New caData
  end.

Definition tokenSource : M gke_state (res goerr token_source) :=
  cur ← gets g_ts;
  match cur with
  | Some ts => mret (Ok ts)
  | None =>
      ts ← match p_TokenSource p with
           | Some ts => mret (Ok ts)
           | None => on_world (google_DefaultTokenSource gkeAuthScopes)
           end;
      match ts with
      | Err err =>
          mret (Err (ErrorfW "getting Google application default credentials: %w" [] err))
      | Ok ts =>
          modify (set_ts (oauth2_ReuseTokenSource ts)) ;;
          mret (Ok (oauth2_ReuseTokenSource ts))
      end
  end.

(** [io.ReadAll(io.LimitReader(resp.Body, n))]: the first [n] bytes, and the error of a
    body that ends in one before. *)
Definition ReadAll_limited (n : Z) (resp : http_response goerr) : string * option goerr :=
  if bool_decide (n ≤ Z.of_nat (String.length (resp_Body resp)))
  then (String.substring 0 (Z.to_nat n) (resp_Body resp), None)
  else (resp_Body resp, resp_ReadError resp).

(** [1<<20]. *)
Definition bodyLimit : Z := Z.shiftl 1 20.

Definition maxLen : nat := 256.

Definition googleAPIErrorMessage (body : string) : string :=
  let fallback :=
    let msg := TrimSpace body in
    if bool_decide (maxLen < String.length msg)%nat
    then String.substring 0 maxLen msg +:+ "..." else msg in
  match json_Unmarshal_message body with
  | Ok message => if bool_decide (message = "") then fallback else message
  | Err _ => fallback
  end.

Definition clusterURL (ref : GKECluster) : string :=
  let endpoint := if bool_decide (p_ContainerAPIEndpoint p = "")
    then defaultContainerAPIEndpoint else p_ContainerAPIEndpoint p in
  endpoint +:+ "/v1/projects/" +:+ PathEscape (gke_Project ref) +:+
  "/locations/" +:+ PathEscape (gke_Location ref) +:+
  "/clusters/" +:+ PathEscape (gke_Name ref) +:+ "?" +:+
  Values_Encode1 "fields" gkeClusterFields.

Definition clusterRequest (ref : GKECluster) : http_request :=
  {| hreq_URL := clusterURL ref; hreq_UserAgent := userAgent; hreq_Timeout := 30 * Second |}.

(** What [fetchCluster] makes of a response. *)
Definition readCluster (key : string) (resp : http_response goerr) : res goerr gkeCluster :=
  let read := ReadAll_limited bodyLimit resp in
  let body := read.1 in
  let err := match resp_CloseError resp with
    | Some closeErr => errors_Join [read.2; Some closeErr]
    | None => read.2
    end in
  match err with
  | Some err => Err (ErrorfW "reading GKE cluster %s: %w" [key] err)
  | None =>
      if negb (bool_decide (resp_StatusCode resp = 200))
      then Err (Errorf "getting GKE cluster %s: %s: %s"
        [key; resp_Status resp; googleAPIErrorMessage body])
      else match json_Unmarshal_cluster body with
        | Err err => Err (ErrorfW "decoding GKE cluster %s: %w" [key] err)
        | Ok c => Ok c
        end
  end.

Definition fetchCluster (key : string) (ref : GKECluster) (ts : token_source) :
    M gke_state (res goerr gkeCluster) :=
  let base := default http_DefaultTransport (p_Transport p) in
  let req := clusterRequest ref in
  match http_NewRequest req with
  | Some err => mret (Err err)
  | None =>
      resp ← on_world (http_Do base ts req);
      match resp with
      | Err err => mret (Err (ErrorfW "getting GKE cluster %s: %w" [key] err))
      | Ok resp => mret (readCluster key resp)
      end
  end.

(** [GKEConfigProvider.cluster]. The mutex is held while the cache is read and while it
    is written, not during the fetch. *)
Definition cachedCluster (key : string) (s : gke_state) : option gkeCluster :=
  c ← g_cache s !! key;
  if bool_decide (time_Now (g_world s) - cached_fetchedAt c < clusterTTL)
  then Some (cached_cluster c) else None.

Definition storeCluster (key : string) (c : gkeCluster) (s : gke_state) : gke_state :=
  set_cache <[key := {| cached_cluster := c; cached_fetchedAt := time_Now (g_world s) |}]> s.

Definition cluster (key : string) (ref : GKECluster) (ts : token_source) :
    M gke_state (res goerr gkeCluster) :=
  hit ← gets (cachedCluster key);
  match hit with
  | Some c => mret (Ok c)
  | None =>
      c ← fetchCluster key ref ts;
      match c with
      | Err err => mret (Err err)
      | Ok c => modify (storeCluster key c) ;; mret (Ok c)
      end
  end.
End Provider.

(** ** Lemmas *)

(** The number of times a byte occurs. *)
Fixpoint count_byte (c : ascii) (s : string) : nat :=
  match s with
  | EmptyString => 0
  | String a s' => (if Ascii.eqb a c then 1 else 0) + count_byte c s'
  end.

Lemma count_byte_app c s t : count_byte c (s +:+ t) = (count_byte c s + count_byte c t)%nat.
Proof. induction s as [|a s IH]; [done|]. cbn. rewrite IH. lia. Qed.

Lemma count_byte_0 c s : count_byte c s = 0%nat ↔ has_byte c s = false.
Proof.
  induction s as [|a s IH]; [done|]. cbn [count_byte has_byte].
  destruct (Ascii.eqb a c); simpl; [|done]. split; [lia|done].
Qed.

Definition slash_free (s : string) : Prop := has_byte "/" s = false.

Section NameLemmas.
Context `{ApiErrors}.

Lemma Key_Ok ns remote k :
  Key ns remote = Ok k ↔ ∃ g, ref_of remote = Some g ∧
    gke_Project g ≠ "" ∧ gke_Location g ≠ "" ∧ gke_Name g ≠ "" ∧
    k = "gke/" +:+ clusterPath g +:+ "/" +:+ keyEndpoint (gke_Endpoint g).
Proof.
  unfold Key, gkeClusterName. destruct (ref_of remote) as [g|]; [|naive_solver].
  destruct (bool_decide_reflect (gke_Project g = "")); [naive_solver|].
  destruct (bool_decide_reflect (gke_Location g = "")); [naive_solver|].
  destruct (bool_decide_reflect (gke_Name g = "")); simpl; naive_solver.
Qed.

(** The slashes of a key are those of its template and of its parts. *)
Lemma Key_slashes g e :
  count_byte "/" ("gke/" +:+ clusterPath g +:+ "/" +:+ e) =
    (7 + count_byte "/" (gke_Project g) + count_byte "/" (gke_Location g) +
     count_byte "/" (gke_Name g) + count_byte "/" e)%nat.
Proof.
  unfold clusterPath. rewrite !count_byte_app.
  change (count_byte "/" "gke/") with 1%nat. change (count_byte "/" "projects/") with 1%nat.
  change (count_byte "/" "/locations/") with 2%nat.
  change (count_byte "/" "/clusters/") with 2%nat. change (count_byte "/" "/") with 1%nat. lia.
Qed.

Lemma clusterPath_inj g1 g2 e1 e2 :
  slash_free (gke_Project g1) → slash_free (gke_Location g1) → slash_free (gke_Name g1) →
  slash_free (gke_Project g2) → slash_free (gke_Location g2) → slash_free (gke_Name g2) →
  clusterPath g1 +:+ "/" +:+ e1 = clusterPath g2 +:+ "/" +:+ e2 →
  gke_Project g1 = gke_Project g2 ∧ gke_Location g1 = gke_Location g2 ∧
  gke_Name g1 = gke_Name g2 ∧ e1 = e2.
Proof.
  unfold clusterPath. intros ?????? Hk. rewrite <-!str_app_assoc in Hk.
  apply str_app_inv_head in Hk.
  change ("/locations/" +:+ ?s) with (String "/" ("locations/" +:+ s)) in Hk.
  apply sep_inj in Hk as [-> Hk]; [|done..]. apply str_app_inv_head in Hk.
  change ("/clusters/" +:+ ?s) with (String "/" ("clusters/" +:+ s)) in Hk.
  apply sep_inj in Hk as [-> Hk]; [|done..]. apply str_app_inv_head in Hk.
  change ("/" +:+ ?s) with (String "/" s) in Hk. by apply sep_inj in Hk as [-> ->].
Qed.

(** The same project, location, cluster and endpoint. *)
Definition same_cluster (g1 g2 : GKECluster) : Prop :=
  gke_Project g1 = gke_Project g2 ∧ gke_Location g1 = gke_Location g2 ∧
  gke_Name g1 = gke_Name g2 ∧ keyEndpoint (gke_Endpoint g1) = keyEndpoint (gke_Endpoint g2).

(** The parts of the name of a real cluster have no slash. *)
Definition real_cluster (g : GKECluster) : Prop :=
  slash_free (gke_Project g) ∧ slash_free (gke_Location g) ∧ slash_free (gke_Name g) ∧
  slash_free (gke_Endpoint g).

Lemma Key_inj ns1 ns2 remote1 remote2 g1 g2 k :
  ref_of remote1 = Some g1 → ref_of remote2 = Some g2 → real_cluster g1 →
  Key ns1 remote1 = Ok k → Key ns2 remote2 = Ok k → same_cluster g1 g2.
Proof.
  intros Hr1 Hr2 (Hp & Hl & Hn & He) (g & Hg & _ & _ & _ & Hk1)%Key_Ok (g' & Hg' & _ & _ & _ & Hk2)%Key_Ok.
  assert (g = g1) as -> by congruence. assert (g' = g2) as -> by congruence.
  rewrite Hk1 in Hk2. rename Hk2 into Hk. assert (Hc := f_equal (count_byte "/") Hk).
  assert (He' : slash_free (keyEndpoint (gke_Endpoint g1))).
  { unfold keyEndpoint. by case_bool_decide. }
  rewrite !Key_slashes in Hc. apply count_byte_0 in Hp as Hp', Hl as Hl', Hn as Hn', He' as He''.
  apply str_app_inv_head in Hk.
  apply clusterPath_inj; [done|done|done|apply count_byte_0; lia..|done].
Qed.

Lemma Key_same ns1 ns2 remote1 remote2 g1 g2 k :
  ref_of remote1 = Some g1 → ref_of remote2 = Some g2 → same_cluster g1 g2 →
  Key ns1 remote1 = Ok k → Key ns2 remote2 = Ok k.
Proof.
  intros Hr1 Hr2 (Hp & Hl & Hn & He) (g & Hg & ? & ? & ? & ->)%Key_Ok. simplify_eq.
  apply Key_Ok. exists g2. rewrite <-Hp, <-Hl, <-Hn, <-He. split_and!; try done.
  unfold clusterPath. by rewrite Hp, Hl, Hn.
Qed.

(** ** Properties of names and endpoints *)

(** A key identifies a connection: a KRMSyncer whose remote is a real cluster name
    (its parts have no slash, as Google Cloud names do not) shares its key, and with it
    the cached cluster, client and watches, only with KRMSyncers of the same project,
    location, cluster and endpoint, where no endpoint means "Default"; the parts of the
    other name are arbitrary, so no name can be crafted to take over its connection. *)
Theorem Key_identifies_connection ns1 ns2 remote1 remote2 g1 g2 k :
  ref_of remote1 = Some g1 → ref_of remote2 = Some g2 →
  real_cluster g1 → Key ns1 remote1 = Ok k → Key ns2 remote2 = Ok k → same_cluster g1 g2.
Proof. apply Key_inj. Qed.

(** The host a cluster offers at an endpoint. *)
Definition expected_host (c : gkeCluster) (e : GKEEndpoint) : option string :=
  let given s := if decide (s = "") then None else Some s in
  if decide (e = "DNS") then
    if decide (DNSEndpointConfig_AllowExternalTraffic c = Some true)
    then given (DNSEndpointConfig_Endpoint c) else None
  else if decide (e = "PrivateIP") then
    match given (IPEndpointsConfig_PrivateEndpoint c) with
    | Some h => Some h
    | None => given (PrivateClusterConfig_PrivateEndpoint c)
    end
  else if decide (e = "Default" ∨ e = "") then given (Endpoint c)
  else None.

(** The settings for an endpoint: [restConfig] succeeds exactly if the cluster offers
    the endpoint and, but for the DNS endpoint, its CA certificate decodes. The host is
    the offered one, over https; the trusted CA is the cluster's for IP endpoints and the
    system's (no CA data) for the DNS endpoint. A certificate encoded by the API decodes
    to itself. *)
Theorem restConfig_selects_endpoint c e :
  (match expected_host c e with
   | None => is_ok (restConfig c e) = false
   | Some host =>
       if decide (e = "DNS")
       then restConfig c e = Ok {| cfg_Host := "https://" +:+ host; cfg_CAData := "" |}
       else match DecodeString (MasterAuth_ClusterCACertificate c) with
         | Some ca => restConfig c e = Ok {| cfg_Host := "https://" +:+ host; cfg_CAData := ca |}
         | None => is_ok (restConfig c e) = false
         end
   end) ∧
  ∀ ca, MasterAuth_ClusterCACertificate c = EncodeToString ca →
    DecodeString (MasterAuth_ClusterCACertificate c) = Some ca.
Proof.
  split; [|intros ca ->; apply DecodeString_EncodeToString].
  unfold expected_host, restConfig, ipRESTConfig, GKEEndpointDNS, GKEEndpointPrivateIP,
    GKEEndpointDefault.
  destruct (decide (e = "DNS")) as [->|Hdns].
  { rewrite bool_decide_eq_true_2 by done.
    destruct (DNSEndpointConfig_AllowExternalTraffic c) as [[|]|]; simpl;
      destruct (decide (DNSEndpointConfig_Endpoint c = "")) as [Hh|Hh];
      (rewrite bool_decide_eq_true_2 by done) || (rewrite bool_decide_eq_false_2 by done); done. }
  rewrite (bool_decide_eq_false_2 (e = "DNS")) by done.
  destruct (decide (e = "PrivateIP")) as [->|Hpriv].
  { rewrite (bool_decide_eq_true_2 ("PrivateIP" = _)) by done.
    destruct (decide (IPEndpointsConfig_PrivateEndpoint c = "")) as [H1|H1].
    - rewrite (bool_decide_eq_true_2 (IPEndpointsConfig_PrivateEndpoint c = "")) by done.
      case_bool_decide; case_decide; try done. by destruct (DecodeString _).
    - rewrite (bool_decide_eq_false_2 (IPEndpointsConfig_PrivateEndpoint c = "")) by done.
      rewrite bool_decide_eq_false_2 by done. by destruct (DecodeString _). }
  rewrite (bool_decide_eq_false_2 (e = "PrivateIP")) by done.
  destruct (decide (e = "Default" ∨ e = "")) as [[-> | ->]|Hd]; simpl.
  - case_bool_decide; case_decide; try done. by destruct (DecodeString _).
  - case_bool_decide; case_decide; try done. by destruct (DecodeString _).
  - rewrite !bool_decide_eq_false_2 by naive_solver. done.
Qed.
End NameLemmas.

Section ProviderLemmas.
Context `{GoNet}.
Implicit Types p : GKEConfigProvider.

Lemma fetchCluster_keeps p key ref ts s :
  g_cache (fetchCluster p key ref ts s).2 = g_cache s ∧
  g_ts (fetchCluster p key ref ts s).2 = g_ts s.
Proof.
  unfold fetchCluster. destruct (http_NewRequest _); [done|].
  unfold on_world, mbind, M_bind. cbn [fst snd]. by destruct (http_Do _ _ _ _).1.
Qed.

(** The two cases of [cluster]. *)
Lemma cluster_cases p key ref ts s :
  match cachedCluster p key s with
  | Some c => cluster p key ref ts s = (Ok c, s)
  | None =>
      let f := fetchCluster p key ref ts s in
      cluster p key ref ts s =
        (f.1, match f.1 with Ok c => storeCluster key c f.2 | Err _ => f.2 end)
  end.
Proof.
  unfold cluster, gets, mbind, M_bind. cbn [fst snd].
  destruct (cachedCluster p key s) as [c|]; [done|].
  by destruct (fetchCluster p key ref ts s) as [[c|e] s'].
Qed.

(** The uses of a provider, with the answers of the GKE API it received and when: calls
    of [cluster], and anything else, which leaves the cache alone. *)
Inductive history p : gke_state → list (string * gkeCluster * Z) → Prop :=
| history_start s : g_cache s = ∅ → history p s []
| history_other s s' h : history p s h → g_cache s' = g_cache s → history p s' h
| history_hit key ref ts s h c :
    history p s h → cachedCluster p key s = Some c →
    history p (cluster p key ref ts s).2 h
| history_fetched key ref ts s h c :
    history p s h → cachedCluster p key s = None → (fetchCluster p key ref ts s).1 = Ok c →
    history p (cluster p key ref ts s).2
      ((key, c, time_Now (g_world (cluster p key ref ts s).2)) :: h)
| history_failed key ref ts s h e :
    history p s h → cachedCluster p key s = None → (fetchCluster p key ref ts s).1 = Err e →
    history p (cluster p key ref ts s).2 h.

(** The cache holds answers, with the time they were received. *)
Lemma history_cache p s h :
  history p s h → ∀ key c, g_cache s !! key = Some c →
  (key, cached_cluster c, cached_fetchedAt c) ∈ h.
Proof.
  induction 1 as [s Hs|s s' h _ IH Hs|key ref ts s h c _ IH Hc|key ref ts s h c _ IH Hc Hf|
    key ref ts s h e _ IH Hc Hf]; intros key' c' Hc'.
  - by rewrite Hs, lookup_empty in Hc'.
  - apply IH. by rewrite <-Hs.
  - assert (Hcase := cluster_cases p key ref ts s). rewrite Hc in Hcase.
    rewrite Hcase in Hc'. by apply IH.
  - assert (Hcase := cluster_cases p key ref ts s). rewrite Hc in Hcase. simpl in Hcase.
    rewrite Hf in Hcase. rewrite Hcase in Hc' |- *. simpl in Hc' |- *.
    destruct (fetchCluster_keeps p key ref ts s) as [Hk _]. rewrite Hk in Hc'.
    destruct (decide (key = key')) as [<-|Hne].
    + rewrite lookup_insert_eq in Hc'. injection Hc' as <-. by left.
    + rewrite lookup_insert_ne in Hc' by done. right. by apply IH.
  - assert (Hcase := cluster_cases p key ref ts s). rewrite Hc in Hcase. simpl in Hcase.
    rewrite Hf in Hcase. rewrite Hcase in Hc'. simpl in Hc'.
    destruct (fetchCluster_keeps p key ref ts s) as [Hk _]. rewrite Hk in Hc'. by apply IH.
Qed.

(** ** Properties of the provider *)

(** Whatever happened before, [cluster] answers with what the GKE API said about that
    very cluster no longer ago than the TTL (10 minutes unless overridden): either in an
    answer received within it, or in a fresh one. *)
Theorem cluster_is_fresh p s h key ref ts c s' :
  history p s h → cluster p key ref ts s = (Ok c, s') →
  ((∃ t, (key, c, t) ∈ h ∧ time_Now (g_world s') - t < clusterTTL p) ∧ s' = s) ∨
  ((fetchCluster p key ref ts s).1 = Ok c ∧
    history p s' ((key, c, time_Now (g_world s')) :: h)).
Proof.
  intros Hh Hcl. assert (Hcase := cluster_cases p key ref ts s).
  destruct (cachedCluster p key s) as [c0|] eqn:Hc.
  - left. rewrite Hcl in Hcase. injection Hcase as <- ->. split; [|done].
    unfold cachedCluster in Hc. destruct (g_cache s !! key) as [e|] eqn:He; [|done].
    simpl in Hc. case_bool_decide as Ht; [|done]. injection Hc as <-.
    exists (cached_fetchedAt e). split; [by eapply history_cache|done].
  - right. simpl in Hcase. rewrite Hcl in Hcase. injection Hcase as Hf Hs'.
    split; [done|]. replace s' with (cluster p key ref ts s).2 by by rewrite Hcl.
    by apply history_fetched.
Qed.

(** The cache saves calls and never lies about errors: within the TTL [cluster]
    returns the cached cluster and touches nothing, the network included; otherwise it
    returns what one fetch returns, and only a successful fetch changes the cache, at
    that cluster's name only. *)
Theorem cluster_fetches_when_expired p key ref ts s :
  (∀ c, g_cache s !! key = Some c →
    time_Now (g_world s) - cached_fetchedAt c < clusterTTL p →
    cluster p key ref ts s = (Ok (cached_cluster c), s)) ∧
  ((∀ c, g_cache s !! key = Some c →
      clusterTTL p ≤ time_Now (g_world s) - cached_fetchedAt c) →
    let r := cluster p key ref ts s in
    r.1 = (fetchCluster p key ref ts s).1 ∧
    match r.1 with
    | Err _ => g_cache r.2 = g_cache s
    | Ok c => g_cache r.2 !! key =
          Some {| cached_cluster := c; cached_fetchedAt := time_Now (g_world r.2) |} ∧
        delete key (g_cache r.2) = delete key (g_cache s)
    end).
Proof.
  assert (Hcase := cluster_cases p key ref ts s).
  split.
  - intros c Hc Ht. unfold cachedCluster in Hcase. rewrite Hc in Hcase. simpl in Hcase.
    by rewrite bool_decide_eq_true_2 in Hcase.
  - intros Hexp r. subst r.
    assert (Hc : cachedCluster p key s = None).
    { unfold cachedCluster. destruct (g_cache s !! key) as [c|]; [|done]. simpl.
      rewrite bool_decide_eq_false_2; [done|]. specialize (Hexp c eq_refl). lia. }
    rewrite Hc in Hcase. simpl in Hcase.
    destruct (fetchCluster_keeps p key ref ts s) as [Hk _]. rewrite Hcase. cbn [fst snd].
    split; [done|]. destruct (fetchCluster p key ref ts s) as [[c|e] s']; [|done].
    simpl in Hk |- *. rewrite Hk.
    by rewrite lookup_insert_eq, delete_insert_eq.
Qed.

(** [C31] The request names the cluster: the path of the request has exactly the segments
    of the resource, of which each user-given one decodes to the given value, and no
    query or fragment can begin in it; so two clusters with equal requests are equal,
    whatever characters their names contain. *)
Theorem clusterURL_names_cluster p ref :
  ∃ path : string,
    clusterURL p ref =
      (if decide (p_ContainerAPIEndpoint p = "") then defaultContainerAPIEndpoint
       else p_ContainerAPIEndpoint p) +:+ path +:+ "?" +:+
      Values_Encode1 "fields" gkeClusterFields ∧
    Split "/" path = [""; "v1"; "projects"; PathEscape (gke_Project ref); "locations";
      PathEscape (gke_Location ref); "clusters"; PathEscape (gke_Name ref)] ∧
    has_byte "?" path = false ∧ has_byte "#" path = false ∧
    PathUnescape (PathEscape (gke_Project ref)) = Some (gke_Project ref) ∧
    PathUnescape (PathEscape (gke_Location ref)) = Some (gke_Location ref) ∧
    PathUnescape (PathEscape (gke_Name ref)) = Some (gke_Name ref) ∧
    ∀ ref', clusterURL p ref' = clusterURL p ref →
      gke_Project ref' = gke_Project ref ∧ gke_Location ref' = gke_Location ref ∧
      gke_Name ref' = gke_Name ref.
Proof.
  set (path g := "/v1/projects/" +:+ PathEscape (gke_Project g) +:+ "/locations/" +:+
    PathEscape (gke_Location g) +:+ "/clusters/" +:+ PathEscape (gke_Name g)).
  assert (Hurl : ∀ g, clusterURL p g =
    (if decide (p_ContainerAPIEndpoint p = "") then defaultContainerAPIEndpoint
     else p_ContainerAPIEndpoint p) +:+ path g +:+ "?" +:+
    Values_Encode1 "fields" gkeClusterFields).
  { intros g. unfold clusterURL, path. rewrite <-!str_app_assoc.
    by case_bool_decide; case_decide. }
  assert (Hfree : ∀ d s, d ∈ ["/"; "?"; "#"]%char → has_byte d (PathEscape s) = false).
  { intros d s Hd. apply PathEscape_free. set_solver. }
  assert (Hsplit : ∀ g, Split "/" (path g) = [""; "v1"; "projects"; PathEscape (gke_Project g);
    "locations"; PathEscape (gke_Location g); "clusters"; PathEscape (gke_Name g)]).
  { intros g. unfold path.
    change ("/v1/projects/" +:+ ?s) with
      (("" +:+ String "/" ("v1" +:+ String "/" ("projects" +:+ String "/" s)))).
    rewrite !Split_cons by done. change ("/locations/" +:+ ?s) with
      (String "/" ("locations" +:+ String "/" s)).
    rewrite !Split_cons by (done || apply Hfree; set_solver).
    change ("/clusters/" +:+ ?s) with (String "/" ("clusters" +:+ String "/" s)).
    rewrite !Split_cons by (done || apply Hfree; set_solver).
    by rewrite Split_free by (apply Hfree; set_solver). }
  exists (path ref). split_and!; [by apply Hurl|by apply Hsplit| | | | | |].
  - unfold path. rewrite !has_byte_app, !Hfree by set_solver. done.
  - unfold path. rewrite !has_byte_app, !Hfree by set_solver. done.
  - apply PathUnescape_PathEscape.
  - apply PathUnescape_PathEscape.
  - apply PathUnescape_PathEscape.
  - intros ref' Heq. rewrite !Hurl in Heq. apply str_app_inv_head, str_app_inv_tail in Heq.
    apply (f_equal (Split "/")) in Heq. rewrite !Hsplit in Heq. injection Heq as H1 H2 H3.
    by apply (inj PathEscape) in H1, H2, H3.
Qed.

(** [C32] The error message shown for a failed request is the API's own message if there
    is one, and otherwise at most 256 bytes of the body, marked as cut with "..." if more
    was there. *)
Theorem googleAPIErrorMessage_bounded body :
  (∃ m, json_Unmarshal_message body = Ok m ∧ m ≠ "" ∧ googleAPIErrorMessage body = m) ∨
  (googleAPIErrorMessage body = TrimSpace body ∧ (String.length (TrimSpace body) ≤ 256)%nat) ∨
  (∃ m rest, googleAPIErrorMessage body = m +:+ "..." ∧ TrimSpace body = m +:+ rest ∧
    rest ≠ "" ∧ String.length m = 256%nat).
Proof.
  assert (Hfallback : let msg := TrimSpace body in
    let r := if bool_decide (maxLen < String.length msg)%nat
      then String.substring 0 maxLen msg +:+ "..." else msg in
    r = msg ∧ (String.length msg ≤ 256)%nat ∨
    ∃ m rest, r = m +:+ "..." ∧ msg = m +:+ rest ∧ rest ≠ "" ∧ String.length m = 256%nat).
  { intros msg. unfold maxLen. case_bool_decide as Hlen; [right|left; split; [done|lia]].
    destruct (substring_take 256 msg) as (rest & Hr & Hl); [lia|].
    exists (String.substring 0 256 msg), rest. split_and!; [done|done| |done].
    intros ->. rewrite str_app_nil_r in Hr. rewrite Hr in Hlen. lia. }
  unfold googleAPIErrorMessage.
  destruct (json_Unmarshal_message body) as [m|e]; [|by right].
  case_bool_decide as Hm; [by right|left]. by exists m.
Qed.

(** [C33] A cluster is accepted only from a whole, successful answer: [fetchCluster]
    returns a cluster only if the request could be made, its answer was read and closed
    without an error (up to 1 MiB of it), its status is 200 and its body decodes to that
    cluster. *)
Theorem fetchCluster_accepts p key ref ts s c :
  (fetchCluster p key ref ts s).1 = Ok c →
  http_NewRequest (clusterRequest p ref) = None ∧
  ∃ resp, (http_Do (default http_DefaultTransport (p_Transport p)) ts (clusterRequest p ref)
      (g_world s)).1 = Ok resp ∧
    resp_StatusCode resp = 200 ∧ resp_CloseError resp = None ∧
    ∃ body, ReadAll_limited bodyLimit resp = (body, None) ∧ json_Unmarshal_cluster body = Ok c.
Proof.
  unfold fetchCluster. destruct (http_NewRequest _) eqn:Hreq; [done|].
  unfold on_world, mbind, M_bind. cbn [fst snd].
  destruct (http_Do _ _ _ _).1 as [resp|e]; [|done]. cbn [fst mret M_ret].
  unfold readCluster. destruct (ReadAll_limited bodyLimit resp) as [body [e|]] eqn:Hread; cbn [fst snd];
    (destruct (resp_CloseError resp) as [e'|] eqn:Hclose; [by unfold errors_Join|]); [done|].
  case_bool_decide as Hst; [|done]. cbn [negb].
  destruct (json_Unmarshal_cluster body) as [c'|e] eqn:Hjson; [|done].
  intros [= ->]. split; [done|]. exists resp. split_and!; [done..|]. by exists body.
Qed.

(** The token source is created once: the first call that succeeds fixes it for all
    later calls, which touch nothing; a failure is returned and not remembered. *)
Theorem tokenSource_once p s :
  let r := tokenSource p s in
  match r.1 with
  | Ok ts => g_ts r.2 = Some ts ∧ tokenSource p r.2 = (Ok ts, r.2) ∧
      (g_ts s = None → ∃ base, ts = oauth2_ReuseTokenSource base ∧
        match p_TokenSource p with
        | Some b => base = b
        | None => (google_DefaultTokenSource gkeAuthScopes (g_world s)).1 = Ok base
        end)
  | Err _ => g_ts s = None ∧ g_ts r.2 = None
  end.
Proof.
  unfold tokenSource, gets, modify, on_world, mbind, M_bind, mret, M_ret. cbn [fst snd].
  destruct (g_ts s) as [ts|] eqn:Hts; cbn [fst snd]; [by rewrite Hts|].
  destruct (p_TokenSource p) as [b|]; cbn [fst snd].
  - split_and!; [done|done|eauto].
  - destruct (google_DefaultTokenSource _ _) as [[b|e] w]; cbn; [|done].
    split_and!; [done|done|eauto].
Qed.
End ProviderLemmas.

(** ** A network for concrete runs *)

#[local] Existing Instance FakeErrors.

(** The GKE API answers every request with the same response. A cluster's document is its
    endpoint; its CA is "ca". *)
Record fake_net := {
  fn_now : Z;
  fn_answer : http_response goerr;
}.

#[local] Instance FakeNet : GoNet := {|
  net_world := fake_net;
  time_Now := fn_now;
  token_source := string;
  google_DefaultTokenSource _ w := (Ok "adc", w);
  oauth2_ReuseTokenSource ts := "reuse " +:+ ts;
  round_tripper := string;
  http_DefaultTransport := "default";
  http_NewRequest _ := None;
  http_Do _ _ _ w := (Ok (fn_answer w), w);
  json_Unmarshal_cluster body :=
    if decide (body = "") then Err (EStd "unexpected end of JSON input")
    else Ok {| Endpoint := body; MasterAuth_ClusterCACertificate := EncodeToString "ca";
               PrivateClusterConfig_PrivateEndpoint := ""; DNSEndpointConfig_Endpoint := "";
               DNSEndpointConfig_AllowExternalTraffic := None;
               IPEndpointsConfig_PrivateEndpoint := "" |};
  json_Unmarshal_message _ := Err (EStd "invalid character");
  transport_New ca := Ok ("tls " +:+ ca);
  url_Parse_Host s :=
    if String.prefix "https://" s then Ok (String.substring 8 (String.length s - 8) s)
    else Err (EStd "missing protocol scheme");
|}.

(** ** Witnesses *)

Definition demo_cluster_ref (project location name : string) : GKECluster :=
  {| gke_Project := project; gke_Location := location; gke_Name := name; gke_Endpoint := "" |}.

Definition demo_gke_remote (g : GKECluster) : option RemoteConfig :=
  Some {| rc_GKECluster := Some g |}.

Lemma Key_identifies_connection_witness :
  Key "ns1" (demo_gke_remote (demo_cluster_ref "p" "l" "c")) =
    Ok "gke/projects/p/locations/l/clusters/c/Default" ∧
  gke_Project (demo_cluster_ref "p" "l" "c") = "p".
Proof.
  split; [reflexivity|].
  exact (proj1 (Key_identifies_connection "ns1" "ns2"
    (demo_gke_remote (demo_cluster_ref "p" "l" "c"))
    (demo_gke_remote (demo_cluster_ref "p" "l" "c")) _ (demo_cluster_ref "p" "l" "c") _
    eq_refl eq_refl (conj eq_refl (conj eq_refl (conj eq_refl eq_refl))) eq_refl eq_refl)).
Defined.

(** The caveat of [Key_identifies_connection] is needed: names with slashes, which the
    custom resource admits, can share a key. *)
Example keys_of_unreal_names_collide :
  Key "" (demo_gke_remote (demo_cluster_ref "a/locations/b" "c" "n")) =
  Key "" (demo_gke_remote (demo_cluster_ref "a" "b/locations/c" "n")).
Proof. reflexivity. Qed.

(** [PathEscape] keeps dots: a name of two dots is a dot segment of the request's path. *)
Example dot_segments_are_not_escaped : PathEscape ".." = "..".
Proof. reflexivity. Qed.

Definition demo_answer (body : string) : http_response goerr :=
  {| resp_StatusCode := 200; resp_Status := "200 OK"; resp_Body := body;
     resp_ReadError := None; resp_CloseError := None |}.

Definition demo_provider : GKEConfigProvider :=
  {| p_TokenSource := None; p_ContainerAPIEndpoint := ""; p_Transport := None; p_ttl := 0;
     p_clusterTransport := None |}.

Definition demo_gke_state (now : Z) (body : string) : gke_state :=
  {| g_ts := None; g_cache := ∅; g_world := {| fn_now := now; fn_answer := demo_answer body |} |}.

Definition demo_first : res goerr gkeCluster * gke_state :=
  cluster demo_provider "n" (demo_cluster_ref "p" "l" "c") "ts" (demo_gke_state 5 "1.1.1.1").

(** The cluster is fetched and then served from the cache. *)
Lemma cluster_is_fresh_witness :
  ∃ c, cluster demo_provider "n" (demo_cluster_ref "p" "l" "c") "ts" demo_first.2 =
      (Ok c, demo_first.2) ∧
    ∃ h, history demo_provider demo_first.2 h ∧
      ((∃ t, ("n", c, t) ∈ h ∧ time_Now (g_world demo_first.2) - t < clusterTTL demo_provider)
         ∧ demo_first.2 = demo_first.2 ∨
       (fetchCluster demo_provider "n" (demo_cluster_ref "p" "l" "c") "ts" demo_first.2).1 = Ok c ∧
         history demo_provider demo_first.2 (("n", c, time_Now (g_world demo_first.2)) :: h)).
Proof.
  eexists. split; [reflexivity|]. eexists.
  assert (Hh : history demo_provider demo_first.2
    [("n", match demo_first.1 with Ok c => c | Err _ => Build_gkeCluster "" "" "" "" None "" end, 5)]).
  { apply (history_fetched demo_provider "n" (demo_cluster_ref "p" "l" "c") "ts"
      (demo_gke_state 5 "1.1.1.1") []); [by constructor|reflexivity|reflexivity]. }
  split; [exact Hh|].
  apply (cluster_is_fresh demo_provider demo_first.2 _ "n" (demo_cluster_ref "p" "l" "c") "ts"
    _ _ Hh). reflexivity.
Defined.

Lemma fetchCluster_accepts_witness :
  ∃ resp : http_response goerr, resp_StatusCode resp = 200.
Proof.
  destruct (fetchCluster_accepts demo_provider "n" (demo_cluster_ref "p" "l" "c") "ts"
    (demo_gke_state 5 "1.1.1.1") _ eq_refl) as (_ & resp & _ & Hst & _).
  by exists resp.
Defined.
