(* ===== verification/Lookups.v ===== *)
(** * Concurrent lookups of clusters

    [GKEConfigProvider.cluster] holds the mutex while it reads the cache and while it writes
    it, but not during the fetch. Here a lookup is the program of these three operations, and
    any number of lookups interleave. Run alone, the program is [GKE.cluster]. *)

From stdpp Require Import base list strings gmap relations.
From S2P Require Import Prelude Threads GoStrings Kube Api Fake GKE.
Local Open Scope Z_scope.

Section Lookups.
Context `{GoNet}.
Context (p : GKEConfigProvider).

(** The operations, with what they read of the clock: the cached entry, if it is young
    enough; the fetch; the store, which answers its time. *)
Inductive lookup_op : Type → Type :=
| OpCached (key : string) : lookup_op (Z * option cachedGKECluster)
| OpFetch (key : string) (ref : GKECluster) (ts : token_source) : lookup_op (res goerr gkeCluster)
| OpStore (key : string) (c : gkeCluster) : lookup_op Z.

Definition cachedEntry (key : string) (s : gke_state) : Z * option cachedGKECluster :=
  let now := time_Now (g_world s) in
  (now, e ← g_cache s !! key;
    if bool_decide (now - cached_fetchedAt e < clusterTTL p) then Some e else None).

Definition do_lookup (X : Type) (o : lookup_op X) : M gke_state X :=
  match o in lookup_op X return M gke_state X with
  | OpCached key => gets (cachedEntry key)
  | OpFetch key ref ts => fetchCluster p key ref ts
  | OpStore key c => λ s, (time_Now (g_world s), storeCluster key c s)
  end.

Definition lookup_cluster (key : string) (ref : GKECluster) (ts : token_source) :
    prog lookup_op (res goerr gkeCluster) :=
  hit ← perform (OpCached key);
  match hit.2 with
  | Some e => mret (Ok (cached_cluster e))
  | None =>
      c ← perform (OpFetch key ref ts);
      match c with
      | Err err => mret (Err err)
      | Ok c => perform (OpStore key c) ;; mret (Ok c)
      end
  end.

(** Without others, a lookup is [cluster]. *)
Lemma lookup_alone key ref ts s :
  run do_lookup (lookup_cluster key ref ts) s = cluster p key ref ts s.
Proof.
  unfold run, cluster, cachedCluster. simpl. unfold gets, mbind, M_bind, option_bind. cbn [fst snd].
  destruct (g_cache s !! key) as [e|]; simpl; [case_bool_decide; simpl; [done|]|];
    by destruct (fetchCluster p key ref ts s) as [[c|err] s'].
Qed.

(** ** The pool of lookups *)

Record lookup := { lk_key : string; lk_ref : GKECluster; lk_ts : token_source }.

Definition lookup_program (l : lookup) : prog lookup_op (res goerr gkeCluster) :=
  lookup_cluster (lk_key l) (lk_ref l) (lk_ts l).

(** Everything else leaves the cache alone. *)
Definition elsewhere (s s' : gke_state) : Prop := g_cache s' = g_cache s.

Abbreviation lookups := (@pool lookup_op lookup gke_state (res goerr gkeCluster)).
Abbreviation lookups_step := (pool_step lookup_program (λ _, do_lookup) elsewhere).

Definition lookups_start (s : gke_state) : lookups :=
  {| pool_shared := s; pool_threads := [] |}.

Definition lookups_reachable (c : lookups) : Prop :=
  ∃ s, g_cache s = ∅ ∧ rtc lookups_step (lookups_start s) c.

(** What a lookup did: the answers of the API it received, what it stored and when, and what
    it found in the cache and when. *)
Definition fetched_of (e : Threads.event lookup_op) : option (string * gkeCluster) :=
  let 'Ev o x := e in
  match o in lookup_op X return X → option (string * gkeCluster) with
  | OpFetch key _ _ => λ r, match r with Ok c => Some (key, c) | Err _ => None end
  | _ => λ _, None
  end x.

Definition stored_of (e : Threads.event lookup_op) : option (string * cachedGKECluster) :=
  let 'Ev o x := e in
  match o in lookup_op X return X → option (string * cachedGKECluster) with
  | OpStore key c => λ now, Some (key, {| cached_cluster := c; cached_fetchedAt := now |})
  | _ => λ _, None
  end x.

Definition hit_of (e : Threads.event lookup_op) : option (string * Z * cachedGKECluster) :=
  let 'Ev o x := e in
  match o in lookup_op X return X → option (string * Z * cachedGKECluster) with
  | OpCached key => λ r, match r.2 with Some e => Some (key, r.1, e) | None => None end
  | _ => λ _, None
  end x.

Definition fetched (tr : trace lookup_op) : list (string * gkeCluster) := omap fetched_of tr.
Definition stores (tr : trace lookup_op) : list (string * cachedGKECluster) := omap stored_of tr.
Definition hits (tr : trace lookup_op) : list (string * Z * cachedGKECluster) := omap hit_of tr.

(** *** A lookup and its operations *)

(** A lookup stores only what it fetched. *)
Definition justified (tr : trace lookup_op) (X : Type) (o : lookup_op X) : Prop :=
  match o with OpStore key c => (key, c) ∈ fetched tr | _ => True end.

Lemma lookup_justified tr key ref ts : guarded justified tr (lookup_cluster key ref ts).
Proof.
  split; [done|]. intros [now [e|]]; [done|]. split; [done|]. intros [c|e]; [|done].
  split; [|done]. unfold justified, fetched. rewrite omap_app. apply elem_of_app. right. by left.
Qed.

(** Where the answer of a finished lookup comes from. *)
Lemma lookup_answer key ref ts tr cl :
  trace_of (lookup_cluster key ref ts) tr (Ok cl) →
  (key, cl) ∈ fetched tr ∨ ∃ now e, (key, now, e) ∈ hits tr ∧ cached_cluster e = cl.
Proof.
  intros ([now hit] & tr' & -> & Htr). destruct hit as [e|]; simpl in Htr.
  - destruct Htr as [-> [= ->]]. right. exists now, e. split; [by left|done].
  - destruct Htr as (r & tr'' & -> & Htr). left. destruct r as [c|e]; [|by destruct Htr].
    destruct Htr as (t & tr3 & -> & -> & [= ->]). by left.
Qed.

(** *** What is in the cache

    [trs] are the lookups' traces, whoever runs them. *)

(** Some lookup was answered with the entry's cluster by the API, and stored it at that
    time. *)
Definition provided (trs : list (trace lookup_op)) (key : string) (e : cachedGKECluster) : Prop :=
  ∃ tr, tr ∈ trs ∧ (key, cached_cluster e) ∈ fetched tr ∧ (key, e) ∈ stores tr.

Definition cache_ok (s : gke_state) (trs : list (trace lookup_op)) : Prop :=
  (∀ key e, g_cache s !! key = Some e → provided trs key e) ∧
  ∀ tr key now e, tr ∈ trs → (key, now, e) ∈ hits tr →
    now - cached_fetchedAt e < clusterTTL p ∧ provided trs key e.

Lemma provided_mono trs trs' key e : extends trs trs' → provided trs key e → provided trs' key e.
Proof.
  intros Hext (tr & Htr & Hf & Hs). destruct (Hext tr Htr) as [tr' Htr']. exists (tr ++ tr').
  unfold fetched, stores in *. rewrite !omap_app, !elem_of_app. auto.
Qed.

Lemma cache_ok_start s : g_cache s = ∅ → cache_ok s [].
Proof. intros Hs. split; [intros key e; by rewrite Hs|by intros tr key now e ?%elem_of_nil]. Qed.

Lemma cache_ok_else s s' trs : g_cache s' = g_cache s → cache_ok s trs → cache_ok s' trs.
Proof. intros Hs [Hc Hh]. split; [by rewrite Hs|done]. Qed.

Lemma cache_ok_new s trs : cache_ok s trs → cache_ok s (trs ++ [[]]).
Proof.
  assert (Hmono := λ key e, provided_mono _ _ key e (extends_new trs)).
  intros [Hc Hh]. split; [by intros key e He; apply Hmono, Hc|].
  intros tr key now e [Htr| ->%list_elem_of_singleton]%elem_of_app Hin; [|by apply elem_of_nil in Hin].
  destruct (Hh tr key now e Htr Hin). auto.
Qed.

(** The effect of one operation on the cache, and what it finds there. *)
Lemma do_lookup_cache X (o : lookup_op X) s key e :
  let r := do_lookup X o s in
  (g_cache r.2 !! key = Some e → g_cache s !! key = Some e ∨ stored_of (Ev o r.1) = Some (key, e)) ∧
  ∀ now, hit_of (Ev o r.1) = Some (key, now, e) →
    now - cached_fetchedAt e < clusterTTL p ∧ g_cache s !! key = Some e.
Proof.
  destruct o as [key'|key' ref ts|key' c].
  - split; [by left|]. intros now Hhit. simpl in Hhit. unfold gets, cachedEntry in Hhit. simpl in Hhit.
    destruct (g_cache s !! key') as [e'|] eqn:He; [|done]. simpl in Hhit.
    case_bool_decide as Httl; [|done]. by injection Hhit as <- <- <-.
  - cbn [do_lookup]. split; [|done].
    rewrite (proj1 (fetchCluster_keeps p key' ref ts s)). by left.
  - split; [|done]. simpl. intros [[<- <-]|[_ He]]%lookup_insert_Some; [by right|by left].
Qed.

Lemma justified_store tr X (o : lookup_op X) x key e :
  justified tr X o → stored_of (Ev o x) = Some (key, e) →
  (key, cached_cluster e) ∈ fetched (tr ++ [Ev o x]).
Proof.
  intros Hj Hs. unfold fetched. rewrite omap_app. apply elem_of_app. left.
  destruct o as [| |key' c]; [done|done|]. by injection Hs as <- <-.
Qed.

Lemma cache_ok_op s trs i tr X (o : lookup_op X) :
  cache_ok s trs → trs !! i = Some tr → justified tr X o →
  let r := do_lookup X o s in cache_ok r.2 (<[i := tr ++ [Ev o r.1]]> trs).
Proof.
  intros [Hc Hh] Hi Hj r. set (trs' := <[i := tr ++ [Ev o r.1]]> trs).
  assert (Hnew : tr ++ [Ev o r.1] ∈ trs')
    by (eapply list_elem_of_lookup_2, list_lookup_insert_eq, lookup_lt_Some, Hi).
  assert (Hmono := λ key e, provided_mono trs trs' key e (extends_insert _ _ _ _ Hi)).
  split.
  - intros key e He. destruct (do_lookup_cache X o s key e) as [Hs _].
    destruct (Hs He) as [Hold|Hst]; [auto|]. exists (tr ++ [Ev o r.1]).
    split_and!; [done|by eapply justified_store|]. apply list_elem_of_omap.
    exists (Ev o r.1). split; [apply elem_of_app; right; by left|done].
  - intros tr' key now e [j Hj']%list_elem_of_lookup Hin.
    apply list_lookup_insert_Some in Hj' as [(<- & <- & _)|[_ Hj']].
    + unfold hits in Hin. rewrite omap_app in Hin. apply elem_of_app in Hin as [Hin|Hin].
      { destruct (Hh tr key now e); [by eapply list_elem_of_lookup_2|done|auto]. }
      apply list_elem_of_omap in Hin as (e' & ->%list_elem_of_singleton & Ha).
      destruct (do_lookup_cache X o s key e) as [_ Hhit]. destruct (Hhit now Ha). auto.
    + destruct (Hh tr' key now e); [by eapply list_elem_of_lookup_2|done|auto].
Qed.

Lemma lookups_ok c : lookups_reachable c →
  threads_ok lookup_program c ∧ cache_ok (pool_shared c) (th_trace <$> pool_threads c).
Proof.
  intros (s & Hs & Hr). split; [by eapply pool_threads_ok|].
  eapply (pool_trace_invariant lookup_program (λ _, do_lookup) elsewhere justified cache_ok);
    [| | | |by apply cache_ok_start|exact Hr].
  - intros j. apply lookup_justified.
  - intros _. exact cache_ok_op.
  - exact cache_ok_new.
  - intros s1 s2 trs Hok Hs'. by eapply cache_ok_else.
Qed.

(** ** Properties *)

(** [C16] Whatever lookups run at the same time, a lookup answers with what the GKE API said
    about that very cluster: in the answer to its own fetch, or in the answer to a fetch of
    a lookup that put it into the cache less than the TTL (10 minutes unless overridden)
    before the cache was read. *)
Theorem lookups_are_fresh c i t cl :
  lookups_reachable c → pool_threads c !! i = Some t → th_prog t = Ret (Ok cl) →
  let key := lk_key (th_job t) in
  (key, cl) ∈ fetched (th_trace t) ∨
  ∃ now e, (key, now, e) ∈ hits (th_trace t) ∧ cached_cluster e = cl ∧
    now - cached_fetchedAt e < clusterTTL p ∧
    provided (th_trace <$> pool_threads c) key e.
Proof.
  intros [Hth [_ Hhits]]%lookups_ok Hi Hret key. specialize (Hth i t Hi). rewrite Hret in Hth.
  apply reaches_ret, lookup_answer in Hth as [Hf|(now & e & Hin & He)]; [by left|right].
  destruct (Hhits (th_trace t) key now e) as [Httl Hp]; [|done|by exists now, e].
  apply list_elem_of_fmap. exists t. split; [done|by eapply list_elem_of_lookup_2].
Qed.
End Lookups.

(** ** Concrete lookups *)

Section LookupsWitness.
#[local] Existing Instance FakeErrors.
#[local] Existing Instance FakeNet.

Definition demo_lookup : lookup :=
  {| lk_key := "n"; lk_ref := demo_cluster_ref "p" "l" "c"; lk_ts := "ts" |}.

Abbreviation lookups := (@pool lookup_op lookup gke_state (res goerr gkeCluster)).
Abbreviation run_lookups order c := (schedule (λ _, do_lookup demo_provider) order c).

Definition both_lookups : pool :=
  spawn lookup_program [demo_lookup; demo_lookup] (lookups_start (demo_gke_state 5 "1.1.1.1")).

(** The second lookup starts after the first one ended. *)
Definition in_turn : pool := run_lookups [0; 0; 0; 1]%nat both_lookups.

Lemma in_turn_reachable : lookups_reachable demo_provider in_turn.
Proof.
  exists (demo_gke_state 5 "1.1.1.1"). split; [done|].
  etrans; [apply (spawn_steps lookup_program (λ _, do_lookup demo_provider))|apply schedule_steps].
Qed.

Definition second_lookup : thread :=
  default (start_thread lookup_program demo_lookup) (pool_threads in_turn !! 1%nat).

Lemma second_lookup_at : pool_threads in_turn !! 1%nat = Some second_lookup.
Proof.
  unfold second_lookup. assert (Hlen : length (pool_threads in_turn) = 2%nat) by reflexivity.
  destruct (lookup_lt_is_Some_2 (pool_threads in_turn) 1) as [t Ht]; [lia|]. by rewrite Ht.
Qed.

Definition demo_cluster (address : string) : gkeCluster :=
  match json_Unmarshal_cluster address with
  | Ok c => c
  | Err _ => Build_gkeCluster "" "" "" "" None ""
  end.

Lemma lookups_are_fresh_witness :
  fetched (th_trace second_lookup) = [] ∧
  ∃ now e, (("n", now, e) ∈ hits (th_trace second_lookup)) ∧
    cached_cluster e = demo_cluster "1.1.1.1" ∧
    now - cached_fetchedAt e < clusterTTL demo_provider ∧
    provided (th_trace <$> pool_threads in_turn) "n" e.
Proof.
  assert (Hnone : fetched (th_trace second_lookup) = []) by reflexivity.
  split; [exact Hnone|].
  destruct (lookups_are_fresh demo_provider in_turn 1 second_lookup (demo_cluster "1.1.1.1")
    in_turn_reachable second_lookup_at) as [Hf|Hhit]; [reflexivity| |exact Hhit].
  rewrite Hnone in Hf. by apply elem_of_nil in Hf.
Defined.

(** The TTL bounds the time since the answer was stored, not since it was given: a lookup
    that stores its answer late replaces a newer answer by an older one, for a whole TTL. *)
Definition with_world (now : Z) (address : string) (c : lookups) : lookups :=
  {| pool_shared := set_world {| fn_now := now; fn_answer := demo_answer address |} (pool_shared c);
     pool_threads := pool_threads c |}.

Lemma with_world_step now address c :
  pool_step lookup_program (λ _, do_lookup demo_provider) elsewhere c (with_world now address c).
Proof. by apply step_interfere. Qed.

Definition overtaken : pool :=
  run_lookups [0]%nat (with_world 20 "2.2.2.2"
    (run_lookups [1; 1]%nat (with_world 10 "2.2.2.2" (run_lookups [0; 0; 1]%nat both_lookups)))).

Lemma overtaken_reachable : lookups_reachable demo_provider overtaken.
Proof.
  exists (demo_gke_state 5 "1.1.1.1"). split; [done|].
  etrans; [apply (spawn_steps lookup_program (λ _, do_lookup demo_provider))|].
  etrans; [apply schedule_steps|]. eapply rtc_l; [apply with_world_step|].
  etrans; [apply schedule_steps|]. eapply rtc_l; [apply with_world_step|].
  apply schedule_steps.
Qed.

Theorem older_answer_replaces_newer :
  lookups_reachable demo_provider overtaken ∧
  stores (mjoin (th_trace <$> pool_threads overtaken)) =
    [("n", {| cached_cluster := demo_cluster "1.1.1.1"; cached_fetchedAt := 20 |});
     ("n", {| cached_cluster := demo_cluster "2.2.2.2"; cached_fetchedAt := 10 |})] ∧
  g_cache (pool_shared overtaken) !! "n" =
    Some {| cached_cluster := demo_cluster "1.1.1.1"; cached_fetchedAt := 20 |}.
Proof. split; [exact overtaken_reachable|]. by split. Qed.
End LookupsWitness.
