(* ===== verification/Transport.v ===== *)
(** * Connections that follow a cluster's endpoint and CA
      ([syncer/controllers/rotating_transport.go], and [GKEConfigProvider.RESTConfig] of
      [syncer/controllers/remote_cluster.go])

    A connection's transport is a shared object: the [rest.Config] refers to it, and its
    requests update it. The state here is the provider's, with the store of the
    transports that were made; a [rest.Config] holds the index of its transport. *)

From stdpp Require Import base list strings gmap relations.
From S2P Require Import Prelude GoStrings Kube Api Fake Client FakeCluster RemoteClients GKE.

#[local] Arguments String.append : simpl nomatch.

Section Transport.
Context `{GoNet} (p : GKEConfigProvider).

Record rotatingTransport := {
  t_key : string;
  t_ref : GKECluster;
  t_ts : token_source;
  t_host : string;
  t_caData : string;
  t_rt : option round_tripper;
}.

(** [rotatingTransport.update]: its error, and the transport after it. *)
Definition update (cfg : endpointConfig) (t : rotatingTransport) :
    option goerr * rotatingTransport :=
  match url_Parse_Host (cfg_Host cfg) with
  | Err err => (Some (ErrorfW "parsing cluster host %q: %w" [cfg_Host cfg] err), t)
  | Ok u_Host =>
      if bool_decide (t_rt t ≠ None) && bool_decide (u_Host = t_host t) &&
         bool_decide (cfg_CAData cfg = t_caData t)
      then (None, t)
      else match newClusterTransport p (cfg_CAData cfg) with
        | Err err => (Some err, t)
        | Ok rt => (None, {| t_key := t_key t; t_ref := t_ref t; t_ts := t_ts t;
            t_host := u_Host; t_caData := cfg_CAData cfg; t_rt := Some rt |})
        end
  end.

(** The functions [rest.Config.Wrap] was given, in that order: the rotating transport
    in place of whatever there was, and the token of the source added to what there is. *)
Inductive wrapper :=
| ReplaceByRotating (id : nat)
| TokenSourceWrap (ts : token_source).

(** The fields of [rest.Config] that are set for a GKE cluster. *)
Record gke_rest_Config := {
  rc_Endpoint : endpointConfig;
  rc_Wrappers : list wrapper;
}.

(** The transport a client of the config ends up with: the wrappers in order, starting
    from client-go's own transport. *)
Inductive transport_chain :=
| ClientGoTransport
| Rotating (id : nat)
| WithToken (ts : token_source) (base : transport_chain).

Definition wrap (base : transport_chain) (w : wrapper) : transport_chain :=
  match w with
  | ReplaceByRotating id => Rotating id
  | TokenSourceWrap ts => WithToken ts base
  end.

Definition config_transport (cfg : gke_rest_Config) : transport_chain :=
  foldl wrap ClientGoTransport (rc_Wrappers cfg).

(** The provider and the transports made for it. *)
Record transport_state := {
  tr_gke : gke_state;
  tr_transports : list rotatingTransport;
}.

Definition on_gke {A} (m : M gke_state A) : M transport_state A := λ s,
  let r := m (tr_gke s) in
  (r.1, {| tr_gke := r.2; tr_transports := tr_transports s |}).

Definition put_transport (i : nat) (t : rotatingTransport) (s : transport_state) :
    transport_state :=
  {| tr_gke := tr_gke s; tr_transports := <[i := t]> (tr_transports s) |}.

(** [&rotatingTransport{...}]: a new object of the store. *)
Definition new_transport (t : rotatingTransport) : M transport_state nat := λ s,
  (length (tr_transports s),
   {| tr_gke := tr_gke s; tr_transports := tr_transports s ++ [t] |}).

(** [RESTConfig] once the settings are known. *)
Definition connect (key : string) (ref : GKECluster) (ts : token_source)
    (cfg : endpointConfig) : M transport_state (res goerr gke_rest_Config) :=
  let rt := {| t_key := key; t_ref := ref; t_ts := ts; t_host := ""; t_caData := "";
               t_rt := None |} in
  let r := update cfg rt in
  match r.1 with
  | Some err => mret (Err (ErrorfW "GKE cluster %s: %w" [key] err))
  | None =>
      id ← new_transport r.2;
      mret (Ok {| rc_Endpoint := cfg;
                  rc_Wrappers := [ReplaceByRotating id; TokenSourceWrap ts] |})
  end.

Definition RESTConfig_named (key : string) (ref : GKECluster) :
    M transport_state (res goerr gke_rest_Config) :=
  ts ← on_gke (tokenSource p);
  match ts with
  | Err err => mret (Err err)
  | Ok ts =>
      c ← on_gke (cluster p key ref ts);
      match c with
      | Err err => mret (Err err)
      | Ok c =>
          match restConfig c (gke_Endpoint ref) with
          | Err err => mret (Err (ErrorfW "GKE cluster %s: %w" [key] err))
          | Ok cfg => connect key ref ts cfg
          end
      end
  end.

(** [GKEConfigProvider.RESTConfig]. *)
Definition RESTConfig (namespace : string) (remote : option RemoteConfig) :
    M transport_state (res goerr gke_rest_Config) :=
  match gkeClusterName remote with
  | Err err => mret (Err err)
  | Ok key =>
      match ref_of remote with
      | None => mret (Err (EStd "unreachable: a named remote has a cluster"))
      | Some ref => RESTConfig_named key ref
      end
  end.

(** The part of [current] before the transport is locked: the settings the cluster has
    now, or the error that is logged. *)
Definition lookupSettings (t : rotatingTransport) : M gke_state (res goerr endpointConfig) :=
  c ← cluster p (t_key t) (t_ref t) (t_ts t);
  match c with
  | Err err => mret (Err err)
  | Ok c => mret (restConfig c (gke_Endpoint (t_ref t)))
  end.

(** The transport after [current] was done with the settings. *)
Definition refresh (cfg : res goerr endpointConfig) (t : rotatingTransport) :
    rotatingTransport :=
  match cfg with Ok cfg => (update cfg t).2 | Err _ => t end.

Definition current (i : nat) : M transport_state (option (option round_tripper * string)) := λ s,
  match tr_transports s !! i with
  | None => (None, s)
  | Some t =>
      let '(cfg, s') := on_gke (lookupSettings t) s in
      let t' := refresh cfg t in
      (Some (t_rt t', t_host t'), put_transport i t' s')
  end.

(** A request to a cluster: what [RoundTrip] looks at and changes of an [http.Request]. *)
Record cluster_request := {
  creq_URL_Host : string;
  creq_Host : string;
}.

(** [RoundTrip]: the request that is sent, and the transport that sends it. *)
Definition RoundTrip (i : nat) (req : cluster_request) :
    M transport_state (option (option round_tripper * cluster_request)) :=
  cur ← current i;
  match cur with
  | None => mret None
  | Some (rt, host) =>
      let req := if negb (bool_decide (creq_URL_Host req = host))
        then {| creq_URL_Host := host; creq_Host := "" |} else req in
      mret (Some (rt, req))
  end.

(** ** Lemmas *)

(** A transport that is the one for its settings. *)
Definition coherent (t : rotatingTransport) : Prop :=
  match t_rt t with
  | None => True
  | Some rt => newClusterTransport p (t_caData t) = Ok rt
  end.

(** [t'] is [t] or follows [cfg]. *)
Definition follows (cfg : endpointConfig) (t : rotatingTransport) : Prop :=
  url_Parse_Host (cfg_Host cfg) = Ok (t_host t) ∧ t_caData t = cfg_CAData cfg ∧
  ∃ rt, t_rt t = Some rt ∧ newClusterTransport p (cfg_CAData cfg) = Ok rt.

Definition same_connection (t t' : rotatingTransport) : Prop :=
  t_key t = t_key t' ∧ t_ref t = t_ref t' ∧ t_ts t = t_ts t'.

Lemma update_cases cfg t :
  coherent t →
  match update cfg t with
  | (Some _, t') => t' = t ∧
      ((∃ e, url_Parse_Host (cfg_Host cfg) = Err e) ∨
       ∃ e, newClusterTransport p (cfg_CAData cfg) = Err e)
  | (None, t') => follows cfg t' ∧ same_connection t t'
  end.
Proof.
  intros Hc. unfold update, follows, same_connection.
  destruct (url_Parse_Host (cfg_Host cfg)) as [h|e] eqn:Hu; [|eauto].
  destruct (bool_decide_reflect (t_rt t ≠ None)) as [Hrt|Hrt]; simpl.
  - destruct (bool_decide_reflect (h = t_host t)) as [->|Hh]; simpl.
    + destruct (bool_decide_reflect (cfg_CAData cfg = t_caData t)) as [Hca|Hca].
      * unfold coherent in Hc. destruct (t_rt t) as [rt|]; [|done]. rewrite Hca. eauto 10.
      * destruct (newClusterTransport p _); simpl; eauto 10.
    + destruct (newClusterTransport p _); simpl; eauto 10.
  - destruct (newClusterTransport p _); simpl; eauto 10.
Qed.

(** Settings a transport already follows change nothing. *)
Lemma update_same cfg t : follows cfg t → update cfg t = (None, t).
Proof.
  intros (Hu & Hca & rt & Hrt & _). unfold update. rewrite Hu, Hrt, Hca.
  by rewrite !bool_decide_eq_true_2.
Qed.

Lemma follows_coherent cfg t : follows cfg t → coherent t.
Proof. intros (_ & Hca & rt & Hrt & Hn). unfold coherent. by rewrite Hrt, Hca. Qed.

(** ** Interleavings *)

(** The steps of concurrent requests and of the making of connections. A request looks
    its settings up at one time and updates its transport at a later one, so an update may
    use settings that were looked up at any earlier time, or by another request on the
    same transport. [settings] are all the settings looked up so far, by transport. *)
Record interleaving := {
  il_transports : list rotatingTransport;
  il_settings : list (nat * endpointConfig);
}.

Inductive interleaving_step : interleaving → interleaving → Prop :=
| step_connect key ref ts cfg t s :
    update cfg {| t_key := key; t_ref := ref; t_ts := ts; t_host := ""; t_caData := "";
                  t_rt := None |} = (None, t) →
    interleaving_step s
      {| il_transports := il_transports s ++ [t];
         il_settings := (length (il_transports s), cfg) :: il_settings s |}
| step_lookup i t c cfg s :
    il_transports s !! i = Some t → restConfig c (gke_Endpoint (t_ref t)) = Ok cfg →
    interleaving_step s
      {| il_transports := il_transports s; il_settings := (i, cfg) :: il_settings s |}
| step_update i t cfg s :
    il_transports s !! i = Some t → (i, cfg) ∈ il_settings s →
    interleaving_step s
      {| il_transports := <[i := (update cfg t).2]> (il_transports s);
         il_settings := il_settings s |}.

Definition no_transports : interleaving := {| il_transports := []; il_settings := [] |}.

(** ** Properties *)

(** Endpoint and CA are never mixed: however requests and refreshes interleave on
    the connections, each connection always has a TLS transport, made for the CA of some
    settings that were looked up for that very connection, and sends to the host of the
    same settings. *)
Theorem transports_stay_coherent s i t :
  rtc interleaving_step no_transports s → il_transports s !! i = Some t →
  ∃ cfg, (i, cfg) ∈ il_settings s ∧ follows cfg t.
Proof.
  intros Hs. revert i t.
  refine (rtc_invariant _ (λ s, ∀ i t, il_transports s !! i = Some t →
    ∃ cfg, (i, cfg) ∈ il_settings s ∧ follows cfg t) _ _ _ Hs _); [|by intros ?? [=]].
  clear s Hs. intros s s' IH Hstep i t Hi. destruct Hstep as [key ref ts cfg t' s Hu|
    j t' c cfg s _ _|j t' cfg s Hj Hcfg]; simpl in *.
  - apply lookup_app_Some in Hi as [Hi|[Hlen Hi]].
    + destruct (IH i t Hi) as (cfg' & ? & ?). exists cfg'. split; [by right|done].
    + apply list_lookup_singleton_Some in Hi as [Hi ->].
      exists cfg. split; [|by assert (Hc := update_cases cfg {| t_key := key; t_ref := ref;
        t_ts := ts; t_host := ""; t_caData := ""; t_rt := None |} I); rewrite Hu in Hc; destruct Hc].
      replace i with (length (il_transports s)) by lia. by left.
  - destruct (IH i t Hi) as (cfg' & ? & ?). exists cfg'. split; [by right|done].
  - destruct (decide (j = i)) as [->|Hne]; [|rewrite list_lookup_insert_ne in Hi by done; by apply IH].
    rewrite list_lookup_insert_eq in Hi by by eapply lookup_lt_Some. injection Hi as <-.
    destruct (IH i t' Hj) as (cfg' & Hin & Hf).
    assert (Hc := update_cases cfg t' (follows_coherent _ _ Hf)).
    destruct (update cfg t') as [[e|] t'']; simpl.
    + destruct Hc as [-> _]. by exists cfg'.
    + destruct Hc as [Hc _]. by exists cfg.
Qed.

(** [C24] A request follows the cluster: [RoundTrip] looks the cluster up; if that gives
    usable settings, the request goes to their host through a transport for their CA,
    which is not rebuilt when they did not change; if anything fails, the request goes
    to the last known host through the last known transport, unchanged. Either way the
    request's URL host is the connection's. *)
Theorem RoundTrip_follows_cluster s i t req :
  tr_transports s !! i = Some t → coherent t →
  let looked := lookupSettings t (tr_gke s) in
  ∃ t' req', RoundTrip i req s = (Some (t_rt t', req'), {| tr_gke := looked.2;
      tr_transports := <[i := t']> (tr_transports s) |}) ∧
    creq_URL_Host req' = t_host t' ∧ (creq_URL_Host req = t_host t' → req' = req) ∧
    same_connection t t' ∧
    ((∃ cfg, looked.1 = Ok cfg ∧ follows cfg t' ∧ (follows cfg t → t' = t)) ∨
     (t' = t ∧ match looked.1 with
        | Err _ => True
        | Ok cfg => (∃ e, url_Parse_Host (cfg_Host cfg) = Err e) ∨
            (∃ e, newClusterTransport p (cfg_CAData cfg) = Err e)
        end)).
Proof.
  intros Hi Hc looked. unfold RoundTrip, current, on_gke, mbind, M_bind.
  rewrite Hi. fold looked. destruct looked as [cfg g]. cbn [fst snd].
  exists (refresh cfg t). eexists. split; [reflexivity|].
  split; [by case_bool_decide|]. split; [by case_bool_decide|].
  destruct cfg as [cfg|e]; [|split; [done|by right]]. simpl.
  assert (Hu := update_cases cfg t Hc). assert (Hsame := update_same cfg t).
  destruct (update cfg t) as [[e|] t']; simpl in *.
  - destruct Hu as [-> Hu]. split; [done|by right].
  - destruct Hu as [Hf Hs]. split; [done|]. left. exists cfg. split_and!; [done|done|].
    intros Hft. by injection (Hsame Hft).
Qed.

(** A config is usable as it is returned: if [RESTConfig] succeeds, then the remote
    names a cluster, the config has the host and CA of that cluster's selected endpoint,
    its clients send through the Google token and a new connection that follows these
    settings (never through client-go's own transport), and the other connections are
    as before; if it fails, no connection was made. A remote without a key fails with
    the same error, before anything is called. *)
Theorem RESTConfig_connects ns remote s :
  let r := RESTConfig ns remote s in
  match r.1 with
  | Ok cfg => ∃ key ref ts c t, ref_of remote = Some ref ∧ gkeClusterName remote = Ok key ∧
      (tokenSource p (tr_gke s)).1 = Ok ts ∧
      (cluster p key ref ts (tokenSource p (tr_gke s)).2).1 = Ok c ∧
      restConfig c (gke_Endpoint ref) = Ok (rc_Endpoint cfg) ∧
      config_transport cfg = WithToken ts (Rotating (length (tr_transports s))) ∧
      tr_transports r.2 = tr_transports s ++ [t] ∧ follows (rc_Endpoint cfg) t ∧
      t_key t = key ∧ t_ref t = ref ∧ t_ts t = ts
  | Err e => tr_transports r.2 = tr_transports s
  end ∧
  ∀ e, Key ns remote = Err e → r = (Err e, s).
Proof.
  split.
  - unfold RESTConfig. destruct (gkeClusterName remote) as [key|e] eqn:Hkey; [|done].
    destruct (ref_of remote) as [ref|] eqn:Href; [|done].
    unfold RESTConfig_named, on_gke, mbind, M_bind. cbn [fst snd tr_gke].
    destruct (tokenSource p (tr_gke s)) as [[ts|e] g1] eqn:Hts; [|done]. cbn [fst snd tr_gke].
    destruct (cluster p key ref ts g1) as [[c|e] g2] eqn:Hcl; [|done]. cbn [fst snd].
    destruct (restConfig c (gke_Endpoint ref)) as [cfg|e] eqn:Hcfg; [|done].
    unfold connect. set (t0 := Build_rotatingTransport _ _ _ _ _ _).
    assert (Hu := update_cases cfg t0 I).
    destruct (update cfg t0) as [[e|] t]; [done|]. destruct Hu as [Hf (Hk & Hr & Ht)].
    exists key, ref, ts, c, t. cbn [fst snd]. rewrite Hcl. by split_and!.
  - intros e. unfold Key, RESTConfig. destruct (gkeClusterName remote) as [key|e'] eqn:Hkey; [|by intros [= ->]].
    destruct (ref_of remote) eqn:Href; [done|].
    unfold gkeClusterName in Hkey. by rewrite Href in Hkey.
Qed.
End Transport.

(** ** The provider as an implementation of the interface *)

(** [GKEConfigProvider] implements [RemoteConfigProvider] in any system whose world holds
    its state. *)
Definition GKERemoteConfigProvider `{ApiClient} {GN : GoNet} (p : GKEConfigProvider)
    (provider_state : world → transport_state) (put : transport_state → world → world) :
    RemoteConfigProvider := {|
  rest_Config := gke_rest_Config;
  RemoteClients.Key := GKE.Key;
  RemoteClients.RESTConfig ns remote w :=
    let r := RESTConfig p ns remote (provider_state w) in (r.1, put r.2 w);
|}.

(** [&GKEConfigProvider{}]: no setting is given. *)
Definition zero_provider `{GoNet} : GKEConfigProvider := {|
  p_TokenSource := None; p_ContainerAPIEndpoint := ""; p_Transport := None; p_ttl := 0;
  p_clusterTransport := None |}.

(** [SetupWithManager] of [KRMSyncerReconciler]: the provider it was given, or the GKE one. *)
Definition provider_or_default `{ApiClient} {GN : GoNet}
    (provider_state : world → transport_state) (put : transport_state → world → world)
    (given : option RemoteConfigProvider) : RemoteConfigProvider :=
  match given with
  | Some p => p
  | None => GKERemoteConfigProvider zero_provider provider_state put
  end.

(** ** Witnesses *)

Section TransportWitnesses.
#[local] Existing Instance FakeErrors.
#[local] Existing Instance FakeNet.

Definition demo_cfg (host : string) : endpointConfig :=
  {| cfg_Host := "https://" +:+ host; cfg_CAData := "ca" |}.

Definition demo_transport (host : string) : rotatingTransport :=
  {| t_key := "n"; t_ref := demo_cluster_ref "p" "l" "c"; t_ts := "ts"; t_host := host;
     t_caData := "ca"; t_rt := Some "tls ca" |}.

Definition demo_interleaving (host : string) (settings : list (nat * endpointConfig)) :
    interleaving :=
  {| il_transports := [demo_transport host]; il_settings := settings |}.

Lemma transports_stay_coherent_witness :
  let s := demo_interleaving "2.2.2.2" [(0, demo_cfg "2.2.2.2"); (0, demo_cfg "1.1.1.1")] in
  rtc (interleaving_step demo_provider) no_transports s ∧
  ∃ cfg, (0, cfg) ∈ il_settings s ∧ follows demo_provider cfg (demo_transport "2.2.2.2").
Proof.
  intros s.
  assert (Hs : rtc (interleaving_step demo_provider) no_transports s).
  { eapply rtc_l; [apply (step_connect demo_provider "n" (demo_cluster_ref "p" "l" "c") "ts"
      (demo_cfg "1.1.1.1") (demo_transport "1.1.1.1")); reflexivity|].
    eapply rtc_l; [apply (step_lookup demo_provider 0 (demo_transport "1.1.1.1")
      {| Endpoint := "2.2.2.2"; MasterAuth_ClusterCACertificate := GoBase64.EncodeToString "ca";
         PrivateClusterConfig_PrivateEndpoint := ""; DNSEndpointConfig_Endpoint := "";
         DNSEndpointConfig_AllowExternalTraffic := None;
         IPEndpointsConfig_PrivateEndpoint := "" |} (demo_cfg "2.2.2.2")); reflexivity|].
    eapply rtc_l; [|apply rtc_refl].
    apply (step_update demo_provider 0 (demo_transport "1.1.1.1") (demo_cfg "2.2.2.2")
      (demo_interleaving "1.1.1.1" [(0, demo_cfg "2.2.2.2"); (0, demo_cfg "1.1.1.1")]));
      [reflexivity|by left]. }
  split; [exact Hs|].
  exact (transports_stay_coherent demo_provider s 0 (demo_transport "2.2.2.2") Hs eq_refl).
Defined.

(** The cluster has moved to another endpoint. *)
Lemma RoundTrip_follows_cluster_witness :
  let s := {| tr_gke := demo_gke_state 0 "2.2.2.2";
              tr_transports := [demo_transport "1.1.1.1"] |} in
  let req := {| creq_URL_Host := "1.1.1.1"; creq_Host := "" |} in
  (RoundTrip demo_provider 0 req s).1 =
    Some (Some "tls ca", {| creq_URL_Host := "2.2.2.2"; creq_Host := "" |}) ∧
  ∃ t' req', (RoundTrip demo_provider 0 req s).1 = Some (t_rt t', req') ∧
    creq_URL_Host req' = t_host t'.
Proof.
  intros s req. split; [reflexivity|].
  destruct (RoundTrip_follows_cluster demo_provider s 0 (demo_transport "1.1.1.1") req
    eq_refl eq_refl) as (t' & req' & Hr & Hh & _).
  exists t', req'. split; [by rewrite Hr|exact Hh].
Defined.
End TransportWitnesses.
