(* ===== verification/Requests.v ===== *)
(** * Concurrent connections and requests

    [RESTConfig] and [RoundTrip] are called by any number of goroutines. Here they are
    programs of their critical sections: the token source, the three operations of a cluster
    lookup ([Lookups]), the update of a transport and the read of its settings, each under a
    mutex that is not held in between. Run alone, the programs are [Transport.RESTConfig] and
    [Transport.RoundTrip]. *)

From stdpp Require Import base list strings gmap relations.
From S2P Require Import Prelude Threads GoStrings Kube Api Fake Client FakeCluster RemoteClients.
From S2P Require Import GKE Lookups Transport.

Section Requests.
Context `{GoNet}.
Context (p : GKEConfigProvider).

(** [OpConnect] makes a transport that nobody else knows yet, with its first settings.
    [OpConnection] reads the fields of a transport that never change. *)
Inductive provider_op : Type → Type :=
| OpTokenSource : provider_op (res goerr token_source)
| OpLookup {X} (o : lookup_op X) : provider_op X
| OpConnect (key : string) (ref : GKECluster) (ts : token_source) (cfg : endpointConfig) :
    provider_op (res goerr gke_rest_Config)
| OpConnection (i : nat) : provider_op (option (string * GKECluster * token_source))
| OpUpdate (i : nat) (cfg : endpointConfig) : provider_op (option goerr)
| OpSettings (i : nat) : provider_op (option (option round_tripper * string)).

Definition connection (t : rotatingTransport) : string * GKECluster * token_source :=
  (t_key t, t_ref t, t_ts t).

Definition do_provider (X : Type) (o : provider_op X) : M transport_state X :=
  match o in provider_op X return M transport_state X with
  | OpTokenSource => on_gke (tokenSource p)
  | OpLookup o => on_gke (do_lookup p _ o)
  | OpConnect key ref ts cfg => connect p key ref ts cfg
  | OpConnection i => gets (λ s, connection <$> tr_transports s !! i)
  | OpUpdate i cfg => λ s,
      match tr_transports s !! i with
      | Some t => let r := update p cfg t in (r.1, put_transport i r.2 s)
      | None => (None, s)
      end
  | OpSettings i => gets (λ s, (λ t, (t_rt t, t_host t)) <$> tr_transports s !! i)
  end.

Abbreviation lookup_now key ref ts :=
  (hoist (λ X, OpLookup) (lookup_cluster key ref ts) : prog provider_op (res goerr gkeCluster)).

(** [GKEConfigProvider.RESTConfig]. *)
Definition get_RESTConfig (namespace : string) (remote : option RemoteConfig) :
    prog provider_op (res goerr gke_rest_Config) :=
  match gkeClusterName remote with
  | Err err => mret (Err err)
  | Ok key =>
      match ref_of remote with
      | None => mret (Err (EStd "unreachable: a named remote has a cluster"))
      | Some ref =>
          ts ← perform OpTokenSource;
          match ts with
          | Err err => mret (Err err)
          | Ok ts =>
              c ← lookup_now key ref ts;
              match c with
              | Err err => mret (Err err)
              | Ok c =>
                  match restConfig c (gke_Endpoint ref) with
                  | Err err => mret (Err (ErrorfW "GKE cluster %s: %w" [key] err))
                  | Ok cfg => perform (OpConnect key ref ts cfg)
                  end
              end
          end
      end
  end.

(** [rotatingTransport.current]. A failure is only logged. *)
Definition get_settings (key : string) (ref : GKECluster) (ts : token_source) :
    prog provider_op (res goerr endpointConfig) :=
  c ← lookup_now key ref ts;
  match c with
  | Err err => mret (Err err)
  | Ok c => mret (restConfig c (gke_Endpoint ref))
  end.

Definition get_current (i : nat) : prog provider_op (option (option round_tripper * string)) :=
  t ← perform (OpConnection i);
  match t with
  | None => mret None
  | Some (key, ref, ts) =>
      cfg ← get_settings key ref ts;
      match cfg with
      | Ok cfg => perform (OpUpdate i cfg)
      | Err err => mret (Some err)
      end ;;
      perform (OpSettings i)
  end.

(** [rotatingTransport.RoundTrip], up to the sending. *)
Definition do_RoundTrip (i : nat) (req : cluster_request) :
    prog provider_op (option (option round_tripper * cluster_request)) :=
  cur ← get_current i;
  match cur with
  | None => mret None
  | Some (rt, host) =>
      let req := if negb (bool_decide (creq_URL_Host req = host))
        then {| creq_URL_Host := host; creq_Host := "" |} else req in
      mret (Some (rt, req))
  end.

(** ** Without others *)

Lemma run_on_gke {A} (q : prog lookup_op A) s :
  run (λ X o, on_gke (do_lookup p X o)) q s = on_gke (run (do_lookup p) q) s.
Proof.
  unfold run. revert s; induction q as [a|X o k IH]; intros s; [by destruct s|].
  exact (IH (do_lookup p X o (tr_gke s)).1 (on_gke (do_lookup p X o) s).2).
Qed.

Lemma lookup_now_alone key ref ts s :
  run do_provider (lookup_now key ref ts) s = on_gke (cluster p key ref ts) s.
Proof.
  etrans; [apply run_hoist|]. etrans; [apply run_on_gke|]. unfold on_gke. by rewrite lookup_alone.
Qed.

Lemma get_RESTConfig_alone ns remote s :
  run do_provider (get_RESTConfig ns remote) s = RESTConfig p ns remote s.
Proof.
  unfold get_RESTConfig, RESTConfig. destruct (gkeClusterName remote) as [key|e]; [|done].
  destruct (ref_of remote) as [ref|]; [|done]. unfold RESTConfig_named.
  rewrite run_bind. apply M_bind_ext; [exact (run_perform do_provider OpTokenSource s)|]. intros [ts|e] s1; [|done].
  rewrite run_bind. apply M_bind_ext; [apply lookup_now_alone|]. intros [c|e] s2; [|done].
  destruct (restConfig c (gke_Endpoint ref)) as [cfg|e]; [|done].
  exact (run_perform do_provider (OpConnect key ref ts cfg) s2).
Qed.

Lemma do_update i cfg t s :
  tr_transports s !! i = Some t →
  do_provider _ (OpUpdate i cfg) s = ((update p cfg t).1, put_transport i (update p cfg t).2 s).
Proof. intros Hi. simpl. by rewrite Hi. Qed.

Lemma do_settings i t s :
  tr_transports s !! i = Some t → do_provider _ (OpSettings i) s = (Some (t_rt t, t_host t), s).
Proof. intros Hi. simpl. unfold gets. by rewrite Hi. Qed.

Lemma get_settings_alone t s :
  run do_provider (get_settings (t_key t) (t_ref t) (t_ts t)) s = on_gke (lookupSettings p t) s.
Proof.
  unfold get_settings. rewrite run_bind. unfold mbind, M_bind. rewrite lookup_now_alone.
  unfold lookupSettings, on_gke, mbind, M_bind. cbn [fst snd].
  by destruct (cluster p (t_key t) (t_ref t) (t_ts t) (tr_gke s)) as [[c|e] g].
Qed.

Lemma get_current_alone i s : run do_provider (get_current i) s = current p i s.
Proof.
  unfold get_current, current. rewrite run_bind. unfold mbind at 1, M_bind at 1.
  rewrite run_perform. cbn [do_provider]. unfold gets. cbn [fst snd].
  destruct (tr_transports s !! i) as [t|] eqn:Hi; cbn [fmap option_fmap option_map]; [|done].
  unfold connection. cbn iota beta.
  rewrite run_bind. unfold mbind at 1, M_bind at 1. rewrite get_settings_alone.
  assert (Hs : tr_transports (on_gke (lookupSettings p t) s).2 = tr_transports s) by done.
  destruct (on_gke (lookupSettings p t) s) as [cfg s1]. cbn [fst snd] in *.
  rewrite run_bind. unfold mbind, M_bind. rewrite run_perform.
  rewrite <-Hs in Hi. destruct cfg as [cfg|e].
  - rewrite run_perform, (do_update _ _ _ _ Hi). by erewrite do_settings
      by by eapply list_lookup_insert_eq, lookup_lt_Some.
  - change (run do_provider (mret (Some e)) s1) with (Some e, s1).
    cbn [snd]. rewrite (do_settings _ _ _ Hi). unfold put_transport. cbn [refresh].
    rewrite list_insert_id by done. by destruct s1.
Qed.

(** ** The pool of calls *)

Inductive provider_call : Type :=
| CallRESTConfig (namespace : string) (remote : option RemoteConfig)
| CallRoundTrip (i : nat) (req : cluster_request).

Inductive provider_answer : Type :=
| AnswerRESTConfig (r : res goerr gke_rest_Config)
| AnswerRoundTrip (r : option (option round_tripper * cluster_request)).

Definition call_program (j : provider_call) : prog provider_op provider_answer :=
  match j with
  | CallRESTConfig ns remote => r ← get_RESTConfig ns remote; mret (AnswerRESTConfig r)
  | CallRoundTrip i req => r ← do_RoundTrip i req; mret (AnswerRoundTrip r)
  end.

(** Everything else leaves the cache and the transports alone. *)
Definition outside (s s' : transport_state) : Prop :=
  g_cache (tr_gke s') = g_cache (tr_gke s) ∧ tr_transports s' = tr_transports s.

Abbreviation calls := (@pool provider_op provider_call transport_state provider_answer).
Abbreviation calls_step := (pool_step call_program (λ _, do_provider) outside).

Definition calls_reachable (c : calls) : Prop :=
  ∃ s, g_cache (tr_gke s) = ∅ ∧ tr_transports s = [] ∧
    rtc calls_step {| pool_shared := s; pool_threads := [] |} c.

Definition traces (c : calls) : list (trace provider_op) := th_trace <$> pool_threads c.

(** *** What a call did *)

Definition lookup_of (e : Threads.event provider_op) : option (Threads.event lookup_op) :=
  let 'Ev o x := e in
  match o in provider_op X return X → option (Threads.event lookup_op) with
  | OpLookup o => λ x, Some (Ev o x)
  | _ => λ _, None
  end x.

Definition lookups_in (tr : trace provider_op) : trace lookup_op := omap lookup_of tr.

(** The connections it read. *)
Definition connection_of (e : Threads.event provider_op) :
    option (nat * (string * GKECluster * token_source)) :=
  let 'Ev o x := e in
  match o in provider_op X return X → option (nat * (string * GKECluster * token_source)) with
  | OpConnection i => λ r, pair i <$> r
  | _ => λ _, None
  end x.

(** The settings it read. *)
Definition settings_of (e : Threads.event provider_op) :
    option (nat * (option round_tripper * string)) :=
  let 'Ev o x := e in
  match o in provider_op X return X → option (nat * (option round_tripper * string)) with
  | OpSettings i => λ r, pair i <$> r
  | _ => λ _, None
  end x.

(** The answers its lookup had. *)
Definition looked_up (tr : trace provider_op) (key : string) (c : gkeCluster) : Prop :=
  (key, c) ∈ fetched (lookups_in tr) ∨
  ∃ now e, (key, now, e) ∈ hits (lookups_in tr) ∧ cached_cluster e = c.

(** The settings of a cluster's endpoint, by an answer of the API to some call. *)
Definition api_settings (trs : list (trace provider_op)) (key : string) (ref : GKECluster)
    (cfg : endpointConfig) : Prop :=
  ∃ tr c, tr ∈ trs ∧ (key, c) ∈ fetched (lookups_in tr) ∧ restConfig c (gke_Endpoint ref) = Ok cfg.

(** A host and a transport made of the settings. *)
Definition uses (cfg : endpointConfig) (rt : option round_tripper) (host : string) : Prop :=
  url_Parse_Host (cfg_Host cfg) = Ok host ∧
  ∃ tls, rt = Some tls ∧ newClusterTransport p (cfg_CAData cfg) = Ok tls.

(** *** What justifies the operations of a call *)

Definition call_justified (tr : trace provider_op) (X : Type) (o : provider_op X) : Prop :=
  match o with
  | OpLookup o => justified (lookups_in tr) _ o
  | OpConnect key ref ts cfg =>
      ∃ c, looked_up tr key c ∧ restConfig c (gke_Endpoint ref) = Ok cfg
  | OpUpdate i cfg => ∃ e key ref ts c, e ∈ tr ∧ connection_of e = Some (i, (key, ref, ts)) ∧
      looked_up tr key c ∧ restConfig c (gke_Endpoint ref) = Ok cfg
  | _ => True
  end.

Lemma lookups_in_hoist tr :
  lookups_in (hoist_event (λ X, OpLookup) <$> tr) = tr.
Proof. induction tr as [|[X o x] tr IH]; [done|]. exact (f_equal (cons (Ev o x)) IH). Qed.

Lemma lookups_in_app tr1 tr2 : lookups_in (tr1 ++ tr2) = lookups_in tr1 ++ lookups_in tr2.
Proof. apply omap_app. Qed.

Lemma lookup_now_justified tr key ref ts : guarded call_justified tr (lookup_now key ref ts).
Proof.
  rewrite <-(app_nil_r tr). apply (hoist_guarded (λ X, OpLookup) justified call_justified tr []);
    [|apply lookup_justified].
  intros tr' X o Ho. simpl. rewrite lookups_in_app, lookups_in_hoist. unfold justified in *.
  destruct o; [done|done|]. unfold fetched in *. rewrite omap_app. apply elem_of_app. by right.
Qed.

(** The answer of a lookup is recorded in its trace. *)
Lemma lookup_now_answer tr0 tr key ref ts c :
  trace_of (lookup_now key ref ts) tr (Ok c) → looked_up (tr0 ++ tr) key c.
Proof.
  intros (tr' & -> & H1)%hoist_trace. apply lookup_answer in H1. unfold looked_up.
  rewrite lookups_in_app, lookups_in_hoist. unfold fetched, hits in *. rewrite !omap_app.
  destruct H1 as [H1|(now & e & Hin & He)]; [left|right; exists now, e];
    rewrite elem_of_app; auto.
Qed.

Lemma get_RESTConfig_justified tr ns remote :
  guarded call_justified tr (get_RESTConfig ns remote).
Proof.
  unfold get_RESTConfig. destruct (gkeClusterName remote) as [key|]; [|done].
  destruct (ref_of remote) as [ref|]; [|done]. split; [done|]. intros [ts|]; [|done].
  apply guarded_bind; [apply lookup_now_justified|]. intros tr' [c|] Htr; [|done].
  destruct (restConfig c (gke_Endpoint ref)) as [cfg|] eqn:Hcfg; [|done].
  split; [|done]. exists c. split; [by eapply lookup_now_answer|done].
Qed.

Lemma get_current_justified tr i : guarded call_justified tr (get_current i).
Proof.
  split; [done|]. intros [[[key ref] ts]|]; [|done].
  apply (guarded_bind _ _ (get_settings key ref ts)).
  { unfold get_settings. apply guarded_bind; [apply lookup_now_justified|]. by intros tr' [c|] _. }
  intros tr' cfg Htr. apply guarded_bind; [|done].
  destruct cfg as [cfg|]; [|done]. split; [|done].
  apply trace_of_bind in Htr as (tr1 & c & tr2 & -> & Hl & Htr).
  destruct c as [c|]; [|by destruct Htr]. destruct Htr as [-> Hcfg]. rewrite app_nil_r.
  exists (Ev (OpConnection i) (Some (key, ref, ts))), key, ref, ts, c. split_and!; [|done| |done].
  - apply elem_of_app. left. apply elem_of_app. right. by left.
  - by eapply lookup_now_answer.
Qed.

Lemma call_program_justified j : guarded call_justified [] (call_program j).
Proof.
  destruct j as [ns remote|i req]; apply guarded_bind; [apply get_RESTConfig_justified|done| |done].
  apply guarded_bind; [apply get_current_justified|]. by intros tr [[rt host]|] _.
Qed.

(** *** The invariant *)

(** What an event showed of the transports is still true of them. *)
Definition seen (s : transport_state) (trs : list (trace provider_op))
    (e : Threads.event provider_op) : Prop :=
  (∀ i k, connection_of e = Some (i, k) → connection <$> tr_transports s !! i = Some k) ∧
  ∀ i rt host, settings_of e = Some (i, (rt, host)) → ∃ t cfg, tr_transports s !! i = Some t ∧
    api_settings trs (t_key t) (t_ref t) cfg ∧ uses cfg rt host.

Definition transports_ok (s : transport_state) (trs : list (trace provider_op)) : Prop :=
  ∀ i t, tr_transports s !! i = Some t →
    ∃ cfg, api_settings trs (t_key t) (t_ref t) cfg ∧ follows p cfg t.

Definition provider_ok (s : transport_state) (trs : list (trace provider_op)) : Prop :=
  cache_ok p (tr_gke s) (lookups_in <$> trs) ∧ transports_ok s trs ∧
  ∀ tr e, tr ∈ trs → e ∈ tr → seen s trs e.

(** Transports are only added, and stay the same connections. *)
Definition keeps_connections (s s' : transport_state) : Prop :=
  ∀ i t, tr_transports s !! i = Some t →
    ∃ t', tr_transports s' !! i = Some t' ∧ connection t' = connection t.

Lemma api_settings_mono trs trs' key ref cfg :
  extends trs trs' → api_settings trs key ref cfg → api_settings trs' key ref cfg.
Proof.
  intros Hext (tr & c & Htr & Hf & Hcfg). destruct (Hext tr Htr) as [tr' Htr'].
  exists (tr ++ tr'), c. split_and!; [done| |done]. rewrite lookups_in_app.
  unfold fetched in *. rewrite omap_app. apply elem_of_app. by left.
Qed.

Lemma seen_mono s s' trs trs' e :
  extends trs trs' → keeps_connections s s' → seen s trs e → seen s' trs' e.
Proof.
  intros Hext Hk [Hc Hs]. split.
  - intros i k He. specialize (Hc i k He). apply fmap_Some in Hc as (t & Hi & ->).
    destruct (Hk i t Hi) as (t' & -> & Ht'). simpl. by rewrite Ht'.
  - intros i rt host He. destruct (Hs i rt host He) as (t & cfg & Hi & Hapi & Hu).
    destruct (Hk i t Hi) as (t' & Hi' & [= Hkey Href _]). exists t', cfg.
    split_and!; [done| |done]. rewrite Hkey, Href. by eapply api_settings_mono.
Qed.

(** A lookup is answered with an answer of the API, its own or another call's. *)
Lemma looked_up_api s trs tr key ref c cfg :
  cache_ok p (tr_gke s) (lookups_in <$> trs) → tr ∈ trs → looked_up tr key c →
  restConfig c (gke_Endpoint ref) = Ok cfg → api_settings trs key ref cfg.
Proof.
  intros [_ Hh] Htr [Hf|(now & e & Hin & <-)] Hcfg; [by exists tr, c|].
  destruct (Hh (lookups_in tr) key now e) as (_ & tr' & Htr' & Hf & _);
    [by apply list_elem_of_fmap_2|done|].
  apply list_elem_of_fmap in Htr' as (tr0 & -> & Htr0). by exists tr0, (cached_cluster e).
Qed.

(** The operation gave the transport its settings. *)
Definition supplies {X} (s : transport_state) (o : provider_op X) (t : rotatingTransport)
    (cfg : endpointConfig) : Prop :=
  match o with
  | OpConnect key ref ts cfg' => cfg' = cfg ∧ connection t = (key, ref, ts)
  | OpUpdate i cfg' => cfg' = cfg ∧ connection <$> tr_transports s !! i = Some (connection t)
  | _ => False
  end.

Lemma keeps_same s s' : tr_transports s' = tr_transports s → keeps_connections s s'.
Proof. intros Hs i t Hi. exists t. by rewrite Hs. Qed.

Lemma same_connection_eq t t' : same_connection t t' → connection t' = connection t.
Proof. unfold same_connection, connection. by intros (-> & -> & ->). Qed.

(** What an operation does to the transports. *)
Lemma do_provider_transports X (o : provider_op X) s :
  let s' := (do_provider X o s).2 in
  (∀ i t, tr_transports s !! i = Some t → coherent p t) →
  keeps_connections s s' ∧
  ∀ i t, tr_transports s' !! i = Some t →
    tr_transports s !! i = Some t ∨ ∃ cfg, follows p cfg t ∧ supplies s o t cfg.
Proof.
  intros s' Hcoh. destruct o as [|X o|key ref ts cfg|i|i cfg|i];
    try (split; [by apply keeps_same|by left]); subst s'; simpl.
  - unfold connect. set (t0 := Build_rotatingTransport _ _ _ _ _ _).
    assert (Hu := update_cases p cfg t0 I). destruct (update p cfg t0) as [[e|] t1].
    { split; [by apply keeps_same|by left]. }
    destruct Hu as [Hf Hsame%same_connection_eq]. simpl. split.
    + intros i t Hi. exists t. split; [by apply lookup_app_l_Some|done].
    + intros i t [Hi|[_ Hi]]%lookup_app_Some; [by left|right].
      apply list_lookup_singleton_Some in Hi as [_ <-]. by exists cfg.
  - destruct (tr_transports s !! i) as [t0|] eqn:Hi;
      [|split; [by apply keeps_same|by left]]. simpl.
    assert (Hu := update_cases p cfg t0 (Hcoh i t0 Hi)).
    assert (Hc : connection (update p cfg t0).2 = connection t0).
    { destruct (update p cfg t0) as [[e|] t1]; [by destruct Hu as [-> _]|].
      exact (same_connection_eq _ _ (proj2 Hu)). }
    split.
    + intros j t Hj. destruct (decide (i = j)) as [<-|Hne].
      * rewrite Hi in Hj. injection Hj as <-. exists (update p cfg t0).2. split; [|exact Hc].
        by eapply list_lookup_insert_eq, lookup_lt_Some.
      * exists t. split; [|done]. simpl. by rewrite list_lookup_insert_ne.
    + intros j t [(<- & <- & _)|[_ Hj]]%list_lookup_insert_Some; [|by left].
      destruct (update p cfg t0) as [[e|] t1]; simpl in *.
      * left. by destruct Hu as [-> _].
      * right. exists cfg. rewrite Hc. by destruct Hu.
Qed.

Lemma do_provider_cache X (o : provider_op X) s trs i tr :
  cache_ok p (tr_gke s) (lookups_in <$> trs) → trs !! i = Some tr → call_justified tr X o →
  let r := do_provider X o s in
  cache_ok p (tr_gke r.2) (lookups_in <$> <[i := tr ++ [Ev o r.1]]> trs).
Proof.
  intros Hok Hi Hj r. rewrite list_fmap_insert, lookups_in_app.
  assert (Hi' : (lookups_in <$> trs) !! i = Some (lookups_in tr)) by by rewrite list_lookup_fmap, Hi.
  destruct o as [|X o|key ref ts cfg|j|j cfg|j]; try (rewrite app_nil_r, list_insert_id by done).
  - refine (cache_ok_else p _ _ _ _ Hok). subst r. simpl.
    unfold tokenSource, gets, modify, on_world, mbind, M_bind, mret, M_ret. cbn [fst snd].
    destruct (g_ts (tr_gke s)); [done|]. destruct (p_TokenSource p); [done|]. cbn [fst snd].
    by destruct (google_DefaultTokenSource _ _) as [[]].
  - exact (cache_ok_op p (tr_gke s) _ i (lookups_in tr) X o Hok Hi' Hj).
  - refine (cache_ok_else p _ _ _ _ Hok). subst r. simpl. unfold connect.
    by destruct (update p cfg _).1.
  - exact Hok.
  - refine (cache_ok_else p _ _ _ _ Hok). subst r. simpl. by destruct (tr_transports s !! j).
  - exact Hok.
Qed.

Lemma supplies_api s trs tr X (o : provider_op X) t cfg :
  provider_ok s trs → tr ∈ trs → call_justified tr X o → supplies s o t cfg →
  api_settings trs (t_key t) (t_ref t) cfg.
Proof.
  intros (Hcache & _ & Hseen) Htr Hj Hsup. destruct o as [| |key ref ts cfg'| |i cfg'|]; try done.
  - destruct Hsup as [-> [= -> -> _]]. destruct Hj as (c & Hl & Hcfg). by eapply looked_up_api.
  - destruct Hsup as [-> Hi]. destruct Hj as (e & key & ref & ts & c & He & Hc & Hl & Hcfg).
    destruct (Hseen tr e Htr He) as [Hconn _]. rewrite (Hconn _ _ Hc) in Hi.
    injection Hi as -> -> _. by eapply looked_up_api.
Qed.

(** What an operation shows when it is done. *)
Lemma seen_now s trs X (o : provider_op X) :
  transports_ok s trs → seen s trs (Ev o (do_provider X o s).1).
Proof.
  intros Ht. split.
  - intros i k Hc. destruct o; try done. simpl in Hc. unfold gets in Hc. simpl in Hc.
    apply fmap_Some in Hc as (k' & Hk & [= -> ->]). exact Hk.
  - intros i rt host Hs. destruct o as [| | | | |j]; try done. simpl in Hs. unfold gets in Hs.
    simpl in Hs. destruct (tr_transports s !! j) as [t|] eqn:Hj; [|done].
    injection Hs as <- <- <-. destruct (Ht j t Hj) as (cfg & Hapi & Hu & Hca & rt & Hrt & Hnew).
    exists t, cfg. split_and!; [done|done|]. split; [done|]. by exists rt.
Qed.

Lemma provider_ok_op s trs i tr X (o : provider_op X) :
  provider_ok s trs → trs !! i = Some tr → call_justified tr X o →
  provider_ok (do_provider X o s).2 (<[i := tr ++ [Ev o (do_provider X o s).1]]> trs).
Proof.
  intros Hok Hi Hj. assert (Hin := list_elem_of_lookup_2 _ _ _ Hi).
  assert (Hext := extends_insert trs i tr [Ev o (do_provider X o s).1] Hi).
  destruct (Hok) as (Hcache & Ht & Hseen).
  destruct (do_provider_transports X o s) as [Hk Hnew].
  { intros j t Hj'. destruct (Ht j t Hj') as (cfg & _ & Hf). by eapply follows_coherent. }
  split_and!.
  - by apply do_provider_cache.
  - intros j t Hj'. destruct (Hnew j t Hj') as [Hold|(cfg & Hf & Hsup)].
    + destruct (Ht j t Hold) as (cfg & Hapi & Hf). exists cfg.
      split; [by eapply api_settings_mono|done].
    + exists cfg. split; [|done]. eapply api_settings_mono; [exact Hext|].
      by eapply supplies_api.
  - intros tr' e Htr' He. eapply seen_mono; [exact Hext|exact Hk|].
    destruct (elem_of_insert_trace _ _ _ _ _ _ Hi Htr' He) as [->|(tr0 & Htr0 & He0)];
      [by apply seen_now|by eapply Hseen].
Qed.

Lemma provider_ok_new s trs : provider_ok s trs → provider_ok s (trs ++ [[]]).
Proof.
  intros (Hcache & Ht & Hseen). assert (Hext := extends_new trs). split_and!.
  - rewrite fmap_app. by apply cache_ok_new.
  - intros i t Hi. destruct (Ht i t Hi) as (cfg & Hapi & Hf). exists cfg.
    split; [by eapply api_settings_mono|done].
  - intros tr e [Htr| ->%list_elem_of_singleton]%elem_of_app He; [|by apply elem_of_nil in He].
    eapply seen_mono; [exact Hext|by apply keeps_same|by eapply Hseen].
Qed.

Lemma provider_ok_outside s s' trs : provider_ok s trs → outside s s' → provider_ok s' trs.
Proof.
  intros (Hcache & Ht & Hseen) [Hc Hs]. split_and!.
  - by eapply cache_ok_else.
  - intros i t. rewrite Hs. apply Ht.
  - intros tr e Htr He. unfold seen. rewrite Hs. by eapply Hseen.
Qed.

Lemma calls_ok c : calls_reachable c →
  threads_ok call_program c ∧ provider_ok (pool_shared c) (traces c).
Proof.
  intros (s & Hs & Hnone & Hr). split; [by eapply pool_threads_ok|].
  eapply (pool_trace_invariant call_program (λ _, do_provider) outside call_justified provider_ok);
    [| | | | |exact Hr].
  - apply call_program_justified.
  - intros _. exact provider_ok_op.
  - exact provider_ok_new.
  - intros s1 s2 trs. apply provider_ok_outside.
  - split_and!; [by apply cache_ok_start|intros i t; by rewrite Hnone|].
    by intros tr e ?%elem_of_nil.
Qed.

(** A request goes out as the settings it read say. *)
Lemma do_RoundTrip_answer i req tr rt req' :
  trace_of (do_RoundTrip i req) tr (Some (rt, req')) →
  ∃ e, e ∈ tr ∧ settings_of e = Some (i, (rt, creq_URL_Host req')).
Proof.
  intros (tr1 & cur & tr2 & -> & Hcur & Htr)%trace_of_bind.
  destruct cur as [[rt' host]|]; [|by destruct Htr]. destruct Htr as [-> [= -> ->]].
  apply trace_of_bind in Hcur as (tr3 & t & tr3' & -> & _ & Hcur). destruct t as [[[key ref] ts]|]; [|by destruct Hcur].
  apply trace_of_bind in Hcur as (tr4 & cfg & tr5 & -> & _ & Hcur).
  apply trace_of_bind in Hcur as (tr6 & err & tr7 & -> & _ & Hcur).
  destruct Hcur as (x & tr8 & -> & -> & <-). eexists. split.
  - rewrite app_nil_r, !elem_of_app. do 3 right. by left.
  - simpl. by case_bool_decide as Hhost; simpl; [rewrite Hhost|].
Qed.

(** The two models agree: running [RoundTrip] and [RESTConfig] by their critical sections is
    the same as running them in one go, as long as nobody else runs. *)
Lemma requests_alone i req ns remote s :
  run do_provider (do_RoundTrip i req) s = RoundTrip p i req s ∧
  run do_provider (get_RESTConfig ns remote) s = RESTConfig p ns remote s.
Proof.
  split; [|apply get_RESTConfig_alone].
  unfold do_RoundTrip, RoundTrip. rewrite run_bind.
  apply M_bind_ext; [apply get_current_alone|]. by intros [[rt host]|] s'.
Qed.

(** ** Properties *)

(** [C14] However requests, refreshes, cluster lookups and the making of connections interleave,
    every request goes out as the GKE API says: there is one answer of the API for the
    connection's cluster such that the host the request is sent to is that of the selected
    endpoint in this answer, and the TLS transport it is sent through was made for the CA in
    the same answer. Endpoint and CA are never mixed, and never those of another cluster. *)
Theorem requests_follow_the_api c n th i req rt req' :
  calls_reachable c → pool_threads c !! n = Some th → th_job th = CallRoundTrip i req →
  th_prog th = Ret (AnswerRoundTrip (Some (rt, req'))) →
  ∃ t cfg, tr_transports (pool_shared c) !! i = Some t ∧
    api_settings (traces c) (t_key t) (t_ref t) cfg ∧ uses cfg rt (creq_URL_Host req').
Proof.
  intros [Hth (_ & _ & Hseen)]%calls_ok Hn Hjob Hret. specialize (Hth n th Hn).
  rewrite Hjob, Hret in Hth. apply reaches_ret in Hth.
  apply trace_of_bind in Hth as (tr & r & tr' & Htr & Hr & [-> [= <-]]).
  rewrite app_nil_r in Htr. apply do_RoundTrip_answer in Hr as (e & He & Hset).
  destruct (Hseen (th_trace th) e) as [_ Hs]; [|by rewrite Htr|by apply Hs].
  apply list_elem_of_fmap_2. by eapply list_elem_of_lookup_2.
Qed.
End Requests.

(** ** Concrete calls *)

Section RequestsWitness.
#[local] Existing Instance FakeErrors.
#[local] Existing Instance FakeNet.

Abbreviation calls := (@pool provider_op provider_call transport_state provider_answer).
Abbreviation run_calls order c := (schedule (λ _, do_provider demo_provider) order c).

Definition demo_request : cluster_request := {| creq_URL_Host := "1.1.1.1"; creq_Host := "" |}.

(** A connection is made; the cluster moves; two requests on the connection interleave. *)
Definition before_calls : transport_state :=
  {| tr_gke := demo_gke_state 5 "1.1.1.1"; tr_transports := [] |}.

Definition all_calls : calls :=
  spawn call_program [CallRESTConfig "ns" (demo_gke_remote (demo_cluster_ref "p" "l" "c"));
    CallRoundTrip 0 demo_request; CallRoundTrip 0 demo_request]
    {| pool_shared := before_calls; pool_threads := [] |}.

Definition cluster_moves (now : Z) (address : string) (c : calls) : calls :=
  {| pool_shared := {|
       tr_gke := set_world {| fn_now := now; fn_answer := demo_answer address |}
         (tr_gke (pool_shared c));
       tr_transports := tr_transports (pool_shared c) |};
     pool_threads := pool_threads c |}.

Lemma cluster_moves_step now address c :
  pool_step call_program (λ _, do_provider demo_provider) outside c (cluster_moves now address c).
Proof. by apply step_interfere. Qed.

Definition one_hour : Z := 60 * Minute.

Definition demo_calls : calls :=
  run_calls [1; 2; 1; 2; 1; 1; 2; 2; 1; 2; 1; 2]
    (cluster_moves one_hour "2.2.2.2" (run_calls [0; 0; 0; 0; 0] all_calls)).

Lemma demo_calls_reachable : calls_reachable demo_provider demo_calls.
Proof.
  exists before_calls. split; [done|]. split; [done|].
  etrans; [apply (spawn_steps call_program (λ _, do_provider demo_provider))|].
  etrans; [apply schedule_steps|]. eapply rtc_l; [apply cluster_moves_step|apply schedule_steps].
Qed.

Definition first_request : thread :=
  default (start_thread call_program (CallRoundTrip 0 demo_request)) (pool_threads demo_calls !! 1).

Lemma first_request_at : pool_threads demo_calls !! 1 = Some first_request.
Proof.
  unfold first_request. assert (Hlen : length (pool_threads demo_calls) = 3) by reflexivity.
  destruct (lookup_lt_is_Some_2 (pool_threads demo_calls) 1) as [t Ht]; [lia|]. by rewrite Ht.
Qed.

Lemma requests_follow_the_api_witness :
  ∃ t cfg, tr_transports (pool_shared demo_calls) !! 0 = Some t ∧
    api_settings (traces demo_calls) (t_key t) (t_ref t) cfg ∧
    uses demo_provider cfg (Some "tls ca") "2.2.2.2".
Proof.
  destruct (requests_follow_the_api demo_provider demo_calls 1 first_request 0 demo_request
    (Some "tls ca") {| creq_URL_Host := "2.2.2.2"; creq_Host := "" |})
    as (t & cfg & Ht & Hapi & Hu).
  - exact demo_calls_reachable.
  - exact first_request_at.
  - reflexivity.
  - reflexivity.
  - exists t, cfg. split; [exact Ht|]. split; [exact Hapi|exact Hu].
Defined.
End RequestsWitness.
