(* ===== verification/Integration.v ===== *)
(** * The system with the GKE provider

    [System] is proved for any [RemoteConfigProvider] and [Transport] makes
    [GKEConfigProvider] one; together: whatever runs concurrently, a run that pushes to a GKE
    cluster is given a client for that cluster, and everybody the same one. *)

From stdpp Require Import base list strings gmap relations.
From S2P Require Import Prelude Threads GoStrings Kube Api Fake Rules FieldFilter.
From S2P Require Import Tracker Client FakeCluster Apply RemoteClients Sync SyncSpec System.
From S2P Require Import GKE Transport.

Section Integration.
Context {AE : ApiErrors} {AC : ApiClient} {UN : Unstructured} {UL : UnstructuredLaws}.
Context {PG : PrometheusGauge}.

(** The provider's state and the transports are part of the world. *)
Context {GN : GoNet} (p : GKEConfigProvider).
Context (provider_state : world → transport_state) (put : transport_state → world → world).

#[local] Instance gke_provider : RemoteConfigProvider :=
  GKERemoteConfigProvider p provider_state put.
Context {CF : ClientFactory}.

(** The client was made from a config with the settings that the selected endpoint has in an
    answer the provider gave for cluster [g]. *)
Definition client_of_cluster (g : GKECluster) (cl : client) : Prop :=
  ∃ ts s c cfg w, (cluster p (clusterPath g) g ts s).1 = Ok c ∧
    restConfig c (gke_Endpoint g) = Ok (rc_Endpoint cfg) ∧ (client_New cfg w).1 = Ok cl.

Lemma built_client_of_cluster ns remote cl :
  built ns remote cl → ∃ g, ref_of remote = Some g ∧ client_of_cluster g cl.
Proof.
  intros (w & cfg & w' & Hcfg & Hcl). simpl in Hcfg. unfold Transport.RESTConfig in Hcfg.
  destruct (gkeClusterName remote) as [key|e] eqn:Hkey; [|done].
  destruct (ref_of remote) as [g|] eqn:Hg; [|done]. exists g. split; [done|].
  assert (key = clusterPath g) as ->.
  { unfold gkeClusterName in Hkey. rewrite Hg in Hkey. by case_match; simplify_eq. }
  unfold RESTConfig_named, on_gke, mbind, M_bind in Hcfg. cbn [fst snd tr_gke] in Hcfg.
  destruct (tokenSource p _) as [[ts|e] g1]; [|done]. cbn [fst snd tr_gke] in Hcfg.
  destruct (cluster p (clusterPath g) g ts g1) as [[c|e] g2] eqn:Hc; [|done].
  cbn [fst snd] in Hcfg.
  destruct (restConfig c (gke_Endpoint g)) as [ep|e] eqn:Hep; [|done].
  unfold connect in Hcfg. case_match; [done|].
  unfold mbind, M_bind, mret, M_ret in Hcfg. cbn [fst snd] in Hcfg. injection Hcfg as <-.
  do 5 eexists. split; [by rewrite Hc|]. split; [|exact Hcl]. exact Hep.
Qed.

(** [C26] Pushing to the right cluster, concurrently: if a run obtained a client for a remote
    that names a real cluster, then the client was made with the endpoint settings of an
    answer for a cluster of the same project, location, name and endpoint; and any run with
    the client cache that obtains a client for such a cluster obtains the same one. *)
Theorem system_clients_are_for_their_cluster c i t ns remote g cl :
  reachable c → pool_threads c !! i = Some t →
  (ns, remote, Ok cl) ∈ remotes_of (th_trace t) →
  ref_of remote = Some g → real_cluster g →
  (∃ g', same_cluster g g' ∧ client_of_cluster g' cl) ∧
  (c_remoteClients (j_controller (th_job t)) = true →
   ∀ i' t' ns' remote' g' cl', pool_threads c !! i' = Some t' →
     c_remoteClients (j_controller (th_job t')) = true →
     (ns', remote', Ok cl') ∈ remotes_of (th_trace t') →
     ref_of remote' = Some g' → same_cluster g g' → cl' = cl).
Proof.
  intros Hc Hi Ha Hg Hreal. split.
  - destruct (reachable_built c Hc) as [_ Hb].
    destruct (Hb i t _ Hi Ha cl eq_refl) as [Hbuilt|(key & ns1 & remote1 & Hk & Hk1 & Hbuilt)];
      apply built_client_of_cluster in Hbuilt as (g' & Hg' & Hcl); exists g';
      (split; [|done]); simpl in *.
    + by simplify_eq.
    + by eapply Key_inj.
  - intros Hcache i' t' ns' remote' g' cl' Hi' Hcache' Ha' Hg' Hsame.
    apply reachable_cached in Hc.
    destruct (Hc _ _ _ Hi Hcache Ha cl eq_refl) as (key & Hk & Hcl).
    destruct (Hc _ _ _ Hi' Hcache' Ha' cl' eq_refl) as (key' & Hk' & Hcl'). simpl in *.
    rewrite (Key_same _ ns' _ _ _ _ _ Hg Hg' Hsame Hk) in Hk'. congruence.
Qed.
End Integration.

(** ** A concrete system *)

Section IntegrationWitness.
#[local] Existing Instance FakeErrors.
#[local] Existing Instance FakeUnstructured.
#[local] Existing Instance FakeGauge.
#[local] Existing Instance FakeNet.

(** A cluster that serves one object and one KRMSyncer that pushes it to a GKE cluster; the
    world is the provider's. A client is the host of its config. *)
Definition gke_syncer : KRMSyncer := {|
  ks_Namespace := "ns"; ks_Name := "s";
  ks_Spec := {| spec_Suspend := false; spec_Mode := ModePush;
                spec_Remote := demo_gke_remote (demo_cluster_ref "p" "l" "c");
                spec_Rules := [demo_rule ["spec"]] |};
  ks_Status := {| status_Conditions := [] |} |}.

#[local] Instance gke_clusters : ApiClient := {|
  world := transport_state;
  client := string;
  do_Get c key gvk w := (Ok source_object, w);
  do_List c w := (Ok [gke_syncer], w);
  do_GetNamespace c key w := (None, w);
  do_Create c ns w := (None, w);
  do_Delete c o w := (None, w);
  do_Patch c o opts w := ((None, o), w);
  do_StatusPatch c o opts w := (None, w);
|}.

#[local] Instance demo_gke_provider : RemoteConfigProvider :=
  GKERemoteConfigProvider demo_provider (λ w, w) (λ s _, s).

#[local] Instance gke_factory : ClientFactory :=
  {| client_New cfg w := (Ok (cfg_Host (rc_Endpoint cfg)), w) |}.

Definition gke_pusher : controller := {|
  c_reconciler := {| dr_LocalClient := "local"; dr_RemoteClient := "local";
    dr_GVK := demo_gvk; dr_Mode := ModePush;
    dr_Remote := {| rgvk_Cluster := ""; rgvk_GVK := demo_gvk |} |};
  c_remoteClients := true;
  c_failures := None |}.

Definition gke_job : job := {| j_controller := gke_pusher; j_request := demo_req |}.

Definition gke_start : transport_state :=
  {| tr_gke := demo_gke_state 0 "1.1.1.1"; tr_transports := [] |}.

(** One run, until it has its client. *)
Definition gke_run : pool :=
  schedule job_handle [0; 0; 0] (spawn job_program [gke_job] (start gke_start)).

Lemma gke_run_reachable : reachable gke_run.
Proof.
  exists gke_start. etrans; [apply (spawn_steps job_program job_handle)|].
  apply schedule_steps.
Qed.

Definition gke_thread : thread :=
  default (start_thread job_program gke_job) (pool_threads gke_run !! 0).

Lemma gke_thread_lookup : pool_threads gke_run !! 0 = Some gke_thread.
Proof.
  unfold gke_thread.
  assert (Hlen : length (pool_threads gke_run) = 1) by reflexivity.
  destruct (lookup_lt_is_Some_2 (pool_threads gke_run) 0) as [t Ht]; [lia|]. by rewrite Ht.
Qed.

Example gke_run_client :
  remotes_of (th_trace gke_thread) =
    [("ns", demo_gke_remote (demo_cluster_ref "p" "l" "c"), Ok "https://1.1.1.1")].
Proof. reflexivity. Qed.

Lemma system_clients_are_for_their_cluster_witness :
  ∃ g', same_cluster (demo_cluster_ref "p" "l" "c") g' ∧
    client_of_cluster demo_provider (λ w, w) (λ s _, s) g' "https://1.1.1.1".
Proof.
  refine (proj1 (system_clients_are_for_their_cluster demo_provider (λ w, w) (λ s _, s)
    gke_run 0 gke_thread "ns" (demo_gke_remote (demo_cluster_ref "p" "l" "c"))
    (demo_cluster_ref "p" "l" "c") "https://1.1.1.1" gke_run_reachable gke_thread_lookup
    _ eq_refl (conj eq_refl (conj eq_refl (conj eq_refl eq_refl))))).
  rewrite gke_run_client. left.
Defined.
End IntegrationWitness.
