(* ===== verification/Setup.v ===== *)
(** * Setting a KRMSyncer up ([KRMSyncerReconciler] of
      [syncer/controllers/krmsyncer_controller.go])

    The handler of the KRMSyncer objects: conditions, rule expansion, discovery, and the
    start of one dynamic controller per kind and source cluster. What is watched already
    is remembered in maps, which the theorems relate to the controllers that were
    started. Like the handler of object events, it is a program of atomic operations:
    between two of them the controllers it has started run already. *)

From stdpp Require Import base list strings gmap.
From Stdlib Require Import Ascii.
From S2P Require Import Prelude Threads GoStrings Kube Api Fake Rules.
From S2P Require Import Tracker Client FakeCluster RemoteClients Sync.

(** What the set-up uses of controller-runtime and client-go: the API for KRMSyncer
    objects, discovery, remote clusters with their caches, and the builder that starts a
    controller. *)
Class SetupLibs `{RemoteConfigProvider} := {
  do_GetSyncer : client → NamespacedName → world → res api_error KRMSyncer * world;
  do_StatusUpdate : client → KRMSyncer → world → option api_error * world;
  SetStatusCondition : list Condition → Condition → list Condition;
  GroupVersionKind_String : GroupVersionKind → string;
  with_Timeout : Z → rest_Config → rest_Config;
  discovery_client : Type;
  NewDiscoveryClientForConfig : rest_Config → res api_error discovery_client;
  ServerPreferredResources : discovery_client → world →
    (list APIResourceList * option api_error) * world;
  cluster : Type;
  cluster_New : rest_Config → option Z → world → res api_error cluster * world;
  cluster_Start : cluster → world → world;
  WaitForCacheSync : cluster → world → bool * world;
  cluster_GetClient : cluster → client;
}.

Definition DefaultMaxConcurrentReconciles : Z := 10.

(** Where a dynamic controller gets its events from: the manager's own cache, or the
    cache of a remote cluster. *)
Inductive watch_source {cluster : Type} : Type :=
| WatchLocal
| WatchRemote (c : cluster).
Arguments watch_source : clear implicits.

Section Setup.
Context {AE : ApiErrors} {AC : ApiClient} {RP : RemoteConfigProvider} {SL : SetupLibs}.
Context {GP : GroupVersionParser} {PG : PrometheusGauge}.

(** A controller as it is handed to the builder: its reconciler, whether the reconciler
    has the client cache, and its failure tracker. *)
Record controller_spec := {
  cs_Name : string;
  cs_Source : watch_source cluster;
  cs_GVK : GroupVersionKind;
  cs_MaxConcurrentReconciles : Z;
  cs_Reconciler : DynamicResourceReconciler;
  cs_HasRemoteClients : bool;
  cs_Failures : failureTracker;
}.

(** [Complete(dr)]: the controller is added to the manager, or an error. *)
Context (Complete : controller_spec → world → option api_error * world).

(** The reconciler's settings. *)
Record KRMSyncerReconciler := {
  r_Client : client;
  r_ManagerConfig : rest_Config;
  r_SyncPeriod : option Z;
  r_MaxConcurrentReconciles : Z;
}.

(** ** The operations of the set-up

    Calls of the API, of discovery, of clusters and of the builder; marks of the failure
    tracker; and the accesses to the reconciler's maps. *)
Inductive setup_operation : Type → Type :=
| OpGetSyncer (c : client) (req : NamespacedName) : setup_operation (res api_error KRMSyncer)
| OpStatusUpdate (c : client) (ks : KRMSyncer) : setup_operation (option api_error)
| OpRESTConfig (namespace : string) (remote : option RemoteConfig) :
    setup_operation (res goerr rest_Config)
| OpDiscover (dc : discovery_client) :
    setup_operation (list APIResourceList * option api_error)
| OpNewCluster (cfg : rest_Config) (period : option Z) : setup_operation (res api_error cluster)
| OpStartCluster (c : cluster) : setup_operation unit
| OpWaitForCacheSync (c : cluster) : setup_operation bool
| OpComplete (spec : controller_spec) : setup_operation (option api_error)
| OpMarkSetup (key : NamespacedName) (failed : bool) : setup_operation unit
| OpLookupCluster (key : string) : setup_operation (option cluster)
| OpStoreCluster (key : string) (c : cluster) : setup_operation unit
| OpIsWatched (gvk : GroupVersionKind) : setup_operation bool
| OpSetWatched (gvk : GroupVersionKind) : setup_operation unit
| OpIsWatchedRemote (rgvk : RemoteGVK) : setup_operation bool
| OpSetWatchedRemote (rgvk : RemoteGVK) : setup_operation unit.

Definition setup_handler : Type → Type := prog setup_operation.
#[export] Instance setup_handler_ret : MRet setup_handler := prog_ret.
#[export] Instance setup_handler_bind : MBind setup_handler := prog_bind.

(** The state: what is shared with the running handlers; the controllers of the manager,
    in the order they were added; and the reconciler's maps. *)
Record setup_state := {
  su_shared : shared;
  su_Controllers : list controller_spec;
  su_WatchedGVKs : gset GroupVersionKind;
  su_WatchedRemoteGVKs : gset RemoteGVK;
  su_RemoteClusters : gmap string cluster;
}.

Definition set_shared (sh : shared) (s : setup_state) : setup_state :=
  {| su_shared := sh; su_Controllers := su_Controllers s; su_WatchedGVKs := su_WatchedGVKs s;
     su_WatchedRemoteGVKs := su_WatchedRemoteGVKs s; su_RemoteClusters := su_RemoteClusters s |}.

Definition set_watched (gvk : GroupVersionKind) (s : setup_state) : setup_state :=
  {| su_shared := su_shared s; su_Controllers := su_Controllers s;
     su_WatchedGVKs := {[gvk]} ∪ su_WatchedGVKs s;
     su_WatchedRemoteGVKs := su_WatchedRemoteGVKs s; su_RemoteClusters := su_RemoteClusters s |}.

Definition set_watched_remote (rgvk : RemoteGVK) (s : setup_state) : setup_state :=
  {| su_shared := su_shared s; su_Controllers := su_Controllers s;
     su_WatchedGVKs := su_WatchedGVKs s;
     su_WatchedRemoteGVKs := {[rgvk]} ∪ su_WatchedRemoteGVKs s;
     su_RemoteClusters := su_RemoteClusters s |}.

Definition set_cluster (key : string) (c : cluster) (s : setup_state) : setup_state :=
  {| su_shared := su_shared s; su_Controllers := su_Controllers s;
     su_WatchedGVKs := su_WatchedGVKs s; su_WatchedRemoteGVKs := su_WatchedRemoteGVKs s;
     su_RemoteClusters := <[key := c]> (su_RemoteClusters s) |}.

(** A controller that was added, with its failure tracker. (The tracker of a controller
    that was not is garbage.) *)
Definition add_controller (spec : controller_spec) (s : setup_state) : setup_state :=
  let sh := su_shared s in
  {| su_shared := {| sh_world := sh_world sh; sh_clients := sh_clients sh;
       sh_trackers := sh_trackers sh ++ [cs_Failures spec]; sh_gauges := sh_gauges sh |};
     su_Controllers := su_Controllers s ++ [spec];
     su_WatchedGVKs := su_WatchedGVKs s; su_WatchedRemoteGVKs := su_WatchedRemoteGVKs s;
     su_RemoteClusters := su_RemoteClusters s |}.

(** [r.setupFailures] points to the first tracker. *)
Definition setupFailures : option nat := Some 0.

(** ** What the operations do *)

Definition on_shared {A} (m : M shared A) : M setup_state A := λ s,
  let x := m (su_shared s) in (x.1, set_shared x.2 s).
Definition on_world {A} (m : M world A) : M setup_state A := on_shared (at_world A m).

(** [Complete(dr)] of the builder. *)
Definition do_Complete (spec : controller_spec) : M setup_state (option api_error) :=
  err ← on_world (Complete spec);
  match err with
  | Some err => mret (Some err)
  | None => modify (add_controller spec) ;; mret None
  end.

Definition setup_handle (X : Type) (o : setup_operation X) : M setup_state X :=
  match o in setup_operation X return M setup_state X with
  | OpGetSyncer c req => on_world (do_GetSyncer c req)
  | OpStatusUpdate c ks => on_world (do_StatusUpdate c ks)
  | OpRESTConfig namespace remote => on_world (RESTConfig namespace remote)
  | OpDiscover dc => on_world (ServerPreferredResources dc)
  | OpNewCluster cfg period => on_world (cluster_New cfg period)
  | OpStartCluster c => on_world (λ w, (tt, cluster_Start c w))
  | OpWaitForCacheSync c => on_world (WaitForCacheSync c)
  | OpComplete spec => do_Complete spec
  | OpMarkSetup key failed => on_shared (mark_at setupFailures key failed)
  | OpLookupCluster key => gets (λ s, su_RemoteClusters s !! key)
  | OpStoreCluster key c => modify (set_cluster key c)
  | OpIsWatched gvk => gets (λ s, bool_decide (gvk ∈ su_WatchedGVKs s))
  | OpSetWatched gvk => modify (set_watched gvk)
  | OpIsWatchedRemote rgvk => gets (λ s, bool_decide (rgvk ∈ su_WatchedRemoteGVKs s))
  | OpSetWatchedRemote rgvk => modify (set_watched_remote rgvk)
  end.

(** ** The set-up *)

Context (r : KRMSyncerReconciler).

Definition controllerOptions : Z :=
  let n := r_MaxConcurrentReconciles r in
  if bool_decide (n ≤ 0)%Z then DefaultMaxConcurrentReconciles else n.

(** The end of the builder's chain: its error. *)
Definition start (spec : controller_spec) : setup_handler (option goerr) :=
  err ← perform (OpComplete spec);
  mret (EApi <$> err).

Definition push_spec (gvk : GroupVersionKind) : controller_spec := {|
  cs_Name := Sprintf "dynamic-watcher-%s-%s-%s" [gvk_Group gvk; gvk_Version gvk; gvk_Kind gvk];
  cs_Source := WatchLocal;
  cs_GVK := gvk;
  cs_MaxConcurrentReconciles := controllerOptions;
  cs_Reconciler := {|
    dr_LocalClient := r_Client r;
    dr_RemoteClient := r_Client r;
    dr_GVK := gvk;
    dr_Mode := ModePush;
    dr_Remote := {| rgvk_Cluster := ""; rgvk_GVK := GVK "" "" "" |} |};
  cs_HasRemoteClients := true;
  cs_Failures := newFailureTracker (failedObjectsGauge gvk);
|}.

Definition startWatcher (gvk : GroupVersionKind) : setup_handler (option goerr) :=
  start (push_spec gvk).

(** The options function passed to [cluster.New] sets the period only if it is
    positive. *)
Definition syncPeriod : option Z :=
  match r_SyncPeriod r with
  | Some d => if bool_decide (0 < d)%Z then Some d else None
  | None => None
  end.

Definition getOrCreateRemoteCluster (key namespace : string) (remote : option RemoteConfig) :
    setup_handler (res goerr cluster) :=
  known ← perform (OpLookupCluster key);
  match known with
  | Some c => mret (Ok c)
  | None =>
      cfg ← perform (OpRESTConfig namespace remote);
      match cfg with
      | Err err => mret (Err err)
      | Ok restConfig =>
          c ← perform (OpNewCluster restConfig syncPeriod);
          match c with
          | Err err => mret (Err (EApi err))
          | Ok c =>
              perform (OpStartCluster c) ;;
              synced ← perform (OpWaitForCacheSync c);
              if negb synced
              then mret (Err (Errorf "failed to sync remote cluster cache" []))
              else perform (OpStoreCluster key c) ;; mret (Ok c)
          end
      end
  end.

Definition pull_spec (c : cluster) (rgvk : RemoteGVK) : controller_spec :=
  let gvk := rgvk_GVK rgvk in {|
  cs_Name := Sprintf "dynamic-puller-%s-%s-%s-%s"
    [ReplaceAll "/"%char "-"%char (rgvk_Cluster rgvk); gvk_Group gvk; gvk_Version gvk; gvk_Kind gvk];
  cs_Source := WatchRemote c;
  cs_GVK := gvk;
  cs_MaxConcurrentReconciles := controllerOptions;
  cs_Reconciler := {|
    dr_LocalClient := r_Client r;
    dr_RemoteClient := cluster_GetClient c;
    dr_GVK := gvk;
    dr_Mode := ModePull;
    dr_Remote := rgvk |};
  cs_HasRemoteClients := false;
  cs_Failures := newFailureTracker (failedObjectsGauge gvk);
|}.

Definition startRemoteWatcher (krmsyncer : KRMSyncer) (rgvk : RemoteGVK) :
    setup_handler (option goerr) :=
  c ← getOrCreateRemoteCluster (rgvk_Cluster rgvk) (ks_Namespace krmsyncer)
    (spec_Remote (ks_Spec krmsyncer));
  match c with
  | Err err => mret (Some (ErrorfV "failed to get remote cluster: %v" [] err))
  | Ok c => start (pull_spec c rgvk)
  end.

Definition watchError (gvk : GroupVersionKind) (err : goerr) : goerr :=
  ErrorfW "watch %s: %w" [GroupVersionKind_String gvk] err.

(** The body of the loop over the kinds of a rule: the error it adds to [setupErrs]. *)
Definition setupGVK (krmsyncer : KRMSyncer) (mode : Mode) (gvk : GroupVersionKind) :
    setup_handler (option goerr) :=
  if bool_decide (mode = ModePull) then
    match Key (ks_Namespace krmsyncer) (spec_Remote (ks_Spec krmsyncer)) with
    | Err err => mret (Some err)
    | Ok connKey =>
        let rgvk := {| rgvk_Cluster := connKey; rgvk_GVK := gvk |} in
        watched ← perform (OpIsWatchedRemote rgvk);
        if (watched : bool) then mret None else
        err ← startRemoteWatcher krmsyncer rgvk;
        match err with
        | Some err => mret (Some (watchError gvk err))
        | None => perform (OpSetWatchedRemote rgvk) ;; mret None
        end
    end
  else
    watched ← perform (OpIsWatched gvk);
    if (watched : bool) then mret None else
    err ← startWatcher gvk;
    match err with
    | Some err => mret (Some (watchError gvk err))
    | None => perform (OpSetWatched gvk) ;; mret None
    end.

Definition setupRule (krmsyncer : KRMSyncer) (mode : Mode) (resourceLists : list APIResourceList)
    (rule : ResourceRule) (setupErrs : list goerr) : setup_handler (res goerr (list goerr)) :=
  match expandRule rule resourceLists with
  | Err err => mret (Err err)
  | Ok gvks =>
      errs ← forP gvks setupErrs (λ gvk errs,
        err ← setupGVK krmsyncer mode gvk;
        mret (appendError errs err));
      mret (Ok errs)
  end.

Definition needsExpansion (rules : list ResourceRule) : bool := existsb hasGlob rules.

Definition discoveryTimeout : Z := 10 * 1000000000.

Definition getDiscoveryClient (krmsyncer : KRMSyncer) (mode : Mode) :
    setup_handler (res goerr discovery_client) :=
  let newClient cfg :=
    match NewDiscoveryClientForConfig cfg with Ok dc => Ok dc | Err err => Err (EApi err) end in
  if bool_decide (mode = ModePush) then mret (newClient (r_ManagerConfig r)) else
  cfg ← perform (OpRESTConfig (ks_Namespace krmsyncer) (spec_Remote (ks_Spec krmsyncer)));
  match cfg with
  | Err err => mret (Err (ErrorfW "remote cluster config for Pull mode: %w" [] err))
  | Ok restConfig => mret (newClient (with_Timeout discoveryTimeout restConfig))
  end.

(** The resource lists the rules are expanded with. Errors of some API groups are
    ignored. *)
Definition discover (krmsyncer : KRMSyncer) (mode : Mode) :
    setup_handler (res goerr (list APIResourceList)) :=
  if negb (needsExpansion (spec_Rules (ks_Spec krmsyncer))) then mret (Ok []) else
  dc ← getDiscoveryClient krmsyncer mode;
  match dc with
  | Err err => mret (Err err)
  | Ok dc =>
      lists ← perform (OpDiscover dc);
      match lists.2 with
      | Some err =>
          if negb (IsGroupDiscoveryFailedError err) then mret (Err (EApi err))
          else mret (Ok lists.1)
      | None => mret (Ok lists.1)
      end
  end.

(** [meta.SetStatusCondition(&krmsyncer.Status.Conditions, c)]. *)
Definition setCondition (c : Condition) (krmsyncer : KRMSyncer) : KRMSyncer := {|
  ks_Namespace := ks_Namespace krmsyncer; ks_Name := ks_Name krmsyncer;
  ks_Spec := ks_Spec krmsyncer;
  ks_Status := {| status_Conditions :=
    SetStatusCondition (status_Conditions (ks_Status krmsyncer)) c |} |}.

Definition ConditionTrue : string := "True".

Definition suspendedCondition : Condition := {|
  cond_Type := "Suspended"; cond_Status := ConditionTrue; cond_Reason := "SuspendedBySpec";
  cond_Message := "Controller is suspended" |}.
Definition activeCondition : Condition := {|
  cond_Type := "Active"; cond_Status := ConditionTrue; cond_Reason := "Active";
  cond_Message := "Controller is active" |}.
Definition invalidRuleCondition (err : goerr) : Condition := {|
  cond_Type := "InvalidRule"; cond_Status := ConditionTrue; cond_Reason := "InvalidGlob";
  cond_Message := Error err |}.

(** [reconcile] up to its deferred failure tracking. *)
Definition setupAll (krmsyncer : KRMSyncer) : setup_handler (KRMSyncer * option goerr) :=
  let mode := effective_mode (spec_Mode (ks_Spec krmsyncer)) in
  lists ← discover krmsyncer mode;
  match lists with
  | Err err => mret (krmsyncer, Some err)
  | Ok resourceLists =>
      errs ← forP_return (spec_Rules (ks_Spec krmsyncer)) []
        (setupRule krmsyncer mode resourceLists);
      match errs with
      | Err err => mret (setCondition (invalidRuleCondition err) krmsyncer, Some err)
      | Ok setupErrs => mret (krmsyncer, Join_all setupErrs)
      end
  end.

Definition reconcile (krmsyncer : KRMSyncer) : setup_handler (KRMSyncer * option goerr) :=
  ret ← setupAll krmsyncer;
  match ret.2 with
  | Some _ => perform (OpMarkSetup (syncer_key krmsyncer) true)
  | None => perform (OpMarkSetup (syncer_key krmsyncer) false)
  end ;;
  mret ret.

(** The deferred status update, whose error is only logged. *)
Definition updateStatus (krmsyncer : KRMSyncer) : setup_handler unit :=
  perform (OpStatusUpdate (r_Client r) krmsyncer) ;; mret tt.

(** [KRMSyncerReconciler.Reconcile]. *)
Definition Reconcile (req : NamespacedName) : setup_handler (option goerr) :=
  got ← perform (OpGetSyncer (r_Client r) req);
  match got with
  | Err err =>
      (if IsNotFound err then perform (OpMarkSetup req false) else mret tt) ;;
      mret (IgnoreNotFound err)
  | Ok krmSyncer =>
      if spec_Suspend (ks_Spec krmSyncer) then
        perform (OpMarkSetup req false) ;;
        updateStatus (setCondition suspendedCondition krmSyncer) ;;
        mret None
      else
        ret ← reconcile (setCondition activeCondition krmSyncer);
        updateStatus ret.1 ;;
        mret ret.2
  end.

(** The reconciler before its start: it has no maps, no client cache and no tracker, and the
    manager no controllers of kinds. *)
Definition unset_state (w : world) (gauges : gmap gauge_id gauge) : setup_state := {|
  su_shared := {| sh_world := w; sh_clients := ∅; sh_trackers := []; sh_gauges := gauges |};
  su_Controllers := []; su_WatchedGVKs := ∅; su_WatchedRemoteGVKs := ∅;
  su_RemoteClusters := ∅ |}.

(** The fields that [SetupWithManager] initializes; the new tracker is the first one. *)
Definition init_fields (s : setup_state) : setup_state := {|
  su_shared := {| sh_world := sh_world (su_shared s); sh_clients := newRemoteClientCache;
    sh_trackers := newFailureTracker SetupFailed :: sh_trackers (su_shared s);
    sh_gauges := sh_gauges (su_shared s) |};
  su_Controllers := su_Controllers s; su_WatchedGVKs := ∅; su_WatchedRemoteGVKs := ∅;
  su_RemoteClusters := ∅ |}.

(** [SetupWithManager], with the builder's [For(&KRMSyncer{}).Complete(r)]. *)
Definition SetupWithManager (For_Complete : KRMSyncerReconciler → world → option api_error * world) :
    M setup_state (option goerr) :=
  modify init_fields ;;
  err ← on_world (For_Complete r);
  mret (EApi <$> err).

(** The state in which the reconciler starts. *)
Definition initial_state (w : world) (gauges : gmap gauge_id gauge) : setup_state :=
  init_fields (unset_state w gauges).

Lemma SetupWithManager_initial For_Complete w gauges :
  let x := For_Complete r w in
  SetupWithManager For_Complete (unset_state w gauges) = (EApi <$> x.1, initial_state x.2 gauges).
Proof. done. Qed.
End Setup.
