(* ===== verification/SetupTraces.v ===== *)
(** * The traces of set-ups

    What a set-up does, in order, whatever its operations answer: it reads its KRMSyncer,
    asks discovery, works through the rules, marks the failure tracker and updates the
    status. Every controller it hands to the builder is one that the KRMSyncer asks for. *)

From stdpp Require Import base list strings gmap.
From S2P Require Import Prelude Threads GoStrings Kube Api Fake Rules Tracker.
From S2P Require Import Client FakeCluster RemoteClients Sync Setup.

(** What is watched: a kind of the local cluster, or of a remote one. *)
Definition watch_id : Type := GroupVersionKind + RemoteGVK.

Section SetupTraces.
Context {AE : ApiErrors} {AC : ApiClient} {RP : RemoteConfigProvider} {SL : SetupLibs}.
Context {GP : GroupVersionParser} {PG : PrometheusGauge}.
Context (r : KRMSyncerReconciler).
Implicit Types tr : trace setup_operation.

Definition watch_of (spec : controller_spec) : watch_id :=
  if bool_decide (dr_Mode (cs_Reconciler spec) = ModePush)
  then inl (cs_GVK spec) else inr (dr_Remote (cs_Reconciler spec)).

(** The watch a kind of a KRMSyncer needs; there is none without a connection key. *)
Definition needed_watch (ks : KRMSyncer) (mode : Mode) (gvk : GroupVersionKind) :
    option watch_id :=
  if bool_decide (mode = ModePull) then
    match Key (ks_Namespace ks) (spec_Remote (ks_Spec ks)) with
    | Ok key => Some (inr {| rgvk_Cluster := key; rgvk_GVK := gvk |})
    | Err _ => None
    end
  else Some (inl gvk).

(** A controller that a KRMSyncer asks for, when these resources were discovered: for a kind
    of one of its rules, on the cluster its mode and remote say. *)
Definition asked_for (ks : KRMSyncer) (lists : list APIResourceList) (spec : controller_spec) :
    Prop :=
  ∃ rule gvks, rule ∈ spec_Rules (ks_Spec ks) ∧ expandRule rule lists = Ok gvks ∧
    cs_GVK spec ∈ gvks ∧
    needed_watch ks (effective_mode (spec_Mode (ks_Spec ks))) (cs_GVK spec) =
      Some (watch_of spec).

(** ** Reading traces *)

Definition mode_of (ks : KRMSyncer) : Mode := effective_mode (spec_Mode (ks_Spec ks)).

(** The answer to the read of the KRMSyncer. *)
Definition read_of tr : option (res api_error KRMSyncer) :=
  match tr with
  | Ev o x :: _ =>
      match o in setup_operation X return X → option (res api_error KRMSyncer) with
      | OpGetSyncer _ _ => Some
      | _ => λ _, None
      end x
  | [] => None
  end.

(** A set-up that read an active KRMSyncer. *)
Definition set_up tr (ks : KRMSyncer) : Prop :=
  read_of tr = Some (Ok ks) ∧ spec_Suspend (ks_Spec ks) = false.

(** The result of the discovery, which follows the read. *)
Definition discovered (ks : KRMSyncer) tr (x : res goerr (list APIResourceList)) : Prop :=
  ∃ e tr1 tr2, tr = e :: tr1 ++ tr2 ∧
    trace_of (discover r (setCondition activeCondition ks) (mode_of ks)) tr1 x.

(** What the KRMSyncer needs watched, when these resources were discovered. *)
Definition needs (ks : KRMSyncer) (lists : list APIResourceList) (i : watch_id) : Prop :=
  ∃ rule gvks gvk, rule ∈ spec_Rules (ks_Spec ks) ∧ expandRule rule lists = Ok gvks ∧
    gvk ∈ gvks ∧ needed_watch ks (mode_of ks) gvk = Some i.

Lemma asked_for_needs ks lists spec : asked_for ks lists spec → needs ks lists (watch_of spec).
Proof. intros (rule & gvks & ? & ? & ? & ?). by exists rule, gvks, (cs_GVK spec). Qed.

(** The marks of the failure tracker, and the status updates, in order. *)
Definition setup_mark (e : Threads.event setup_operation) : option (NamespacedName * bool) :=
  let 'Ev o _ := e in match o with OpMarkSetup key failed => Some (key, failed) | _ => None end.
Definition setup_marks tr : list (NamespacedName * bool) := omap setup_mark tr.

Definition status_update (e : Threads.event setup_operation) : option KRMSyncer :=
  let 'Ev o _ := e in match o with OpStatusUpdate _ ks => Some ks | _ => None end.
Definition status_updates tr : list KRMSyncer := omap status_update tr.

(** A set-up with this trace has asked for the controller. *)
Definition asked_in tr (spec : controller_spec) : Prop :=
  ∃ ks lists, set_up tr ks ∧ discovered ks tr (Ok lists) ∧ asked_for ks lists spec.

(** The operations between the read and the mark. *)
Definition quiet_op (X : Type) (o : setup_operation X) : Prop :=
  match o with
  | OpGetSyncer _ _ | OpStatusUpdate _ _ | OpMarkSetup _ _ => False
  | _ => True
  end.

(** Each controller that is handed to the builder is asked for. *)
Definition rule_op (ks : KRMSyncer) (lists : list APIResourceList) (X : Type)
    (o : setup_operation X) : Prop :=
  match o with OpComplete spec => asked_for ks lists spec | _ => quiet_op X o end.

(** After [tr0], the discovery has found the resources the controllers are for. *)
Definition found (ks : KRMSyncer) tr0 tr (lists : list APIResourceList) : Prop :=
  ∃ tr1 tr2, tr = tr0 ++ tr1 ++ tr2 ∧ trace_of (discover r ks (mode_of ks)) tr1 (Ok lists).
Definition setup_op (ks : KRMSyncer) tr0 tr (X : Type) (o : setup_operation X) : Prop :=
  match o with
  | OpComplete spec => ∃ lists, found ks tr0 tr lists ∧ asked_for ks lists spec
  | _ => quiet_op X o
  end.

(** ** What a set-up does *)

Lemma start_guarded (G : trace setup_operation → ∀ X, setup_operation X → Prop) tr0 spec : G tr0 _ (OpComplete spec) → guarded G tr0 (start spec).
Proof. intros HG. unfold start. by repeat guarded_step. Qed.

Lemma setupGVK_guarded ks lists mode gvk tr0 :
  (∀ spec, cs_GVK spec = gvk → needed_watch ks mode gvk = Some (watch_of spec) →
    asked_for ks lists spec) →
  guarded (λ _, rule_op ks lists) tr0 (setupGVK r ks mode gvk).
Proof.
  intros HΦ. unfold setupGVK, startWatcher, startRemoteWatcher, getOrCreateRemoteCluster.
  repeat first [exact I|apply start_guarded; apply HΦ; [done|]|guarded_step].
  - unfold needed_watch. by repeat case_match; simplify_eq/=.
  - unfold needed_watch. by repeat case_match; simplify_eq/=.
Qed.

Lemma setupRules_guarded ks lists tr0 :
  guarded (λ _, rule_op ks lists) tr0 (forP_return (spec_Rules (ks_Spec ks)) []
    (setupRule r ks (mode_of ks) lists)).
Proof.
  guarded_step. unfold setupRule. destruct (expandRule _ _) as [gvks|e] eqn:He; [|exact I].
  repeat guarded_step. apply setupGVK_guarded. intros spec <- Hw. by eexists _, gvks.
Qed.

Lemma setupAll_guarded ks tr0 : guarded (setup_op ks tr0) tr0 (setupAll r ks).
Proof.
  unfold setupAll. apply guarded_bind.
  { unfold discover, getDiscoveryClient. repeat first [exact I|guarded_step]. }
  intros tr1 [lists|e] Htr; [|exact I]. apply guarded_bind; [|by intros tr2 [errs|e] _].
  eapply guarded_weaken; [|apply guarded_prefix, setupRules_guarded].
  intros tr X o [Ho [tr2 ->]]. destruct o; try exact Ho. exists lists. split; [|exact Ho].
  exists tr1, tr2. by rewrite (assoc_L (++)).
Qed.

Lemma setup_op_quiet ks tr0 tr X (o : setup_operation X) : setup_op ks tr0 tr X o → quiet_op X o.
Proof. by destruct o. Qed.

Lemma setupAll_trace ks tr ret :
  trace_of (setupAll r ks) tr ret →
  ∃ tr1 lists tr2, tr = tr1 ++ tr2 ∧ trace_of (discover r ks (mode_of ks)) tr1 lists ∧
  match lists with
  | Err e => tr2 = [] ∧ ret = (ks, Some e)
  | Ok lists => ∃ errs,
      trace_of (forP_return (spec_Rules (ks_Spec ks)) []
        (setupRule r ks (mode_of ks) lists)) tr2 errs ∧
      ret = match errs with
        | Err e => (setCondition (invalidRuleCondition e) ks, Some e)
        | Ok setupErrs => (ks, Join_all setupErrs)
        end
  end.
Proof.
  intros (tr1 & lists & tr2 & -> & H1 & H2)%trace_of_bind. exists tr1, lists, tr2.
  split_and!; [done..|]. destruct lists as [lists|e]; [|by destruct H2 as [-> ->]].
  apply trace_of_bind in H2 as (tr3 & errs & tr4 & -> & H3 & H4). exists errs.
  destruct errs as [errs|e]; destruct H4 as [-> ->]; by rewrite app_nil_r.
Qed.

(** The trace of a whole set-up. *)
Lemma set_up_trace req tr out :
  trace_of (Setup.Reconcile r req) tr out →
  ∃ got rest, tr = Ev (OpGetSyncer (r_Client r) req) got :: rest ∧
  match got with
  | Err e =>
      if IsNotFound e then rest = [Ev (OpMarkSetup req false) tt] ∧ out = None
      else rest = [] ∧ out = Some (EApi e)
  | Ok ks =>
      if spec_Suspend (ks_Spec ks) then ∃ x, out = None ∧
        rest = [Ev (OpMarkSetup req false) tt;
                Ev (OpStatusUpdate (r_Client r) (setCondition suspendedCondition ks)) x]
      else ∃ tr' ks' x, trace_of (setupAll r (setCondition activeCondition ks)) tr' (ks', out) ∧
        rest = tr' ++ [Ev (OpMarkSetup (syncer_key ks) (bool_decide (out ≠ None))) tt;
                       Ev (OpStatusUpdate (r_Client r) ks') x]
  end.
Proof.
  intros (tr0 & got & rest & -> & (x0 & tr1 & -> & -> & ->) & Htr)%trace_of_bind.
  exists x0, rest. split; [done|]. destruct x0 as [ks|e].
  - destruct (spec_Suspend (ks_Spec ks)).
    + apply trace_of_bind in Htr as (tr1 & u & tr2 & -> & (m & tr3 & -> & -> & _) & H2).
      destruct m.
      apply trace_of_bind in H2 as (tr4 & u' & tr5 & -> & (x & tr6 & -> & -> & _) & -> & ->).
      by exists x.
    + apply trace_of_bind in Htr as (tr1 & [ks' err] & tr2 & -> & H1 & H2).
      apply trace_of_bind in H1 as (tr3 & [ks1 err1] & tr4 & -> & H3 & H4).
      apply trace_of_bind in H2 as (tr5 & u & tr6 & -> & (x & tr7 & -> & -> & _) & -> & ->).
      exists tr3, ks', x. apply trace_of_bind in H4 as (tr8 & u' & tr9 & -> & H4 & -> & [= -> ->]).
      destruct err1 as [e|]; destruct H4 as (m & tr10 & -> & -> & _); destruct m;
        by rewrite <-!(assoc_L (++)).
  - unfold IgnoreNotFound in Htr. destruct (IsNotFound e).
    + apply trace_of_bind in Htr as (tr1 & u & tr2 & -> & (m & tr3 & -> & -> & _) & -> & ->).
      by destruct m.
    + by destruct Htr as [-> ->].
Qed.

Lemma setupAll_quiet ks tr ret :
  trace_of (setupAll r ks) tr ret → setup_marks tr = [] ∧ status_updates tr = [].
Proof.
  intros Htr. assert (Hq := guarded_weaken _ (λ _, quiet_op) _ _ (setup_op_quiet ks [])
    (setupAll_guarded ks [])).
  assert (He := λ X o x, guarded_elem _ _ _ _ X o x Hq Htr). clear Htr Hq. induction tr as [|[X o x] tr IH]; [done|].
  destruct IH as [Hm Hs]; [intros Y o' x' Hin; eapply (He Y); by right|].
  specialize (He X o x ltac:(by left)).
  change (setup_marks (Ev o x :: tr)) with
    (match setup_mark (Ev o x) with Some m => m :: setup_marks tr | None => setup_marks tr end).
  change (status_updates (Ev o x :: tr)) with
    (match status_update (Ev o x) with Some k => k :: status_updates tr | None => status_updates tr end).
  rewrite Hm, Hs. by destruct o.
Qed.

Lemma setup_marks_app tr1 tr2 : setup_marks (tr1 ++ tr2) = setup_marks tr1 ++ setup_marks tr2.
Proof. apply omap_app. Qed.

(** The marks of a set-up. *)
Lemma set_up_marks req tr out :
  trace_of (Setup.Reconcile r req) tr out →
  match read_of tr with
  | Some (Err e) =>
      if IsNotFound e then out = None ∧ setup_marks tr = [(req, false)]
      else out = Some (EApi e) ∧ setup_marks tr = []
  | Some (Ok ks) =>
      if spec_Suspend (ks_Spec ks) then out = None ∧ setup_marks tr = [(req, false)]
      else setup_marks tr = [(syncer_key ks, bool_decide (out ≠ None))]
  | None => False
  end.
Proof.
  intros (got & rest & -> & Htr)%set_up_trace. cbn [read_of]. destruct got as [ks|e].
  - destruct (spec_Suspend (ks_Spec ks)); [by destruct Htr as (x & -> & ->)|].
    destruct Htr as (tr' & ks' & x & [Hm _]%setupAll_quiet & ->).
    change (setup_marks (tr' ++ [Ev (OpMarkSetup (syncer_key ks) (bool_decide (out ≠ None))) tt;
      Ev (OpStatusUpdate (r_Client r) ks') x]) = [(syncer_key ks, bool_decide (out ≠ None))]).
    by rewrite setup_marks_app, Hm.
  - by destruct (IsNotFound e); destruct Htr as [-> ->].
Qed.

(** What a set-up of an active KRMSyncer found out. *)
Lemma set_up_discovered req tr out ks :
  trace_of (Setup.Reconcile r req) tr out → set_up tr ks →
  ∃ lists, discovered ks tr lists ∧ match lists with Err e => out = Some e | Ok _ => True end.
Proof.
  intros (got & rest & -> & Htr)%set_up_trace [[= ->] Hs]. rewrite Hs in Htr.
  destruct Htr as (tr' & ks' & x & (tr1 & lists & tr2 & -> & H1 & H2)%setupAll_trace & ->).
  exists lists. split.
  - eexists _, tr1, _. split; [|exact H1]. by rewrite <-(assoc_L (++)).
  - destruct lists; [done|]. by destruct H2 as [_ [= -> ->]].
Qed.

(** *** Set-ups that are still running *)

(** When an operation is done: nothing comes after the mark but the status update, nothing
    after that; and a controller is handed to the builder if the KRMSyncer asks for it. *)
Definition setup_order tr (X : Type) (o : setup_operation X) : Prop :=
  status_updates tr = [] ∧
  match o with
  | OpStatusUpdate _ _ => length (setup_marks tr) = 1
  | _ => setup_marks tr = []
  end ∧
  match o with
  | OpComplete spec => asked_in tr spec
  | _ => True
  end.

Lemma set_up_app tr1 tr2 ks : set_up tr1 ks → set_up (tr1 ++ tr2) ks.
Proof. intros [Hr Hs]. split; [|done]. by destruct tr1 as [|[]]. Qed.

Lemma asked_in_app tr1 tr2 spec : asked_in tr1 spec → asked_in (tr1 ++ tr2) spec.
Proof.
  intros (ks & lists & Hks & (e & tr3 & tr4 & -> & Hd) & Ha). exists ks, lists.
  split_and!; [by apply set_up_app| |done]. exists e, tr3, (tr4 ++ tr2).
  split; [|done]. simpl. by rewrite <-(assoc_L (++)).
Qed.

Lemma guarded_order {A} ks e tr0 (p : setup_handler A) :
  guarded (setup_op (setCondition activeCondition ks) [e]) tr0 p →
  setup_marks tr0 = [] → status_updates tr0 = [] → set_up tr0 ks →
  guarded setup_order tr0 p.
Proof.
  revert tr0. induction p as [a|X o k IH]; intros tr0; [done|]. intros [Ho Hk] Hm Hs Hks. split.
  - split; [done|]. destruct o; try done. split; [done|].
    destruct Ho as (lists & (tr1 & tr2 & -> & Hd) & Ha). exists ks, lists.
    split_and!; [done| |done]. by exists e, tr1, tr2.
  - intros x. apply IH; [apply Hk| | |by apply set_up_app].
    + rewrite setup_marks_app, Hm. by destruct o.
    + unfold status_updates in *. rewrite omap_app, Hs. by destruct o.
Qed.

Lemma updateStatus_order {A} ks (a : A) tr0 :
  length (setup_marks tr0) = 1 → status_updates tr0 = [] →
  guarded setup_order tr0 (updateStatus r ks ≫= λ _, mret a).
Proof. intros Hm Hs. apply guarded_bind; [apply guarded_bind; [by apply guarded_perform|done]|done]. Qed.

Lemma set_up_guarded req : guarded setup_order [] (Setup.Reconcile r req).
Proof.
  apply guarded_bind; [by apply guarded_perform|]. intros tr1 got (x & tr2 & -> & -> & ->).
  cbn [app]. destruct x as [ks|e].
  - destruct (spec_Suspend (ks_Spec ks)) eqn:Hsus.
    + apply guarded_bind; [by apply guarded_perform|]. intros tr1 u (x & tr2 & -> & -> & ->).
      by apply updateStatus_order.
    + apply guarded_bind.
      * apply guarded_bind; [eapply guarded_order; [apply setupAll_guarded|done..]|].
        intros tr1 [ks' [e|]] [Hm Hs]%setupAll_quiet;
          (apply guarded_bind; [apply guarded_perform; by split|done]).
      * intros tr1 [ks' out] (tr2 & [ks1 out1] & tr3 & -> & [Hm Hs]%setupAll_quiet & Htr)%trace_of_bind.
        apply trace_of_bind in Htr as (tr4 & u & tr5 & -> & Htr & -> & _).
        apply updateStatus_order.
        -- change (length (setup_marks (tr2 ++ tr4 ++ [])) = 1).
           rewrite !setup_marks_app, Hm. by destruct out1; destruct Htr as (x & tr6 & -> & -> & _).
        -- change (status_updates (tr2 ++ tr4 ++ []) = []). unfold status_updates in *.
           rewrite !omap_app, Hs. by destruct out1; destruct Htr as (x & tr6 & -> & -> & _).
  - apply guarded_bind; [|done]. by destruct (IsNotFound e).
Qed.

(** The result of a set-up: it is known as soon as only the status update is left. *)
Definition set_up_result (p : setup_handler (option goerr)) : option (option goerr) :=
  match p with
  | Ret out => Some out
  | @Do _ _ X o k =>
      match o in setup_operation X
        return (X → prog setup_operation (option goerr)) → option (option goerr) with
      | OpStatusUpdate _ _ => λ k, match k None with Ret out => Some out | Do _ _ => None end
      | _ => λ _, None
      end k
  end.

(** What the failure tracker learns from a set-up, once its result is known. *)
Definition set_up_verdict (req : NamespacedName) tr (p : setup_handler (option goerr)) :
    option (NamespacedName * bool) :=
  match set_up_result p, read_of tr with
  | Some out, Some (Ok ks) =>
      if spec_Suspend (ks_Spec ks) then Some (req, false)
      else Some (syncer_key ks, bool_decide (out ≠ None))
  | Some _, Some (Err e) => if IsNotFound e then Some (req, false) else None
  | _, _ => None
  end.

Lemma set_up_marks_verdict req tr out :
  trace_of (Setup.Reconcile r req) tr out →
  setup_marks tr = option_list (set_up_verdict req tr (Ret out)).
Proof.
  intros Htr%set_up_marks. unfold set_up_verdict. simpl.
  destruct (read_of tr) as [[ks|e]|]; [|destruct (IsNotFound e)|done].
  - destruct (spec_Suspend (ks_Spec ks)); [by destruct Htr|exact Htr].
  - by destruct Htr.
  - by destruct Htr.
Qed.

(** The marks of a set-up so far. *)
Lemma set_up_marked req tr p :
  reaches (Setup.Reconcile r req) tr p →
  setup_marks tr = option_list (set_up_verdict req tr p).
Proof.
  intros Hr. destruct p as [out|X o k]; [by apply set_up_marks_verdict, reaches_ret|].
  assert (Ho := guarded_reaches _ _ _ _ _ _ (set_up_guarded req) Hr). simpl in Ho.
  destruct Ho as (Hs & Hm & _). destruct o; try exact Hm.
  assert (Hr' := reaches_step _ _ _ _ None Hr).
  destruct (k None) as [out|Y o' k'] eqn:Hk.
  - apply reaches_ret, set_up_marks_verdict in Hr'.
    rewrite setup_marks_app, app_nil_r in Hr'. rewrite Hr'.
    unfold set_up_verdict. simpl. rewrite Hk. by destruct tr as [|[]].
  - exfalso. assert (Ho' := guarded_reaches _ _ _ _ _ _ (set_up_guarded req) Hr').
    destruct Ho' as [Hs' _]. simpl in Hs'. unfold status_updates in Hs'. rewrite omap_app in Hs'.
    by apply app_nil in Hs' as [_ ?].
Qed.

(** ** The discovery's result is determined by the trace *)

Definition config_answer (e : Threads.event setup_operation) : option (res goerr rest_Config) :=
  let 'Ev o x := e in
  match o in setup_operation X return X → option (res goerr rest_Config) with
  | OpRESTConfig _ _ => Some
  | _ => λ _, None
  end x.
Definition discovery_answer (e : Threads.event setup_operation) :
    option (list APIResourceList * option api_error) :=
  let 'Ev o x := e in
  match o in setup_operation X return X → option (list APIResourceList * option api_error) with
  | OpDiscover _ => Some
  | _ => λ _, None
  end x.

Lemma getDiscoveryClient_unique ks mode tr1 tr2 tr1' tr2' x y :
  trace_of (getDiscoveryClient r ks mode) tr1 x → trace_of (getDiscoveryClient r ks mode) tr1' y →
  tr1 ++ tr2 = tr1' ++ tr2' → x = y ∧ tr2 = tr2'.
Proof.
  unfold getDiscoveryClient. case_bool_decide; [by intros [-> ->] [-> ->]|].
  intros (c & tr3 & -> & H1) (c' & tr3' & -> & H2) Heq.
  assert (Hc := f_equal (λ l, head l ≫= config_answer) Heq). apply (f_equal tail) in Heq.
  injection Hc as <-. destruct c; destruct H1 as [-> ->]; destruct H2 as [-> ->]; done.
Qed.

Lemma discover_unique ks mode tr1 tr2 tr1' tr2' x y :
  trace_of (discover r ks mode) tr1 x → trace_of (discover r ks mode) tr1' y →
  tr1 ++ tr2 = tr1' ++ tr2' → x = y.
Proof.
  unfold discover. destruct (negb _); [by intros [-> ->] [-> ->]|].
  intros (tr3 & dc & tr4 & -> & H1 & H2)%trace_of_bind (tr3' & dc' & tr4' & -> & H1' & H2')%trace_of_bind.
  rewrite <-!(assoc_L (++)). intros Heq.
  destruct (getDiscoveryClient_unique _ _ _ _ _ _ _ _ H1 H1' Heq) as [<- Heq']. clear H1 H1' Heq.
  destruct dc as [dc|e]; [|by destruct H2 as [_ ->], H2' as [_ ->]].
  destruct H2 as (l & tr5 & -> & H2), H2' as (l' & tr5' & -> & H2').
  apply (f_equal (λ l, head l ≫= discovery_answer)) in Heq'. injection Heq' as <-.
  cbn [setup_handler_bind prog_bind] in H2, H2'. destruct l as [l [err|]]; simpl in H2, H2';
    [destruct (negb (IsGroupDiscoveryFailedError err))|];
    by destruct H2 as [_ ->], H2' as [_ ->].
Qed.

Lemma discovered_unique ks tr x y : discovered ks tr x → discovered ks tr y → x = y.
Proof.
  intros (e & tr1 & tr2 & -> & H1) (e' & tr1' & tr2' & [= _ Heq] & H2).
  by eapply discover_unique.
Qed.

(** ** Remote clusters

    A cluster whose cache does not sync has been started, and is not remembered: nothing
    stops it, and the next set-up starts another one. *)
Definition cluster_start (e : Threads.event setup_operation) : option cluster :=
  let 'Ev o _ := e in match o with OpStartCluster c => Some c | _ => None end.
Definition cluster_store (e : Threads.event setup_operation) : option (string * cluster) :=
  let 'Ev o _ := e in match o with OpStoreCluster key c => Some (key, c) | _ => None end.

Lemma getOrCreateRemoteCluster_clusters key ns remote tr out :
  trace_of (getOrCreateRemoteCluster r key ns remote) tr out →
  (omap cluster_start tr = [] ∧ omap cluster_store tr = []) ∨
  ∃ c, omap cluster_start tr = [c] ∧
    ((out = Ok c ∧ omap cluster_store tr = [(key, c)]) ∨
     (out = Err (Errorf "failed to sync remote cluster cache" []) ∧ omap cluster_store tr = [])).
Proof.
  unfold getOrCreateRemoteCluster. intros ([c|] & tr1 & -> & Htr).
  { destruct Htr as [-> _]. by left. }
  destruct Htr as ([cfg|e] & tr2 & -> & Htr); [|destruct Htr as [-> _]; by left].
  destruct Htr as ([c|e] & tr3 & -> & Htr); [|destruct Htr as [-> _]; by left].
  destruct Htr as ([] & tr4 & -> & synced & tr5 & -> & Htr). right. exists c.
  destruct synced; simpl in Htr.
  - destruct Htr as ([] & tr6 & -> & -> & ->). split; [done|by left].
  - destruct Htr as [-> ->]. split; [done|by right].
Qed.
End SetupTraces.
