(* ===== verification/SetupSpec.v ===== *)
(** * What setting KRMSyncers up guarantees

    The properties of [Setup.Reconcile]: the watches it starts over any history of
    set-ups, what a result without error means, and the failure tracking. They hold
    whatever the API servers, discovery and the manager answer, and whatever the handlers of
    the controllers and the rest of the world do between the operations of a set-up. *)

From stdpp Require Import base list strings gmap relations.
From S2P Require Import Prelude Threads GoStrings Kube Api Fake Rules Tracker.
From S2P Require Import Client FakeCluster RemoteClients Sync Setup SetupTraces.

Section SetupSpec.
Context {AE : ApiErrors} {AC : ApiClient} {RP : RemoteConfigProvider} {SL : SetupLibs}.
Context {GP : GroupVersionParser} {PG : PrometheusGauge}.
Context (Complete : controller_spec → world → option api_error * world).
Context (r : KRMSyncerReconciler).
Implicit Types s : setup_state.
Implicit Types tr : trace setup_operation.

(** ** The state *)

Definition watched s (i : watch_id) : Prop :=
  match i with
  | inl gvk => gvk ∈ su_WatchedGVKs s
  | inr rgvk => rgvk ∈ su_WatchedRemoteGVKs s
  end.

#[export] Instance watched_dec s i : Decision (watched s i).
Proof. destruct i; simpl; apply _. Defined.

(** The watches of the controllers that were added to the manager. *)
Definition controller_watches s : list watch_id := watch_of <$> su_Controllers s.

(** A controller for cluster [c] reads from the cluster registered under its key. *)
Definition registered s (spec : controller_spec) : Prop :=
  (∃ gvk, spec = push_spec r gvk) ∨
  (∃ c rgvk, spec = pull_spec r c rgvk ∧ su_RemoteClusters s !! rgvk_Cluster rgvk = Some c).

(** At any time, also in the middle of a set-up: no kind of a source has two controllers,
    what is marked as watched has one, and controllers read from the cluster they are for. *)
Definition watches_sound s : Prop :=
  NoDup (controller_watches s) ∧ (∀ i, watched s i → i ∈ controller_watches s) ∧
  ∀ spec, spec ∈ su_Controllers s → registered s spec.

(** Between set-ups, every controller is marked as well. *)
Definition watches_ok s : Prop :=
  watches_sound s ∧ ∀ i, i ∈ controller_watches s → watched s i.

(** The controllers and marks are the same; they are, or there are more. *)
Definition same_watches s s' : Prop :=
  su_Controllers s' = su_Controllers s ∧ su_WatchedGVKs s' = su_WatchedGVKs s ∧
  su_WatchedRemoteGVKs s' = su_WatchedRemoteGVKs s.
Definition grows s s' : Prop :=
  su_Controllers s `prefix_of` su_Controllers s' ∧ (∀ i, watched s i → watched s' i) ∧
  su_RemoteClusters s ⊆ su_RemoteClusters s'.

(** What the handlers and the rest of the world do: the reconciler's own state is its own. *)
Definition elsewhere s s' : Prop := ∃ sh, s' = set_shared sh s.

Abbreviation handle := (setup_handle Complete).
Abbreviation swp := (wp handle elsewhere watches_sound).

(** A whole set-up, with others in between. *)
Definition set_up_run (req : NamespacedName) s tr (out : option goerr) s' : Prop :=
  trace_of (Reconcile r req) tr out ∧ replay handle elsewhere tr s s'.

(** ** Lemmas *)

Lemma set_shared_id s : set_shared (su_shared s) s = s.
Proof. by destruct s. Qed.

Lemma rtc_elsewhere s s' : rtc elsewhere s s' → elsewhere s s'.
Proof.
  induction 1 as [s|s1 s2 s3 [sh ->] _ [sh' ->]]; [exists (su_shared s)|by exists sh'].
  by rewrite set_shared_id.
Qed.

Lemma same_watches_watched s s' i : same_watches s s' → watched s' i ↔ watched s i.
Proof. intros (_ & Hl & Hr). destruct i; simpl; by rewrite ?Hl, ?Hr. Qed.

Lemma registered_mono s s' spec :
  su_RemoteClusters s ⊆ su_RemoteClusters s' → registered s spec → registered s' spec.
Proof.
  intros Hs [?|(c & rgvk & ? & ?)]; [by left|right].
  exists c, rgvk. split; [done|by eapply lookup_weaken].
Qed.

Lemma same_watches_sound s s' :
  same_watches s s' → su_RemoteClusters s ⊆ su_RemoteClusters s' →
  watches_sound s → watches_sound s'.
Proof.
  intros Hs Hc (Hn & Hw & Hr). assert (Hst := proj1 Hs).
  unfold watches_sound, controller_watches. rewrite Hst. split_and!; [done| |].
  - intros i. rewrite (same_watches_watched s s') by done. apply Hw.
  - intros spec Hin. by eapply registered_mono, Hr.
Qed.

Lemma same_watches_ok s s' :
  same_watches s s' → su_RemoteClusters s ⊆ su_RemoteClusters s' → watches_ok s → watches_ok s'.
Proof.
  intros Hs Hc [Hok Hw]. split; [by eapply same_watches_sound|].
  intros i. unfold controller_watches. rewrite (proj1 Hs), (same_watches_watched s s') by done.
  apply Hw.
Qed.

Lemma same_watches_grows s s' :
  same_watches s s' → su_RemoteClusters s ⊆ su_RemoteClusters s' → grows s s'.
Proof.
  intros Hs Hc. split_and!; [by rewrite (proj1 Hs)| |done].
  intros i. by rewrite (same_watches_watched s s').
Qed.

Lemma same_watches_trans s1 s2 s3 :
  same_watches s1 s2 → same_watches s2 s3 → same_watches s1 s3.
Proof. intros (?&?&?) (?&?&?). split_and!; congruence. Qed.

Lemma grows_refl s : grows s s.
Proof. by apply same_watches_grows. Qed.

Lemma grows_trans s1 s2 s3 : grows s1 s2 → grows s2 s3 → grows s1 s3.
Proof. intros (?&?&?) (?&?&?). split_and!; [by etrans|auto|by etrans]. Qed.


(** *** Steps of a program *)

(** The operations that leave the reconciler's own state alone. *)
Definition quiet (X : Type) (o : setup_operation X) : Prop :=
  match o with
  | OpComplete _ | OpStoreCluster _ _ | OpSetWatched _ | OpSetWatchedRemote _ => False
  | _ => True
  end.

Lemma quiet_handle X (o : setup_operation X) s : quiet X o → elsewhere s (handle X o s).2.
Proof.
  destruct o; try done; intros _; simpl; try (by eexists);
    exists (su_shared s); by rewrite set_shared_id.
Qed.

Lemma swp_ret {A} (a : A) Q tr s : (∀ sh, Q tr a (set_shared sh s)) → swp (mret a) Q tr s.
Proof. intros HQ s' [sh ->]%rtc_elsewhere. apply HQ. Qed.

Lemma sound_shared sh s : watches_sound s → watches_sound (set_shared sh s).
Proof. by apply same_watches_sound. Qed.

Lemma swp_quiet {A X} (o : setup_operation X) (k : X → setup_handler A) Q tr s :
  quiet X o → watches_sound s →
  (∀ x sh, swp (k x) Q (tr ++ [Ev o x]) (set_shared sh s)) →
  swp (perform o ≫= k) Q tr s.
Proof.
  intros Ho Hs Hk s' [sh ->]%rtc_elsewhere.
  destruct (quiet_handle X o (set_shared sh s) Ho) as [sh' Hsh]. simpl. rewrite Hsh.
  split; [by apply sound_shared|]. apply Hk.
Qed.

(** With an answer that does not depend on what others do. *)
Lemma swp_ask {A X} (o : setup_operation X) x (k : X → setup_handler A) Q tr s :
  quiet X o → (∀ sh, (handle X o (set_shared sh s)).1 = x) → watches_sound s →
  (∀ sh, swp (k x) Q (tr ++ [Ev o x]) (set_shared sh s)) →
  swp (perform o ≫= k) Q tr s.
Proof.
  intros Ho Hx Hs Hk s' [sh ->]%rtc_elsewhere.
  destruct (quiet_handle X o (set_shared sh s) Ho) as [sh' Hsh]. simpl. rewrite Hsh, Hx.
  split; [by apply sound_shared|]. apply Hk.
Qed.

Lemma do_Complete_cases spec s :
  ∃ sh, (∃ e, do_Complete Complete spec s = (Some e, set_shared sh s)) ∨
    do_Complete Complete spec s = (None, add_controller spec (set_shared sh s)).
Proof.
  unfold do_Complete, on_world, on_shared, at_world, mbind, M_bind. cbn [fst snd].
  exists (set_world (Complete spec (sh_world (su_shared s))).2 (su_shared s)).
  destruct (Complete spec _).1 as [e|]; [left; by exists e|by right].
Qed.

(** Marks and controllers are never taken back. *)
Lemma handle_monotone X (o : setup_operation X) s :
  su_Controllers s `prefix_of` su_Controllers (handle X o s).2 ∧
  ∀ i, watched s i → watched (handle X o s).2 i.
Proof.
  destruct o; try by split.
  - simpl. destruct (do_Complete_cases spec s) as (sh & [(e & ->)| ->]); [by split|].
    split; [by apply prefix_app_r|by intros []].
  - split; [done|]. intros []; simpl; [|done]. apply union_subseteq_r.
  - split; [done|]. intros []; simpl; [done|]. apply union_subseteq_r.
Qed.

Lemma handle_controllers X (o : setup_operation X) s spec :
  spec ∈ su_Controllers (handle X o s).2 →
  spec ∈ su_Controllers s ∨ match o with OpComplete spec' => spec' = spec | _ => False end.
Proof.
  destruct o; try by left. simpl.
  destruct (do_Complete_cases spec0 s) as (sh & [(e & ->)| ->]); [by left|].
  intros [?| ->%list_elem_of_singleton]%elem_of_app; [by left|by right].
Qed.

(** Only [Complete] adds controllers. *)
Lemma replay_controllers tr s s' spec :
  replay handle elsewhere tr s s' → spec ∈ su_Controllers s' →
  spec ∈ su_Controllers s ∨ ∃ tr1 x tr2, tr = tr1 ++ Ev (OpComplete spec) x :: tr2.
Proof.
  revert s. induction tr as [|[X o x] tr IH]; intros s.
  - intros [sh ->]%rtc_elsewhere. by left.
  - intros (s1 & [sh ->]%rtc_elsewhere & _ & Hr) Hin.
    destruct (IH _ Hr Hin) as [Hin1|(tr1 & y & tr2 & ->)].
    + apply handle_controllers in Hin1 as [?|Ho]; [by left|right].
      destruct o; try done. subst. by exists [], x, tr.
    + right. by exists (Ev o x :: tr1), y, tr2.
Qed.

(** *** One kind *)

(** Getting a remote cluster starts no controller and forgets no cluster. *)
Lemma getOrCreate_wp key ns remote tr s :
  watches_sound s →
  swp (getOrCreateRemoteCluster r key ns remote) (λ _ x s',
    same_watches s s' ∧ su_RemoteClusters s ⊆ su_RemoteClusters s' ∧
    ∀ c, x = Ok c → su_RemoteClusters s' !! key = Some c) tr s.
Proof.
  intros Hs. apply (swp_ask _ (su_RemoteClusters s !! key)); [done..|]. intros sh.
  destruct (su_RemoteClusters s !! key) as [c|] eqn:Hc.
  { apply swp_ret. intros sh1. split_and!; [done..|]. by intros c' [= <-]. }
  apply swp_quiet; [done|by apply sound_shared|]. intros [cfg|e] sh1; [|by apply swp_ret].
  apply swp_quiet; [done|by apply sound_shared|]. intros [c|e] sh2; [|by apply swp_ret].
  apply swp_quiet; [done|by apply sound_shared|]. intros u sh3.
  apply swp_quiet; [done|by apply sound_shared|]. intros [|] sh4; [|by apply swp_ret].
  intros s5 [sh5 ->]%rtc_elsewhere. cbn. assert (Hsub := insert_subseteq _ _ c Hc). split.
  - by apply (same_watches_sound s).
  - intros s6 [sh6 ->]%rtc_elsewhere. split_and!; [done|exact Hsub|].
    intros c' [= <-]. apply lookup_insert_eq.
Qed.

(** Handing a controller to the builder. *)
Lemma start_wp spec tr s :
  watches_sound s → watch_of spec ∉ controller_watches s → registered s spec →
  swp (start spec) (λ _ err s',
    su_RemoteClusters s' = su_RemoteClusters s ∧ su_WatchedGVKs s' = su_WatchedGVKs s ∧
    su_WatchedRemoteGVKs s' = su_WatchedRemoteGVKs s ∧ watches_sound s' ∧
    su_Controllers s' = su_Controllers s ++ (if decide (err = None) then [spec] else [])) tr s.
Proof.
  intros Hs Hnew Hreg s1 [sh ->]%rtc_elsewhere. cbn.
  destruct (do_Complete_cases spec (set_shared sh s)) as (sh0 & [(e & ->)| ->]); cbn.
  - split; [by apply sound_shared|]. intros s3 [sh1 ->]%rtc_elsewhere.
    split_and!; [done..|by apply sound_shared|by rewrite app_nil_r].
  - assert (Hs' : ∀ sh', watches_sound (set_shared sh' (add_controller spec s))).
    { intros sh'. destruct Hs as (Hn & Hw & Hr). unfold watches_sound, controller_watches in *.
      simpl. rewrite fmap_app. split_and!.
      - apply NoDup_app. split_and!; [done| |apply NoDup_singleton].
        by intros i Hi ->%list_elem_of_singleton.
      - intros i Hi. apply elem_of_app. left. by apply Hw.
      - intros spec' [Hin| ->%list_elem_of_singleton]%elem_of_app; [by apply Hr|exact Hreg]. }
    split; [exact (Hs' _)|]. intros s3 [sh1 ->]%rtc_elsewhere. split_and!; [done..|apply Hs'|done].
Qed.

(** Adding one kind to a set of watched kinds. *)
Lemma elem_of_insert_watch {K} `{Countable K} (x y : K) (X : gset K) (P : Prop) :
  (P ↔ x = y) → x ∈ {[y]} ∪ X ↔ P ∨ x ∈ X.
Proof. intros ->. by rewrite elem_of_union, elem_of_singleton. Qed.

(** The outcome of setting up one kind. *)
Definition gvk_outcome (ks : KRMSyncer) (mode : Mode) (gvk : GroupVersionKind) s
    (err : option goerr) s' : Prop :=
  match needed_watch ks mode gvk with
  | None => same_watches s s' ∧
      ∃ e, err = Some e ∧ Key (ks_Namespace ks) (spec_Remote (ks_Spec ks)) = Err e
  | Some i =>
      (watched s i ∧ err = None ∧ same_watches s s') ∨
      (¬ watched s i ∧ (∃ e, err = Some (watchError gvk e)) ∧ same_watches s s') ∨
      (¬ watched s i ∧ err = None ∧ (∀ j, watched s' j ↔ j = i ∨ watched s j) ∧
        ∃ spec, watch_of spec = i ∧ su_Controllers s' = su_Controllers s ++ [spec])
  end.

(** The last step: the started watch is marked. *)
Lemma set_watched_wp {A} i spec X (o : setup_operation X) (a : A) tr s s1 Q :
  (∀ sh, (handle X o (set_shared sh s1)).2 =
    set_shared sh (match i with inl gvk => set_watched gvk s1 | inr g => set_watched_remote g s1 end)) →
  watch_of spec = i → ¬ watched s i → watches_sound s1 →
  su_WatchedGVKs s1 = su_WatchedGVKs s → su_WatchedRemoteGVKs s1 = su_WatchedRemoteGVKs s →
  su_RemoteClusters s ⊆ su_RemoteClusters s1 → su_Controllers s1 = su_Controllers s ++ [spec] →
  (∀ tr' s', (∀ j, watched s' j ↔ j = i ∨ watched s j) → watches_sound s' →
    su_RemoteClusters s ⊆ su_RemoteClusters s' → su_Controllers s' = su_Controllers s ++ [spec] →
    Q tr' a s') →
  swp (perform o ≫= λ _, mret a) Q tr s1.
Proof.
  intros Ho Hspec Hni Hs1 Hl Hr Hc Hctl HQ s2 [sh ->]%rtc_elsewhere. cbn. rewrite Ho.
  set (s3 := match i with inl gvk => set_watched gvk s1 | inr g => set_watched_remote g s1 end).
  assert (Hctl3 : su_Controllers s3 = su_Controllers s1) by by destruct i.
  assert (Hc3 : su_RemoteClusters s3 = su_RemoteClusters s1) by by destruct i.
  assert (Hw : ∀ sh' j, watched (set_shared sh' s3) j ↔ j = i ∨ watched s j).
  { intros sh' j. destruct i as [g|g], j as [g'|g']; simpl; rewrite ?Hl, ?Hr;
      try (apply elem_of_insert_watch; split; congruence);
      (split; [by right|by intros [|]]). }
  assert (Hs3 : ∀ sh', watches_sound (set_shared sh' s3)).
  { intros sh'. destruct Hs1 as (Hn & Hw1 & Hreg).
    unfold watches_sound, controller_watches. cbn [su_Controllers set_shared]. rewrite Hctl3.
    split_and!; [exact Hn| |].
    - intros j [->|Hj]%Hw.
      + rewrite Hctl, fmap_app. apply elem_of_app. right. simpl. rewrite Hspec. by left.
      + apply Hw1. by destruct j; simpl in *; rewrite ?Hl, ?Hr.
    - intros sp Hin. eapply registered_mono, Hreg; [|done]. simpl. by rewrite Hc3. }
  split; [apply Hs3|]. intros s4 [sh1 ->]%rtc_elsewhere.
  apply HQ; [apply Hw|apply Hs3|simpl; by rewrite Hc3|simpl; congruence].
Qed.

Lemma setupGVK_wp ks mode gvk tr s :
  watches_ok s →
  swp (setupGVK r ks mode gvk) (λ _ err s', gvk_outcome ks mode gvk s err s' ∧
    watches_sound s' ∧ su_RemoteClusters s ⊆ su_RemoteClusters s') tr s.
Proof.
  intros [Hs Hok]. unfold setupGVK, gvk_outcome, needed_watch.
  destruct (bool_decide_reflect (mode = ModePull)) as [Hm|Hm].
  - destruct (Key _ _) as [key|e].
    2: { apply swp_ret. intros sh. split_and!; [done|eauto|by apply sound_shared|done]. }
    set (rgvk := {| rgvk_Cluster := key; rgvk_GVK := gvk |}).
    apply (swp_ask _ (bool_decide (rgvk ∈ su_WatchedRemoteGVKs s))); [done..|]. intros sh.
    case_bool_decide as Hw.
    { apply swp_ret. intros sh1. split_and!; [by left|by apply sound_shared|done]. }
    assert (Hni : ¬ watched s (inr rgvk)) by done.
    apply wp_bind. unfold startRemoteWatcher. apply wp_bind.
    eapply wp_mono; [by apply getOrCreate_wp, sound_shared|].
    intros tr1 [c|e] s1 (Hsame & Hc & Hreg).
    2: { apply swp_ret. intros sh1. apply swp_ret. intros sh2. split_and!.
      - right; left. split; [done|]. split; [eauto|exact Hsame].
      - by apply (same_watches_sound s).
      - exact Hc. }
    assert (Hs1 : watches_sound s1) by by apply (same_watches_sound s).
    eapply wp_mono; [apply start_wp; [exact Hs1| |right; by exists c, rgvk; eauto]|].
    { unfold controller_watches. rewrite (proj1 Hsame). intros Hin. by apply Hni, Hok. }
    intros tr2 err s2 (Hc2 & Hl2 & Hr2 & Hs2 & Hctl). destruct Hsame as (Hctl1 & Hl1 & Hr1).
    simpl in Hctl1, Hl1, Hr1. destruct err as [e|]; simpl in Hctl.
    + apply swp_ret. intros sh1. rewrite app_nil_r in Hctl. split_and!.
      * right; left. split; [done|]. split; [eauto|]. split_and!; simpl; congruence.
      * by apply sound_shared.
      * simpl. by rewrite Hc2.
    + eapply (set_watched_wp (inr rgvk) (pull_spec r c rgvk)); [done|done|exact Hni|exact Hs2| | | | |];
        [congruence|congruence|by rewrite Hc2|rewrite Hctl, Hctl1; reflexivity|].
      intros tr' s' Hw' Hs' Hc' Hctl'. split_and!; [|done|done].
      right; right. split_and!; [done|done|done|]. by exists (pull_spec r c rgvk).
  - apply (swp_ask _ (bool_decide (gvk ∈ su_WatchedGVKs s))); [done..|]. intros sh.
    case_bool_decide as Hw.
    { apply swp_ret. intros sh1. split_and!; [by left|by apply sound_shared|done]. }
    assert (Hni : ¬ watched s (inl gvk)) by done.
    apply wp_bind. unfold startWatcher.
    eapply wp_mono; [apply start_wp; [by apply sound_shared| |left; by exists gvk]|].
    { intros Hin. by apply Hni, Hok. }
    intros tr2 err s2 (Hc2 & Hl2 & Hr2 & Hs2 & Hctl). simpl in *. destruct err as [e|]; simpl in Hctl.
    + apply swp_ret. intros sh1. rewrite app_nil_r in Hctl. split_and!.
      * right; left. split; [done|]. split; [eauto|]. by split_and!.
      * by apply sound_shared.
      * simpl. by rewrite Hc2.
    + eapply (set_watched_wp (inl gvk) (push_spec r gvk)); [done|done|exact Hni|exact Hs2|done|done| |done|];
        [by rewrite Hc2|].
      intros tr' s' Hw' Hs' Hc' Hctl'. split_and!; [|done|done].
      right; right. split_and!; [done|done|done|]. by exists (push_spec r gvk).
Qed.

Lemma gvk_outcome_ok ks mode gvk s err s' :
  gvk_outcome ks mode gvk s err s' → watches_sound s' →
  su_RemoteClusters s ⊆ su_RemoteClusters s' → watches_ok s → watches_ok s' ∧ grows s s'.
Proof.
  unfold gvk_outcome. intros Ho Hs' Hc Hok.
  assert (Hsame : same_watches s s' → watches_ok s' ∧ grows s s').
  { intros Hs. split; [by eapply same_watches_ok|by apply same_watches_grows]. }
  destruct (needed_watch ks mode gvk) as [i|]; [|by destruct Ho as [Hs _]; apply Hsame].
  destruct Ho as [(_ & _ & Hs)|[(_ & _ & Hs)|(_ & _ & Hw & spec & Hspec & Hctl)]];
    [by apply Hsame..|].
  split; [split; [done|]|split_and!; [|intros j; rewrite Hw; by right|done]].
  - intros j. unfold controller_watches. rewrite Hctl, fmap_app. simpl. rewrite Hspec, Hw.
    intros [Hj| ->%list_elem_of_singleton]%elem_of_app; [right; by apply Hok|by left].
  - rewrite Hctl. by apply prefix_app_r.
Qed.

(** *** The loops *)

(** A kind is accounted for: it is watched, or its failure is among the errors. *)
Definition setup_error (ks : KRMSyncer) (gvk : GroupVersionKind) (e : goerr) : Prop :=
  Key (ks_Namespace ks) (spec_Remote (ks_Spec ks)) = Err e ∨ ∃ e', e = watchError gvk e'.

Definition accounted (ks : KRMSyncer) (mode : Mode) (errs : list goerr) s
    (gvk : GroupVersionKind) : Prop :=
  (∃ i, needed_watch ks mode gvk = Some i ∧ watched s i) ∨
  ∃ e, e ∈ errs ∧ setup_error ks gvk e.

Definition keeps_marks s s' : Prop := ∀ i, watched s i → watched s' i.

Lemma accounted_mono ks mode errs err s s' gvk :
  keeps_marks s s' → accounted ks mode errs s gvk →
  accounted ks mode (appendError errs err) s' gvk.
Proof.
  intros Hg [(i & Hi & Hw)|(e & He & Hs)]; [left; by exists i; auto|right].
  exists e. split; [|done]. destruct err; [|done]. apply elem_of_app. by left.
Qed.

Lemma gvk_outcome_accounted ks mode gvk s err s' errs :
  gvk_outcome ks mode gvk s err s' → accounted ks mode (appendError errs err) s' gvk.
Proof.
  unfold gvk_outcome, accounted, setup_error. intros Ho.
  destruct (needed_watch ks mode gvk) as [i|].
  - destruct Ho as [(Hw & -> & Hs)|[(_ & (e & ->) & _)|(_ & -> & Hw & _)]].
    + left. exists i. split; [done|]. by apply (same_watches_watched s).
    + right. exists (watchError gvk e). split; [|by right; exists e].
      apply elem_of_app. right. by left.
    + left. exists i. split; [done|]. apply Hw. by left.
  - destruct Ho as (_ & e & -> & Hk). right. exists e. split; [|by left].
    apply elem_of_app. right. by left.
Qed.

(** What is known after some rules, starting from [s0]. *)
Definition rules_inv (ks : KRMSyncer) (lists : list APIResourceList) s0
    (rules : list ResourceRule) (errs : list goerr) tr s : Prop :=
  watches_ok s ∧ grows s0 s ∧
  ∀ rule, rule ∈ rules → ∃ gvks, expandRule rule lists = Ok gvks ∧
    ∀ gvk, gvk ∈ gvks → accounted ks (mode_of ks) errs s gvk.

Lemma rules_inv_stable ks lists s0 rules s s' tr errs :
  rules_inv ks lists s0 rules errs tr s → rtc elsewhere s s' →
  rules_inv ks lists s0 rules errs tr s'.
Proof. by intros Hr [sh ->]%rtc_elsewhere. Qed.

Lemma setupRule_wp ks lists s0 rules rule errs tr s :
  rules_inv ks lists s0 rules errs tr s →
  swp (setupRule r ks (mode_of ks) lists rule errs) (λ tr' res s', match res with
      | Ok errs' => rules_inv ks lists s0 (rules ++ [rule]) errs' tr' s'
      | Err e => expandRule rule lists = Err e ∧ watches_ok s' ∧ grows s0 s'
      end) tr s.
Proof.
  intros Hinv. unfold setupRule. destruct (expandRule rule lists) as [gvks|e] eqn:He.
  2: { apply swp_ret. intros sh. split; [done|]. by destruct Hinv as (? & ? & _). }
  apply wp_bind. eapply wp_mono.
  - apply (wp_forP _ _ _ (λ seen errs tr s, rules_inv ks lists s0 rules errs tr s ∧
      ∀ gvk, gvk ∈ seen → accounted ks (mode_of ks) errs s gvk)).
    + by intros s1 s2 tr1 acc Hr [sh ->]%rtc_elsewhere.
    + intros seen gvk todo acc tr1 s1 _ [(Hok & Hgr & Hrules) Hseen]. apply wp_bind.
      eapply wp_mono; [by apply setupGVK_wp|]. intros tr2 err s2 (Ho & Hs2 & Hc). apply swp_ret.
      intros sh. destruct (gvk_outcome_ok _ _ _ _ _ _ Ho Hs2 Hc Hok) as [Hok2 Hgr2].
      assert (Hk : keeps_marks s1 s2) by by destruct Hgr2 as (_ & ? & _).
      split; [split_and!; [done|by apply (grows_trans _ s1)|]|].
      * intros rl Hrl. destruct (Hrules rl Hrl) as (gs & ? & Hgs). exists gs.
        split; [done|]. intros g Hin. by eapply (accounted_mono _ _ _ _ s1), Hgs.
      * intros g [Hin| ->%list_elem_of_singleton]%elem_of_app;
          [by eapply (accounted_mono _ _ _ _ s1), Hseen|by eapply (gvk_outcome_accounted _ _ _ s1)].
    + split; [exact Hinv|]. by intros ? ?%elem_of_nil.
  - intros tr' errs' s' [(Hok & Hgr & Hrules) Hg]. apply swp_ret. intros sh.
    split_and!; [done|done|].
    intros rl [Hin| ->%list_elem_of_singleton]%elem_of_app; [by apply Hrules|].
    by exists gvks.
Qed.

(** Discovery changes nothing of the reconciler's own. *)
Lemma discover_wp ks mode tr s :
  watches_sound s → swp (discover r ks mode) (λ _ _ s', elsewhere s s') tr s.
Proof.
  intros Hs. assert (Hret : ∀ x sh tr', swp (mret x : setup_handler (res goerr (list APIResourceList)))
    (λ _ _ s', elsewhere s s') tr' (set_shared sh s)).
  { intros x sh tr'. apply swp_ret. intros sh'. by exists sh'. }
  assert (Hdc : ∀ x sh tr', swp
    (match x with
     | Err err => mret (Err err)
     | Ok dc =>
         lists ← perform (OpDiscover dc);
         match lists.2 with
         | Some err => if negb (IsGroupDiscoveryFailedError err) then mret (Err (EApi err))
             else mret (Ok lists.1)
         | None => mret (Ok lists.1)
         end
     end) (λ _ _ s', elsewhere s s') tr' (set_shared sh s)).
  { intros [dc|e] sh tr'; [|apply Hret]. apply swp_quiet; [done|by apply sound_shared|].
    intros [lists [e|]] sh'; simpl; [destruct (IsGroupDiscoveryFailedError e)|];
      intros s1 [sh1 ->]%rtc_elsewhere; by exists sh1. }
  unfold discover. destruct (needsExpansion _); [|apply swp_ret; intros sh; by exists sh].
  simpl. apply wp_bind. unfold getDiscoveryClient. destruct (bool_decide (mode = ModePush)).
  - apply swp_ret. intros sh. apply Hdc.
  - apply swp_quiet; [done|done|]. intros [cfg|e] sh; apply swp_ret; intros sh'; first [exact (Hret _ sh' _)|exact (Hdc _ sh' _)].
Qed.

(** The outcome of a whole set-up, for the result of discovery. *)
Definition setup_outcome (ks : KRMSyncer) (lists : res goerr (list APIResourceList))
    (ret : KRMSyncer * option goerr) s : Prop :=
  match lists with
  | Err e => ret = (ks, Some e)
  | Ok lists =>
      (∃ rule e, rule ∈ spec_Rules (ks_Spec ks) ∧ expandRule rule lists = Err e ∧
        ret = (setCondition (invalidRuleCondition e) ks, Some e)) ∨
      (∃ errs, ret = (ks, Join_all errs) ∧
        ∀ rule, rule ∈ spec_Rules (ks_Spec ks) → ∃ gvks, expandRule rule lists = Ok gvks ∧
          ∀ gvk, gvk ∈ gvks → accounted ks (mode_of ks) errs s gvk)
  end.

Lemma setup_outcome_mono ks lists ret s s' :
  keeps_marks s s' → setup_outcome ks lists ret s → setup_outcome ks lists ret s'.
Proof.
  unfold setup_outcome. destruct lists as [lists|e]; [|done].
  intros Hs [Hinv|(errs & Hret & Hall)]; [by left|right]. exists errs. split; [done|].
  intros rule Hr. destruct (Hall rule Hr) as (gvks & He & Hg). exists gvks. split; [done|].
  intros gvk Hin. by apply (accounted_mono _ _ _ None s), Hg.
Qed.

Lemma setupAll_wp ks tr s :
  watches_ok s →
  swp (setupAll r ks) (λ tr' ret s', watches_ok s' ∧ grows s s' ∧
    ∃ tr1 lists tr2, tr' = tr ++ tr1 ++ tr2 ∧ trace_of (discover r ks (mode_of ks)) tr1 lists ∧
      setup_outcome ks lists ret s') tr s.
Proof.
  intros Hok. unfold setupAll. apply wp_bind.
  eapply wp_mono; [apply wp_trace, discover_wp, Hok|].
  intros tr' lists s' [[sh ->] (tr1 & -> & Hd)]. apply (wp_others _ _ _ _ _ _ s); [|by apply rtc_once; exists sh].
  destruct lists as [lists|e].
  2: { apply swp_ret. intros sh'. split_and!; [done|by apply same_watches_grows|].
    exists tr1, (Err e), []. by rewrite app_nil_r. }
  apply wp_bind. eapply wp_mono.
  - apply wp_trace, (wp_forP_return _ _ _ (rules_inv ks lists s)
      (λ e _ s', (∃ rule, rule ∈ spec_Rules (ks_Spec ks) ∧ expandRule rule lists = Err e) ∧
        watches_ok s' ∧ grows s s')).
    + intros s1 s2 tr2 acc. apply rules_inv_stable.
    + by intros s1 s2 tr2 e He [sh1 ->]%rtc_elsewhere.
    + intros seen rule todo acc tr2 s1 Hrules HJ. eapply wp_mono; [by apply setupRule_wp|].
      intros tr3 [acc'|e] s2 HI; [exact HI|]. destruct HI as (? & ? & ?).
      split; [|done]. exists rule. split; [|done]. rewrite Hrules. apply elem_of_app. right. by left.
    + split_and!; [done|by apply grows_refl|]. by intros ? ?%elem_of_nil.
  - intros tr2 [errs|e] s2 [HJ (tr3 & -> & _)]; apply swp_ret; intros sh1.
    + destruct HJ as (Hok2 & Hgr & Hrules). split_and!; [done|done|].
      exists tr1, (Ok lists), tr3. rewrite (assoc_L (++)). split_and!; [done|done|].
      right. by exists errs.
    + destruct HJ as ((rule & Hr & He) & Hok2 & Hgr). split_and!; [done|done|].
      exists tr1, (Ok lists), tr3. rewrite (assoc_L (++)). split_and!; [done|done|].
      left. by exists rule, e.
Qed.

(** What holds after a set-up, also later: for the trace and the result. *)
Definition set_up_post tr (out : option goerr) s : Prop :=
  ∀ ks, set_up tr ks → ∃ lists ret, discovered r ks tr lists ∧ out = ret.2 ∧
    setup_outcome (setCondition activeCondition ks) lists ret s.

Lemma set_up_post_mono tr out s s' :
  keeps_marks s s' → set_up_post tr out s → set_up_post tr out s'.
Proof.
  intros Hs Hp ks Hks. destruct (Hp ks Hks) as (lists & ret & Hd & Hout & Ho).
  exists lists, ret. split_and!; [done|done|by eapply setup_outcome_mono].
Qed.

Lemma updateStatus_wp {A} ks (a : A) Q tr s :
  watches_sound s → (∀ tr' sh, Q (tr ++ tr') a (set_shared sh s)) →
  swp (updateStatus r ks ≫= λ _, mret a) Q tr s.
Proof.
  intros Hs HQ. apply wp_bind. apply swp_quiet; [done|done|]. intros x sh. apply swp_ret.
  intros sh'. apply swp_ret. intros sh''. apply (HQ [_]).
Qed.

Lemma Reconcile_wp req s :
  watches_ok s →
  swp (Reconcile r req) (λ tr out s', watches_ok s' ∧ grows s s' ∧ set_up_post tr out s') [] s.
Proof.
  intros Hok. assert (Hs := proj1 Hok).
  assert (Hq : ∀ sh, grows s (set_shared sh s)) by by intros sh; apply same_watches_grows.
  apply swp_quiet; [done|done|]. intros [ks|e] sh.
  - destruct (spec_Suspend (ks_Spec ks)) eqn:Hsus.
    + apply swp_quiet; [done|by apply sound_shared|]. intros [] sh1.
      apply updateStatus_wp; [by apply sound_shared|]. intros tr' sh2.
      split_and!; [done|apply Hq|]. intros ks' [[= <-] Hks']. congruence.
    + apply wp_bind. unfold reconcile. apply wp_bind.
      eapply wp_mono; [by apply setupAll_wp|].
      intros tr1 [ks' out] s1 (Hok1 & Hgr & tr2 & lists & tr3 & -> & Hd & Ho).
      assert (Hend : ∀ tr' sh', swp (updateStatus r ks' ≫= λ _, mret out)
        (λ tr out s', watches_ok s' ∧ grows s s' ∧ set_up_post tr out s')
        ((Ev (OpGetSyncer (r_Client r) req) (Ok ks) :: tr2 ++ tr3) ++ tr') (set_shared sh' s1)).
      { intros tr' sh'. apply updateStatus_wp; [by apply sound_shared, (proj1 Hok1)|].
        intros tr4 sh2. split_and!; [done|done|]. intros ks1 [Hks1 _]. injection Hks1 as <-.
        exists lists, (ks', out). split_and!; [|done|done].
        eexists _, tr2, _. split; [|done]. simpl. rewrite <-!(assoc_L (++)). reflexivity. }
      simpl. destruct out as [e|]; (apply wp_bind; apply swp_quiet; [done|apply Hok1|]);
        intros u sh1; apply swp_ret; intros sh2; apply swp_ret; intros sh3;
        apply (Hend [_]).
  - destruct (IsNotFound e).
    + apply wp_bind. apply swp_quiet; [done|by apply sound_shared|]. intros u sh1.
      apply swp_ret. intros sh2. apply swp_ret. intros sh3.
      split_and!; [done|apply Hq|]. by intros ks' [? _].
    + apply wp_bind. apply swp_ret. intros sh1. apply swp_ret. intros sh2.
      split_and!; [done|apply Hq|]. by intros ks' [? _].
Qed.

Lemma set_up_run_ok req s tr out s' :
  watches_ok s → set_up_run req s tr out s' →
  watches_ok s' ∧ grows s s' ∧ set_up_post tr out s'.
Proof.
  intros Hok [Htr Hr]. exact (wp_sound _ _ _ _ _ _ _ _ _ _ (Reconcile_wp req s Hok) Htr Hr).
Qed.

(** A set-up starts only controllers that its KRMSyncer asks for. *)
Lemma set_up_asked req s tr out s' spec :
  set_up_run req s tr out s' → spec ∈ su_Controllers s' →
  spec ∈ su_Controllers s ∨ asked_in r tr spec.
Proof.
  intros [Htr Hr] Hin. destruct (replay_controllers _ _ _ _ Hr Hin) as [?|(tr1 & x & tr2 & ->)];
    [by left|right]. apply asked_in_app.
  by destruct (guarded_trace _ _ _ _ _ (set_up_guarded r req) Htr _ _ _ _ _ eq_refl) as (_ & _ & ?).
Qed.

Lemma set_up_watched req s tr out s' ks lists i :
  watches_ok s → set_up_run req s tr out s' → set_up tr ks → discovered r ks tr lists →
  watched s' i → watched s i ∨ ∃ l, lists = Ok l ∧ needs ks l i.
Proof.
  intros Hok Hrun Hks Hd Hi. destruct (set_up_run_ok _ _ _ _ _ Hok Hrun) as ((Hs & _) & _ & _).
  destruct Hs as (_ & Hw & _). apply Hw, list_elem_of_fmap in Hi as (spec & -> & Hin).
  destruct (set_up_asked _ _ _ _ _ _ Hrun Hin) as [Hold|(ks' & l & Hks' & Hd' & Ha)].
  - left. apply (proj2 Hok). by apply list_elem_of_fmap_2.
  - right. assert (ks' = ks) as -> by (destruct Hks, Hks'; congruence).
    exists l. split; [by eapply discovered_unique|by apply asked_for_needs].
Qed.

(** ** Histories *)

(** Set-ups of KRMSyncers, in any order, while everything else happens. *)
Inductive setup_step : setup_state → setup_state → Prop :=
| step_set_up req s tr out s' : set_up_run req s tr out s' → setup_step s s'
| step_elsewhere s s' : elsewhere s s' → setup_step s s'.

Definition reachable s : Prop :=
  ∃ w gauges, rtc setup_step (initial_state w gauges) s.

Lemma start_ok w gauges : watches_ok (initial_state w gauges).
Proof.
  split; [split_and!; [constructor|..]|].
  - intros i. destruct i; simpl; by rewrite elem_of_empty.
  - by intros ? ?%elem_of_nil.
  - by intros ? ?%elem_of_nil.
Qed.

Lemma reachable_ok s : reachable s → watches_ok s.
Proof.
  intros (w & gauges & Hs). refine (rtc_invariant _ watches_ok _ _ _ Hs (start_ok w gauges)).
  intros a b Hok Hstep. destruct Hstep as [req s' tr out s'' Hrun|s' s'' [sh ->]]; [|exact Hok].
  by destruct (set_up_run_ok req s' tr out s'' Hok Hrun).
Qed.

(** A program that runs alone is such a run. *)
Lemma exec_set_up req s :
  let x := exec handle (Reconcile r req) s in set_up_run req s x.1.1 x.1.2 x.2.
Proof. split; [apply exec_trace|apply exec_replay]. Qed.

(** A watch belongs to a controller that was started. *)
Lemma watched_started s i :
  watches_sound s → watched s i →
  ∃ spec, spec ∈ su_Controllers s ∧ watch_of spec = i ∧ registered s spec.
Proof.
  intros (_ & Hw & Hr) Hi. apply Hw, list_elem_of_fmap in Hi as (spec & -> & Hin).
  exists spec. split_and!; [done..|by apply Hr].
Qed.

(** *** Set-ups that find everything watched *)

(** Everything a KRMSyncer needs, for a result of discovery, is watched already. *)
Definition all_watched (ks : KRMSyncer) (lists : list APIResourceList) s : Prop :=
  ∀ rule, rule ∈ spec_Rules (ks_Spec ks) → ∃ gvks, expandRule rule lists = Ok gvks ∧
    ∀ gvk, gvk ∈ gvks → ∃ i, needed_watch ks (mode_of ks) gvk = Some i ∧ watched s i.

Lemma setupGVK_watched ks mode gvk i tr s :
  watches_ok s → needed_watch ks mode gvk = Some i → watched s i →
  swp (setupGVK r ks mode gvk) (λ _ err s', err = None ∧ same_watches s s' ∧
    su_RemoteClusters s ⊆ su_RemoteClusters s') tr s.
Proof.
  intros Hok Hi Hw. eapply wp_mono; [by apply setupGVK_wp|].
  intros _ err s' (Ho & _ & Hc). unfold gvk_outcome in Ho. rewrite Hi in Ho.
  destruct Ho as [(_ & ? & ?)|[(? & _)|(? & _)]]; done.
Qed.

Lemma setupRule_watched ks mode lists rule gvks errs tr s :
  watches_ok s → expandRule rule lists = Ok gvks →
  (∀ gvk, gvk ∈ gvks → ∃ i, needed_watch ks mode gvk = Some i ∧ watched s i) →
  swp (setupRule r ks mode lists rule errs) (λ _ x s', x = Ok errs ∧ same_watches s s' ∧
    su_RemoteClusters s ⊆ su_RemoteClusters s') tr s.
Proof.
  intros Hok He Hall. unfold setupRule. rewrite He. apply wp_bind. eapply wp_mono.
  - apply (wp_forP _ _ _ (λ _ errs' _ s', errs' = errs ∧ same_watches s s' ∧
      su_RemoteClusters s ⊆ su_RemoteClusters s')); [by intros ???? Hj [sh ->]%rtc_elsewhere| |done].
    intros seen gvk todo acc tr1 s1 -> (-> & Hs & Hc).
    destruct (Hall gvk) as (i & Hi & Hw); [apply elem_of_app; right; by left|].
    apply wp_bind. eapply wp_mono;
      [apply (setupGVK_watched _ _ _ i); [by apply (same_watches_ok s)|done|by apply (same_watches_watched s)]|].
    intros tr2 err s2 (-> & Hs2 & Hc2). apply swp_ret. intros sh.
    split_and!; [done|by apply (same_watches_trans _ s1)|by etrans].
  - intros tr1 errs' s1 (-> & Hs & Hc). by apply swp_ret.
Qed.

(** Operations that leave the reconciler's own state alone. *)
Definition quiet_event (e : Threads.event setup_operation) : Prop := let 'Ev o _ := e in quiet _ o.

Lemma replay_quiet tr s s' :
  (∀ e, e ∈ tr → quiet_event e) →
  replay handle elsewhere tr s s' → elsewhere s s'.
Proof.
  revert s. induction tr as [|[X o x] tr IH]; intros s Hq; [apply rtc_elsewhere|].
  intros (s1 & [sh1 ->]%rtc_elsewhere & _ & Hr).
  destruct (quiet_handle X o (set_shared sh1 s)) as [sh2 Hsh2]; [by apply (Hq (Ev o x)); left|].
  rewrite Hsh2 in Hr. apply IH in Hr as [sh3 ->]; [by exists sh3|].
  intros e Hin. apply Hq. by right.
Qed.

Lemma discover_quiet ks mode tr x s s' :
  trace_of (discover r ks mode) tr x → replay handle elsewhere tr s s' → elsewhere s s'.
Proof.
  intros Htr. apply replay_quiet. intros [X o y] Hin.
  refine (guarded_elem (λ X o, quiet X o) _ _ _ X o y _ Htr Hin).
  unfold discover, getDiscoveryClient. by repeat first [exact I|guarded_step].
Qed.

Lemma rules_watched ks lists tr x s s' :
  watches_ok s → all_watched ks lists s →
  trace_of (forP_return (spec_Rules (ks_Spec ks)) [] (setupRule r ks (mode_of ks) lists)) tr x →
  replay handle elsewhere tr s s' → x = Ok [] ∧ same_watches s s'.
Proof.
  intros Hok Hall Htr Hr.
  enough (swp (forP_return (spec_Rules (ks_Spec ks)) [] (setupRule r ks (mode_of ks) lists))
    (λ _ x s', match x with
      | Ok errs => errs = [] ∧ same_watches s s' ∧ su_RemoteClusters s ⊆ su_RemoteClusters s'
      | Err e => False
      end) [] s) as Hw.
  { apply (wp_sound _ _ _ _ _ _ _ _ _ _ Hw Htr) in Hr. destruct x as [errs|e]; [|done].
    by destruct Hr as (-> & ? & _). }
  apply (wp_forP_return _ _ _ (λ _ errs _ s', errs = [] ∧ same_watches s s' ∧
    su_RemoteClusters s ⊆ su_RemoteClusters s') (λ _ _ _, False));
    [by intros ???? Hj [sh1 ->]%rtc_elsewhere|done| |done].
  intros seen rule todo acc tr1 s1 Hrules (-> & Hs & Hc).
  destruct (Hall rule) as (gvks & He & Hg); [rewrite Hrules; apply elem_of_app; right; by left|].
  eapply wp_mono; [apply (setupRule_watched _ _ _ _ gvks); [by apply (same_watches_ok s)|done|]|].
  - intros gvk Hin. destruct (Hg gvk Hin) as (i & Hi & Hw). exists i. split; [done|].
    by apply (same_watches_watched s).
  - intros tr2 x2 s2 (-> & Hs2 & Hc2). split_and!; [done|by apply (same_watches_trans _ s1)|by etrans].
Qed.

(** ** Properties *)

(** Over any history of set-ups, with whatever failures, every kind of every source
    cluster gets at most one controller, and the maps of watched kinds hold exactly the
    kinds that have one; so a retried or second KRMSyncer never duplicates a watch, and a
    watch that failed to start is not taken for started. *)
Theorem watches_started_once s :
  reachable s →
  NoDup (controller_watches s) ∧ ∀ i, watched s i ↔ i ∈ controller_watches s.
Proof. intros [(? & ? & _) ?]%reachable_ok. split; [done|]. by split; auto. Qed.

(** Every controller that was ever started is one of the two the code describes, for
    its kind: a push controller on the local cluster's cache that has the shared client
    cache, or a pull controller whose events and reads come from the one remote cluster
    registered under the connection key it matches KRMSyncers by. It counts failures in
    its kind's gauge and reconciles at least one object at a time. *)
Theorem started_controllers s spec :
  reachable s → spec ∈ su_Controllers s →
  dr_GVK (cs_Reconciler spec) = cs_GVK spec ∧
  ft_gauge (cs_Failures spec) = FailedObjects (cs_GVK spec) ∧ ft_failed (cs_Failures spec) = ∅ ∧
  (0 < cs_MaxConcurrentReconciles spec)%Z ∧ dr_LocalClient (cs_Reconciler spec) = r_Client r ∧
  ((dr_Mode (cs_Reconciler spec) = ModePush ∧ cs_Source spec = WatchLocal ∧
      dr_RemoteClient (cs_Reconciler spec) = r_Client r ∧ cs_HasRemoteClients spec = true) ∨
   (dr_Mode (cs_Reconciler spec) = ModePull ∧
    ∃ c, su_RemoteClusters s !! rgvk_Cluster (dr_Remote (cs_Reconciler spec)) = Some c ∧
      cs_Source spec = WatchRemote c ∧ rgvk_GVK (dr_Remote (cs_Reconciler spec)) = cs_GVK spec ∧
      dr_RemoteClient (cs_Reconciler spec) = cluster_GetClient c)).
Proof.
  intros [(_ & _ & Hr) _]%reachable_ok Hin. apply Hr in Hin.
  assert (Hpos : (0 < controllerOptions r)%Z).
  { unfold controllerOptions, DefaultMaxConcurrentReconciles. case_bool_decide; lia. }
  destruct Hin as [(gvk & ->)|(c & rgvk & -> & Hc)]; simpl.
  - split_and!; try done. by left.
  - split_and!; try done. right. split; [done|]. by exists c.
Qed.

(** [C13] What a set-up of an active KRMSyncer achieves: if discovery fails, its error is
    returned; if a rule is invalid, that rule's error is returned; otherwise every kind of
    every rule is watched afterwards or its failure is part of the returned error, so one
    failing watch does not keep the others from being started. Nothing that is watched is
    ever dropped, and nothing is added that the rules do not need: after a set-up without an
    error, the watches are exactly those from before and those the rules need. *)
Theorem Reconcile_watches_or_reports req s tr out s' ks :
  reachable s → set_up_run req s tr out s' → set_up tr ks →
  ∃ lists, discovered r ks tr lists ∧
  match lists with
  | Err e => out = Some e
  | Ok lists =>
      (∃ rule e, rule ∈ spec_Rules (ks_Spec ks) ∧ expandRule rule lists = Err e ∧ out = Some e) ∨
      ∀ rule, rule ∈ spec_Rules (ks_Spec ks) → ∃ gvks, expandRule rule lists = Ok gvks ∧
        ∀ gvk, gvk ∈ gvks →
          (∃ i, needed_watch ks (mode_of ks) gvk = Some i ∧ watched s' i) ∨
          (∃ e err, out = Some err ∧ in_chain e err ∧ setup_error ks gvk e)
  end ∧
  (∀ i, watched s i → watched s' i) ∧
  ∀ i, watched s' i → watched s i ∨ ∃ l, lists = Ok l ∧ needs ks l i.
Proof.
  intros Hok%reachable_ok Hrun Hks.
  destruct (set_up_run_ok _ _ _ _ _ Hok Hrun) as (_ & (_ & Hgrows & _) & Hp).
  destruct (Hp ks Hks) as (lists & ret & Hd & -> & Ho). exists lists. split; [done|].
  split; [|split; [done|by intros i; eapply set_up_watched]].
  destruct lists as [lists|e]; [|by rewrite Ho].
  destruct Ho as [(rule & e & ? & ? & ->)|(errs & -> & Hall)]; [left; by exists rule, e|right].
  intros rule Hrule. destruct (Hall rule Hrule) as (gvks & He & Hgv). exists gvks.
  split; [done|]. intros gvk Hin. destruct (Hgv gvk Hin) as [?|(e & Hin' & He')]; [by left|right].
  simpl. destruct (Join_all errs) as [err|] eqn:Herr.
  - exists e, err. split_and!; [done|by eapply Join_all_chain|done].
  - apply Join_all_None in Herr as ->. by apply elem_of_nil in Hin'.
Qed.

(** Set-up is idempotent: when everything a KRMSyncer needs is watched already, a
    set-up succeeds, starts no controller and watches nothing more. *)
Theorem Reconcile_idempotent req s tr out s' ks :
  reachable s → set_up_run req s tr out s' → set_up tr ks →
  ∃ lists, discovered r ks tr lists ∧
    ∀ l, lists = Ok l → all_watched ks l s → out = None ∧ same_watches s s'.
Proof.
  intros Hok%reachable_ok [(got & rest & -> & Htr)%set_up_trace Hr] [[= ->] Hs].
  rewrite Hs in Htr.
  destruct Htr as (tr' & ks' & x & (tr1 & lists & tr2 & -> & H1 & H2)%setupAll_trace & ->).
  exists lists. split; [by eexists _, tr1, _; split; [by rewrite <-(assoc_L (++))|]|].
  intros l -> Hall. destruct H2 as (errs & H2 & Hret).
  destruct Hr as (s1 & [sh1 ->]%rtc_elsewhere & _ & Hr).
  apply replay_app in Hr as (s3 & Hr & Hr3). apply replay_app in Hr as (s2 & Hr1 & Hr2).
  apply (discover_quiet _ _ _ _ _ _ H1) in Hr1 as [sh2 ->].
  apply (rules_watched (setCondition activeCondition ks) l _ errs) in Hr2 as [-> Hsame]; [|done..].
  injection Hret as -> ->. split; [done|].
  apply replay_quiet in Hr3 as [sh3 ->]; [done|].
  intros e [->|[->|?%elem_of_nil]%elem_of_cons]%elem_of_cons; done.
Qed.

(** [C30] Set-up failures are accounted for: whatever happens, a set-up marks its KRMSyncer
    exactly once, as failed if it returns an error and as succeeded if not; a suspended or
    deleted KRMSyncer is marked as succeeded; a KRMSyncer that could not be read is not
    marked. *)
Theorem Reconcile_tracks_setup req tr out :
  trace_of (Reconcile r req) tr out →
  match read_of tr with
  | Some (Err e) =>
      if IsNotFound e then out = None ∧ setup_marks tr = [(req, false)]
      else out = Some (EApi e) ∧ setup_marks tr = []
  | Some (Ok ks) =>
      if spec_Suspend (ks_Spec ks) then out = None ∧ setup_marks tr = [(req, false)]
      else setup_marks tr = [(syncer_key ks, bool_decide (out ≠ None))]
  | None => False
  end.
Proof. apply set_up_marks. Qed.

(** A suspended KRMSyncer is left alone: its set-up succeeds, and all it does is to read
    it, to mark it as not failing and to record the "Suspended" condition in one status
    update; nothing is discovered, connected or watched. *)
Theorem Reconcile_suspended req tr out ks :
  trace_of (Reconcile r req) tr out → read_of tr = Some (Ok ks) →
  spec_Suspend (ks_Spec ks) = true →
  out = None ∧ ∃ x, tr =
    [Ev (OpGetSyncer (r_Client r) req) (Ok ks); Ev (OpMarkSetup req false) tt;
     Ev (OpStatusUpdate (r_Client r) (setCondition suspendedCondition ks)) x].
Proof.
  intros (got & rest & -> & Htr)%set_up_trace [= ->] Hs. rewrite Hs in Htr.
  destruct Htr as (x & -> & ->). split; [done|]. by exists x.
Qed.

(** Discovery is skipped only when it makes no difference: a set-up asks for
    discovery exactly if some rule has a "*"; without one, every rule expands the same
    whatever discovery would have returned. Errors of single API groups are tolerated:
    the rules are then expanded with the lists that came. *)
Theorem discovery_on_demand ks tr x :
  let rules := spec_Rules (ks_Spec ks) in
  trace_of (discover r ks (mode_of ks)) tr x →
  (needsExpansion rules = false → tr = [] ∧ x = Ok [] ∧
    ∀ rule lists, rule ∈ rules → expandRule rule lists = expandRule rule []) ∧
  (needsExpansion rules = true →
    (∃ e, x = Err e) ∨ ∃ tr' dc lists err, tr = tr' ++ [Ev (OpDiscover dc) (lists, err)] ∧
      x = Ok lists ∧ ∀ e, err = Some e → IsGroupDiscoveryFailedError e = true).
Proof.
  intros rules. unfold discover. fold rules. destruct (needsExpansion rules) eqn:Hn; simpl.
  - intros Htr. split; [done|]. intros _.
    apply trace_of_bind in Htr as (tr1 & [dc|e] & tr2 & -> & _ & Htr); [|left; by destruct Htr as [_ ->]; eexists].
    destruct Htr as ([lists [e|]] & tr3 & -> & Htr); simpl in Htr.
    + destruct (IsGroupDiscoveryFailedError e) eqn:He; destruct Htr as [-> ->]; [right|left; by eexists].
      exists tr1, dc, lists, (Some e). split_and!; [done|done|]. by intros e' [= <-].
    + destruct Htr as [-> ->]. right. by exists tr1, dc, lists, None.
  - intros [-> ->]. split; [|done]. intros _. split_and!; [done..|].
    intros rule lists Hin. unfold expandRule.
    destruct (validateRule rule); [done|].
    destruct (isKCCGlob rule) eqn:Hk; [|done]. apply isKCCGlob_hasGlob in Hk.
    assert (Hex : needsExpansion rules = true); [|congruence].
    apply existsb_exists. exists rule. by rewrite <-list_elem_of_In.
Qed.
End SetupSpec.

(** ** Witnesses *)

Section SetupWitnesses.
#[local] Existing Instance FakeErrors.
#[local] Existing Instance FakeParser.
#[local] Existing Instance FakeUnstructured.
#[local] Existing Instance FakeCluster.
#[local] Existing Instance FakeProvider.
#[local] Existing Instance FakeGauge.

(** Discovery serves two groups of kinds; a remote cluster is its connection's number. *)
Definition FakeSetup : SetupLibs := {|
  do_GetSyncer c req w :=
    (match list_find (λ k, syncer_key k = req) (fw_syncers w) with
     | Some (_, k) => Ok k | None => Err FNotFound end, w);
  do_StatusUpdate c k w := (None, w);
  SetStatusCondition l c := l ++ [c];
  GroupVersionKind_String g := gvk_Kind g;
  with_Timeout t cfg := cfg;
  discovery_client := nat;
  NewDiscoveryClientForConfig cfg := Ok cfg;
  ServerPreferredResources dc w := (([
    {| arl_GroupVersion := "pubsub.cnrm.cloud.google.com/v1beta1";
       arl_APIResources := [{| ar_Name := "pubsubtopics"; ar_Kind := "PubSubTopic"; ar_Verbs := [] |};
         {| ar_Name := "pubsubtopics/status"; ar_Kind := "PubSubTopic"; ar_Verbs := [] |}] |};
    {| arl_GroupVersion := "apps/v1";
       arl_APIResources := [{| ar_Name := "deployments"; ar_Kind := "Deployment"; ar_Verbs := [] |}] |}],
    Some FGroupDiscovery), w);
  cluster := nat;
  cluster_New cfg period w := (Ok cfg, w);
  cluster_Start c w := w;
  WaitForCacheSync c w := (true, w);
  cluster_GetClient c := c;
|}.
#[local] Existing Instance FakeSetup.

(** The builder accepts every controller but those of kind "Bad". *)
Definition fake_Complete (spec : controller_spec) (w : world) : option api_error * world :=
  (if decide (gvk_Kind (cs_GVK spec) = "Bad") then Some (FOther "no kind") else None, w).

Definition demo_reconciler : KRMSyncerReconciler :=
  {| r_Client := 0; r_ManagerConfig := 0; r_SyncPeriod := None; r_MaxConcurrentReconciles := 0 |}.

Definition literal_rule (kind : string) : ResourceRule :=
  {| rule_Group := ""; rule_Version := "v1"; rule_Kind := kind; rule_Namespaces := [];
     rule_SyncFields := ["spec"] |}.

Definition kcc_rule : ResourceRule :=
  {| rule_Group := "*.cnrm.cloud.google.com"; rule_Version := "*"; rule_Kind := "*";
     rule_Namespaces := []; rule_SyncFields := ["spec"] |}.

Definition setup_syncer (suspend : bool) (rules : list ResourceRule) : KRMSyncer :=
  {| ks_Namespace := "ns"; ks_Name := "s";
     ks_Spec := {| spec_Suspend := suspend; spec_Mode := ""; spec_Remote := demo_remote "c";
                   spec_Rules := rules |};
     ks_Status := {| status_Conditions := [] |} |}.

Definition setup_world (suspend : bool) (rules : list ResourceRule) : fake_world :=
  {| fw_objects := ∅; fw_namespaces := ∅; fw_syncers := [setup_syncer suspend rules];
     fw_down := ∅ |}.

Definition initial (suspend : bool) (rules : list ResourceRule) : setup_state :=
  initial_state (setup_world suspend rules) ∅.

Definition demo_setup (rules : list ResourceRule) :
    (trace setup_operation * option goerr) * setup_state :=
  exec (setup_handle fake_Complete) (Reconcile demo_reconciler (NN "ns" "s")) (initial false rules).

Lemma demo_setup_run rules :
  set_up_run fake_Complete demo_reconciler (NN "ns" "s") (initial false rules)
    (demo_setup rules).1.1 (demo_setup rules).1.2 (demo_setup rules).2.
Proof. exact (exec_set_up fake_Complete demo_reconciler (NN "ns" "s") (initial false rules)). Qed.

Definition remote_watch (kind group version : string) : watch_id :=
  inr {| rgvk_Cluster := "c"; rgvk_GVK := GVK group version kind |}.

Lemma initial_reachable suspend rules :
  reachable fake_Complete demo_reconciler (initial suspend rules).
Proof. do 2 eexists. apply rtc_refl. Qed.

Lemma demo_setup_reachable rules :
  reachable fake_Complete demo_reconciler (demo_setup rules).2.
Proof. do 2 eexists. eapply rtc_l; [eapply step_set_up, demo_setup_run|apply rtc_refl]. Qed.

(** A glob and a literal rule: the two kinds are watched. *)
Lemma watches_started_once_witness :
  controller_watches (demo_setup [kcc_rule; literal_rule "ConfigMap"]).2 =
    [remote_watch "PubSubTopic" "pubsub.cnrm.cloud.google.com" "v1beta1";
     remote_watch "ConfigMap" "" "v1"] ∧
  NoDup (controller_watches (demo_setup [kcc_rule; literal_rule "ConfigMap"]).2).
Proof.
  split; [reflexivity|].
  exact (proj1 (watches_started_once _ _ _ (demo_setup_reachable _))).
Defined.

(** The remote cluster of the demo connection. *)
Definition cluster_c : cluster := 1.

Lemma started_controllers_witness :
  ∃ spec, spec ∈ su_Controllers (demo_setup [literal_rule "ConfigMap"]).2 ∧
    dr_GVK (cs_Reconciler spec) = cs_GVK spec.
Proof.
  exists (pull_spec demo_reconciler cluster_c {| rgvk_Cluster := "c"; rgvk_GVK := GVK "" "v1" "ConfigMap" |}).
  assert (Hin : pull_spec demo_reconciler cluster_c
    {| rgvk_Cluster := "c"; rgvk_GVK := GVK "" "v1" "ConfigMap" |} ∈
    su_Controllers (demo_setup [literal_rule "ConfigMap"]).2)
    by (apply (list_elem_of_lookup_2 _ 0); reflexivity).
  split; [exact Hin|].
  exact (proj1 (started_controllers _ _ _ _ (demo_setup_reachable _) Hin)).
Defined.

(** One of two kinds cannot be watched: the other one is, and the error names the
    failure. *)
Lemma Reconcile_watches_or_reports_witness :
  let res := demo_setup [literal_rule "Bad"; literal_rule "ConfigMap"] in
  is_Some res.1.2 ∧ watched res.2 (remote_watch "ConfigMap" "" "v1") ∧
  ∀ rule, rule ∈ [literal_rule "Bad"; literal_rule "ConfigMap"] →
    ∃ lists gvks, expandRule rule lists = Ok gvks.
Proof.
  intros res. split; [by eexists|]. split.
  { exact (eq_refl (Some tt)). }
  destruct (Reconcile_watches_or_reports fake_Complete demo_reconciler (NN "ns" "s")
    (initial false [literal_rule "Bad"; literal_rule "ConfigMap"]) res.1.1 res.1.2 res.2
    (setup_syncer false [literal_rule "Bad"; literal_rule "ConfigMap"])
    (initial_reachable _ _) (demo_setup_run _)) as (lists & Hd & Ho & _); [by split|].
  destruct lists as [lists|e].
  - destruct Ho as [(rule & e & Hr & He & _)|Ho].
    + exfalso. repeat (apply elem_of_cons in Hr as [->|Hr]; [done|]). by apply elem_of_nil in Hr.
    + intros rule Hrule. exists lists. destruct (Ho rule Hrule) as (gvks & He & _). by exists gvks.
  - exfalso. destruct Hd as (e0 & tr1 & tr2 & _ & Hd). by destruct Hd as [_ Hd].
Defined.

(** The second set-up starts nothing. *)
Lemma Reconcile_idempotent_witness :
  let s := (demo_setup [literal_rule "ConfigMap"]).2 in
  let x := exec (setup_handle fake_Complete) (Reconcile demo_reconciler (NN "ns" "s")) s in
  length (su_Controllers s) = 1 ∧ x.1.2 = None ∧ su_Controllers x.2 = su_Controllers s.
Proof.
  intros s x. split; [reflexivity|].
  destruct (Reconcile_idempotent fake_Complete demo_reconciler (NN "ns" "s") s x.1.1 x.1.2 x.2
    (setup_syncer false [literal_rule "ConfigMap"]) (demo_setup_reachable _)
    (exec_set_up fake_Complete demo_reconciler (NN "ns" "s") s)) as (lists & Hd & Hw); [by split|].
  destruct Hd as (e0 & tr1 & tr2 & _ & _ & ->).
  destruct (Hw [] eq_refl) as [Hout Hs]; [|split; [exact Hout|exact (proj1 Hs)]].
  intros rule ->%list_elem_of_singleton. eexists. split; [reflexivity|].
  intros gvk ->%list_elem_of_singleton. eexists. split; [reflexivity|].
  exact (eq_refl (Some tt)).
Defined.

(** The failed set-up is marked. *)
Lemma Reconcile_tracks_setup_witness :
  setup_marks (demo_setup [literal_rule "Bad"]).1.1 = [(NN "ns" "s", true)].
Proof.
  assert (Ht := Reconcile_tracks_setup demo_reconciler (NN "ns" "s")
    (demo_setup [literal_rule "Bad"]).1.1 (demo_setup [literal_rule "Bad"]).1.2
    (proj1 (demo_setup_run _))).
  exact Ht.
Defined.

Lemma Reconcile_suspended_witness :
  let x := exec (setup_handle fake_Complete) (Reconcile demo_reconciler (NN "ns" "s"))
    (initial true []) in
  x.1.2 = None ∧ length x.1.1 = 3.
Proof.
  intros x.
  destruct (Reconcile_suspended demo_reconciler (NN "ns" "s") x.1.1 x.1.2 (setup_syncer true [])
    (proj1 (exec_set_up fake_Complete demo_reconciler (NN "ns" "s") (initial true []))) eq_refl eq_refl)
    as (Hout & y & Htr).
  split; [exact Hout|]. by rewrite Htr.
Defined.
End SetupWitnesses.
