(* ===== verification/Status.v ===== *)
(** * The status that a set-up reports

    What [Setup.Reconcile] writes to the status of a KRMSyncer: one update, after everything
    else, with conditions that say how the set-up went. Conditions are only ever added or
    replaced, which is shown to leave those of earlier set-ups behind. *)

From stdpp Require Import base list strings gmap.
From S2P Require Import Prelude Threads GoStrings Kube Api Fake Rules Tracker.
From S2P Require Import Client FakeCluster RemoteClients Sync Setup SetupTraces SetupSpec.

Section Status.
Context {AE : ApiErrors} {AC : ApiClient} {RP : RemoteConfigProvider} {SL : SetupLibs}.
Context {GP : GroupVersionParser} {PG : PrometheusGauge}.
Context (r : KRMSyncerReconciler).

(** ** Which conditions a set-up reports *)

(** The error of the first rule that cannot be expanded. *)
Fixpoint first_invalid (lists : list APIResourceList) (rules : list ResourceRule) :
    option goerr :=
  match rules with
  | [] => None
  | rule :: rules =>
      match expandRule rule lists with
      | Err e => Some e
      | Ok _ => first_invalid lists rules
      end
  end.

(** The conditions that the set-up of an active KRMSyncer sets, for the answer of
    discovery. *)
Definition active_conditions (ks : KRMSyncer) (lists : res goerr (list APIResourceList)) :
    list Condition :=
  activeCondition ::
  match lists with
  | Ok lists =>
      match first_invalid lists (spec_Rules (ks_Spec ks)) with
      | Some e => [invalidRuleCondition e]
      | None => []
      end
  | Err _ => []
  end.

Definition with_conditions (ks : KRMSyncer) (new : list Condition) : list Condition :=
  foldl SetStatusCondition (status_Conditions (ks_Status ks)) new.

Lemma setupRule_err ks mode lists rule errs tr x :
  trace_of (setupRule r ks mode lists rule errs) tr x →
  match x with
  | Err e => expandRule rule lists = Err e
  | Ok _ => ∃ gvks, expandRule rule lists = Ok gvks
  end.
Proof.
  unfold setupRule. destruct (expandRule rule lists) as [gvks|e]; [|by intros [_ ->]].
  intros (tr1 & errs' & tr2 & _ & _ & _ & ->)%trace_of_bind. by exists gvks.
Qed.

Lemma rules_err ks mode lists rules errs tr x :
  trace_of (forP_return rules errs (setupRule r ks mode lists)) tr x →
  match x with
  | Err e => first_invalid lists rules = Some e
  | Ok _ => first_invalid lists rules = None
  end.
Proof.
  revert errs tr. induction rules as [|rule rules IH]; intros errs tr; [by intros [_ ->]|].
  intros (tr1 & y & tr2 & _ & Hr%setupRule_err & Htr)%trace_of_bind. cbn [first_invalid].
  destruct y as [errs'|e].
  - destruct Hr as [gvks ->]. by eapply IH.
  - destruct Htr as [_ ->]. by rewrite Hr.
Qed.

(** The conditions a set-up sets, and all that it reports, for what it reads and what
    discovery answers. *)
Definition new_conditions (ks : KRMSyncer) (lists : res goerr (list APIResourceList)) :
    list Condition :=
  if spec_Suspend (ks_Spec ks) then [suspendedCondition] else active_conditions ks lists.
Definition reported_conditions (ks : KRMSyncer) (lists : res goerr (list APIResourceList)) :
    list Condition := with_conditions ks (new_conditions ks lists).

(** The object with other conditions. *)
Definition reports (ks ks' : KRMSyncer) (conds : list Condition) : Prop :=
  ks_Namespace ks' = ks_Namespace ks ∧ ks_Name ks' = ks_Name ks ∧ ks_Spec ks' = ks_Spec ks ∧
  status_Conditions (ks_Status ks') = conds.

Lemma setupAll_conditions ks tr ks' out :
  trace_of (setupAll r (setCondition activeCondition ks)) tr (ks', out) →
  ∃ tr1 lists tr2, tr = tr1 ++ tr2 ∧
    trace_of (discover r (setCondition activeCondition ks) (mode_of ks)) tr1 lists ∧
    reports ks ks' (with_conditions ks (active_conditions ks lists)).
Proof.
  intros (tr1 & lists & tr2 & -> & Hd & Hret)%setupAll_trace. exists tr1, lists, tr2.
  split_and!; [done..|]. unfold active_conditions. destruct lists as [lists|e].
  - destruct Hret as (errs & Herr%rules_err & Hks). cbn in Herr.
    destruct errs as [errs|e]; injection Hks as -> _; by rewrite Herr.
  - by destruct Hret as [_ [= -> _]].
Qed.

Lemma set_up_reports req tr out ks :
  trace_of (Reconcile r req) tr out → read_of tr = Some (Ok ks) →
  ∃ lists tr' ks' x, (spec_Suspend (ks_Spec ks) = false → discovered r ks tr lists) ∧
    tr = tr' ++ [Ev (OpStatusUpdate (r_Client r) ks') x] ∧ status_updates tr' = [] ∧
    reports ks ks' (reported_conditions ks lists).
Proof.
  intros (got & rest & -> & Htr)%set_up_trace [= ->].
  unfold reported_conditions, new_conditions. destruct (spec_Suspend (ks_Spec ks)).
  - destruct Htr as (x & -> & ->).
    by eexists (Ok []), [_; _], (setCondition suspendedCondition ks), x.
  - destruct Htr as (tr' & ks' & x & Htr & ->). apply setupAll_quiet in Htr as Hq.
    apply setupAll_conditions in Htr as (tr1 & lists & tr2 & -> & Hd & Hr).
    exists lists, (Ev (OpGetSyncer (r_Client r) req) (Ok ks) :: (tr1 ++ tr2) ++
      [Ev (OpMarkSetup (syncer_key ks) (bool_decide (out ≠ None))) tt]), ks', x. split_and!.
    + intros _. eexists _, tr1, _. split; [|exact Hd]. by rewrite <-(assoc_L (++)).
    + simpl. by rewrite <-!(assoc_L (++)).
    + change (status_updates ((tr1 ++ tr2) ++
        [Ev (OpMarkSetup (syncer_key ks) (bool_decide (out ≠ None))) tt]) = []).
      unfold status_updates in *. by rewrite omap_app, (proj2 Hq).
    + exact Hr.
Qed.

(** ** Properties *)

(** [C28] A set-up of a KRMSyncer that could be read updates its status exactly once, after
    everything else it does. What it sends is the object as it was read, with the conditions
    it had and "Suspended" if it is suspended and "Active" if not, and in the latter case the
    error of the first rule that cannot be expanded, if there is one. A KRMSyncer that
    cannot be read gets no update. *)
Theorem Reconcile_reports_status req tr out :
  trace_of (Reconcile r req) tr out →
  match read_of tr with
  | Some (Ok ks) => ∃ lists tr' ks' x,
      (spec_Suspend (ks_Spec ks) = false → discovered r ks tr lists) ∧
      tr = tr' ++ [Ev (OpStatusUpdate (r_Client r) ks') x] ∧ status_updates tr' = [] ∧
      reports ks ks' (reported_conditions ks lists)
  | _ => status_updates tr = []
  end.
Proof.
  intros Htr. destruct (read_of tr) as [[ks|e]|] eqn:Hg; [by eapply set_up_reports| |];
    apply set_up_trace in Htr as (got & rest & -> & Htr); [|done].
  injection Hg as ->. by destruct (IsNotFound e); destruct Htr as [-> _].
Qed.

(** [meta.SetStatusCondition] as documented: it replaces the condition of that type, or
    adds it. *)
Class SetStatusConditionLaws : Prop := {
  SetStatusCondition_sets l c : c ∈ SetStatusCondition l c;
  SetStatusCondition_keeps l c c' :
    c' ∈ l → cond_Type c' ≠ cond_Type c → c' ∈ SetStatusCondition l c;
  SetStatusCondition_only l c c' : c' ∈ SetStatusCondition l c → c' = c ∨ c' ∈ l;
}.
Context {CL : SetStatusConditionLaws}.

(** Setting conditions keeps those of other types. *)
Lemma foldl_keeps c new old :
  c ∈ old → (∀ c', c' ∈ new → cond_Type c ≠ cond_Type c') →
  c ∈ foldl SetStatusCondition old new.
Proof.
  revert old. induction new as [|c' new IH]; intros old Hc Hnew; [done|]. simpl. apply IH.
  - apply SetStatusCondition_keeps; [done|]. apply Hnew. by left.
  - intros c'' ?. apply Hnew. by right.
Qed.

Lemma foldl_only c new old : c ∈ foldl SetStatusCondition old new → c ∈ new ∨ c ∈ old.
Proof.
  revert old. induction new as [|c' new IH]; intros old; [by right|]. simpl.
  intros [Hin|[->|Hin]%SetStatusCondition_only]%IH; [by left; right|by left; left|by right].
Qed.

(** The conditions of one set-up have different types. *)
Lemma foldl_sets c new old :
  NoDup (cond_Type <$> new) → c ∈ new → c ∈ foldl SetStatusCondition old new.
Proof.
  revert old. induction new as [|c' new IH]; intros old Hn; [by intros ?%elem_of_nil|].
  apply NoDup_cons in Hn as [Hout Hn]. intros [->|Hin]%elem_of_cons; simpl; [|by apply IH].
  apply foldl_keeps; [apply SetStatusCondition_sets|].
  intros c'' Hin Ht. apply Hout. rewrite Ht. by apply list_elem_of_fmap_2.
Qed.

Lemma new_conditions_types ks lists : NoDup (cond_Type <$> new_conditions ks lists).
Proof.
  unfold new_conditions, active_conditions.
  repeat case_match; apply (bool_decide_unpack _); reflexivity.
Qed.

(** [C29] The status update of a set-up reports every condition of this set-up, and never
    clears one of an earlier set-up: a condition of the object is dropped only if one of its
    type is set now. So a KRMSyncer that was suspended and is resumed is reported as both
    suspended and active, and one whose rules are valid again keeps its "InvalidRule". *)
Theorem Reconcile_keeps_conditions req tr out ks :
  trace_of (Reconcile r req) tr out → read_of tr = Some (Ok ks) →
  ∃ lists ks', (spec_Suspend (ks_Spec ks) = false → discovered r ks tr lists) ∧
    let new := new_conditions ks lists in
    let conds := status_Conditions (ks_Status ks') in
    status_updates tr = [ks'] ∧ (∀ c, c ∈ new → c ∈ conds) ∧
    (∀ c, c ∈ status_Conditions (ks_Status ks) →
      (∀ c', c' ∈ new → cond_Type c ≠ cond_Type c') → c ∈ conds) ∧
    ∀ c, c ∈ conds → c ∈ new ∨ c ∈ status_Conditions (ks_Status ks).
Proof.
  intros Htr Hg.
  destruct (set_up_reports req tr out ks Htr Hg) as (lists & tr' & ks' & x & Hd & -> & Hq & Hr).
  destruct Hr as (_ & _ & _ & Hc). exists lists, ks'. split; [done|]. cbv zeta. rewrite Hc.
  unfold reported_conditions, with_conditions. split_and!.
  - unfold status_updates in *. by rewrite omap_app, Hq.
  - intros c. apply foldl_sets, new_conditions_types.
  - intros c. apply foldl_keeps.
  - intros c. apply foldl_only.
Qed.
End Status.

(** ** Witness: a KRMSyncer that was suspended and is resumed *)

Section StatusWitness.
#[local] Existing Instance FakeErrors.
#[local] Existing Instance FakeParser.
#[local] Existing Instance FakeCluster.
#[local] Existing Instance FakeProvider.
#[local] Existing Instance FakeGauge.

(** As [FakeSetup], with a [SetStatusCondition] that replaces a condition in place. *)
Definition FakeStatus : SetupLibs := {|
  do_GetSyncer := do_GetSyncer (SetupLibs := FakeSetup);
  do_StatusUpdate := do_StatusUpdate (SetupLibs := FakeSetup);
  SetStatusCondition l c :=
    if decide (cond_Type c ∈ cond_Type <$> l)
    then (λ c', if decide (cond_Type c' = cond_Type c) then c else c') <$> l
    else l ++ [c];
  GroupVersionKind_String := GroupVersionKind_String (SetupLibs := FakeSetup);
  with_Timeout := with_Timeout (SetupLibs := FakeSetup);
  discovery_client := discovery_client (SetupLibs := FakeSetup);
  NewDiscoveryClientForConfig := NewDiscoveryClientForConfig (SetupLibs := FakeSetup);
  ServerPreferredResources := ServerPreferredResources (SetupLibs := FakeSetup);
  cluster := Setup.cluster (SetupLibs := FakeSetup);
  cluster_New := cluster_New (SetupLibs := FakeSetup);
  cluster_Start := cluster_Start (SetupLibs := FakeSetup);
  WaitForCacheSync := WaitForCacheSync (SetupLibs := FakeSetup);
  cluster_GetClient := cluster_GetClient (SetupLibs := FakeSetup);
|}.
#[local] Existing Instance FakeStatus.

#[local] Instance FakeStatusLaws : SetStatusConditionLaws.
Proof.
  split; intros l c; simpl.
  - destruct (decide _) as [Ht|_]; [|apply elem_of_app; right; by left].
    apply list_elem_of_fmap in Ht as (c' & Ht & Hin). apply list_elem_of_fmap. exists c'.
    by rewrite decide_True.
  - intros c' Hin Ht. destruct (decide _); [|apply elem_of_app; by left].
    apply list_elem_of_fmap. exists c'. by rewrite decide_False.
  - intros c'. destruct (decide _); [|rewrite elem_of_app, list_elem_of_singleton; tauto].
    intros (c'' & -> & Hin)%list_elem_of_fmap. destruct (decide _); [by left|by right].
Qed.

(** A KRMSyncer without rules that an earlier set-up reported as suspended. *)
Definition resumed_syncer : KRMSyncer :=
  {| ks_Namespace := "ns"; ks_Name := "s";
     ks_Spec := {| spec_Suspend := false; spec_Mode := ""; spec_Remote := demo_remote "c";
                   spec_Rules := [] |};
     ks_Status := {| status_Conditions := [suspendedCondition] |} |}.

Definition resumed : setup_state :=
  initial_state {| fw_objects := ∅; fw_namespaces := ∅; fw_syncers := [resumed_syncer];
    fw_down := ∅ |} ∅.

Definition accept_all (spec : controller_spec) (w : world) : option api_error * world := (None, w).

Definition resumed_run : (trace setup_operation * option goerr) * setup_state :=
  exec (setup_handle accept_all) (Reconcile demo_reconciler (NN "ns" "s")) resumed.

Lemma resumed_trace :
  trace_of (Reconcile demo_reconciler (NN "ns" "s")) resumed_run.1.1 resumed_run.1.2.
Proof.
  exact (exec_trace (setup_handle accept_all) (Reconcile demo_reconciler (NN "ns" "s")) resumed).
Qed.

Lemma Reconcile_reports_status_witness :
  ∃ tr' ks' x, resumed_run.1.1 = tr' ++ [Ev (OpStatusUpdate (r_Client demo_reconciler) ks') x] ∧
    status_updates tr' = [] ∧
    status_Conditions (ks_Status ks') = [suspendedCondition; activeCondition].
Proof.
  destruct (Reconcile_reports_status demo_reconciler (NN "ns" "s") resumed_run.1.1
    resumed_run.1.2 resumed_trace) as (lists & tr' & ks' & x & Hd & Htr & Hq & Hr).
  exists tr', ks', x. split; [exact Htr|]. split; [exact Hq|].
  destruct (Hd eq_refl) as (e0 & tr1 & tr2 & _ & _ & ->). exact (proj2 (proj2 (proj2 Hr))).
Defined.

Lemma Reconcile_keeps_conditions_witness :
  ∃ ks', status_updates resumed_run.1.1 = [ks'] ∧
    activeCondition ∈ status_Conditions (ks_Status ks') ∧
    suspendedCondition ∈ status_Conditions (ks_Status ks').
Proof.
  destruct (Reconcile_keeps_conditions demo_reconciler (NN "ns" "s") resumed_run.1.1
    resumed_run.1.2 resumed_syncer resumed_trace eq_refl)
    as (lists & ks' & Hd & Hup & Hnew & Hold & _).
  destruct (Hd eq_refl) as (e0 & tr1 & tr2 & _ & _ & ->).
  exists ks'. split; [exact Hup|]. split.
  - apply Hnew. by left.
  - apply Hold; [by left|]. by intros c' ->%list_elem_of_singleton.
Defined.
End StatusWitness.
