(* ===== verification/Pipeline.v ===== *)
(** * From the set-up of a KRMSyncer to the sync of an object

    The set-up ([Setup]) decides with [expandRule] what is watched; the handler of an event
    ([Sync]) decides again, with [ruleMatchesGVK] and the KRMSyncers it is told, what to do.
    This file shows that the two fit: what a successful set-up promises is what the
    controllers it started do. *)

From stdpp Require Import base list strings gmap.
From S2P Require Import Prelude Threads GoStrings Kube Api Fake Rules FieldFilter Tracker.
From S2P Require Import Client FakeCluster Apply RemoteClients Sync SyncSpec Setup SetupTraces SetupSpec.

Section Pipeline.
Context {AE : ApiErrors} {AC : ApiClient} {UN : Unstructured} {UL : UnstructuredLaws}.
Context {RP : RemoteConfigProvider} {CF : ClientFactory} {PG : PrometheusGauge}.
Context {SL : SetupLibs} {GP : GroupVersionParser}.
Context (Complete : controller_spec → world → option api_error * world).
Context (r : KRMSyncerReconciler).

(** The modes the CRD allows. *)
Definition valid_mode (mode : Mode) : Prop := mode = ModePush ∨ mode = ModePull.

(** The same KRMSyncer, with its status and all else the event handler does not read. *)
Definition same_syncer (k1 k2 : KRMSyncer) : Prop :=
  ks_Namespace k1 = ks_Namespace k2 ∧ ks_Spec k1 = ks_Spec k2.

(** A rule that expands to a kind matches it. *)
Lemma expandRule_matches rule lists gvks gvk :
  expandRule rule lists = Ok gvks → gvk ∈ gvks → ruleMatchesGVK rule gvk = true.
Proof.
  unfold expandRule. destruct (validateRule rule); [done|].
  destruct (isKCCGlob rule) eqn:Hk; intros [= <-].
  - by intros [_ ?]%expandRule_KCC.
  - intros ->%list_elem_of_singleton. by apply ruleMatches_literal.
Qed.

(** The started controller of a watch that a KRMSyncer needs handles that KRMSyncer. *)
Lemma needed_syncer_matches s ks mode gvk i spec k :
  needed_watch ks mode gvk = Some i → watch_of spec = i → registered r s spec →
  effective_mode (spec_Mode (ks_Spec ks)) = mode → valid_mode mode →
  spec_Suspend (ks_Spec ks) = false → same_syncer k ks →
  cs_GVK spec = gvk ∧ dr_GVK (cs_Reconciler spec) = gvk ∧
  syncerMatches (cs_Reconciler spec) k = true.
Proof.
  unfold needed_watch, watch_of. intros Hi Hw Hreg Hmode Hvalid Hs [Hns Hspec].
  unfold syncerMatches. rewrite Hspec, Hns, Hs, Hmode.
  destruct Hreg as [(g & ->)|(c & rgvk & -> & _)]; simpl in *; subst i.
  - destruct (bool_decide_reflect (mode = ModePull)) as [Hp|Hp].
    + by destruct (Key _ _).
    + destruct Hvalid as [->| ->]; [|done]. by injection Hi as ->.
  - destruct (bool_decide_reflect (mode = ModePull)) as [->|Hp]; [|done].
    destruct (Key _ _) as [key|e]; [|done]. injection Hi as <-. simpl.
    by rewrite bool_decide_eq_true_2.
Qed.

(** The part of a run's calls that is for one target, the client it asked for, and the error
    it adds. *)
Lemma target_run dr req tr out got src items t :
  trace_of (Sync.Reconcile dr req) tr out → got_of tr = Some got → source_of got = Some src →
  listed_of tr = Some (Ok items) → t ∈ targets dr req items →
  ∃ l1 l l2 dest e, calls_of tr = l1 ++ l ++ l2 ∧ asked dr t.1 dest ⊆ remotes_of tr ∧
    target_protocol dr req src t dest l e ∧ (out = None → e = None).
Proof.
  intros (got' & Hg & Hp)%Reconcile_emits Hgot Hsrc Hlisted Ht. simplify_eq.
  rewrite Hlisted in Hp.
  inversion Hp as [| |src' items' rs l errs Hs Hts Hi Hrs Hcalls Hout]; simplify_eq.
  apply targets_protocol_runs in Hts as (runs & HF & Hrs & -> & ->).
  apply list_elem_of_lookup in Ht as [i Hi].
  destruct (Forall2_lookup_l _ _ _ _ _ HF Hi) as ([dest l e] & Hrun & Ht).
  assert (Hask : asked dr t.1 dest ⊆ remotes_of tr).
  { intros a Ha. rewrite Hrs. apply list_elem_of_In, in_concat. exists (asked dr t.1 dest).
    split; [|by apply list_elem_of_In]. apply list_elem_of_In, (list_elem_of_lookup_2 _ i).
    rewrite lookup_zip_with. by rewrite Hi, Hrun. }
  apply list_elem_of_split_length in Hrun as (runs1 & runs2 & -> & _).
  eexists (_ :: _ :: concat (at_Calls <$> runs1)), l, (concat (at_Calls <$> runs2)), dest, e.
  split; [|split_and!; [done|exact Ht|]].
  - by rewrite fmap_app, concat_app.
  - intros Hnone%Join_all_None. rewrite omap_app in Hnone. destruct e; [|done].
    by apply app_nil in Hnone as [_ ?].
Qed.

(** What a set-up without error has started handles the KRMSyncer's rules, also later. *)
Lemma set_up_watches tr s ks :
  watches_sound r s → set_up_post r tr None s → set_up tr ks → valid_mode (mode_of ks) →
  ∃ lists, discovered r ks tr (Ok lists) ∧
  ∀ rule, rule ∈ spec_Rules (ks_Spec ks) →
  ∃ gvks, expandRule rule lists = Ok gvks ∧ ∀ gvk, gvk ∈ gvks →
  ∃ spec, spec ∈ su_Controllers s ∧ cs_GVK spec = gvk ∧
    ∀ ev items k, rule_Namespaces rule = [] ∨ nn_Namespace ev ∈ rule_Namespaces rule →
      k ∈ items → same_syncer k ks → (k, rule) ∈ targets (cs_Reconciler spec) ev items.
Proof.
  intros Hok Hpost Hks Hvalid. destruct (Hpost ks Hks) as (lists & ret & Hd & Hret & Ho).
  destruct lists as [lists|e]; [|by rewrite Ho in Hret].
  exists lists. split; [done|].
  destruct Ho as [(rule & e & _ & _ & ->)|(errs & -> & Hall)]; [done|].
  symmetry in Hret. apply Join_all_None in Hret as ->.
  intros rule Hrule. destruct (Hall rule Hrule) as (gvks & He & Hgv). exists gvks.
  split; [done|]. intros gvk Hin.
  destruct (Hgv gvk Hin) as [(i & Hi & Hw)|(e & Hin' & _)]; [|by apply elem_of_nil in Hin'].
  destruct (watched_started r s i Hok Hw) as (spec & Hst & Hof & Hreg).
  assert (Hm := λ k, needed_syncer_matches _ _ _ _ _ _ k Hi Hof Hreg eq_refl Hvalid (proj2 Hks)).
  exists spec. split; [done|]. split; [by apply (Hm ks)|].
  intros ev items k Hns Hk Hsame. destruct (Hm k Hsame) as (_ & Hdr & Hsync).
  apply targets_elem. split_and!; [done|done| |].
  - by rewrite (proj2 Hsame).
  - apply ruleMatches_spec. rewrite Hdr. split; [by eapply expandRule_matches|done].
Qed.

(** ** Properties *)

(** What is set up is synced. After a set-up without error, every kind of every rule of
    the KRMSyncer has a started controller such that any run of its handler, for an event in
    a namespace of the rule, that could read the source and finds the KRMSyncer among those
    listed, makes the calls of the protocol for this KRMSyncer and rule; and if the run
    returns no error, they succeeded. So the kinds chosen at set-up time, the connection key
    and the mode are matched at event time, and no event is taken and then ignored. *)
Theorem set_up_rules_are_synced req s tr0 s' ks :
  reachable Complete r s → set_up_run Complete r req s tr0 None s' → set_up tr0 ks →
  valid_mode (mode_of ks) →
  ∃ lists, discovered r ks tr0 (Ok lists) ∧
  ∀ rule, rule ∈ spec_Rules (ks_Spec ks) →
  ∃ gvks, expandRule rule lists = Ok gvks ∧ ∀ gvk, gvk ∈ gvks →
  ∃ spec, spec ∈ su_Controllers s' ∧ cs_GVK spec = gvk ∧
    ∀ ev tr out got src items k,
      rule_Namespaces rule = [] ∨ nn_Namespace ev ∈ rule_Namespaces rule →
      k ∈ items → same_syncer k ks →
      trace_of (Sync.Reconcile (cs_Reconciler spec) ev) tr out →
      got_of tr = Some got → source_of got = Some src → listed_of tr = Some (Ok items) →
      ∃ l1 l l2 dest e, calls_of tr = l1 ++ l ++ l2 ∧
        asked (cs_Reconciler spec) k dest ⊆ remotes_of tr ∧
        target_protocol (cs_Reconciler spec) ev src (k, rule) dest l e ∧ (out = None → e = None).
Proof.
  intros Hreach%reachable_ok Hrun Hks Hvalid.
  destruct (set_up_run_ok _ _ _ _ _ _ _ Hreach Hrun) as (Hok & _ & Hpost).
  destruct (set_up_watches tr0 s' ks (proj1 Hok) Hpost Hks Hvalid) as (lists & Hl & Hall).
  exists lists. split; [done|]. intros rule Hrule.
  destruct (Hall rule Hrule) as (gvks & He & Hgv). exists gvks. split; [done|].
  intros gvk Hin. destruct (Hgv gvk Hin) as (spec & Hst & Hgvk & Ht). exists spec.
  split_and!; [done..|]. intros ev tr out got src items k Hns Hk Hsame Htr Hgot Hsrc Hlisted.
  eapply (target_run _ _ _ _ _ _ _ (k, rule)); [done..|]. by apply Ht.
Qed.
End Pipeline.

(** ** A set-up and a run *)

Section PipelineWitness.
#[local] Existing Instance FakeErrors.
#[local] Existing Instance FakeParser.
#[local] Existing Instance FakeUnstructured.
#[local] Existing Instance FakeUnstructuredLaws.
#[local] Existing Instance FakeCluster.
#[local] Existing Instance FakeProvider.
#[local] Existing Instance FakeFactory.
#[local] Existing Instance FakeGauge.
#[local] Existing Instance FakeSetup.

Definition config_rule : ResourceRule := literal_rule "ConfigMap".
Definition config_syncer : KRMSyncer := setup_syncer false [config_rule].

(** The controller the set-up starts pulls from the remote cluster. *)
Definition config_spec : controller_spec :=
  pull_spec demo_reconciler cluster_c {| rgvk_Cluster := "c"; rgvk_GVK := demo_gvk |}.

Example config_started : su_Controllers (demo_setup [config_rule]).2 = [config_spec].
Proof. reflexivity. Qed.

(** Its handler, for an object of the remote cluster. *)
Definition config_shared : shared := {|
  sh_world := {|
    fw_objects := {[ (1, demo_gvk, NN "ns" "a") := source_object ]};
    fw_namespaces := ∅; fw_syncers := [config_syncer]; fw_down := ∅ |};
  sh_clients := ∅; sh_trackers := []; sh_gauges := ∅ |}.

Definition config_controller : controller :=
  {| c_reconciler := cs_Reconciler config_spec; c_remoteClients := false; c_failures := None |}.

Definition config_run : (trace operation * option goerr) * shared :=
  exec (handle config_controller) (Sync.Reconcile (cs_Reconciler config_spec) demo_req)
    config_shared.

Lemma config_run_trace :
  trace_of (Sync.Reconcile (cs_Reconciler config_spec) demo_req) config_run.1.1 config_run.1.2.
Proof.
  exact (exec_trace (handle config_controller)
    (Sync.Reconcile (cs_Reconciler config_spec) demo_req) config_shared).
Qed.

Lemma set_up_rules_are_synced_witness :
  show <$> calls_of config_run.1.1 =
    [(1, "get"); (0, "list"); (0, "get-ns"); (0, "create-ns"); (0, "patch")] ∧
  ∃ l1 l l2 dest e, calls_of config_run.1.1 = l1 ++ l ++ l2 ∧
    target_protocol (cs_Reconciler config_spec) demo_req (Some source_object)
      (config_syncer, config_rule) dest l e.
Proof.
  split; [reflexivity|].
  destruct (set_up_rules_are_synced fake_Complete demo_reconciler (NN "ns" "s")
    (initial false [config_rule]) (demo_setup [config_rule]).1.1 (demo_setup [config_rule]).2
    config_syncer (initial_reachable _ _) (demo_setup_run _))
    as (lists & Hlists & Hall); [by split|by right|].
  destruct (Hall config_rule) as (gvks & Hgvks & Hgvk); [by left|].
  injection Hgvks as <-. destruct (Hgvk demo_gvk) as (spec & Hspec & _ & Hrun); [by left|].
  rewrite config_started in Hspec. apply list_elem_of_singleton in Hspec as ->.
  destruct (Hrun demo_req config_run.1.1 config_run.1.2 (Ok source_object) (Some source_object)
    [config_syncer] config_syncer) as (l1 & l & l2 & dest & e & Hl & _ & Hp & _).
  - by left.
  - by left.
  - by split.
  - exact config_run_trace.
  - reflexivity.
  - reflexivity.
  - reflexivity.
  - exists l1, l, l2, dest, e. split; [exact Hl|exact Hp].
Defined.
End PipelineWitness.
