(* ===== verification/Process.v ===== *)
(** * The whole process: set-ups and the controllers they start

    [Setup] says what a set-up of a KRMSyncer does, [System] how the runs of any controllers
    share their state. Here the two are one transition system: the controllers are those
    that set-ups started, each with a failure tracker of its own; the operations of the
    set-up that runs, events, the operations of the running handlers and the rest of the
    world take turns. A controller handles events as soon as it was started, while the set-up
    that started it still goes on.

    Every process is a system, so all that [System] shows holds for it; what is shown here
    needs both: what is counted and what is written can be traced back to the KRMSyncers. *)

From stdpp Require Import base list strings gmap relations.
From S2P Require Import Prelude Threads GoStrings Kube Api Fake Rules FieldFilter.
From S2P Require Import Tracker Client FakeCluster Apply RemoteClients Sync SyncSpec System.
From S2P Require Import Setup SetupTraces SetupSpec Pipeline.

#[local] Arguments RemoteClients.get : simpl never.

Section Process.
Context {AE : ApiErrors} {AC : ApiClient} {UN : Unstructured}.
Context {RP : RemoteConfigProvider} {CF : ClientFactory} {PG : PrometheusGauge}.
Context {SL : SetupLibs} {GP : GroupVersionParser}.
Context (Complete : controller_spec → world → option api_error * world).
Context (r : KRMSyncerReconciler).

Abbreviation handler_thread := (@thread operation job (option goerr)).
Abbreviation setup_thread := (@thread setup_operation NamespacedName (option goerr)).
Abbreviation runs := (@pool operation job shared (option goerr)).
Abbreviation setup_runs := (@pool setup_operation NamespacedName setup_state (option goerr)).

(** The state, with that of the KRMSyncer reconciler; the handlers that were started; and
    the set-ups. *)
Record process := {
  pr_setup : setup_state;
  pr_threads : list handler_thread;
  pr_setups : list setup_thread;
}.

Abbreviation pr_shared p := (su_shared (pr_setup p)).

(** The handlers with what they share, and the set-ups with theirs. *)
Definition pr_pool (p : process) : runs :=
  {| pool_shared := pr_shared p; pool_threads := pr_threads p |}.
Definition setup_pool (p : process) : setup_runs :=
  {| pool_shared := pr_setup p; pool_threads := pr_setups p |}.

Definition with_pool (c : runs) (p : process) : process :=
  {| pr_setup := set_shared (pool_shared c) (pr_setup p); pr_threads := pool_threads c;
     pr_setups := pr_setups p |}.
Definition with_setups (c : setup_runs) (p : process) : process :=
  {| pr_setup := pool_shared c; pr_threads := pr_threads p; pr_setups := pool_threads c |}.

Definition setup_program (req : NamespacedName) : setup_handler (option goerr) :=
  Setup.Reconcile r req.
Definition setup_job_handle (req : NamespacedName) : ∀ X, setup_operation X → M setup_state X :=
  setup_handle Complete.

Definition after_request (req : NamespacedName) (p : process) : process :=
  with_setups (spawn setup_program [req] (setup_pool p)) p.

(** The [i]-th started controller, and its work on an object. The first failure tracker is
    [r.setupFailures]; the controllers' follow, in the order they were started. *)
Definition controller_of (i : nat) (spec : controller_spec) : controller := {|
  c_reconciler := cs_Reconciler spec;
  c_remoteClients := cs_HasRemoteClients spec;
  c_failures := Some (S i) |}.

Definition job_of (i : nat) (spec : controller_spec) (ev : NamespacedName) : job :=
  {| j_controller := controller_of i spec; j_request := ev |}.

Definition after_event (i : nat) (spec : controller_spec) (ev : NamespacedName) (p : process) :
    process := with_pool (spawn job_program [job_of i spec ev] (pr_pool p)) p.

(** [t] is a run of the [i]-th controller on this object. *)
Definition works_on (i : nat) (ev : NamespacedName) (t : handler_thread) : Prop :=
  c_failures (j_controller (th_job t)) = Some (S i) ∧ j_request (th_job t) = ev.

#[local] Instance works_on_dec i ev t : Decision (works_on i ev t).
Proof. unfold works_on. apply _. Defined.

Definition finished {op J} (t : @thread op J (option goerr)) : Prop :=
  ∃ res, th_prog t = Ret res.

(** The work queue of a controller hands out an object again only after its last run. *)
Definition idle (i : nat) (ev : NamespacedName) (p : process) : Prop :=
  ∀ t, t ∈ pr_threads p → works_on i ev t → finished t.

(** KRMSyncers are set up one at a time. *)
Definition no_setup (p : process) : Prop := ∀ t, t ∈ pr_setups p → finished t.

Inductive process_step : process → process → Prop :=
| process_request req p : no_setup p → process_step p (after_request req p)
| process_setup c p :
    thread_step setup_job_handle (setup_pool p) c → process_step p (with_setups c p)
| process_event i spec ev p :
    su_Controllers (pr_setup p) !! i = Some spec → idle i ev p →
    process_step p (after_event i spec ev p)
| process_run c p : thread_step job_handle (pr_pool p) c → process_step p (with_pool c p)
| process_world w p :
    process_step p (with_pool {| pool_shared := set_world w (pr_shared p);
      pool_threads := pr_threads p |} p).

Definition process_start (w : world) : process :=
  {| pr_setup := initial_state w ∅; pr_threads := []; pr_setups := [] |}.

Definition process_reachable (p : process) : Prop := ∃ w, rtc process_step (process_start w) p.

(** ** A process is a system *)

Abbreviation system_step := (pool_step job_program job_handle interfere).

Lemma registered_tracker s spec :
  registered r s spec → cs_Failures spec = newFailureTracker (FailedObjects (cs_GVK spec)).
Proof. by intros [(g & ->)|(c & g & -> & _)]. Qed.

(** The trackers: the set-up's, and one of the kind's gauge per started controller. *)
Definition tracker_for (spec : controller_spec) (t : failureTracker) : Prop :=
  ft_gauge t = FailedObjects (cs_GVK spec).

Definition trackers_ok (s : setup_state) : Prop :=
  ∃ t0 ts, sh_trackers (su_shared s) = t0 :: ts ∧ ft_gauge t0 = SetupFailed ∧
    Forall2 tracker_for (su_Controllers s) ts.

Definition track (t : failureTracker) (s : shared) : shared :=
  {| sh_world := sh_world s; sh_clients := sh_clients s; sh_trackers := sh_trackers s ++ [t];
     sh_gauges := sh_gauges s |}.

(** What an operation of a set-up does to what the handlers share: a mark of the first
    tracker, a new tracker, or nothing but to the world. *)
Definition setup_effect (s s' : setup_state) (e : Threads.event setup_operation) : Prop :=
  match setup_mark e with
  | Some (key, failed) => su_Controllers s' = su_Controllers s ∧
      su_shared s' = (mark_at (Some 0) key failed (su_shared s)).2
  | None => ∃ w,
      (su_Controllers s' = su_Controllers s ∧ su_shared s' = set_world w (su_shared s)) ∨
      ∃ spec x, e = Ev (OpComplete spec) x ∧ su_Controllers s' = su_Controllers s ++ [spec] ∧
        su_shared s' = track (cs_Failures spec) (set_world w (su_shared s))
  end.

Lemma setup_handle_effect X (o : setup_operation X) s :
  let y := setup_handle Complete X o s in setup_effect s y.2 (Ev o y.1).
Proof.
  assert (Hid : su_shared s = set_world (sh_world (su_shared s)) (su_shared s))
    by by destruct (su_shared s).
  destruct o; unfold setup_effect; cbn [setup_mark];
    try (eexists; left; split; [done|reflexivity]); try (eexists; left; split; [done|exact Hid]).
  - cbn [setup_handle]. unfold do_Complete, on_world, on_shared, at_world, mbind, M_bind. cbn [fst snd].
    exists (Complete spec (sh_world (su_shared s))).2.
    destruct (Complete spec _).1 as [e|]; [by left|right]. by exists spec, None.
  - done.
Qed.

Lemma setup_effect_interferes s s' e watch :
  setup_effect s s' e → watches_sound watch s' → rtc interfere (su_shared s) (su_shared s').
Proof.
  unfold setup_effect. destruct (setup_mark e) as [[key b]|].
  - intros [_ ->] _. apply rtc_once, others_mark.
  - intros (w & [[_ ->]|(spec & x & -> & Hctl & ->)]) (_ & _ & Hreg); [apply rtc_once, others_act|].
    eapply rtc_l; [apply (others_act w)|]. apply rtc_once.
    assert (Ht : ∃ g, cs_Failures spec = newFailureTracker g).
    { destruct (Hreg spec) as [(g & ->)|(c & g & -> & _)]; [rewrite Hctl; apply elem_of_app; right; by left|..];
        by eexists. }
    destruct Ht as [g ->]. apply others_track.
Qed.

Lemma pool_interferes s s' (ts : list handler_thread) :
  rtc interfere s s' →
  rtc system_step {| pool_shared := s; pool_threads := ts |}
    {| pool_shared := s'; pool_threads := ts |}.
Proof.
  induction 1 as [s|s1 s2 s3 Hs _ IH]; [done|]. eapply rtc_l; [|exact IH].
  exact (step_interfere _ _ _ s2 {| pool_shared := s1; pool_threads := ts |} Hs).
Qed.

(** ** What is counted *)

(** The outcomes of the attempts on an object by a controller, in order: those its runs
    marked. *)
Definition marked (i : nat) (key : NamespacedName) (t : handler_thread) : list bool :=
  if decide (works_on i key t) then snd <$> marks_of (th_trace t) else [].
Definition attempts (i : nat) (key : NamespacedName) (ts : list handler_thread) : list bool :=
  ts ≫= marked i key.

(** What the tracker learns from a run: once it has ended, whether it returned an error,
    except if the KRMSyncers could not be listed. *)
Definition verdict (t : handler_thread) : list bool :=
  match th_prog t with
  | Ret out => match listed_of (th_trace t) with
      | Some (Err _) => []
      | _ => [bool_decide (out ≠ None)]
      end
  | Do _ _ => []
  end.

Lemma outcome_marks req tr out :
  outcome_marked req tr out →
  marks_of tr = match listed_of tr with
    | Some (Err _) => []
    | _ => [(req, bool_decide (out ≠ None))]
    end.
Proof.
  unfold outcome_marked, marks_of. destruct (listed_of tr) as [[items|e]|];
    [| by intros [_ Hm]|]; intros (tr' & -> & Hm); by rewrite omap_app, Hm.
Qed.

(** What a run does before its last operation has no marks. *)
Lemma outcome_quiet req tr e out : outcome_marked req (tr ++ [e]) out → marks_of tr = [].
Proof.
  unfold outcome_marked, marks_of. destruct (listed_of _) as [[items|e']|].
  - by intros (tr' & [-> _]%app_inj_tail & Hm).
  - intros [_ Hm]. rewrite omap_app in Hm. by apply app_eq_nil in Hm as [? _].
  - by intros (tr' & [-> _]%app_inj_tail & Hm).
Qed.

(** A run marks only its own object, once, and as the last thing it does. *)
Lemma thread_marks c n t :
  System.reachable c → pool_threads c !! n = Some t →
  marks_of (th_trace t) = pair (j_request (th_job t)) <$> verdict t.
Proof.
  intros Hc Hn. assert (Hr := reachable_threads c Hc n t Hn). unfold verdict.
  destruct (th_prog t) as [out|X o k].
  - apply reaches_ret, Reconcile_accounted, outcome_marks in Hr. rewrite Hr.
    by destruct (listed_of _) as [[]|].
  - destruct (trace_exists some_answer (Do o k)) as (tr & out & Htr).
    assert (Hfull := reaches_trace _ _ _ _ _ Hr Htr). apply Reconcile_accounted in Hfull.
    destruct tr as [|e tr _] using rev_ind; [by destruct Htr as (? & ? & ? & _)|].
    rewrite (assoc_L (++)) in Hfull. apply outcome_quiet in Hfull.
    unfold marks_of in *. rewrite omap_app in Hfull. by apply app_eq_nil in Hfull as [? _].
Qed.

Lemma attempts_app i key ts1 ts2 :
  attempts i key (ts1 ++ ts2) = attempts i key ts1 ++ attempts i key ts2.
Proof. apply bind_app. Qed.

Lemma attempts_cons i key t ts : attempts i key (t :: ts) = marked i key t ++ attempts i key ts.
Proof. done. Qed.

Lemma attempts_none i key ts :
  (∀ t, t ∈ ts → works_on i key t → marks_of (th_trace t) = []) → attempts i key ts = [].
Proof.
  induction ts as [|t ts IH]; intros Hts; [done|]. rewrite attempts_cons.
  rewrite IH by (intros; apply Hts; [by right|done]). unfold marked.
  destruct (decide _) as [Hw|]; [|done]. by rewrite (Hts t) by (by left || done).
Qed.

(** One more operation of one thread. *)
Lemma attempts_insert i key ts n t t' :
  ts !! n = Some t → th_job t' = th_job t →
  (works_on i key t → marks_of (th_trace t') ≠ marks_of (th_trace t) →
    marks_of (th_trace t) = [] ∧
    ∀ m u, n < m → ts !! m = Some u → works_on i key u → marks_of (th_trace u) = []) →
  attempts i key (<[n := t']> ts) = attempts i key ts ++
    if decide (works_on i key t ∧ marks_of (th_trace t') ≠ marks_of (th_trace t))
    then snd <$> marks_of (th_trace t') else [].
Proof.
  intros Hn Hj Hlast. assert (Hlt := lookup_lt_Some _ _ _ Hn).
  rewrite insert_take_drop by done. rewrite <-(take_drop_middle ts n t Hn) at 3.
  rewrite !attempts_app, !attempts_cons, <-!(assoc_L (++)). f_equal.
  assert (Hiff : works_on i key t' ↔ works_on i key t) by (unfold works_on; by rewrite Hj).
  unfold marked. rewrite (decide_ext (works_on i key t') (works_on i key t)) by exact Hiff.
  destruct (decide (works_on i key t)) as [Hw|Hw].
  2: { rewrite decide_False by tauto. by rewrite app_nil_r. }
  destruct (decide (marks_of (th_trace t') = marks_of (th_trace t))) as [Heq|Hne].
  { rewrite decide_False by tauto. by rewrite Heq, app_nil_r. }
  rewrite decide_True by done. destruct (Hlast Hw Hne) as [-> Hlater].
  rewrite attempts_none; [by rewrite app_nil_r|].
  intros u [m Hm]%list_elem_of_lookup Hu. rewrite lookup_drop in Hm.
  eapply (Hlater (S n + m)); [lia|done|done].
Qed.
(** ** The invariant *)

Context {PL : PrometheusGaugeLaws}.

(** What the set-ups marked, in order. *)
Definition all_setup_marks (ts : list setup_thread) : list (NamespacedName * bool) :=
  ts ≫= λ t, setup_marks (th_trace t).

(** A set-up that runs, or has run as the last one. *)
Definition current_ok (p : process) (t : setup_thread) : Prop :=
  wp (setup_handle Complete) elsewhere (watches_sound r) (th_prog t)
    (λ tr out s, watches_ok r s ∧ set_up_post r tr out s) (th_trace t) (pr_setup p).

Record process_ok (p : process) : Prop := {
  po_system : System.reachable (pr_pool p);
  po_runs : threads_ok setup_program (setup_pool p);
  po_watches : watches_sound r (pr_setup p);
  po_trackers : trackers_ok (pr_setup p);
  po_one n t : pr_setups p !! n = Some t → S n < length (pr_setups p) → finished t;
  po_current : match last (pr_setups p) with
    | Some t => current_ok p t
    | None => watches_ok r (pr_setup p)
    end;
  po_done t out : t ∈ pr_setups p → th_prog t = Ret out →
    set_up_post r (th_trace t) out (pr_setup p);
  po_jobs t : t ∈ pr_threads p → ∃ i spec ev,
    su_Controllers (pr_setup p) !! i = Some spec ∧ th_job t = job_of i spec ev;
  po_asked spec : spec ∈ su_Controllers (pr_setup p) →
    ∃ t, t ∈ pr_setups p ∧ asked_in r (th_trace t) spec;
  po_sequential n1 n2 t1 t2 i ev : n1 < n2 →
    pr_threads p !! n1 = Some t1 → pr_threads p !! n2 = Some t2 →
    works_on i ev t1 → works_on i ev t2 → finished t1;
  po_counts i t key : tail (sh_trackers (pr_shared p)) !! i = Some t →
    key ∈ ft_failed t ↔ last (attempts i key (pr_threads p)) = Some true;
  po_setups t key : head (sh_trackers (pr_shared p)) = Some t →
    key ∈ ft_failed t ↔ latest key (all_setup_marks (pr_setups p)) = Some true;
}.

Lemma works_on_job i spec ev j key t :
  th_job t = job_of i spec ev → works_on j key t ↔ j = i ∧ key = ev.
Proof. intros Ht. unfold works_on. rewrite Ht. simpl. naive_solver. Qed.

(** No run of a controller that was not started. *)
Lemma attempts_unstarted p i key :
  process_ok p → length (su_Controllers (pr_setup p)) ≤ i → attempts i key (pr_threads p) = [].
Proof.
  intros Hok Hi. apply attempts_none. intros t Ht Hw.
  destruct (po_jobs p Hok t Ht) as (j & spec & ev & Hst & Hj).
  assert (Heq := proj1 (works_on_job _ _ _ _ _ _ Hj) Hw). apply lookup_lt_Some in Hst. lia.
Qed.

(** *** Steps of others *)

(** A step that leaves the reconciler's own state and the set-ups alone. *)
Lemma current_elsewhere p p' t :
  elsewhere (pr_setup p) (pr_setup p') → current_ok p t → current_ok p' t.
Proof. intros Hs Ht. eapply wp_others; [exact Ht|by apply rtc_once]. Qed.

Lemma process_ok_shared p c :
  process_ok p → System.reachable c → 
  trackers_ok (set_shared (pool_shared c) (pr_setup p)) →
  (∀ t, t ∈ pool_threads c → ∃ i spec ev,
    su_Controllers (pr_setup p) !! i = Some spec ∧ th_job t = job_of i spec ev) →
  (∀ n1 n2 t1 t2 i ev, n1 < n2 →
    pool_threads c !! n1 = Some t1 → pool_threads c !! n2 = Some t2 →
    works_on i ev t1 → works_on i ev t2 → finished t1) →
  (∀ i t key, tail (sh_trackers (pool_shared c)) !! i = Some t →
    key ∈ ft_failed t ↔ last (attempts i key (pool_threads c)) = Some true) →
  head (sh_trackers (pool_shared c)) = head (sh_trackers (pr_shared p)) →
  process_ok (with_pool c p).
Proof.
  intros Hok Hsys Htr Hjobs Hseq Hcounts Hhead.
  split; try done; try apply Hok.
  - destruct c. exact Hsys.
  - assert (Hc := po_current p Hok). cbn [with_pool pr_setups]. destruct (last (pr_setups p)) as [t|].
    + apply (current_elsewhere p); [by eexists|exact Hc].
    + exact Hc.
  - cbn. rewrite Hhead. apply (po_setups p Hok).
Qed.

Lemma process_ok_event i spec ev p :
  process_ok p → su_Controllers (pr_setup p) !! i = Some spec → idle i ev p →
  process_ok (after_event i spec ev p).
Proof.
  intros Hok Hst Hidle.
  apply process_ok_shared; [done|..]; cbn [spawn pool_shared pool_threads pr_pool fmap list_fmap].
  - destruct (po_system p Hok) as [w Hr]. exists w. etrans; [exact Hr|].
    apply (spawn_steps job_program job_handle interfere [job_of i spec ev]).
  - apply (po_trackers p Hok).
  - intros t [Hin| ->%list_elem_of_singleton]%elem_of_app; [by apply (po_jobs p Hok)|].
    by exists i, spec, ev.
  - intros n1 n2 t1 t2 j key Hlt H1 H2 Hw1 Hw2.
    assert (Hl1 := lookup_lt_Some _ _ _ H2). rewrite length_app in Hl1. simpl in Hl1.
    apply lookup_app_Some in H1 as [H1|[? H1]]; [|lia].
    apply lookup_app_Some in H2 as [H2|[_ H2]]; [by eapply (po_sequential p Hok n1 n2)|].
    apply list_lookup_singleton_Some in H2 as [_ <-].
    apply (works_on_job i spec ev) in Hw2 as [-> ->]; [|done].
    apply Hidle; [by eapply list_elem_of_lookup_2|done].
  - intros j t key Hj. rewrite attempts_app.
    rewrite (attempts_none _ _ [_]), app_nil_r; [by apply (po_counts p Hok)|].
    by intros t' ->%list_elem_of_singleton.
  - done.
Qed.

Lemma process_ok_world w p :
  process_ok p → process_ok (with_pool {| pool_shared := set_world w (pr_shared p);
    pool_threads := pr_threads p |} p).
Proof.
  intros Hok. apply process_ok_shared; [done|..]; try apply Hok; [|done].
  destruct (po_system p Hok) as [w0 Hr]. exists w0. eapply rtc_r; [exact Hr|].
  apply (step_interfere _ _ _ (set_world w (pr_shared p)) (pr_pool p)), others_act.
Qed.

(** *** Steps of handlers *)

(** What an operation of a started controller does to the trackers: a mark puts its object
    into or out of the controller's own. *)
Lemma job_trackers i spec X (o : operation X) s t0 ts :
  sh_trackers s = t0 :: ts →
  let y := handle (controller_of i spec) X o s in
  ∃ ts', sh_trackers y.2 = t0 :: ts' ∧ Forall2 (λ t t', ft_gauge t' = ft_gauge t) ts ts' ∧
    ∀ j t', ts' !! j = Some t' → ∃ t, ts !! j = Some t ∧ ∀ key, key ∈ ft_failed t' ↔
      match mark_of (Ev o y.1) with
      | Some (k, b) => if decide (j = i ∧ key = k) then b = true else key ∈ ft_failed t
      | None => key ∈ ft_failed t
      end.
Proof.
  intros Hs y.
  assert (Hrefl : Forall2 (λ t t', ft_gauge t' = ft_gauge t) ts ts)
    by by apply Forall_Forall2_diag, Forall_true.
  destruct o; try (exists ts; split_and!; [done..|]; intros j t' Hj; exists t'; by split).
  - exists ts. split_and!; [|done|intros j t' Hj; exists t'; by split].
    subst y. simpl. unfold do_RemoteClient. by destruct (c_remoteClients _).
  - subst y. unfold handle, do_operation, do_Mark, mark_at, modify. cbn [fst snd c_failures controller_of].
    rewrite Hs. simpl. destruct (ts !! i) as [t|] eqn:Hi.
    + destruct (mark_spec t (key, failed) (sh_gauges s)) as (t' & gs & Hm & Hg & Hk & _).
      simpl. rewrite Hm. exists (<[i := t']> ts). split; [done|]. split.
      { apply Forall2_same_length_lookup. split; [by rewrite length_insert|].
        intros n t1 t2 H1 H2. apply list_lookup_insert_Some in H2 as [(<- & <- & _)|[_ H2]]; congruence. }
      intros j t1 [(<- & <- & _)|[Hne Hj]]%list_lookup_insert_Some.
      * exists t. split; [done|]. intros k. rewrite Hk. simpl. by repeat case_decide; naive_solver.
      * exists t1. split; [done|]. intros k. rewrite decide_False by naive_solver. done.
    + exists ts. split; [by destruct failed|]. split; [done|]. intros j t' Hj. exists t'.
      split; [done|]. intros k. rewrite decide_False by naive_solver. done.
Qed.

(** The marks of a running handler and of its next operation. *)
Lemma running_marks p c n t X (o : operation X) k x :
  process_ok p → System.reachable c → pr_threads p !! n = Some t → th_prog t = Do o k →
  pool_threads c !! n = Some {| th_job := th_job t; th_trace := th_trace t ++ [Ev o x];
                                th_prog := k x |} →
  marks_of (th_trace t) = [] ∧
  marks_of (th_trace t ++ [Ev o x]) = option_list (mark_of (Ev o x)) ∧
  ∀ key b, mark_of (Ev o x) = Some (key, b) → key = j_request (th_job t).
Proof.
  intros Hok Hc Hn Hp Hn'.
  assert (Hnone : marks_of (th_trace t) = []).
  { rewrite (thread_marks _ n t (po_system p Hok) Hn). unfold verdict. by rewrite Hp. }
  assert (Hm : marks_of (th_trace t ++ [Ev o x]) = option_list (mark_of (Ev o x))).
  { unfold marks_of in *. rewrite omap_app, Hnone. simpl. by destruct o. }
  split_and!; [done|done|]. intros key b Hk. rewrite Hk in Hm. simpl in Hm.
  assert (Hv := thread_marks _ n _ Hc Hn'). cbn [th_trace th_job] in Hv. rewrite Hm in Hv.
  by destruct (verdict _) as [|b' [|]]; simplify_eq/=.
Qed.

(** The attempts after one more operation of a running handler. *)
Lemma attempts_run p n t t' X (o : operation X) k x i spec ev j key :
  process_ok p → pr_threads p !! n = Some t → th_prog t = Do o k →
  th_job t = job_of i spec ev → th_job t' = th_job t →
  marks_of (th_trace t) = [] → marks_of (th_trace t') = option_list (mark_of (Ev o x)) →
  (∀ key b, mark_of (Ev o x) = Some (key, b) → key = ev) →
  attempts j key (<[n := t']> (pr_threads p)) = attempts j key (pr_threads p) ++
    match mark_of (Ev o x) with
    | Some (k', b) => if decide (j = i ∧ key = k') then [b] else []
    | None => []
    end.
Proof.
  intros Hok Hn Hp Hj Hj' Hnone Hmarks Hown.
  rewrite (attempts_insert j key _ n t t' Hn Hj').
  2: { intros Hw _. split; [done|]. intros m u Hm Hu Hwu. exfalso.
    destruct (po_sequential p Hok n m t u j key Hm Hn Hu Hw Hwu) as [res Hres]. congruence. }
  assert (Hw := works_on_job i spec ev j key t Hj). rewrite Hmarks, Hnone.
  destruct (mark_of (Ev o x)) as [[k' b]|]; simpl; [|by rewrite decide_False by tauto].
  rewrite (Hown k' b eq_refl).
  destruct (decide (j = i ∧ key = ev)) as [Hji|Hji];
    [rewrite decide_True by (split; [by apply Hw|done])|rewrite decide_False by tauto]; done.
Qed.

Lemma trackers_run specs (ts ts' : list failureTracker) :
  Forall2 tracker_for specs ts → Forall2 (λ t t', ft_gauge t' = ft_gauge t) ts ts' →
  Forall2 tracker_for specs ts'.
Proof.
  intros HF. revert ts'. induction HF as [|spec t specs ts Ht _ IH];
    intros ts' HF'; inversion HF'; constructor; [unfold tracker_for in *; congruence|by apply IH].
Qed.

(** Runs of one controller on one object never overlap. *)
Lemma sequential_run p n t t' X (o : operation X) k :
  process_ok p → pr_threads p !! n = Some t → th_prog t = Do o k → th_job t' = th_job t →
  ∀ n1 n2 t1 t2 i ev, n1 < n2 →
    <[n := t']> (pr_threads p) !! n1 = Some t1 → <[n := t']> (pr_threads p) !! n2 = Some t2 →
    works_on i ev t1 → works_on i ev t2 → finished t1.
Proof.
  intros Hok Hn Hp Hj n1 n2 t1 t2 j key Hlt H1 H2 Hw1 Hw2.
  assert (Hseq := po_sequential p Hok).
  assert (Hjob : works_on j key t' ↔ works_on j key t) by (unfold works_on; by rewrite Hj).
  apply list_lookup_insert_Some in H1 as [(<- & <- & _)|[_ H1]].
  - rewrite list_lookup_insert_ne in H2 by lia. exfalso.
    destruct (Hseq n n2 t t2 j key Hlt Hn H2) as [res Hres]; [tauto|done|congruence].
  - apply list_lookup_insert_Some in H2 as [(<- & <- & _)|[_ H2]];
      [apply (Hseq n1 n t1 t j key); tauto|by eapply Hseq].
Qed.

Lemma process_ok_run c p :
  process_ok p → thread_step job_handle (pr_pool p) c → process_ok (with_pool c p).
Proof.
  intros Hok Hstep.
  assert (Hsys : System.reachable c).
  { destruct (po_system p Hok) as [w Hr]. exists w. eapply rtc_r; [exact Hr|by apply step_run]. }
  inversion Hstep as [n t X o k c0 Hn Hp]; subst c0 c.
  destruct (po_jobs p Hok t) as (i & spec & ev & Hst & Hj); [by eapply list_elem_of_lookup_2|].
  set (y := job_handle (th_job t) X o (pool_shared (pr_pool p))) in *.
  set (t' := {| th_job := th_job t; th_trace := th_trace t ++ [Ev o y.1]; th_prog := k y.1 |}) in *.
  destruct (running_marks p _ n t X o k y.1 Hok Hsys Hn Hp) as (Hnone & Hmarks & Hown);
    [by apply list_lookup_insert_eq; eapply lookup_lt_Some|].
  rewrite Hj in Hown. simpl in Hown.
  destruct (po_trackers p Hok) as (t0 & ts & Hts & Hg & HF).
  destruct (job_trackers i spec X o (pr_shared p) t0 ts Hts) as (ts' & Hts' & HF' & Hmem).
  assert (Hy : handle (controller_of i spec) X o (pr_shared p) = y) by (subst y; by rewrite Hj).
  rewrite Hy in Hts', Hmem.
  apply process_ok_shared; [done|exact Hsys|..]; cbn [pool_shared pool_threads].
  - exists t0, ts'. split_and!; [exact Hts'|done|]. by eapply trackers_run.
  - intros u [m Hm]%list_elem_of_lookup.
    apply list_lookup_insert_Some in Hm as [(_ & <- & _)|[_ Hm]]; [by exists i, spec, ev|].
    apply (po_jobs p Hok). by eapply list_elem_of_lookup_2.
  - by eapply sequential_run.
  - intros j u key Hu. rewrite Hts' in Hu. destruct (Hmem j u Hu) as (u0 & Hu0 & ->).
    assert (Hold := po_counts p Hok j u0 key). rewrite Hts in Hold. specialize (Hold Hu0).
    fold t'. change (pool_threads (pr_pool p)) with (pr_threads p).
    rewrite (attempts_run p n t t' X o k y.1 i spec ev j key) by done.
    destruct (mark_of (Ev o y.1)) as [[k' b]|]; [|by rewrite app_nil_r].
    case_decide; [|by rewrite app_nil_r]. rewrite last_snoc. by split; congruence.
  - by rewrite Hts, Hts'.
Qed.


(** *** Steps of set-ups *)

Lemma no_setup_ok p : process_ok p → no_setup p → watches_ok r (pr_setup p).
Proof.
  intros Hok Hno. assert (Hc := po_current p Hok).
  destruct (last (pr_setups p)) as [t|] eqn:Hl; [|done].
  destruct (Hno t) as [out Hout]; [by apply last_Some_elem_of|].
  unfold current_ok in Hc. rewrite Hout in Hc. by apply (Hc _ (rtc_refl _ _)).
Qed.

Lemma all_setup_marks_app ts1 ts2 :
  all_setup_marks (ts1 ++ ts2) = all_setup_marks ts1 ++ all_setup_marks ts2.
Proof. apply bind_app. Qed.

Lemma process_ok_request req p :
  process_ok p → no_setup p → process_ok (after_request req p).
Proof.
  intros Hok Hno. assert (Hw := no_setup_ok p Hok Hno).
  split; try apply Hok; cbn [after_request with_setups spawn setup_pool pool_shared pool_threads
    pr_setup pr_threads pr_setups fmap list_fmap].
  - exact (threads_ok_step setup_program setup_job_handle (λ _ _, False) _ _ (po_runs p Hok)
      (step_spawn _ _ _ req (setup_pool p))).
  - intros n t Hn Hlt. rewrite length_app in Hlt. simpl in Hlt.
    rewrite lookup_app_l in Hn by lia. apply Hno. by eapply list_elem_of_lookup_2.
  - rewrite last_snoc. eapply wp_mono; [by apply Reconcile_wp|]. by intros tr out s (? & _ & ?).
  - intros t out [Hin| ->%list_elem_of_singleton]%elem_of_app; [by apply (po_done p Hok)|done].
  - intros spec Hin. destruct (po_asked p Hok spec Hin) as (t & Ht & ?).
    exists t. split; [|done]. apply elem_of_app. by left.
  - intros t key Ht. rewrite all_setup_marks_app. simpl. rewrite app_nil_r.
    by apply (po_setups p Hok).
Qed.

(** The trackers after an operation of a set-up. *)
Lemma setup_effect_trackers s s' e t0 ts :
  setup_effect s s' e → sh_trackers (su_shared s) = t0 :: ts →
  ∃ t0' new, sh_trackers (su_shared s') = t0' :: ts ++ (cs_Failures <$> new) ∧
    su_Controllers s' = su_Controllers s ++ new ∧ ft_gauge t0' = ft_gauge t0 ∧
    (∀ spec, spec ∈ new → ∃ x, e = Ev (OpComplete spec) x) ∧
    ∀ key, key ∈ ft_failed t0' ↔ match setup_mark e with
      | Some (k, b) => if decide (key = k) then b = true else key ∈ ft_failed t0
      | None => key ∈ ft_failed t0
      end.
Proof.
  unfold setup_effect. intros He Hts. destruct (setup_mark e) as [[k b]|].
  - destruct He as [Hc Hs]. destruct (mark_spec t0 (k, b) (sh_gauges (su_shared s)))
      as (t0' & gs & Hm & Hg & Hk & _).
    exists t0', []. rewrite Hs, Hc. unfold mark_at, modify. simpl. rewrite Hts. simpl.
    rewrite Hm. simpl. rewrite !app_nil_r. split_and!; [done..|by intros ? ?%elem_of_nil|exact Hk].
  - destruct He as (w & [[Hc Hs]|(spec & x & -> & Hc & Hs)]).
    + exists t0, []. rewrite Hs, Hc. simpl. rewrite !app_nil_r.
      split_and!; [done..|by intros ? ?%elem_of_nil|done].
    + exists t0, [spec]. rewrite Hs, Hc. simpl. rewrite Hts.
      split_and!; [done..| |done]. intros sp ->%list_elem_of_singleton. by exists x.
Qed.

(** The set-up that runs is the last one. *)
Lemma running_setup p n t X (o : setup_operation X) k :
  process_ok p → pr_setups p !! n = Some t → th_prog t = Do o k →
  ∃ l, pr_setups p = l ++ [t] ∧ n = length l ∧ ∀ u, u ∈ l → finished u.
Proof.
  intros Hok Hn Hp. assert (Hlt := lookup_lt_Some _ _ _ Hn).
  assert (Hlast : S n = length (pr_setups p)).
  { destruct (decide (S n = length (pr_setups p))) as [|Hne]; [done|].
    destruct (po_one p Hok n t Hn) as [out Hout]; [lia|congruence]. }
  exists (take n (pr_setups p)). split_and!.
  - rewrite <-(take_drop_middle _ _ _ Hn) at 1. by rewrite Hlast, drop_all.
  - rewrite length_take. lia.
  - intros u [m Hm]%list_elem_of_lookup. assert (Hm' := lookup_lt_Some _ _ _ Hm).
    rewrite length_take in Hm'. rewrite lookup_take_lt in Hm by lia.
    apply (po_one p Hok m u Hm). lia.
Qed.

Lemma current_step p l t X (o : setup_operation X) k :
  process_ok p → pr_setups p = l ++ [t] → th_prog t = Do o k →
  let y := setup_handle Complete X o (pr_setup p) in
  watches_sound r y.2 ∧
  wp (setup_handle Complete) elsewhere (watches_sound r) (k y.1)
    (λ tr out s, watches_ok r s ∧ set_up_post r tr out s) (th_trace t ++ [Ev o y.1]) y.2.
Proof.
  intros Hok Hl Hp. assert (Hc := po_current p Hok). rewrite Hl, last_snoc in Hc.
  unfold current_ok in Hc. rewrite Hp in Hc. exact (Hc _ (rtc_refl _ _)).
Qed.

(** A controller that an operation adds is asked for. *)
Lemma step_asked p n t X (o : setup_operation X) k y spec x :
  process_ok p → pr_setups p !! n = Some t → th_prog t = Do o k →
  Ev o y = Ev (OpComplete spec) x → asked_in r (th_trace t) spec.
Proof.
  intros Hok Hn Hp He. assert (Hr := po_runs p Hok n t Hn). rewrite Hp in Hr.
  destruct (guarded_reaches _ _ _ _ _ _ (set_up_guarded r (th_job t)) Hr) as (_ & _ & Ha).
  set (asked := λ e : Threads.event setup_operation, match e with
    | Ev (OpComplete spec) _ => asked_in r (th_trace t) spec
    | _ => True
    end).
  assert (Ha' : asked (Ev o y)) by exact Ha. by rewrite He in Ha'.
Qed.

(** What is added to the reconciler's state is added to what the handlers' part says. *)
Lemma counts_grow p s' t0 t0' ts new :
  process_ok p → sh_trackers (pr_shared p) = t0 :: ts →
  sh_trackers s' = t0' :: ts ++ (cs_Failures <$> new) →
  Forall (λ spec, cs_Failures spec = newFailureTracker (FailedObjects (cs_GVK spec))) new →
  ∀ i t key, tail (sh_trackers s') !! i = Some t →
    key ∈ ft_failed t ↔ last (attempts i key (pr_threads p)) = Some true.
Proof.
  intros Hok Hts Hts' Hnew i t key. rewrite Hts'. simpl. intros [Hi|[Hlen Hi]]%lookup_app_Some.
  - apply (po_counts p Hok). by rewrite Hts.
  - rewrite list_lookup_fmap in Hi. apply fmap_Some in Hi as (spec & Hi & ->).
    rewrite Forall_lookup in Hnew. rewrite (Hnew _ _ Hi). simpl. rewrite elem_of_empty.
    rewrite (attempts_unstarted p i key Hok); [by split|].
    destruct (po_trackers p Hok) as (t1 & ts1 & Hts1 & _ & HF).
    rewrite Hts in Hts1. injection Hts1 as <- <-. by rewrite (Forall2_length _ _ _ HF).
Qed.

Lemma process_ok_setup c p :
  process_ok p → thread_step setup_job_handle (setup_pool p) c → process_ok (with_setups c p).
Proof.
  intros Hok Hstep.
  assert (Hruns : threads_ok setup_program c) by exact (threads_ok_step setup_program
    setup_job_handle (λ _ _, False) _ _ (po_runs p Hok) (step_run _ _ _ _ _ Hstep)).
  inversion Hstep as [n t X o k c0 Hn Hp]; subst c0 c.
  destruct (running_setup p n t X o k Hok Hn Hp) as (l & Hl & Hlen & Hfin).
  destruct (current_step p l t X o k Hok Hl Hp) as [Hsound Hwp].
  assert (Heff := setup_handle_effect X o (pr_setup p)).
  destruct (handle_monotone Complete X o (pr_setup p)) as [_ Hmarks].
  cbv zeta in *. change (pool_shared (setup_pool p)) with (pr_setup p) in *.
  change (setup_job_handle (th_job t) X o) with (setup_handle Complete X o) in *.
  set (y := setup_handle Complete X o (pr_setup p)) in *.
  set (t' := {| th_job := th_job t; th_trace := th_trace t ++ [Ev o y.1]; th_prog := k y.1 |}) in *.
  assert (Hins : <[n := t']> (pr_setups p) = l ++ [t'])
    by (rewrite Hl, Hlen, <-(Nat.add_0_r (length l)); by rewrite insert_app_r).
  change (pool_threads (setup_pool p)) with (pr_setups p) in *. rewrite Hins in *.
  destruct (po_trackers p Hok) as (t0 & ts & Hts & Hg & HF).
  destruct (setup_effect_trackers _ _ _ t0 ts Heff Hts) as (t0' & new & Hts' & Hctl & Hg' & Hask & Hk).
  assert (Hnew : Forall (λ spec, cs_Failures spec =
    newFailureTracker (FailedObjects (cs_GVK spec))) new).
  { apply Forall_forall. intros spec Hin. apply (registered_tracker y.2), Hsound. rewrite Hctl.
    apply elem_of_app. by right. }
  split; cbn [with_setups pr_setup pr_threads pr_setups pool_shared pool_threads].
  - destruct (po_system p Hok) as [w Hr]. exists w. etrans; [exact Hr|].
    apply (pool_interferes (pr_shared p)). by eapply setup_effect_interferes.
  - exact Hruns.
  - exact Hsound.
  - exists t0', (ts ++ (cs_Failures <$> new)). split_and!; [done|congruence|]. rewrite Hctl.
    apply Forall2_app; [done|]. apply Forall2_fmap_r, Forall_Forall2_diag.
    eapply Forall_impl; [exact Hnew|]. intros spec Hs. unfold tracker_for. cbn. by rewrite Hs.
  - intros m u Hm Hlt. rewrite length_app in Hlt. simpl in Hlt. rewrite lookup_app_l in Hm by lia.
    apply Hfin. by eapply list_elem_of_lookup_2.
  - by rewrite last_snoc.
  - intros u out [Hin| ->%list_elem_of_singleton]%elem_of_app Hout.
    + eapply set_up_post_mono; [exact Hmarks|]. apply (po_done p Hok u out); [|done].
      rewrite Hl. apply elem_of_app. by left.
    + simpl in Hout. rewrite Hout in Hwp. by apply (Hwp _ (rtc_refl _ _)).
  - intros u Hin. destruct (po_jobs p Hok u Hin) as (i & spec & ev & Hst & Hj).
    exists i, spec, ev. split; [|done]. rewrite Hctl. by apply lookup_app_l_Some.
  - intros spec. rewrite Hctl. intros [Hin|Hin]%elem_of_app.
    + destruct (po_asked p Hok spec Hin) as (u & Hu & Ha). rewrite Hl in Hu.
      apply elem_of_app in Hu as [Hu| ->%list_elem_of_singleton].
      * exists u. split; [apply elem_of_app; by left|done].
      * exists t'. split; [apply elem_of_app; right; by left|by apply asked_in_app].
    + destruct (Hask spec Hin) as [x He].
      assert (Ha := step_asked p n t X o k y.1 spec x Hok Hn Hp He).
      exists t'. split; [apply elem_of_app; right; by left|by apply asked_in_app].
  - exact (po_sequential p Hok).
  - by eapply counts_grow.
  - intros u key Hu. rewrite Hts' in Hu. injection Hu as <-. rewrite Hk.
    assert (Hold := po_setups p Hok t0 key). rewrite Hts in Hold. specialize (Hold eq_refl).
    rewrite Hl, all_setup_marks_app in Hold. rewrite all_setup_marks_app.
    change (all_setup_marks [t]) with (setup_marks (th_trace t) ++ []) in Hold.
    change (all_setup_marks [t']) with (setup_marks (th_trace t ++ [Ev o y.1]) ++ []).
    rewrite app_nil_r in Hold. rewrite app_nil_r, setup_marks_app, (assoc_L (++)).
    change (setup_marks [Ev o y.1]) with (option_list (setup_mark (Ev o y.1))).
    destruct (setup_mark (Ev o y.1)) as [[k' b]|]; [|by rewrite app_nil_r].
    rewrite (latest_snoc _ _ (k', b)). cbn [fst snd]. repeat case_decide; naive_solver.
Qed.

Lemma process_start_ok w : process_ok (process_start w).
Proof.
  assert (Hok := start_ok r w ∅). split; try apply Hok; try done.
  - exists w. apply rtc_once.
    exact (step_interfere _ _ _ _ (System.start w) (others_track SetupFailed _)).
  - by exists (newFailureTracker SetupFailed), [].
  - by intros t out ?%elem_of_nil.
  - by intros t ?%elem_of_nil.
  - by intros spec ?%elem_of_nil.
  - intros t key [= <-]. simpl. by rewrite elem_of_empty.
Qed.

Lemma process_step_ok p p' : process_ok p → process_step p p' → process_ok p'.
Proof.
  intros Hok Hs. destruct Hs as [req p Hno|c p Hrun|i spec ev p Hst Hidle|c p Hrun|w p];
    [by apply process_ok_request|by apply process_ok_setup|by apply process_ok_event|
     by apply process_ok_run|by apply process_ok_world].
Qed.

Lemma process_reachable_ok p : process_reachable p → process_ok p.
Proof.
  intros [w Hr]. eapply rtc_invariant; [apply process_step_ok|exact Hr|apply process_start_ok].
Qed.

(** Controllers stay. *)
Lemma process_step_started p p' i spec :
  process_step p p' →
  su_Controllers (pr_setup p) !! i = Some spec → su_Controllers (pr_setup p') !! i = Some spec.
Proof.
  intros Hs. destruct Hs as [req p Hno|c p Hrun|j spec' ev p Hst Hidle|c p Hrun|w p]; try done.
  inversion Hrun as [n t X o k c0 Hn Hp]; subst.
  destruct (handle_monotone Complete X o (pr_setup p)) as [Hpre _].
  intros Hi. by eapply prefix_lookup_Some.
Qed.

Lemma process_started p p' i spec :
  rtc process_step p p' →
  su_Controllers (pr_setup p) !! i = Some spec → su_Controllers (pr_setup p') !! i = Some spec.
Proof.
  intros Hr. induction Hr as [|p1 p2 p3 Hs _ IH]; [done|]. intros Hi.
  apply IH. by eapply process_step_started.
Qed.

(** Handlers and set-ups run in any order. *)
Lemma with_pool_id p : with_pool (pr_pool p) p = p.
Proof. destruct p as [s ? ?]. unfold with_pool. simpl. by rewrite set_shared_id. Qed.

Lemma pr_pool_with c p : pr_pool (with_pool c p) = c.
Proof. by destruct c. Qed.

Lemma process_schedule order p :
  rtc process_step p (with_pool (schedule job_handle order (pr_pool p)) p).
Proof.
  revert p. induction order as [|n order IH]; intros p; simpl; [by rewrite with_pool_id|].
  etrans; [|specialize (IH (with_pool (step_at job_handle (pr_pool p) n) p));
    rewrite pr_pool_with in IH; exact IH].
  unfold step_at. destruct (pool_threads (pr_pool p) !! n) as [t|] eqn:Hn; [|by rewrite with_pool_id].
  destruct (th_prog t) as [a|X o k] eqn:Hp; [by rewrite with_pool_id|].
  apply rtc_once, process_run. by apply step_thread.
Qed.

Lemma with_setups_id p : with_setups (setup_pool p) p = p.
Proof. by destruct p. Qed.

Lemma setup_pool_with c p : setup_pool (with_setups c p) = c.
Proof. by destruct c. Qed.

Lemma process_setup_schedule order p :
  rtc process_step p (with_setups (schedule setup_job_handle order (setup_pool p)) p).
Proof.
  revert p. induction order as [|n order IH]; intros p; simpl; [by rewrite with_setups_id|].
  etrans; [|specialize (IH (with_setups (step_at setup_job_handle (setup_pool p) n) p));
    rewrite setup_pool_with in IH; exact IH].
  unfold step_at. destruct (pool_threads (setup_pool p) !! n) as [t|] eqn:Hn;
    [|by rewrite with_setups_id].
  destruct (th_prog t) as [a|X o k] eqn:Hp; [by rewrite with_setups_id|].
  apply rtc_once, process_setup. by apply step_thread.
Qed.

(** *** Sums over the controllers *)

(** The verdicts of the runs of the [i]-th controller on an object, in order. *)
Definition verdicts (i : nat) (key : NamespacedName) (p : process) : list bool :=
  pr_threads p ≫= λ t, if decide (works_on i key t) then verdict t else [].

(** The objects for which the latest verdict is a failure. *)
Definition failing_objects (i : nat) (p : process) : gset NamespacedName :=
  list_to_set (filter (λ key, last (verdicts i key p) = Some true)
    ((λ t, j_request (th_job t)) <$> pr_threads p)).

(** The verdicts of the set-ups, in order. *)
Definition setup_verdicts (p : process) : list (NamespacedName * bool) :=
  pr_setups p ≫= λ t, option_list (set_up_verdict (th_job t) (th_trace t) (th_prog t)).

(** The KRMSyncers for which the latest verdict is a failure. *)
Definition failing_syncers (p : process) : gset NamespacedName :=
  list_to_set (filter (λ key, latest key (setup_verdicts p) = Some true)
    ((setup_verdicts p).*1)).

Definition failing_of_kind (gvk : GroupVersionKind) (p : process) : nat :=
  sum_list (imap (λ i spec, if decide (cs_GVK spec = gvk) then size (failing_objects i p) else 0)
    (su_Controllers (pr_setup p))).

Lemma bind_ext_in {A B} (f g : A → list B) (l : list A) :
  (∀ x, x ∈ l → f x = g x) → l ≫= f = l ≫= g.
Proof.
  induction l as [|x l IH]; intros H; [done|]. rewrite !bind_cons, (H x) by by left.
  f_equal. apply IH. intros y Hy. apply H. by right.
Qed.

Lemma attempts_verdicts i key p :
  process_ok p → attempts i key (pr_threads p) = verdicts i key p.
Proof.
  intros Hok. apply bind_ext_in. intros t [n Hn]%list_elem_of_lookup. unfold marked.
  rewrite (thread_marks _ n t (po_system p Hok) Hn). destruct (decide _); [|done].
  rewrite <-list_fmap_compose. apply list_fmap_id.
Qed.

Lemma marks_verdicts p : process_ok p → all_setup_marks (pr_setups p) = setup_verdicts p.
Proof.
  intros Hok. apply bind_ext_in. intros t [n Hn]%list_elem_of_lookup.
  by eapply set_up_marked, (po_runs p Hok n).
Qed.

Lemma verdicts_of_threads i key p b :
  last (verdicts i key p) = Some b → key ∈ (λ t, j_request (th_job t)) <$> pr_threads p.
Proof.
  intros Hl%last_Some_elem_of. unfold verdicts in Hl.
  apply list_elem_of_bind in Hl as (t & Hb & Ht).
  destruct (decide _) as [[_ <-]|]; [|by apply elem_of_nil in Hb].
  apply list_elem_of_fmap. by exists t.
Qed.

Lemma failing_objects_tracker i p t :
  process_ok p → tail (sh_trackers (pr_shared p)) !! i = Some t →
  failing_objects i p = ft_failed t.
Proof.
  intros Hok Hi. apply leibniz_equiv. intros key. unfold failing_objects.
  rewrite elem_of_list_to_set, list_elem_of_filter, (po_counts p Hok i t key Hi).
  rewrite (attempts_verdicts i key p Hok).
  split; [tauto|]. intros Hl. split; [done|by eapply verdicts_of_threads].
Qed.

Lemma latest_in key hist b : latest key hist = Some b → key ∈ hist.*1.
Proof.
  unfold latest. intros ((k & b') & Hl%last_Some_elem_of & _)%fmap_Some.
  apply list_elem_of_filter in Hl as [<- Hin]. by apply (list_elem_of_fmap_2 fst) in Hin.
Qed.

Lemma failing_syncers_tracker p t :
  process_ok p → head (sh_trackers (pr_shared p)) = Some t → failing_syncers p = ft_failed t.
Proof.
  intros Hok Ht. apply leibniz_equiv. intros key. unfold failing_syncers.
  rewrite elem_of_list_to_set, list_elem_of_filter, (po_setups p Hok t key Ht).
  rewrite (marks_verdicts p Hok).
  split; [tauto|]. intros Hl. split; [done|by eapply latest_in].
Qed.

Lemma failing_total_imap gvk (F : nat → gset NamespacedName) specs ts :
  Forall2 tracker_for specs ts →
  (∀ i t, ts !! i = Some t → ft_failed t = F i) →
  failing_total (FailedObjects gvk) ts =
    sum_list (imap (λ i spec, if decide (cs_GVK spec = gvk) then size (F i) else 0) specs).
Proof.
  intros HF. revert F. induction HF as [|spec t specs ts Ht _ IH]; intros F HFt; [done|].
  cbn [imap sum_list]. unfold failing_total in *. cbn [sum_list_with].
  rewrite (IH (λ i, F (S i))) by (intros i u Hu; by apply (HFt (S i))).
  rewrite (HFt 0 t eq_refl), Ht. f_equal. unfold id. repeat case_decide; congruence.
Qed.

(** *** The writes of a handler that still runs *)

Context {UL : UnstructuredLaws}.

Lemma thread_write c n t cl :
  System.reachable c → pool_threads c !! n = Some t →
  cl ∈ calls_of (th_trace t) → is_write (call_request cl) = true →
  let dr := c_reconciler (j_controller (th_job t)) in
  (dr_Mode dr = ModePush ∨ call_client cl = dr_LocalClient dr) ∧
  ∃ items k rule, listed_of (th_trace t) = Some (Ok items) ∧
    (k, rule) ∈ targets dr (j_request (th_job t)) items.
Proof.
  intros Hc Hn Hin Hw dr. destruct (thread_completes c n t Hc Hn) as (tr & res & Htr & _).
  assert (Hfull : cl ∈ calls_of (th_trace t ++ tr))
    by (unfold calls_of in *; rewrite omap_app; apply elem_of_app; by left).
  destruct (run_write _ _ _ _ _ Htr Hfull Hw)
    as (got & src & items & [k rule] & dest & l' & e & _ & _ & Hi & Ht & Hp & Hcl).
  apply target_protocol_call with (2 := Hcl) in Hp as [Hcl' _]. split; [exact Hcl'|].
  exists items, k, rule. split; [|exact Ht].
  destruct (th_trace t) as [|e1 [|e2 l]] eqn:Hth; [by apply elem_of_nil in Hin| |done].
  apply Reconcile_trace in Htr as (g & rest & [= -> _] & _). exfalso.
  apply list_elem_of_singleton in Hin as ->. done.
Qed.

(** ** Properties *)

(** [C19] The metrics say what they claim, over the whole life of the process. However set-ups,
    events and handlers interleave, syncer_failed_objects of a kind is the number of pairs of
    a started controller of the kind and an object such that the controller's latest run for
    the object returned an error (of the runs that have ended and could list the
    KRMSyncers); repeated failures count once, and a success ends the count.
    syncer_setup_failed is the number of KRMSyncers whose latest set-up returned an error (of
    those that have come to their result and could read the KRMSyncer); a suspended or
    deleted KRMSyncer is not counted. *)
Theorem metrics_count_failures p :
  process_reachable p →
  (∀ gvk, gauge_value (gauge_at (sh_gauges (pr_shared p)) (FailedObjects gvk)) =
     Z.of_nat (failing_of_kind gvk p)) ∧
  gauge_value (gauge_at (sh_gauges (pr_shared p)) SetupFailed) =
    Z.of_nat (size (failing_syncers p)).
Proof.
  intros Hok%process_reachable_ok. assert (Hg := system_gauges_exact _ (po_system p Hok)).
  change (pool_shared (pr_pool p)) with (pr_shared p) in Hg.
  destruct (po_trackers p Hok) as (t0 & ts & Hts & Hg0 & HF).
  assert (Hf : head (sh_trackers (pr_shared p)) = Some t0) by by rewrite Hts.
  assert (Hset : failing_total SetupFailed ts = 0).
  { clear Hts. induction HF as [|spec t specs ts Ht _ IH]; [done|]. unfold failing_total in *.
    simpl. by rewrite IH, Ht. }
  split.
  - intros gvk. rewrite Hg, Hts. unfold failing_of_kind.
    rewrite <-(failing_total_imap gvk (λ i, failing_objects i p) _ ts HF).
    + unfold failing_total. simpl. by rewrite Hg0.
    + intros i t Hi. symmetry. apply failing_objects_tracker; [done|]. by rewrite Hts.
  - rewrite Hg, Hts, (failing_syncers_tracker p t0 Hok Hf). unfold failing_total in *. simpl.
    rewrite Hg0, Hset, decide_True by done. f_equal. lia.
Qed.

(** [C10] Nothing is written unless it was asked for twice. Every write of every handler is
    that of a controller which a set-up started for a KRMSyncer that was not suspended, one
    of whose valid rules expands, with what the set-up discovered, to the controller's kind on
    the cluster it watches (the set-up may still be going on); and when
    the event was handled, the API listed a KRMSyncer, not suspended, with the controller's
    mode and (in Pull mode) connection, with a rule that matches the kind and the namespace of
    the object. In Pull mode only the local cluster is written. *)
Theorem writes_are_asked_for p n t cl :
  process_reachable p → pr_threads p !! n = Some t →
  cl ∈ calls_of (th_trace t) → is_write (call_request cl) = true →
  ∃ i spec ev, su_Controllers (pr_setup p) !! i = Some spec ∧ th_job t = job_of i spec ev ∧
  (∃ u ks lists, u ∈ pr_setups p ∧ set_up (th_trace u) ks ∧
     discovered r ks (th_trace u) (Ok lists) ∧ asked_for ks lists spec) ∧
  let dr := cs_Reconciler spec in
  (dr_Mode dr = ModePush ∨ call_client cl = r_Client r) ∧
  ∃ items k rule, listed_of (th_trace t) = Some (Ok items) ∧ k ∈ items ∧
    spec_Suspend (ks_Spec k) = false ∧ effective_mode (spec_Mode (ks_Spec k)) = dr_Mode dr ∧
    (dr_Mode dr = ModePull →
      Key (ks_Namespace k) (spec_Remote (ks_Spec k)) = Ok (rgvk_Cluster (dr_Remote dr))) ∧
    rule ∈ spec_Rules (ks_Spec k) ∧ ruleMatchesGVK rule (cs_GVK spec) = true ∧
    (rule_Namespaces rule = [] ∨ nn_Namespace ev ∈ rule_Namespaces rule).
Proof.
  intros Hok%process_reachable_ok Hn Hin Hw.
  destruct (po_jobs p Hok t) as (i & spec & ev & Hst & Hj); [by eapply list_elem_of_lookup_2|].
  assert (Hspec : spec ∈ su_Controllers (pr_setup p)) by by eapply list_elem_of_lookup_2.
  exists i, spec, ev. split_and!; [done|done| |].
  { destruct (po_asked p Hok spec Hspec) as (u & Hu & ks & lists & ?). by exists u, ks, lists. }
  destruct (thread_write _ n t cl (po_system p Hok) Hn Hin Hw) as (Hcl & items & k & rule & Hi & Ht).
  rewrite Hj in Hcl, Ht. simpl in Hcl, Ht. intros dr.
  assert (Hreg : dr_LocalClient dr = r_Client r ∧ dr_GVK dr = cs_GVK spec).
  { destruct (po_watches p Hok) as (_ & _ & Hr).
    by destruct (Hr spec Hspec) as [(g & ->)|(c & g & -> & _)]. }
  destruct Hreg as [Hlocal Hgvk]. split; [by rewrite <-Hlocal|].
  apply targets_elem in Ht as [[? (?&?&?)%syncerMatches_spec] [? (?&?)%ruleMatches_spec]].
  exists items, k, rule. rewrite <-Hgvk. done.
Qed.

(** [C11] What is set up stays set up. After a set-up without error of an active KRMSyncer,
    in that and every later state of the process, whatever happens in between, each kind of
    each of its rules has its controller: an event for an object in a namespace of the rule
    is taken as soon as the last run for that object has ended, and every run for it that is
    told the KRMSyncer, has read the source and has ended made the calls of the protocol for
    this KRMSyncer and rule (in Push mode with the client it asked for, for the KRMSyncer's
    remote), successfully if it returned no error. *)
Theorem set_up_lasts p m st ks :
  process_reachable p → pr_setups p !! m = Some st → th_prog st = Ret None →
  set_up (th_trace st) ks → valid_mode (mode_of ks) →
  ∃ lists, discovered r ks (th_trace st) (Ok lists) ∧
  ∀ rule, rule ∈ spec_Rules (ks_Spec ks) →
  ∃ gvks, expandRule rule lists = Ok gvks ∧ ∀ gvk, gvk ∈ gvks →
  ∃ i spec, su_Controllers (pr_setup p) !! i = Some spec ∧ cs_GVK spec = gvk ∧
    ∀ p', rtc process_step p p' → su_Controllers (pr_setup p') !! i = Some spec ∧
    ∀ ev, rule_Namespaces rule = [] ∨ nn_Namespace ev ∈ rule_Namespaces rule →
      (idle i ev p' → process_step p' (after_event i spec ev p')) ∧
      ∀ n t out got src items k, pr_threads p' !! n = Some t → th_job t = job_of i spec ev →
        th_prog t = Ret out →
        got_of (th_trace t) = Some got → source_of got = Some src →
        listed_of (th_trace t) = Some (Ok items) → k ∈ items → same_syncer k ks →
        ∃ l1 l l2 dest e, calls_of (th_trace t) = l1 ++ l ++ l2 ∧
          asked (cs_Reconciler spec) k dest ⊆ remotes_of (th_trace t) ∧
          target_protocol (cs_Reconciler spec) ev src (k, rule) dest l e ∧
          (out = None → e = None).
Proof.
  intros Hok%process_reachable_ok Hm Hret Hks Hvalid.
  assert (Hpost := po_done p Hok st None (list_elem_of_lookup_2 _ _ _ Hm) Hret).
  destruct (set_up_watches r _ _ ks (po_watches p Hok) Hpost Hks Hvalid) as (lists & Hl & Hall).
  exists lists. split; [done|]. intros rule Hrule.
  destruct (Hall rule Hrule) as (gvks & He & Hgv). exists gvks. split; [done|].
  intros gvk Hin. destruct (Hgv gvk Hin) as (spec & [i Hi]%list_elem_of_lookup & Hgvk & Ht).
  exists i, spec. split_and!; [done..|]. intros p' Hsteps.
  assert (Hi' := process_started p p' i spec Hsteps Hi). split; [done|].
  intros ev Hns. split; [by apply process_event|].
  intros n t out got src items k Hn Hj Hout Hgot Hsrc Hlisted Hk Hsame.
  assert (Hok' : process_ok p') by (eapply rtc_invariant; [apply process_step_ok|exact Hsteps|done]).
  assert (Htr := reachable_threads _ (po_system p' Hok') n t Hn).
  rewrite Hout, Hj in Htr. apply reaches_ret in Htr.
  eapply (target_run _ _ _ _ _ _ _ (k, rule)); [exact Htr|done..|]. by apply Ht.
Qed.

(** [C12] At any moment, also while a set-up goes on, every kind of every source cluster has at
    most one controller, and what is marked as watched has one; between set-ups, exactly what
    has a controller is marked. So a retried or second KRMSyncer never duplicates a watch, and
    a watch that failed to start is not taken for started. *)
Theorem watches_at_any_time p :
  process_reachable p →
  NoDup (controller_watches (pr_setup p)) ∧
  (∀ i, watched (pr_setup p) i → i ∈ controller_watches (pr_setup p)) ∧
  (no_setup p → ∀ i, i ∈ controller_watches (pr_setup p) → watched (pr_setup p) i).
Proof.
  intros Hok%process_reachable_ok. destruct (po_watches p Hok) as (Hnd & Hw & _).
  split_and!; [done|done|]. intros Hno. by apply no_setup_ok.
Qed.
End Process.

(** ** A concrete process *)

Section ProcessWitnesses.
#[local] Existing Instance FakeErrors.
#[local] Existing Instance FakeParser.
#[local] Existing Instance FakeUnstructured.
#[local] Existing Instance FakeUnstructuredLaws.
#[local] Existing Instance FakeCluster.
#[local] Existing Instance FakeProvider.
#[local] Existing Instance FakeFactory.
#[local] Existing Instance FakeGauge.
#[local] Existing Instance FakeGaugeLaws.
#[local] Existing Instance FakeSetup.

(** A KRMSyncer that pulls ConfigMaps, and an object of the remote cluster 1; [down] are the
    clusters that do not answer. *)
Definition life_world (down : gset nat) : fake_world := {|
  fw_objects := {[ (1, demo_gvk, NN "ns" "a") := source_object ]};
  fw_namespaces := ∅; fw_syncers := [config_syncer]; fw_down := down |}.

Abbreviation demo_step := (process_step fake_Complete demo_reconciler).

(** The set-up of the KRMSyncer, up to and including the start of the controller; then an
    event, which the controller handles while the set-up goes on, which ends last. *)
Definition setup_turns (turns : nat) (p : process) : process :=
  with_setups (schedule (setup_job_handle fake_Complete) (replicate turns 0) (setup_pool p)) p.
Definition life_half (down : gset nat) : process :=
  setup_turns 9 (after_request demo_reconciler (NN "ns" "s") (process_start (life_world down))).
Definition life_event (down : gset nat) : process :=
  after_event 0 config_spec demo_req (life_half down).
Definition life_handled (down : gset nat) (ops : nat) : process :=
  with_pool (schedule job_handle (replicate ops 0) (pr_pool (life_event down))) (life_event down).
Definition life (down : gset nat) (ops : nat) : process :=
  setup_turns 3 (life_handled down ops).

Lemma life_started down : su_Controllers (pr_setup (life_half down)) = [config_spec].
Proof. reflexivity. Qed.

Lemma life_no_thread down : pr_threads (life_half down) = [].
Proof. reflexivity. Qed.

Lemma life_half_reachable down :
  process_reachable fake_Complete demo_reconciler (life_half down).
Proof.
  exists (life_world down). eapply rtc_l; [|exact (process_setup_schedule _ _ (replicate 9 0) _)].
  apply process_request. by intros t ?%elem_of_nil.
Qed.

Lemma life_event_step down : demo_step (life_half down) (life_event down).
Proof.
  refine (process_event _ _ 0 config_spec demo_req (life_half down) _ _).
  - rewrite life_started. reflexivity.
  - intros t. rewrite life_no_thread. intros Ht. by apply elem_of_nil in Ht.
Qed.

Lemma life_steps down ops : rtc demo_step (life_half down) (life down ops).
Proof.
  eapply rtc_l; [apply life_event_step|].
  etrans; [|exact (process_setup_schedule _ _ (replicate 3 0) (life_handled down ops))].
  exact (process_schedule _ _ (replicate ops 0) (life_event down)).
Qed.

Lemma life_reachable down ops :
  process_reachable fake_Complete demo_reconciler (life down ops).
Proof.
  destruct (life_half_reachable down) as [w Hw]. exists w. etrans; [exact Hw|apply life_steps].
Qed.

(** The handler of the event. *)
Definition life_thread (down : gset nat) (ops : nat) : thread :=
  default (start_thread job_program (job_of 0 config_spec demo_req))
    (pr_threads (life down ops) !! 0).

Lemma life_lookup down ops :
  length (pr_threads (life down ops)) = 1 →
  pr_threads (life down ops) !! 0 = Some (life_thread down ops).
Proof.
  intros Hlen. unfold life_thread.
  destruct (lookup_lt_is_Some_2 (pr_threads (life down ops)) 0) as [t Ht]; [lia|].
  by rewrite Ht.
Qed.

(** The remote cluster does not answer: the object is counted as failing. *)
Lemma metrics_count_failures_witness :
  let p := life {[1]} 2 in
  failing_of_kind demo_gvk p = 1 ∧
  gauge_value (gauge_at (sh_gauges (pool_shared (pr_pool p))) (FailedObjects demo_gvk)) = 1%Z.
Proof.
  intros p. assert (Hf : failing_of_kind demo_gvk p = 1) by reflexivity.
  split; [exact Hf|].
  etrans; [exact (proj1 (metrics_count_failures fake_Complete demo_reconciler p
    (life_reachable {[1]} 2)) demo_gvk)|].
  by rewrite Hf.
Defined.

Lemma life_length : length (pr_threads (life ∅ 6)) = 1.
Proof. reflexivity. Qed.

(** The object is copied to the local cluster. *)
Lemma writes_are_asked_for_witness :
  sent_call ["spec"] ∈ calls_of (th_trace (life_thread ∅ 6)) ∧
  ∃ i spec ks lists, su_Controllers (pr_setup (life ∅ 6)) !! i = Some spec ∧
    asked_for ks lists spec.
Proof.
  assert (Hin : sent_call ["spec"] ∈ calls_of (th_trace (life_thread ∅ 6)))
    by (apply (list_elem_of_lookup_2 _ 4); reflexivity).
  split; [exact Hin|].
  destruct (writes_are_asked_for fake_Complete demo_reconciler (life ∅ 6) 0 (life_thread ∅ 6)
    (sent_call ["spec"]) (life_reachable ∅ 6) (life_lookup ∅ 6 life_length) Hin eq_refl)
    as (i & spec & ev & Hi & _ & (u & ks & lists & _ & _ & _ & Hask) & _).
  exists i, spec, ks, lists. exact (conj Hi Hask).
Defined.

(** The set-up, which has ended. *)
Definition life_set_up (down : gset nat) (ops : nat) : thread :=
  default (start_thread (setup_program demo_reconciler) (NN "ns" "s"))
    (pool_threads (setup_pool (life down ops)) !! 0).

Lemma life_setups : length (pr_setups (life ∅ 6)) = 1.
Proof. reflexivity. Qed.

Lemma life_set_up_lookup : pr_setups (life ∅ 6) !! 0 = Some (life_set_up ∅ 6).
Proof.
  unfold life_set_up.
  destruct (lookup_lt_is_Some_2 (pr_setups (life ∅ 6)) 0) as [t Ht]; [rewrite life_setups; lia|].
  change (pool_threads (setup_pool (life ∅ 6))) with (pr_setups (life ∅ 6)). by rewrite Ht.
Qed.

(** The controller is there after the run, and takes the event again. *)
Lemma set_up_lasts_witness :
  th_prog (life_set_up ∅ 6) = Ret None ∧
  ∃ i spec, su_Controllers (pr_setup (life ∅ 6)) !! i = Some spec ∧ cs_GVK spec = demo_gvk ∧
    (idle i demo_req (life ∅ 6) → demo_step (life ∅ 6) (after_event i spec demo_req (life ∅ 6))).
Proof.
  split; [reflexivity|].
  destruct (set_up_lasts fake_Complete demo_reconciler (life ∅ 6) 0 (life_set_up ∅ 6) config_syncer
    (life_reachable ∅ 6) life_set_up_lookup eq_refl) as (lists & _ & Hall);
    [by split|by right|].
  destruct (Hall config_rule) as (gvks & Hgvks & Hgvk); [by left|].
  injection Hgvks as <-. destruct (Hgvk demo_gvk) as (i & spec & Hi & Hspec & Hrun); [by left|].
  exists i, spec. split; [exact Hi|]. split; [exact Hspec|].
  destruct (Hrun (life ∅ 6) (rtc_refl _ _)) as [_ Hev]. apply (Hev demo_req). by left.
Defined.

(** While the set-up goes on, the controller is started and not yet marked. *)
Lemma watches_at_any_time_witness :
  controller_watches (pr_setup (life_half ∅)) = [remote_watch "ConfigMap" "" "v1"] ∧
  su_WatchedRemoteGVKs (pr_setup (life_half ∅)) = ∅ ∧
  NoDup (controller_watches (pr_setup (life_half ∅))).
Proof.
  split; [reflexivity|]. split; [reflexivity|].
  exact (proj1 (watches_at_any_time _ _ _ (life_half_reachable ∅))).
Defined.
End ProcessWitnesses.
