(* ===== verification/Progress.v ===== *)
(** * Everything that was started ends

    The process ([Process]) never gets stuck on what it has taken on: the set-up that runs
    and all running handlers come to their ends, whatever order they take turns in. *)

From stdpp Require Import base list strings gmap relations.
From Stdlib Require Import Relation_Operators Lexicographic_Product.
From S2P Require Import Prelude Threads GoStrings Kube Api Fake Rules FieldFilter.
From S2P Require Import Tracker Client FakeCluster Apply RemoteClients Sync SyncSpec System.
From S2P Require Import Setup SetupTraces SetupSpec Status Pipeline Process.

#[local] Arguments RemoteClients.get : simpl never.

Section Progress.
Context {AE : ApiErrors} {AC : ApiClient} {UN : Unstructured}.
Context {RP : RemoteConfigProvider} {CF : ClientFactory} {PG : PrometheusGauge}.
Context {SL : SetupLibs} {GP : GroupVersionParser}.
Context (Complete : controller_spec → world → option api_error * world).
Context (r : KRMSyncerReconciler).

(** One operation of the set-up or of a handler. *)
Inductive work_step (p : process) : process → Prop :=
| work_setup c :
    thread_step (setup_job_handle Complete) (setup_pool p) c → work_step p (with_setups c p)
| work_handler c : thread_step job_handle (pr_pool p) c → work_step p (with_pool c p).

(** A turn: the world has changed in any way, then one of them does its next operation. *)
Definition with_world (w : world) (p : process) : process :=
  with_pool {| pool_shared := set_world w (su_shared (pr_setup p));
               pool_threads := pr_threads p |} p.
Definition process_turn (p p' : process) : Prop := ∃ w, work_step (with_world w p) p'.

Lemma process_turn_steps p p' :
  process_turn p p' → rtc (process_step Complete r) p p'.
Proof.
  intros [w Hw]. eapply rtc_l; [apply (process_world _ _ w)|]. apply rtc_once.
  destruct Hw as [c Hc|c Hc]; [by apply process_setup|by apply process_run].
Qed.

Lemma process_turn_reachable p p' :
  process_turn p p' → process_reachable Complete r p → process_reachable Complete r p'.
Proof.
  intros Ht [w Hw]. exists w. etrans; [exact Hw|by apply process_turn_steps].
Qed.

(** ** Termination *)

(** What the set-ups and the handlers have left to do. *)
Definition left_to_do (p : process) :
    list (setup_handler (option goerr)) * list (handler (option goerr)) :=
  (th_prog <$> pr_setups p, th_prog <$> pr_threads p).

Lemma thread_step_progs {op J S A} (h : J → ∀ X, op X → M S X) (c c' : @pool op J S A) :
  thread_step h c c' → progs_step (th_prog <$> pool_threads c') (th_prog <$> pool_threads c).
Proof.
  intros Hs. destruct Hs as [i t X o k c Hi Hk].
  exists i, X, o, k, (h (th_job t) X o (pool_shared c)).1. split.
  - by rewrite list_lookup_fmap, Hi, <-Hk.
  - simpl. by rewrite list_fmap_insert.
Qed.

Lemma thread_step_jobs {op J S A} (h : J → ∀ X, op X → M S X) (c c' : @pool op J S A) :
  thread_step h c c' → th_job <$> pool_threads c' = th_job <$> pool_threads c.
Proof.
  intros Hs. destruct Hs as [i t X o k c Hi Hk]. simpl.
  rewrite list_fmap_insert. apply list_insert_id. by rewrite list_lookup_fmap, Hi.
Qed.

Lemma process_turn_progs p p' :
  process_turn p p' →
  symprod _ _ progs_step progs_step (left_to_do p') (left_to_do p).
Proof.
  intros [w [c Hc|c Hc]]; apply thread_step_progs in Hc; [by apply left_sym|by apply right_sym].
Qed.

Lemma process_turn_wf : well_founded (flip process_turn).
Proof.
  apply (wf_projected (symprod _ _ progs_step progs_step) left_to_do).
  - intros p' p. apply process_turn_progs.
  - apply wf_symprod; apply progs_step_wf.
Qed.

(** ** No stuck states *)

(** What there is to do: the set-ups that were asked for and the events that were taken. *)
Definition taken (p : process) : list NamespacedName * list job :=
  (th_job <$> pr_setups p, th_job <$> pr_threads p).

Lemma process_turn_taken p p' : process_turn p p' → taken p' = taken p.
Proof.
  unfold taken. intros [w [c Hc|c Hc]]; apply thread_step_jobs in Hc; simpl in *; by rewrite Hc.
Qed.

Definition all_done (p : process) : Prop :=
  no_setup p ∧ ∀ t, t ∈ pr_threads p → finished t.

Lemma with_world_id p : with_world (sh_world (su_shared (pr_setup p))) p = p.
Proof. destruct p as [[[? ? ? ?] ? ? ? ?] ? ?]. done. Qed.

Lemma process_progress p : all_done p ∨ ∃ p', process_turn p p'.
Proof.
  destruct (turn_progress (setup_job_handle Complete) (λ _ _, False) (setup_pool p))
    as [Hs|(c & s & Hr & Hc)].
  - destruct (turn_progress job_handle (λ _ _, False) (pr_pool p)) as [Ht|(c & s & Hr & Hc)].
    + left. split; intros t [i Hi]%list_elem_of_lookup; [by apply (Hs i)|by apply (Ht i)].
    + right. exists (with_pool c p), (sh_world (su_shared (pr_setup p))). rewrite with_world_id.
      apply work_handler. by inversion Hr; subst.
  - right. exists (with_setups c p), (sh_world (su_shared (pr_setup p))). rewrite with_world_id.
    apply work_setup. by inversion Hr; subst.
Qed.

(** ** What is done in the end *)

Context {PL : PrometheusGaugeLaws}.

(** A set-up with this trace is accounted for: the tracker was told its verdict, and a
    KRMSyncer that could be read had its status updated once. *)
Definition set_up_accounted (req : NamespacedName) (tr : trace setup_operation)
    (out : option goerr) : Prop :=
  setup_marks tr = option_list (set_up_verdict req tr (Ret out)) ∧
  ∃ got, read_of tr = Some got ∧
    length (status_updates tr) = match got with Ok _ => 1 | Err _ => 0 end.

Lemma Reconcile_set_up_accounted req tr out :
  trace_of (Setup.Reconcile r req) tr out → set_up_accounted req tr out.
Proof.
  intros Htr. split; [by eapply set_up_marks_verdict|].
  destruct (set_up_trace r req tr out Htr) as (got & rest & Heq & Hrest).
  exists got. split; [by rewrite Heq|]. destruct got as [ks|e].
  - destruct (set_up_reports r req tr out ks Htr) as (lists & tr' & ks' & x & _ & -> & Hn & _);
      [by rewrite Heq|].
    unfold status_updates in *. by rewrite omap_app, Hn.
  - subst tr. by destruct (IsNotFound e); destruct Hrest as [-> _].
Qed.

(** [C21] Nothing that was taken on is left lying. From any reachable state, whatever order the
    running set-up and the running handlers take their turns in, whatever the answers are and
    however the world changes in between, a state is reached in which all of them have
    returned: every handler has marked its object with its outcome as the last thing it did
    (unless it could not list the KRMSyncers), every set-up has told the tracker its verdict
    and, if it could read the KRMSyncer, has updated its status once; and the next KRMSyncer
    and an event for any object can be taken. *)
Theorem process_settles p :
  process_reachable Complete r p →
  eventually process_turn (λ p',
    process_reachable Complete r p' ∧ taken p' = taken p ∧
    no_setup p' ∧ (∀ i ev, idle i ev p') ∧
    (∀ t, t ∈ pr_threads p' → ∃ out, th_prog t = Ret out ∧
       outcome_marked (j_request (th_job t)) (th_trace t) out) ∧
    ∀ t, t ∈ pr_setups p' → ∃ out, th_prog t = Ret out ∧
       set_up_accounted (th_job t) (th_trace t) out) p.
Proof.
  intros Hp. apply (eventually_wf _ (λ p', process_reachable Complete r p' ∧ taken p' = taken p));
    [exact process_turn_wf| | |done].
  - intros p1 p2 [H1 Ht1] Ht. split; [by eapply process_turn_reachable|].
    by rewrite (process_turn_taken _ _ Ht).
  - intros p' [H' Ht']. destruct (process_progress p') as [[Hs Ht]|Ht]; [left|by right].
    assert (Hok := process_reachable_ok _ _ _ H').
    split_and!; [done|done|done|by intros i ev t Hin _; apply Ht| |].
    + intros t [n Hn]%list_elem_of_lookup. destruct (Ht t) as [out Hout]; [by eapply list_elem_of_lookup_2|].
      exists out. split; [done|].
      assert (Hr := reachable_threads _ (po_system _ _ p' Hok) n t Hn). rewrite Hout in Hr.
      by eapply Reconcile_accounted, reaches_ret.
    + intros t [n Hn]%list_elem_of_lookup. destruct (Hs t) as [out Hout]; [by eapply list_elem_of_lookup_2|].
      exists out. split; [done|].
      assert (Hr := po_runs _ _ p' Hok n t Hn). rewrite Hout in Hr.
      by apply Reconcile_set_up_accounted, reaches_ret.
Qed.
End Progress.

(** ** A concrete process *)

Section ProgressWitness.
#[local] Existing Instance FakeErrors.
#[local] Existing Instance FakeParser.
#[local] Existing Instance FakeUnstructured.
#[local] Existing Instance FakeCluster.
#[local] Existing Instance FakeProvider.
#[local] Existing Instance FakeFactory.
#[local] Existing Instance FakeGauge.
#[local] Existing Instance FakeGaugeLaws.
#[local] Existing Instance FakeSetup.

Lemma life_event_reachable down :
  process_reachable fake_Complete demo_reconciler (life_event down).
Proof.
  destruct (life_half_reachable down) as [w Hw]. exists w.
  eapply rtc_r; [exact Hw|apply life_event_step].
Qed.

(** A set-up and a handler of the controller it has started are both running. *)
Lemma process_settles_witness :
  length (pr_setups (life_event ∅)) = 1 ∧ length (pr_threads (life_event ∅)) = 1 ∧
  eventually (process_turn fake_Complete) all_done (life_event ∅).
Proof.
  split; [reflexivity|]. split; [reflexivity|].
  assert (He := process_settles fake_Complete demo_reconciler _ (life_event_reachable ∅)).
  induction He as [p Hp|p Hex _ IH]; [apply eventually_now|by apply eventually_later].
  destruct Hp as (_ & _ & Hs & _ & Ht & _). split; [exact Hs|].
  intros t Hin. destruct (Ht t Hin) as (out & Hout & _). by exists out.
Defined.
End ProgressWitness.
