(* ===== verification/Delivery.v ===== *)
(** * From an event to the destination

    What becomes of an event in the whole process ([Process]): while its handler runs,
    set-ups, other events and other handlers act too. A handler writes only the object it was
    called for, and creates only its namespace; so those of objects that are independent of
    it ([independent]) cannot undo what this one wrote, and its success means what [Converge]
    and [Deletions] say. It uses the documented behaviour of the API: reading changes nothing
    ([ReadLaws]) and answers are about what was asked for ([AnswerLaws]). *)

From stdpp Require Import base list strings gmap relations.
From S2P Require Import Prelude Threads GoStrings Kube Api Fake Rules FieldFilter.
From S2P Require Import Tracker Client FakeCluster Apply RemoteClients Sync SyncSpec System.
From S2P Require Import Converge Deletions Setup SetupTraces SetupSpec Pipeline Process Progress.

#[local] Arguments RemoteClients.get : simpl never.

Section Answers.
Context {AE : ApiErrors} {AC : ApiClient} {UN : Unstructured} {SA : ServerSideApply}.
Context {RP : RemoteConfigProvider} {CF : ClientFactory}.

(** The API answers with the object that was asked for or patched, and the KRMSyncers it
    lists were admitted by the CRD's validation. *)
Definition crd_rules (items : list KRMSyncer) : Prop :=
  ∀ k rule, k ∈ items → rule ∈ spec_Rules (ks_Spec k) → Forall crd_field (rule_SyncFields rule).

Class AnswerLaws : Prop := {
  get_names c key gvk w u : (do_Get c key gvk w).1 = Ok u → object_id u = (gvk, key);
  list_valid c w items : (do_List c w).1 = Ok items → crd_rules items;
  patch_names c o opts w o' : (do_Patch c o opts w).1 = (None, o') → same_object o' o;
}.

(** What is served under the name [id] is the same in both worlds. *)
Definition same_at (id : GroupVersionKind * NamespacedName) (w w' : world) : Prop :=
  ∀ c, live_at w' c id = live_at w c id.

(** Reading and connecting to a cluster change nothing that is served. *)
Class ReadLaws : Prop := {
  get_reads id c key gvk w : same_at id w (do_Get c key gvk w).2;
  list_reads id c w : same_at id w (do_List c w).2;
  get_ns_reads id c key w : same_at id w (do_GetNamespace c key w).2;
  connect_reads id ns remote w : same_at id w (buildClient ns remote w).2;
}.

(** An object [id'] is independent of another one, [id], if writing it and creating its
    namespace change nothing of [id]. No law says which objects are: the same object in
    another served version is not, nor is a Namespace of the objects in it, nor a definition
    of a kind of the objects of this kind. *)
Record independent (id' id : GroupVersionKind * NamespacedName) : Prop := {
  independent_delete c o w : object_id o = id' → same_at id w (do_Delete c o w).2;
  independent_patch c o opts w : object_id o = id' → same_at id w (do_Patch c o opts w).2;
  independent_status c o opts w :
    object_id o = id' → same_at id w (do_StatusPatch c o opts w).2;
  independent_namespace c ns w :
    ns_name ns = nn_Namespace id'.2 → same_at id w (do_Create c ns w).2;
}.

(** What has been applied to the object, or that it is gone, is read off the live object. *)
Lemma same_at_keeps id w w' : same_at id w w' → keeps id w w'.
Proof.
  intros Hs c o <- _. split; [|intros st]; intros (live & Hl & Hc);
    exists live; (split; [|done]); unfold live_object; by rewrite Hs.
Qed.

Definition keeps_gone (id : GroupVersionKind * NamespacedName) (w w' : world) : Prop :=
  ∀ c, gone w c id → gone w' c id.

Lemma same_at_keeps_gone id w w' : same_at id w w' → keeps_gone id w w'.
Proof. intros Hs c. unfold gone. by rewrite (Hs c). Qed.
End Answers.

Section Delivery.
Context {AE : ApiErrors} {AC : ApiClient} {UN : Unstructured} {UL : UnstructuredLaws}.
Context {RP : RemoteConfigProvider} {CF : ClientFactory}.
Context {SA : ServerSideApply} {AL : AnswerLaws}.
Context {PG : PrometheusGauge}.

(** ** Handlers write only their own object and its namespace *)

(** The answer of an event is about what was asked for. *)
Definition answered (e : Threads.event operation) : Prop :=
  let 'Ev o x := e in
  match o in operation X return X → Prop with
  | OpGet c key gvk => λ y, ∀ u, y = Ok u → object_id u = (gvk, key)
  | OpList c => λ y, ∀ items, y = Ok items → crd_rules items
  | OpPatch c o opts => λ y, y.1 = None → same_object y.2 o
  | _ => λ _, True
  end x.

Definition all_answered (tr : trace operation) : Prop := ∀ e, e ∈ tr → answered e.

(** An operation that writes nothing, the object named [id] or its namespace. *)
Definition writes_only (id : GroupVersionKind * NamespacedName) (X : Type) (o : operation X) :
    Prop :=
  match o with
  | OpDelete c o | OpPatch c o _ | OpStatusPatch c o _ => object_id o = id
  | OpCreate c ns => ns_name ns = nn_Namespace id.2
  | _ => True
  end.

Abbreviation own id done p := (guarded (λ tr X o, all_answered tr → writes_only id X o) done p).

Lemma all_answered_init tr e : all_answered (tr ++ [e]) → all_answered tr.
Proof. intros H e' He'. apply H, elem_of_app. by left. Qed.

Lemma own_assume {A} id tr (p : handler A) : (all_answered tr → own id tr p) → own id tr p.
Proof. apply guarded_assume, all_answered_init. Qed.

Lemma own_harmless {X} id tr (o : operation X) : writes_only id X o → own id tr (perform o).
Proof. intros Ho. by apply guarded_perform. Qed.

Lemma same_object_id o1 o2 : same_object o1 o2 → object_id o1 = object_id o2.
Proof.
  intros (Ha & Hk & Hn & Hns). unfold object_id, ObjectKeyFromObject.
  by rewrite Hn, Hns, (get_gvk_strings o1 o2).
Qed.

Lemma applyToDestination_own id tr c o :
  object_id o = id → own id tr (applyToDestination c o).
Proof.
  intros Hid. unfold applyToDestination. apply guarded_bind.
  { unfold ensureNamespace. case_bool_decide; [done|].
    apply guarded_bind; [by apply own_harmless|]. intros tr1 [e|] _; [|done].
    destruct (IsNotFound e); [|done].
    apply guarded_bind; [by apply own_harmless; subst id|]. intros tr2 [e'|] _; [|done].
    by destruct (IsAlreadyExists e'). }
  intros tr1 [e|] _; [done|].
  destruct (NestedFieldCopy o ["status"]) as [found|e]; [|done].
  apply guarded_bind; [by apply own_harmless|]. intros tr2 y (x & tr3 & -> & -> & ->).
  destruct x as [[e|] o']; [done|]. destruct found as [st|]; [|done].
  cbn [fst snd]. apply own_assume. intros Htr.
  assert (Hsame : same_object o' o).
  { apply (Htr (Ev (OpPatch c o patchOpts) (None, o'))); [|done].
    rewrite !elem_of_app. right. by left. }
  apply guarded_bind; [|by intros tr4 [e|] _].
  apply own_harmless. simpl.
  rewrite (same_object_id _ _ (proj1 (statusObj_same o' st))). by rewrite (same_object_id _ _ Hsame).
Qed.

(** What a rule writes is named [id]. *)
Definition source_named (id : GroupVersionKind * NamespacedName) (r : DynamicResourceReconciler)
    (req : NamespacedName) (src : option object) (rule : ResourceRule) : Prop :=
  match src with
  | None => object_id (toDelete r req) = id
  | Some u => named id u rule
  end.

Lemma syncRule_own id r req src k rule tr :
  source_named id r req src rule → own id tr (syncRule r req src k rule).
Proof.
  intros Hid. unfold syncRule. apply guarded_bind.
  { unfold destination. case_bool_decide; [by apply own_harmless|done]. }
  intros tr1 [c|e] _; [|done]. destruct src as [u|].
  - unfold writeTo. destruct (filterFields u (rule_SyncFields rule)) as [d|e] eqn:Hd; [|done].
    apply Hid in Hd as [Hd _].
    destruct (negb _); [|by apply applyToDestination_own].
    apply guarded_bind.
    + unfold destinationExists. apply guarded_bind; [by apply own_harmless|].
      intros tr2 [x|e] _; [done|]. by destruct (IsNotFound e).
    + intros tr2 [[]|e] _; [by apply applyToDestination_own|done..].
  - unfold deleteFrom. apply guarded_bind; [by apply own_harmless|].
    intros tr2 [e|] _; [|done]. by destruct (negb _).
Qed.

Lemma reconcileFrom_own id r req src tr :
  (∀ rule, Forall crd_field (rule_SyncFields rule) → source_named id r req src rule) →
  own id tr (reconcileFrom r req src).
Proof.
  intros Hid. unfold reconcileFrom. apply guarded_bind; [by apply own_harmless|].
  intros tr1 x (y & tr2 & -> & -> & ->). destruct y as [items|e]; [|done].
  apply own_assume. intros Htr.
  assert (Hcrd : crd_rules items).
  { apply (Htr (Ev (OpList (dr_LocalClient r)) (Ok items))); [|done].
    apply elem_of_app. right. by left. }
  apply guarded_bind.
  - unfold syncAll, syncRules. apply guarded_forP. intros tr3 k acc Hk.
    destruct (negb _); [done|]. apply guarded_forP. intros tr4 rule acc' Hrule.
    destruct (negb _); [done|]. apply guarded_bind; [|done].
    by eapply syncRule_own, Hid, Hcrd.
  - intros tr3 errs _. destruct (Join_all errs); by apply guarded_bind; [apply own_harmless|].
Qed.

Lemma Reconcile_own r req :
  gvk_wf (dr_GVK r) → own (dr_GVK r, req) [] (Sync.Reconcile r req).
Proof.
  intros Hwf. unfold Sync.Reconcile. apply guarded_bind; [by apply own_harmless|].
  intros tr1 x (y & tr2 & -> & -> & ->). apply own_assume. intros Htr.
  destruct y as [u|e].
  - assert (Hu : object_id u = (dr_GVK r, req)).
    { rewrite <-(set_gvk_get (dr_GVK r) ∅ Hwf) at 1.
      apply (Htr (Ev (OpGet (dr_RemoteClient r) req
        (GroupVersionKind_of (SetGroupVersionKind (dr_GVK r) ∅))) (Ok u))); [by left|done]. }
    assert (Hgvk : GroupVersionKind_of u = dr_GVK r) by by injection Hu.
    apply reconcileFrom_own. intros rule Hcrd. simpl. rewrite <-Hu.
    apply sent_id; [by rewrite Hgvk|done].
  - destruct (IgnoreNotFound e); [by apply guarded_bind; [apply own_harmless|]|].
    apply reconcileFrom_own. intros rule _. by apply toDelete_id.
Qed.

(** ** Answers and writes of running handlers *)

Lemma handle_answered c X (o : operation X) s : answered (Ev o (handle c X o s).1).
Proof.
  destruct o as [cl key gvk|cl| | | |cl o opts| | |]; try done; simpl.
  - intros u. apply get_names.
  - intros items. apply list_valid.
  - destruct (do_Patch cl o opts (sh_world s)).1 as [[e|] o'] eqn:Hp; [done|]. intros _.
    by eapply patch_names.
Qed.

Lemma reachable_answered c n t :
  System.reachable c → pool_threads c !! n = Some t → all_answered (th_trace t).
Proof.
  intros [w Hr]. revert n t. refine (rtc_invariant _
    (λ c, ∀ n t, pool_threads c !! n = Some t → all_answered (th_trace t)) _ _ _ Hr _).
  - intros a b Hok Hstep. destruct Hstep as [a b Hstep|j a|s a _]; [|intros n t Ht|exact Hok].
    + destruct Hstep as [m u X o k a Hm Hk]. intros n t Ht. cbn [pool_threads] in Ht.
      apply list_lookup_insert_Some in Ht as [(-> & <- & _)|[_ Ht]]; [|by eapply Hok].
      simpl. intros e [He| ->%list_elem_of_singleton]%elem_of_app; [by eapply Hok|].
      apply handle_answered.
    + apply lookup_app_Some in Ht as [Ht|[_ Ht]]; [by eapply Hok|].
      apply list_lookup_singleton_Some in Ht as [_ <-]. by intros e ?%elem_of_nil.
  - by intros n t Ht.
Qed.

(** The object a handler was called for. *)
Definition object_of (t : @thread operation job (option goerr)) : GroupVersionKind * NamespacedName :=
  (dr_GVK (c_reconciler (j_controller (th_job t))), j_request (th_job t)).

(** The next operation of a handler writes nothing else. *)
Lemma thread_writes_own c n t X (o : operation X) k :
  System.reachable c → pool_threads c !! n = Some t → th_prog t = Do o k →
  gvk_wf (object_of t).1 → writes_only (object_of t) X o.
Proof.
  intros Hc Hn Hp Hwf. assert (Hr := reachable_threads c Hc n t Hn). rewrite Hp in Hr.
  apply (guarded_reaches _ [] _ _ _ _ (Reconcile_own _ _ Hwf) Hr).
  by eapply reachable_answered.
Qed.

(** What a call writes: the object named [id] or its namespace, if anything. *)
Definition writes_own (id : GroupVersionKind * NamespacedName) (rq : request) : Prop :=
  match rq with
  | ReqDelete o | ReqPatch o _ | ReqStatusPatch o _ => object_id o = id
  | ReqCreate ns => ns_name ns = nn_Namespace id.2
  | _ => True
  end.

Lemma call_writes_own id X (o : operation X) x cl :
  writes_only id X o → call_of (Ev o x) = Some cl → writes_own id (call_request cl).
Proof. destruct o; intros Ho [= <-]; exact Ho. Qed.

(** All calls of a handler so far. *)
Lemma reachable_writes_own c n t :
  System.reachable c → pool_threads c !! n = Some t → gvk_wf (object_of t).1 →
  ∀ cl, cl ∈ calls_of (th_trace t) → writes_own (object_of t) (call_request cl).
Proof.
  intros [w Hr]. revert n t. refine (proj2 (rtc_invariant _ (λ c, System.reachable c ∧
    ∀ n t, pool_threads c !! n = Some t → gvk_wf (object_of t).1 →
      ∀ cl, cl ∈ calls_of (th_trace t) → writes_own (object_of t) (call_request cl)) _ _ _ Hr _)).
  - intros a b [Ha Hok] Hstep.
    assert (Hb : System.reachable b) by (destruct Ha as [w' Hw]; exists w'; by eapply rtc_r).
    split; [done|]. destruct Hstep as [a b Hstep|j a|s a _]; [|intros n t Ht|exact Hok].
    + destruct Hstep as [m u X o k a Hm Hk]. intros n t Ht. cbn [pool_threads] in Ht.
      apply list_lookup_insert_Some in Ht as [(-> & <- & _)|[_ Ht]]; [|by eapply Hok].
      intros Hwf cl Hcl. unfold calls_of in Hcl. simpl in Hcl. rewrite omap_app in Hcl.
      apply elem_of_app in Hcl as [Hcl|Hcl]; [by eapply (Hok _ u)|].
      apply list_elem_of_omap in Hcl as (e & ->%list_elem_of_singleton & He).
      refine (call_writes_own _ _ _ _ _ _ He). exact (thread_writes_own _ n u X o k Ha Hm Hk Hwf).
    + apply lookup_app_Some in Ht as [Ht|[_ Ht]]; [by eapply Hok|].
      apply list_lookup_singleton_Some in Ht as [_ <-]. by intros _ e ?%elem_of_nil.
  - split; [by exists w|]. by intros n t Ht.
Qed.

Lemma handle_isolated `{!ReadLaws} c X (o : operation X) s id id' :
  writes_only id' X o → independent id' id →
  same_at id (sh_world s) (sh_world (handle c X o s).2).
Proof.
  intros Ho Hi. destruct o; simpl in *;
    try first [by apply get_reads|by apply list_reads|by apply get_ns_reads
      |by apply (independent_namespace _ _ Hi)|by apply (independent_delete _ _ Hi)
      |by apply (independent_patch _ _ Hi)|by apply (independent_status _ _ Hi)|done].
  assert (Hb := connect_reads id namespace remote (sh_world s)).
  unfold do_RemoteClient. destruct (c_remoteClients c); [|exact Hb]. unfold get.
  destruct (Key namespace remote); [|done].
  destruct (sh_clients s !! _); [done|].
  by destruct (buildClient namespace remote (sh_world s)) as [[]].
Qed.

(** ** One handler among the others *)

Section Undisturbed.
Context {SL : SetupLibs} {GP : GroupVersionParser} {PL : PrometheusGaugeLaws}.
Context (Complete : controller_spec → world → option api_error * world).
Context (r : KRMSyncerReconciler).
Context {RL : ReadLaws}.
Context (K : GroupVersionKind * NamespacedName → world → world → Prop).
Context (same_at_K : ∀ id w w', same_at id w w' → K id w w').

Abbreviation step := (process_step Complete r).
Abbreviation pr_world p := (sh_world (pool_shared (pr_pool p))).

(** A step of the process that does not disturb the [n]-th handler, which works on [id]: its
    own, one that keeps the object, or one of a handler of an object independent of it. *)
Definition undisturbed (n : nat) (id : GroupVersionKind * NamespacedName) (p p' : process) : Prop :=
  step p p' ∧
  (pr_threads p' !! n = pr_threads p !! n →
     K id (pr_world p) (pr_world p') ∨
     ∃ m t, pr_threads p !! m = Some t ∧ pr_threads p' !! m ≠ Some t ∧
       independent (object_of t) id).

Definition kept_world (id : GroupVersionKind * NamespacedName) (s s' : shared) : Prop :=
  K id (sh_world s) (sh_world s').

(** The kinds of the controllers are well-formed. *)
Definition kinds_ok (p : process) : Prop :=
  ∀ spec, spec ∈ su_Controllers (pr_setup p) → gvk_wf (cs_GVK spec).

Lemma kinds_ok_back p p' : rtc step p p' → kinds_ok p' → kinds_ok p.
Proof.
  intros Hs Hk spec [i Hi]%list_elem_of_lookup. apply Hk.
  eapply list_elem_of_lookup_2. by eapply process_started.
Qed.

Lemma thread_kind p n t :
  process_ok Complete r p → kinds_ok p → pr_threads p !! n = Some t → gvk_wf (object_of t).1.
Proof.
  intros Hok Hk Hn.
  destruct (po_jobs _ _ p Hok t) as (i & spec & ev & Hst & Hj); [by eapply list_elem_of_lookup_2|].
  unfold object_of. rewrite Hj. simpl.
  assert (Hin : spec ∈ su_Controllers (pr_setup p)) by by eapply list_elem_of_lookup_2.
  destruct (po_watches _ _ p Hok) as (_ & _ & Hr). specialize (Hk spec Hin).
  by destruct (Hr spec Hin) as [(g & ->)|(c & g & -> & _)].
Qed.

(** The operation of a handler of an independent object keeps the object. *)
Lemma other_run_keeps p m t X (o : operation X) k id :
  process_ok Complete r p → kinds_ok p → pr_threads p !! m = Some t → th_prog t = Do o k →
  independent (object_of t) id →
  K id (pr_world p) (sh_world (job_handle (th_job t) X o (pool_shared (pr_pool p))).2).
Proof.
  intros Hok Hk Hm Hp Hi. eapply same_at_K, handle_isolated; [|exact Hi].
  eapply thread_writes_own; [by eapply po_system|exact Hm|exact Hp|by eapply thread_kind].
Qed.

(** An undisturbed step is one of the handler itself, or keeps its object. *)
Lemma undisturbed_step n id p p1 t :
  process_ok Complete r p → kinds_ok p → undisturbed n id p p1 → pr_threads p !! n = Some t →
  (kept_world id (pool_shared (pr_pool p)) (pool_shared (pr_pool p1)) ∧
   pr_threads p1 !! n = Some t) ∨
  ∃ X (o : operation X) k, let y := job_handle (th_job t) X o (pool_shared (pr_pool p)) in
    th_prog t = Do o k ∧ pool_shared (pr_pool p1) = y.2 ∧
    pr_threads p1 !! n = Some {| th_job := th_job t;
      th_trace := th_trace t ++ [Ev o y.1]; th_prog := k y.1 |}.
Proof.
  intros Hok Hk [Hs Hkeep] Hn. unfold kept_world.
  assert (Hsame : pr_threads p1 = pr_threads p → K id (pr_world p) (pr_world p1)).
  { intros Heq. destruct (Hkeep (f_equal (.!! n) Heq)) as [|(m & u & Hm & Hne & _)]; [done|].
    by rewrite Heq in Hne. }
  inversion Hs as [req p0 Hno|c p0 Hrun|i spec ev p0 Hst Hidle|c p0 Hrun|w p0]; subst; simpl in *.
  - left. split; [by apply Hsame|done].
  - left. split; [by apply Hsame|done].
  - left. split; [by apply same_at_K|by apply lookup_app_l_Some].
  - inversion Hrun as [m u X o k c0 Hm Hp]; subst; simpl in *.
    assert (Hlt := lookup_lt_Some _ _ _ Hm). destruct (decide (m = n)) as [->|Hne].
    { right. exists X, o, k. assert (u = t) as -> by congruence. split_and!; [done|done|].
      by apply list_lookup_insert_eq. }
    left. rewrite list_lookup_insert_ne by done. split; [|done].
    destruct (Hkeep ltac:(by apply list_lookup_insert_ne)) as [|(m' & u' & Hm' & Hmoved & Hi)];
      [done|].
    destruct (decide (m = m')) as [<-|Hmm];
      [|by rewrite list_lookup_insert_ne in Hmoved by done].
    assert (u' = u) as -> by congruence. by eapply other_run_keeps.
  - left. split; [by apply Hsame|done].
Qed.

(** What one handler did during undisturbed steps, with the others in between. *)
Lemma undisturbed_replay n id p p' t :
  process_ok Complete r p → kinds_ok p' → rtc (undisturbed n id) p p' →
  pr_threads p !! n = Some t →
  ∃ t' tr, pr_threads p' !! n = Some t' ∧ th_job t' = th_job t ∧
    th_trace t' = th_trace t ++ tr ∧
    replay (job_handle (th_job t)) (kept_world id) tr
      (pool_shared (pr_pool p)) (pool_shared (pr_pool p')).
Proof.
  intros Hok Hk Hr. revert t Hok. induction Hr as [p|p p1 p' Hu Hr IH];
    intros t Hok Hn.
  { exists t, []. rewrite app_nil_r. split_and!; [done..|apply rtc_refl]. }
  assert (Hs := proj1 Hu).
  assert (Hok1 : process_ok Complete r p1) by by eapply process_step_ok.
  assert (Hkp : kinds_ok p).
  { eapply kinds_ok_back; [|exact Hk]. eapply rtc_l; [exact Hs|].
    eapply rtc_subrel; [|exact Hr]. by intros a b [? _]. }
  destruct (undisturbed_step n id p p1 t Hok Hkp Hu Hn)
    as [[Hkept Hn1]|(X & o & k & Hp & Hsh & Hn1)].
  - destruct (IH Hk t Hok1 Hn1) as (t' & tr & ? & ? & ? & Hrep). exists t', tr.
    split_and!; [done..|]. eapply replay_others; [|exact Hrep]. by apply rtc_once.
  - destruct (IH Hk _ Hok1 Hn1) as (t' & tr & Ht' & Hj & Htr & Hrep).
    exists t', (Ev o (job_handle (th_job t) X o (pool_shared (pr_pool p))).1 :: tr).
    split_and!; [done|done|rewrite Htr; simpl; by rewrite <-(assoc_L (++))|].
    simpl. exists (pool_shared (pr_pool p)). split_and!; [apply rtc_refl|done|].
    by rewrite <-Hsh.
Qed.

(** The whole life of the handler of an event. *)
Lemma event_replay i spec ev p p' t out :
  process_reachable Complete r p → su_Controllers (pr_setup p) !! i = Some spec → idle i ev p →
  let n := length (pr_threads p) in
  kinds_ok p' → rtc (undisturbed n (cs_GVK spec, ev)) (after_event i spec ev p) p' →
  pr_threads p' !! n = Some t → th_prog t = Ret out →
  trace_of (Sync.Reconcile (cs_Reconciler spec) ev) (th_trace t) out ∧
  replay (handle (controller_of i spec)) (kept_world (cs_GVK spec, ev)) (th_trace t)
    (pool_shared (pr_pool p)) (pool_shared (pr_pool p')) ∧
  all_answered (th_trace t) ∧ gvk_wf (cs_GVK spec) ∧ dr_GVK (cs_Reconciler spec) = cs_GVK spec.
Proof.
  intros Hok Hst Hidle n Hk Hr Hn Hret. apply (process_reachable_ok Complete r p) in Hok.
  assert (Hok1 := process_ok_event Complete r i spec ev p Hok Hst Hidle).
  assert (Hsteps : rtc step (after_event i spec ev p) p')
    by (eapply rtc_subrel; [|exact Hr]; by intros a b [? _]).
  assert (Hok' := rtc_invariant _ _ _ _ (process_step_ok Complete r) Hsteps Hok1).
  destruct (undisturbed_replay n _ _ _ (start_thread job_program (job_of i spec ev)) Hok1 Hk Hr)
    as (t' & tr & Hn' & Hj & Htr & Hrep).
  { unfold after_event. simpl. by apply list_lookup_middle. }
  rewrite Hn in Hn'. injection Hn' as <-. simpl in Htr, Hrep, Hj. subst tr.
  assert (Hth := reachable_threads _ (po_system _ _ p' Hok') n t Hn).
  rewrite Hj, Hret in Hth. apply reaches_ret in Hth.
  assert (Hin : spec ∈ su_Controllers (pr_setup p')).
  { eapply list_elem_of_lookup_2. exact (process_started Complete r _ _ i spec Hsteps Hst). }
  split_and!; [exact Hth|exact Hrep|exact (reachable_answered _ n t (po_system _ _ p' Hok') Hn)|by apply Hk|].
  destruct (po_watches _ _ p' Hok') as (_ & _ & Hreg).
  by destruct (Hreg spec Hin) as [(g & ->)|(c & g & -> & _)].
Qed.

(** Taking an event disturbs nobody, nor does a handler of an independent object. *)
Lemma undisturbed_event n id i spec ev p :
  su_Controllers (pr_setup p) !! i = Some spec → idle i ev p →
  undisturbed n id p (after_event i spec ev p).
Proof.
  intros Hst Hidle. split; [by apply process_event|]. intros _. left. by apply same_at_K.
Qed.

Lemma run_undisturbed n id j t X (o : operation X) k p :
  pr_threads p !! j = Some t → th_prog t = Do o k → j = n ∨ independent (object_of t) id →
  let y := job_handle (th_job t) X o (pool_shared (pr_pool p)) in
  let t' := {| th_job := th_job t; th_trace := th_trace t ++ [Ev o y.1]; th_prog := k y.1 |} in
  undisturbed n id p
    (with_pool {| pool_shared := y.2; pool_threads := <[j := t']> (pool_threads (pr_pool p)) |} p).
Proof.
  intros Hj Hp Hothers y t'.
  assert (Hlt := lookup_lt_Some _ _ _ Hj).
  assert (Hmoved : <[j := t']> (pool_threads (pr_pool p)) !! j ≠ Some t).
  { rewrite list_lookup_insert_eq by done. intros Heq%(f_equal (fmap (length ∘ th_trace))).
    injection Heq as Heq. simpl in Heq. rewrite length_app in Heq. simpl in Heq. lia. }
  split; [by apply process_run, (step_thread job_handle j t X o k (pr_pool p))|].
  simpl. intros Heq. right. exists j, t. split_and!; [done|done|].
  destruct Hothers as [->|Hi]; [destruct Hmoved; by etrans; [exact Heq|]|done].
Qed.

(** *** The handler returns *)

(** A turn of the process, with such steps only. *)
Definition undisturbed_turn (n : nat) (id : GroupVersionKind * NamespacedName) (p p' : process) :
    Prop := process_turn Complete p p' ∧ rtc (undisturbed n id) p p'.

Lemma undisturbed_turn_lookup n id m p p' :
  undisturbed_turn n id p p' → is_Some (pr_threads p !! m) → is_Some (pr_threads p' !! m).
Proof.
  intros [Ht _] Hm. apply process_turn_taken in Ht. injection Ht as _ Ht.
  apply (f_equal length) in Ht. rewrite !length_fmap in Ht.
  apply lookup_lt_is_Some. rewrite Ht. by apply lookup_lt_is_Some.
Qed.

(** However the turns go on, the handler comes to its end. *)
Lemma handler_returns n id p :
  is_Some (pr_threads p !! n) →
  eventually (undisturbed_turn n id)
    (λ p', rtc (undisturbed n id) p p' ∧ ∃ t, pr_threads p' !! n = Some t ∧ finished t) p.
Proof.
  intros Hn. apply (eventually_wf _ (λ p', rtc (undisturbed n id) p p' ∧
    is_Some (pr_threads p' !! n))); [| | |by split].
  - apply (wf_projected (flip (process_turn Complete)) (λ p, p)); [|apply process_turn_wf].
    by intros p2 p1 [Ht _].
  - intros p1 p2 [H1 Hn1] Ht. split; [etrans; [exact H1|apply Ht]|].
    by eapply undisturbed_turn_lookup.
  - intros p1 [H1 [t Ht]]. destruct (th_prog t) as [out|X o k] eqn:Hp.
    { left. split; [done|]. exists t. split; [done|by exists out]. }
    right. eexists. split; [|by apply rtc_once, (run_undisturbed n id n t X o k p1 Ht Hp); left].
    exists (sh_world (su_shared (pr_setup p1))). rewrite with_world_id.
    by apply work_handler, (step_thread job_handle n t X o k (pr_pool p1)).
Qed.

Lemma event_returns i spec ev p :
  let n := length (pr_threads p) in let p1 := after_event i spec ev p in
  eventually (undisturbed_turn n (cs_GVK spec, ev))
    (λ p', rtc (undisturbed n (cs_GVK spec, ev)) p1 p' ∧
       ∃ t, pr_threads p' !! n = Some t ∧ finished t) p1.
Proof.
  intros n p1. apply handler_returns. eexists. subst p1. unfold after_event. simpl.
  by apply list_lookup_middle.
Qed.

(** Handlers of independent objects, in any order. *)
Definition others_elsewhere (n : nat) (id : GroupVersionKind * NamespacedName) (p : process) : Prop :=
  ∀ m t, m ≠ n → pr_threads p !! m = Some t → independent (object_of t) id.

Lemma undisturbed_schedule n id order p :
  others_elsewhere n id p →
  rtc (undisturbed n id) p (with_pool (schedule job_handle order (pr_pool p)) p).
Proof.
  revert p. induction order as [|j order IH]; intros p Hothers; simpl; [by rewrite with_pool_id|].
  unfold step_at. destruct (pool_threads (pr_pool p) !! j) as [t|] eqn:Hj; [|by apply IH].
  destruct (th_prog t) as [a|X o k] eqn:Hp; [by apply IH|].
  set (c := {| pool_shared := _; pool_threads := _ |}) in *.
  eapply rtc_l; [|specialize (IH (with_pool c p)); rewrite pr_pool_with in IH; apply IH].
  - apply (run_undisturbed n id j t X o k p Hj Hp).
    destruct (decide (j = n)) as [|Hne]; [by left|right]. by apply (Hothers j).
  - intros m u Hne Hm. simpl in Hm.
    apply list_lookup_insert_Some in Hm as [(<- & <- & _)|[_ Hm]]; [|by eapply Hothers].
    exact (Hothers j t Hne Hj).
Qed.
End Undisturbed.
End Delivery.

Section DeliveryProperties.
Context {AE : ApiErrors} {AC : ApiClient} {UN : Unstructured} {UL : UnstructuredLaws}.
Context {RP : RemoteConfigProvider} {CF : ClientFactory}.
Context {PG : PrometheusGauge} {PL : PrometheusGaugeLaws} {SL : SetupLibs} {GP : GroupVersionParser}.
Context {SA : ServerSideApply} {AL : AnswerLaws} {RL : ReadLaws}.
Context (Complete : controller_spec → world → option api_error * world).
Context (r : KRMSyncerReconciler).

(** ** What a handler that has returned has done *)

(** The object that was read is the one that was asked for. *)
Lemma read_named dr ev tr out u :
  trace_of (Sync.Reconcile dr ev) tr out → all_answered tr → gvk_wf (dr_GVK dr) →
  got_of tr = Some (Ok u) → object_id u = (dr_GVK dr, ev).
Proof.
  intros Htr Hans Hwf Hgot. destruct (Reconcile_trace _ _ _ _ Htr) as (got & rest & -> & _).
  injection Hgot as ->. rewrite <-(set_gvk_get (dr_GVK dr) ∅ Hwf) at 1.
  apply (Hans (Ev (OpGet (dr_RemoteClient dr) ev
    (GroupVersionKind_of (SetGroupVersionKind (dr_GVK dr) ∅))) (Ok u))); [by left|done].
Qed.

Lemma event_selected `{!ServerSideApplyLaws} i spec ev p p' t u items ts k rule :
  process_reachable Complete r p → su_Controllers (pr_setup p) !! i = Some spec → idle i ev p →
  let n := length (pr_threads p) in let id := (cs_GVK spec, ev) in
  let dr := cs_Reconciler spec in
  kinds_ok p' → rtc (undisturbed Complete r keeps n id) (after_event i spec ev p) p' →
  pr_threads p' !! n = Some t → th_prog t = Ret None →
  got_of (th_trace t) = Some (Ok u) → listed_of (th_trace t) = Some (Ok items) →
  targets dr ev items = ts ++ [(k, rule)] →
  object_id u = id ∧
  ∃ c, writes_with dr k (th_trace t) c ∧ has_selected (pool_shared (pr_pool p')) c u rule.
Proof.
  intros Hp Hst Hidle n id dr Hk Hr Hn Hret Hgot Hlisted Hts.
  destruct (event_replay Complete r keeps same_at_keeps i spec ev p p' t None Hp Hst Hidle Hk Hr Hn Hret)
    as (Htr & Hrep & Hans & Hwf & Hdr).
  assert (Hu : object_id u = (cs_GVK spec, ev)).
  { rewrite <-Hdr in Hwf |- *. by eapply read_named. }
  split; [done|].
  assert (Hcrd : Forall crd_field (rule_SyncFields rule)).
  { assert (Hin : (k, rule) ∈ targets dr ev items)
      by (rewrite Hts; apply elem_of_app; right; by left).
    apply targets_elem in Hin as [[Hki _] [Hru _]].
    destruct (th_trace t) as [|e1 [|[X o x] l]]; [done..|]. destruct o; try done.
    injection Hlisted as ->. eapply (Hans (Ev (OpList c) (Ok items))); [by right; left|done..]. }
  destruct (Reconcile_synced (kept_world keeps (cs_GVK spec, ev)) (controller_of i spec) ev
    (th_trace t) (pool_shared (pr_pool p)) (pool_shared (pr_pool p')) u items ts k rule)
    as (c & Hc & Hs); [rewrite Hu; by intros s s'|done..|by injection Hu as ->|done|].
  exists c. split; [done|]. apply filtered_synced_selected; [by injection Hu as ->|done..].
Qed.

Lemma event_gone `{!DeletionLaws} i spec ev p p' t e items :
  process_reachable Complete r p → su_Controllers (pr_setup p) !! i = Some spec → idle i ev p →
  let n := length (pr_threads p) in let id := (cs_GVK spec, ev) in
  let dr := cs_Reconciler spec in
  kinds_ok p' → rtc (undisturbed Complete r keeps_gone n id) (after_event i spec ev p) p' →
  pr_threads p' !! n = Some t → th_prog t = Ret None →
  got_of (th_trace t) = Some (Err e) → listed_of (th_trace t) = Some (Ok items) →
  ∀ k rule, (k, rule) ∈ targets dr ev items →
    ∃ c, writes_with dr k (th_trace t) c ∧
      gone (sh_world (pool_shared (pr_pool p'))) c id.
Proof.
  intros Hp Hst Hidle n id dr Hk Hr Hn Hret Hgot Hlisted k rule Ht.
  destruct (event_replay Complete r keeps_gone same_at_keeps_gone i spec ev p p' t None
    Hp Hst Hidle Hk Hr Hn Hret) as (Htr & Hrep & _ & Hwf & Hdr).
  subst id. rewrite <-Hdr in Hwf, Hrep |- *.
  refine (Reconcile_gone _ dr ev Hwf _ (controller_of i spec) (th_trace t) _ _ e items
    Htr Hrep Hgot Hlisted _ Ht).
  intros s s' c Hs. by apply Hs.
Qed.

(** ** Properties *)

(** [C23] Handlers write only what they were called for. However the runs of all controllers
    interleave, whatever a handler deletes, applies or sends the status of is the object of
    its own event: the controller's kind, and the event's namespace and name, in the cluster
    it writes to; and the only other thing it creates is this object's namespace. *)
Theorem handlers_write_their_own c n t cl :
  System.reachable c → pool_threads c !! n = Some t → gvk_wf (object_of t).1 →
  cl ∈ calls_of (th_trace t) → writes_own (object_of t) (call_request cl).
Proof. intros Hc Hn Hwf. by apply reachable_writes_own with (1 := Hc) (2 := Hn). Qed.

(** [C5] An event is delivered. A controller of the process takes an event; while its handler
    runs, set-ups, other events, other handlers and the outside act in any order, such that
    each of their steps keeps what has been applied to the event's object or is one of a
    handler of an independent object. Then the handler returns, whatever order the turns are
    taken in; and in any state after that, if it returned no error and the source has the
    object, the cluster it wrote to has an object of the controller's kind and of the event's
    name, with the spec and the status that the last matching rule selects from the source.
    Nothing is assumed of the handlers of independent objects: they write only their own
    object and its namespace. *)
Theorem event_delivered `{!ServerSideApplyLaws} i spec ev p :
  process_reachable Complete r p → su_Controllers (pr_setup p) !! i = Some spec → idle i ev p →
  let n := length (pr_threads p) in let id := (cs_GVK spec, ev) in
  let dr := cs_Reconciler spec in let p1 := after_event i spec ev p in
  eventually (undisturbed_turn Complete r keeps n id)
    (λ p', rtc (undisturbed Complete r keeps n id) p1 p' ∧
       ∃ t, pr_threads p' !! n = Some t ∧ finished t) p1 ∧
  ∀ p' t u items ts k rule, kinds_ok p' → rtc (undisturbed Complete r keeps n id) p1 p' →
  pr_threads p' !! n = Some t → th_prog t = Ret None →
  got_of (th_trace t) = Some (Ok u) → listed_of (th_trace t) = Some (Ok items) →
  targets dr ev items = ts ++ [(k, rule)] →
  object_id u = id ∧
  ∃ c, writes_with dr k (th_trace t) c ∧ has_selected (pool_shared (pr_pool p')) c u rule.
Proof.
  intros Hp Hst Hidle n id dr p1. split; [apply event_returns|].
  intros p' t u items ts k rule. by apply event_selected.
Qed.

(** [C6] So is a deletion. While its handler runs, set-ups, other events, other handlers and
    the outside act in any order, such that each of their steps brings the event's object
    back nowhere or is one of a handler of an independent object. Then the handler returns,
    and in any state after that, if it returned no error and the source does not have the
    object, no cluster that a matching rule names has an object of the controller's kind and
    of the event's namespace and name, unless it is being deleted. *)
Theorem deletion_delivered `{!DeletionLaws} i spec ev p :
  process_reachable Complete r p → su_Controllers (pr_setup p) !! i = Some spec → idle i ev p →
  let n := length (pr_threads p) in let id := (cs_GVK spec, ev) in
  let dr := cs_Reconciler spec in let p1 := after_event i spec ev p in
  eventually (undisturbed_turn Complete r keeps_gone n id)
    (λ p', rtc (undisturbed Complete r keeps_gone n id) p1 p' ∧
       ∃ t, pr_threads p' !! n = Some t ∧ finished t) p1 ∧
  ∀ p' t e items, kinds_ok p' → rtc (undisturbed Complete r keeps_gone n id) p1 p' →
  pr_threads p' !! n = Some t → th_prog t = Ret None →
  got_of (th_trace t) = Some (Err e) → listed_of (th_trace t) = Some (Ok items) →
  ∀ k rule, (k, rule) ∈ targets dr ev items →
    ∃ c, writes_with dr k (th_trace t) c ∧
      gone (sh_world (pool_shared (pr_pool p'))) c id.
Proof.
  intros Hp Hst Hidle n id dr p1. split; [apply event_returns|].
  intros p' t e items. by apply event_gone.
Qed.
End DeliveryProperties.

(** ** Two events in a concrete process *)

Section DeliveryWitnesses.
#[local] Existing Instance FakeErrors.
#[local] Existing Instance FakeParser.
#[local] Existing Instance FakeUnstructured.
#[local] Existing Instance FakeUnstructuredLaws.
#[local] Existing Instance FakeCluster.
#[local] Existing Instance FakeProvider.
#[local] Existing Instance FakeFactory.
#[local] Existing Instance FakeGauge.
#[local] Existing Instance FakeGaugeLaws.
#[local] Existing Instance FakeSetup.
#[local] Existing Instance FakeServerSideApply.
#[local] Existing Instance FakeServerSideApplyLaws.
#[local] Existing Instance FakeDeletionLaws.

#[local] Instance FakeAnswerLaws : AnswerLaws.
Proof.
  constructor; simpl; unfold if_up.
  - intros c key gvk w u. destruct (decide (c ∈ fw_down w)); [done|].
    destruct (fake_lookup w (c, gvk, key)) as [o|] eqn:Ho; [|done].
    intros [= <-]. apply fake_lookup_id in Ho. by injection Ho as <- <-.
  - intros c w items. destruct (decide (c ∈ fw_down w)); [done|]. intros [= <-] k rule Hk Hrule.
    apply list_elem_of_filter in Hk as [Ha _]. unfold admitted in Ha.
    rewrite forallb_forall in Ha. specialize (Ha rule (proj1 (list_elem_of_In _ _) Hrule)).
    by apply bool_decide_eq_true in Ha.
  - intros c o opts w o'. destruct (decide (c ∈ fw_down w)); [done|]. by intros [= <-].
Qed.

#[local] Instance FakeReadLaws : ReadLaws.
Proof.
  constructor; try done.
  intros id ns remote w. unfold buildClient, mbind, M_bind. simpl.
  destruct (fake_remote remote); simpl; [|done]. by case_decide.
Qed.

(** These clusters keep namespaces apart from objects, and serve one version: objects with
    different names are independent. *)
Lemma fake_same_at id w f :
  (∀ c, f (fw_objects w) !! (c, id.1, id.2) = fw_objects w !! (c, id.1, id.2)) →
  same_at id w (set_objects f w).
Proof.
  intros Hf c. rewrite !fake_live_at. unfold if_up. cbn [fw_down set_objects].
  by rewrite fake_lookup_other by exact (Hf c).
Qed.

Lemma fake_other_id c o id c' : object_id o ≠ id → fake_id c o ≠ (c', id.1, id.2).
Proof. intros Hne [= -> Hg Hn]. apply Hne. destruct id. simpl in *. by subst. Qed.

Lemma fake_independent id' id : id' ≠ id → independent id' id.
Proof.
  intros Hne. constructor; simpl; unfold if_up.
  - intros c o w <-. destruct (decide (c ∈ fw_down w)); [done|].
    destruct (fake_lookup w (fake_id c o)); [|done].
    apply fake_same_at. intros c'. by apply lookup_delete_ne, fake_other_id.
  - intros c o opts w <-. destruct (decide (c ∈ fw_down w)); [done|].
    apply fake_same_at. intros c'. by apply lookup_insert_ne, fake_other_id.
  - intros c o opts w <-. destruct (decide (c ∈ fw_down w)); [done|].
    destruct (fake_lookup w (fake_id c o)); [|done].
    apply fake_same_at. intros c'. by apply lookup_insert_ne, fake_other_id.
  - intros c ns w _. destruct (decide (c ∈ fw_down w)); [done|]. by case_decide.
Qed.

(** A KRMSyncer that pulls ConfigMaps; one of the remote cluster 1, and the copy of another
    that is not there any more. *)
Definition stale_copy : object := SetName "b" source_object.
Definition two_world : fake_world := {|
  fw_objects := {[ (1, demo_gvk, NN "ns" "a") := source_object;
                   (0, demo_gvk, NN "ns" "b") := stale_copy ]};
  fw_namespaces := ∅; fw_syncers := [config_syncer]; fw_down := ∅ |}.

(** The controller takes both events, and the handlers take turns. *)
Definition gone_req : NamespacedName := NN "ns" "b".
Definition two_asked : process :=
  after_request demo_reconciler (NN "ns" "s") (process_start two_world).
Definition two_setup : process := setup_turns 12 two_asked.
Definition one_event : process := after_event 0 config_spec demo_req two_setup.
Definition two_events : process := after_event 0 config_spec gone_req one_event.
Definition turns : list nat := [0; 1; 0; 1; 0; 1; 0; 1; 0; 0].
Definition two_done : process :=
  with_pool (schedule job_handle turns (pr_pool two_events)) two_events.

Definition two_thread (n : nat) : thread :=
  default (start_thread job_program (job_of 0 config_spec demo_req))
    (pr_threads two_done !! n).

Lemma two_lookup n : n < 2 → pr_threads two_done !! n = Some (two_thread n).
Proof.
  assert (Hlen : length (pr_threads two_done) = 2) by reflexivity.
  intros Hn. unfold two_thread.
  destruct (lookup_lt_is_Some_2 (pr_threads two_done) n) as [t Ht]; [lia|].
  by rewrite Ht.
Qed.

Lemma two_setup_reachable : process_reachable fake_Complete demo_reconciler two_setup.
Proof.
  exists two_world. eapply rtc_l; [|exact (process_setup_schedule _ _ (replicate 12 0) two_asked)].
  apply process_request. by intros t ?%elem_of_nil.
Qed.

Lemma one_event_idle : idle 0 gone_req one_event.
Proof. intros t ->%list_elem_of_singleton [_ Hreq]. discriminate Hreq. Qed.

Lemma one_event_reachable : process_reachable fake_Complete demo_reconciler one_event.
Proof.
  destruct two_setup_reachable as [w Hw]. exists w. eapply rtc_r; [exact Hw|].
  apply process_event; [reflexivity|by intros t ?%elem_of_nil].
Qed.

Lemma two_done_kinds : kinds_ok two_done.
Proof.
  intros spec Hspec. assert (Heq : su_Controllers (pr_setup two_done) = [config_spec]) by reflexivity.
  rewrite Heq in Hspec. apply list_elem_of_singleton in Hspec as ->. by split.
Qed.

Lemma two_events_threads : pr_threads two_events =
  [start_thread job_program (job_of 0 config_spec demo_req);
   start_thread job_program (job_of 0 config_spec gone_req)].
Proof. reflexivity. Qed.

Lemma two_events_elsewhere n ev :
  n < 2 → ev = (if decide (n = 0) then demo_req else gone_req) →
  others_elsewhere n (demo_gvk, ev) two_events.
Proof.
  intros Hn -> m t Hne. rewrite two_events_threads.
  destruct m as [|[|m]]; [..|done]; intros [= <-];
    (destruct n as [|[|n]]; [| |lia]); try done; apply fake_independent;
    intros Heq; discriminate Heq.
Qed.

Lemma turns_undisturbed K n ev :
  n < 2 → ev = (if decide (n = 0) then demo_req else gone_req) →
  rtc (undisturbed fake_Complete demo_reconciler K n (demo_gvk, ev)) two_events two_done.
Proof. intros Hn He. by apply undisturbed_schedule, two_events_elsewhere. Qed.

(** Each handler has written its own object. *)
Lemma two_done_reachable : process_reachable fake_Complete demo_reconciler two_done.
Proof.
  destruct one_event_reachable as [w Hw]. exists w. etrans; [exact Hw|].
  eapply rtc_l; [by apply (process_event _ _ 0 config_spec gone_req one_event), one_event_idle|].
  eapply rtc_subrel; [|apply (turns_undisturbed keeps 0 demo_req); [lia|reflexivity]].
  by intros a b [? _].
Qed.

Lemma handlers_write_their_own_witness :
  let cl := Call 0 (ReqDelete (toDelete (cs_Reconciler config_spec) gone_req)) None in
  cl ∈ calls_of (th_trace (two_thread 1)) ∧
  object_id (toDelete (cs_Reconciler config_spec) gone_req) = (demo_gvk, NN "ns" "b").
Proof.
  intros cl. assert (Hin : cl ∈ calls_of (th_trace (two_thread 1)))
    by (apply (list_elem_of_lookup_2 _ 2); reflexivity).
  split; [exact Hin|].
  exact (handlers_write_their_own (pr_pool two_done) 1 (two_thread 1) cl
    (po_system _ _ _ (process_reachable_ok _ _ _ two_done_reachable)) (two_lookup 1 ltac:(lia))
    ltac:(by split) Hin).
Defined.

(** The object is copied while the other one is deleted. *)
Lemma event_delivered_witness :
  th_prog (two_thread 0) = Ret None ∧
  ∃ live v', live_object (sh_world (pool_shared (pr_pool two_done))) 0 source_object = Ok live ∧
    live !! "spec" = Some v' ∧ covers (VMap {[ "x" := VInt 1 ]}) v'.
Proof.
  split; [reflexivity|].
  destruct (event_delivered fake_Complete demo_reconciler 0 config_spec demo_req two_setup)
    as [_ Hdone]; [exact two_setup_reachable|reflexivity|by intros t ?%elem_of_nil|].
  destruct (Hdone two_done (two_thread 0) source_object [config_syncer] [] config_syncer config_rule)
    as (_ & c & Hc & live & Hlive & Hspec & _);
    [exact two_done_kinds| |apply (two_lookup 0); lia|reflexivity|reflexivity|reflexivity|
     reflexivity|].
  - eapply rtc_l; [apply (undisturbed_event _ _ _ same_at_keeps 0 _ 0 config_spec gone_req one_event);
      [reflexivity|exact one_event_idle]|].
    apply (turns_undisturbed keeps 0); [lia|reflexivity].
  - assert (c = 0) as -> by exact Hc.
    destruct (Hspec (VMap {[ "x" := VInt 1 ]})) as (v' & ? & ?); [reflexivity|done|].
    exists live, v'. split; [exact Hlive|]. split; assumption.
Defined.

(** And the other one is gone. *)
Lemma deletion_delivered_witness :
  th_prog (two_thread 1) = Ret None ∧
  live_at two_world 0 (demo_gvk, NN "ns" "b") = Ok stale_copy ∧
  gone (sh_world (pool_shared (pr_pool two_done))) 0 (demo_gvk, NN "ns" "b").
Proof.
  split; [reflexivity|]. split; [reflexivity|].
  destruct (deletion_delivered fake_Complete demo_reconciler 0 config_spec gone_req one_event)
    as [_ Hdone]; [exact one_event_reachable|reflexivity|exact one_event_idle|].
  destruct (Hdone two_done (two_thread 1) FNotFound [config_syncer])
    with (k := config_syncer) (rule := config_rule) as (c & Hc & Hgone);
    [exact two_done_kinds|
     apply (turns_undisturbed keeps_gone 1); [lia|reflexivity]|apply (two_lookup 1); lia|
     reflexivity|reflexivity|reflexivity|by left|].
  assert (c = 0) as -> by exact Hc. exact Hgone.
Defined.
End DeliveryWitnesses.
