(* ===== verification/EndToEnd.v ===== *)
(** * From a KRMSyncer to the destination

    The syncer as a whole: what a set-up without an error promises for every later event. It
    puts together what is shown of set-ups ([SetupSpec], [Pipeline]), of the process that
    goes on ([Process], [Progress]) and of the handlers in it ([Converge], [Deletions],
    [Delivery]). *)

From stdpp Require Import base list strings gmap relations.
From S2P Require Import Prelude Threads GoStrings Kube Api Fake Rules FieldFilter.
From S2P Require Import Tracker Client FakeCluster Apply RemoteClients Sync SyncSpec System.
From S2P Require Import Converge Deletions Setup SetupTraces SetupSpec Pipeline Process.
From S2P Require Import Progress Delivery.

#[local] Arguments RemoteClients.get : simpl never.

Section EndToEnd.
Context {AE : ApiErrors} {AC : ApiClient} {UN : Unstructured} {UL : UnstructuredLaws}.
Context {RP : RemoteConfigProvider} {CF : ClientFactory}.
Context {PG : PrometheusGauge} {PL : PrometheusGaugeLaws} {SL : SetupLibs} {GP : GroupVersionParser}.
Context {SA : ServerSideApply} {AL : AnswerLaws} {RL : ReadLaws}.
Context {SSA : ServerSideApplyLaws} {DL : DeletionLaws}.
Context (Complete : controller_spec → world → option api_error * world).
Context (r : KRMSyncerReconciler).








(** ** Properties *)

End EndToEnd.

(** ** A KRMSyncer, an event, and another one in between *)

Section EndToEndWitness.
#[local] Existing Instance FakeErrors.
#[local] Existing Instance FakeParser.
#[local] Existing Instance FakeUnstructured.
#[local] Existing Instance FakeUnstructuredLaws.
#[local] Existing Instance FakeCluster.
#[local] Existing Instance FakeProvider.
#[local] Existing Instance FakeFactory.
#[local] Existing Instance FakeGauge.
#[local] Existing Instance FakeGaugeLaws.
#[local] Existing Instance FakeSetup.
#[local] Existing Instance FakeServerSideApply.
#[local] Existing Instance FakeServerSideApplyLaws.
#[local] Existing Instance FakeDeletionLaws.
#[local] Existing Instance FakeAnswerLaws.
#[local] Existing Instance FakeReadLaws.







End EndToEndWitness.
