(* ===== verification/Export.v ===== *)
(** * The export command ([pkg/export/export.go], [pkg/sink/zip.go])

    [RunExport]: discover the resources of the current cluster, list the objects of each
    and write them as YAML files to a zip archive. *)

From stdpp Require Import base list strings gmap.
From Stdlib Require Import Ascii.
From S2P Require Import Prelude GoStrings GoURL Kube Fake.

#[local] Arguments String.append : simpl nomatch.

(** [schema.GroupVersionResource]. *)
Record GroupVersionResource := {
  gvr_Group : string;
  gvr_Version : string;
  gvr_Resource : string;
}.

Definition WithResource (gv : GroupVersion) (resource : string) : GroupVersionResource :=
  {| gvr_Group := gv_Group gv; gvr_Version := gv_Version gv; gvr_Resource := resource |}.

Record ExportOptions := {
  opt_Output : string;
}.

(** What the command uses of [os], [archive/zip], client-go and [sigs.k8s.io/yaml]. *)
Class ExportLibs `{ApiErrors} := {
  xworld : Type;
  file : Type;
  zip_writer : Type;
  zip_entry : Type;
  os_Create : string → xworld → res api_error file * xworld;
  zip_NewWriter : file → zip_writer;
  zip_Create : zip_writer → string → xworld → res api_error zip_entry * xworld;
  entry_Write : zip_entry → string → xworld → option api_error * xworld;
  zip_Close : zip_writer → xworld → option api_error * xworld;
  file_Close : file → xworld → option api_error * xworld;
  kube_Config : Type;
  ClientConfig : xworld → res api_error kube_Config * xworld;
  http_client : Type;
  HTTPClientFor : kube_Config → res api_error http_client;
  xdiscovery : Type;
  NewDiscoveryClientForConfigAndClient : kube_Config → http_client → res api_error xdiscovery;
  dynamic_client : Type;
  NewForConfigAndClient : kube_Config → http_client → res api_error dynamic_client;
  xServerPreferredResources : xdiscovery → xworld →
    (list APIResourceList * option api_error) * xworld;
  dynamic_List : dynamic_client → GroupVersionResource → xworld →
    res api_error (list object) * xworld;
  yaml_Marshal : object → res api_error string;
  GroupVersionResource_String : GroupVersionResource → string;
}.

Section ExportCommand.
Context {AE : ApiErrors} {EL : ExportLibs} {UN : Unstructured} {GP : GroupVersionParser}.

(** The calls that matter, with their answers. *)
Inductive export_event : Type :=
| XDiscover (lists : list APIResourceList) (err : option api_error)
| XList (gvr : GroupVersionResource) (answer : res api_error (list object))
| XWrite (path data : string) (err : option api_error)
| XClose (err : option goerr).

Record export_state := {
  x_world : xworld;
  x_events : list export_event;
}.

Definition xcall {A} (op : xworld → A * xworld) (ev : A → list export_event) :
    M export_state A := λ s,
  let r := op (x_world s) in
  (r.1, {| x_world := r.2; x_events := x_events s ++ ev r.1 |}).

(** ** [ZipSink] *)

Record ZipSink := {
  zs_f : file;
  zs_w : zip_writer;
}.

Definition NewZipSink (path : string) : M export_state (res api_error ZipSink) :=
  f ← xcall (os_Create path) (λ _, []);
  match f with
  | Err err => mret (Err err)
  | Ok f => mret (Ok {| zs_f := f; zs_w := zip_NewWriter f |})
  end.

Definition Write_op (s : ZipSink) (path data : string) (w : xworld) :
    option api_error * xworld :=
  let f := zip_Create (zs_w s) path w in
  match f.1 with
  | Err err => (Some err, f.2)
  | Ok f1 => entry_Write f1 data f.2
  end.

Definition Write (s : ZipSink) (path data : string) : M export_state (option api_error) :=
  xcall (Write_op s path data) (λ err, [XWrite path data err]).

Definition Close_op (s : ZipSink) (w : xworld) : option goerr * xworld :=
  let r := zip_Close (zs_w s) w in
  let r' := file_Close (zs_f s) r.2 in
  match r.1 with
  | Some err => (errors_Join [Some (EApi err); EApi <$> r'.1], r'.2)
  | None => (EApi <$> r'.1, r'.2)
  end.

Definition Close (s : ZipSink) : M export_state (option goerr) :=
  xcall (Close_op s) (λ err, [XClose err]).

(** ** [RunExport] *)

Definition quoted (s : string) : string :=
  String (ascii_of_nat 34) (s +:+ String (ascii_of_nat 34) "").

Definition exportPath (gvr : GroupVersionResource) (item : object) : string :=
  let ns := GetNamespace item in
  let ns := if bool_decide (ns = "") then "_cluster" else ns in
  let group := gvr_Group gvr in
  let group := if bool_decide (group = "") then "core" else group in
  filepath_Join [ns; group; GetKind item; GetName item +:+ ".yaml"].

Definition exportItem (s : ZipSink) (gvr : GroupVersionResource) (item : object)
    (errs : list goerr) : M export_state (list goerr) :=
  let path := exportPath gvr item in
  match yaml_Marshal item with
  | Err err => mret (errs ++
      [ErrorfW "failed to marshal %s/%s: %w" [GetKind item; GetName item] (EApi err)])
  | Ok data =>
      err ← Write s path data;
      match err with
      | Some err => mret (errs ++ [ErrorfW "failed to write %s to sink: %w" [path] (EApi err)])
      | None => mret errs
      end
  end.

Definition listable (resource : APIResource) : bool :=
  slices_Contains (ar_Verbs resource) "list" && negb (Contains (ar_Name resource) "/").

Definition exportResource (s : ZipSink) (dynamicClient : dynamic_client) (gv : GroupVersion)
    (resource : APIResource) (errs : list goerr) : M export_state (list goerr) :=
  if negb (slices_Contains (ar_Verbs resource) "list") then mret errs
  else if Contains (ar_Name resource) "/" then mret errs
  else
    let gvr := WithResource gv (ar_Name resource) in
    uList ← xcall (dynamic_List dynamicClient gvr) (λ r, [XList gvr r]);
    match uList with
    | Err err => mret (errs ++
        [ErrorfW "failed to list %s: %w" [GroupVersionResource_String gvr] (EApi err)])
    | Ok items => forM items errs (exportItem s gvr)
    end.

Definition exportList (s : ZipSink) (dynamicClient : dynamic_client) (rl : APIResourceList)
    (errs : list goerr) : M export_state (list goerr) :=
  match ParseGroupVersion (arl_GroupVersion rl) with
  | Err err => mret (errs ++ [ErrorfW "failed to parse group version %q: %w"
      [arl_GroupVersion rl] (EApi err)])
  | Ok groupVersion =>
      forM (arl_APIResources rl) errs (exportResource s dynamicClient groupVersion)
  end.

Definition exportLists (s : ZipSink) (dynamicClient : dynamic_client)
    (lists : list APIResourceList) (errs : list goerr) : M export_state (option goerr) :=
  errs ← forM lists errs (exportList s dynamicClient);
  mret (Join_all errs).

(** What discovery's error means: [Err] ends the export. *)
Definition discoveryErrors (lists : list APIResourceList) (err : option api_error) :
    res goerr (list goerr) :=
  match err with
  | None => Ok []
  | Some err =>
      if negb (IsGroupDiscoveryFailedError err) then
        if bool_decide (length lists = 0)
        then Err (ErrorfW "failed to discover resources: %w" [] (EApi err))
        else Ok [ErrorfW "partial discovery error: %w" [] (EApi err)]
      else Ok []
  end.

(** The clients for the current cluster. *)
Definition connectCluster : M export_state (res goerr (xdiscovery * dynamic_client)) :=
  config ← xcall ClientConfig (λ _, []);
  match config with
  | Err err => mret (Err (ErrorfW "failed to get k8s config: %w" [] (EApi err)))
  | Ok config =>
      match HTTPClientFor config with
      | Err err => mret (Err (ErrorfW "failed to create http client: %w" [] (EApi err)))
      | Ok httpClient =>
          match NewDiscoveryClientForConfigAndClient config httpClient with
          | Err err => mret (Err (ErrorfW "failed to create discovery client: %w" [] (EApi err)))
          | Ok discoveryClient =>
              match NewForConfigAndClient config httpClient with
              | Err err =>
                  mret (Err (ErrorfW "failed to create dynamic client: %w" [] (EApi err)))
              | Ok dynamicClient => mret (Ok (discoveryClient, dynamicClient))
              end
          end
      end
  end.

(** The export once the sink is there, before it is closed. *)
Definition exportTo (s : ZipSink) : M export_state (option goerr) :=
  clients ← connectCluster;
  match clients with
  | Err err => mret (Some err)
  | Ok (discoveryClient, dynamicClient) =>
      lists ← xcall (xServerPreferredResources discoveryClient)
        (λ r, [XDiscover r.1 r.2]);
      match discoveryErrors lists.1 lists.2 with
      | Err err => mret (Some err)
      | Ok errs => exportLists s dynamicClient lists.1 errs
      end
  end.

Definition RunExport (opt : ExportOptions) : M export_state (option goerr) :=
  if bool_decide (opt_Output opt = "")
  then mret (Some (Errorf ("required flag(s) " +:+ quoted "output" +:+ " not set") [])) else
  s ← NewZipSink (opt_Output opt);
  match s with
  | Err err => mret (Some (ErrorfW "failed to create sink: %w" [] (EApi err)))
  | Ok s =>
      retErr ← exportTo s;
      closeErr ← Close s;
      match closeErr, retErr with
      | Some err, None => mret (Some (ErrorfW "failed to close sink: %w" [] err))
      | _, _ => mret retErr
      end
  end.

(** The command's [RunE]: no arguments are accepted. [%v] prints a slice in brackets. *)
Definition exportRunE (args : list string) (opt : ExportOptions) :
    M export_state (option goerr) :=
  if bool_decide (0 < length args)
  then mret (Some (Errorf "unexpected arguments: %v" ["[" +:+ Join " " args +:+ "]"]))
  else RunExport opt.
End ExportCommand.

Section ExportSpec.
Context {AE : ApiErrors} {EL : ExportLibs} {UN : Unstructured} {GP : GroupVersionParser}.

(** ** The protocol of a run *)

(** Writing one object of resource [gvr]. *)
Definition item_protocol (gvr : GroupVersionResource) (item : object)
    (l : list export_event) (es : list goerr) : Prop :=
  match yaml_Marshal item with
  | Err err => l = [] ∧
      es = [ErrorfW "failed to marshal %s/%s: %w" [GetKind item; GetName item] (EApi err)]
  | Ok data => ∃ err, l = [XWrite (exportPath gvr item) data err] ∧
      es = match err with
        | Some err => [ErrorfW "failed to write %s to sink: %w" [exportPath gvr item] (EApi err)]
        | None => []
        end
  end.

(** One resource of a group version. *)
Definition resource_protocol (gv : GroupVersion) (resource : APIResource)
    (l : list export_event) (es : list goerr) : Prop :=
  let gvr := WithResource gv (ar_Name resource) in
  if listable resource then
    ∃ answer l', l = XList gvr answer :: l' ∧
    match answer with
    | Err err => l' = [] ∧
        es = [ErrorfW "failed to list %s: %w" [GroupVersionResource_String gvr] (EApi err)]
    | Ok items => each (item_protocol gvr) items l' es
    end
  else l = [] ∧ es = [].

Definition list_protocol (rl : APIResourceList) (l : list export_event) (es : list goerr) : Prop :=
  match ParseGroupVersion (arl_GroupVersion rl) with
  | Err err => l = [] ∧ es = [ErrorfW "failed to parse group version %q: %w"
      [arl_GroupVersion rl] (EApi err)]
  | Ok gv => each (resource_protocol gv) (arl_APIResources rl) l es
  end.

(** ** Lemmas *)

Lemma xcall_conforms {A} (op : xworld → A * xworld) ev (P : list export_event → A → Prop) :
  (∀ x, P (ev x) x) → conforms x_events P (xcall op ev).
Proof. intros HP s. eexists. by split. Qed.

Lemma exportItem_conforms s gvr item errs :
  conforms x_events (λ l acc, ∃ es, acc = errs ++ es ∧ item_protocol gvr item l es)
    (exportItem s gvr item errs).
Proof.
  unfold exportItem, item_protocol. destruct (yaml_Marshal item) as [data|err].
  - eapply conforms_bind; [apply (xcall_conforms _ _ (λ l err,
      l = [XWrite (exportPath gvr item) data err])); done|].
    intros l [err|] ->; apply conforms_ret; simpl; eexists;
      (split; [|by eexists]); by rewrite ?app_nil_r.
  - apply conforms_ret. by eexists.
Qed.

Lemma exportResource_conforms s dc gv resource errs :
  conforms x_events (λ l acc, ∃ es, acc = errs ++ es ∧ resource_protocol gv resource l es)
    (exportResource s dc gv resource errs).
Proof.
  unfold exportResource, resource_protocol, listable.
  destruct (slices_Contains (ar_Verbs resource) "list"); simpl;
    [|apply conforms_ret; exists []; by rewrite app_nil_r].
  destruct (Contains (ar_Name resource) "/"); simpl;
    [apply conforms_ret; exists []; by rewrite app_nil_r|].
  set (gvr := WithResource gv (ar_Name resource)).
  eapply conforms_bind; [apply (xcall_conforms _ _ (λ l r, l = [XList gvr r])); done|].
  intros l [items|err] ->.
  - eapply conforms_weaken; [apply (conforms_each (item_protocol gvr));
      intros; apply exportItem_conforms|].
    intros l es (es' & -> & He). exists es'. split; [done|]. by exists (Ok items), l.
  - apply conforms_ret. eexists. split; [done|]. by exists (Err err), [].
Qed.

Lemma exportList_conforms s dc rl errs :
  conforms x_events (λ l acc, ∃ es, acc = errs ++ es ∧ list_protocol rl l es)
    (exportList s dc rl errs).
Proof.
  unfold exportList, list_protocol. destruct (ParseGroupVersion _) as [gv|err].
  - apply (conforms_each (resource_protocol gv)). intros; apply exportResource_conforms.
  - apply conforms_ret. by eexists.
Qed.

(** The events of [exportTo] and its result: nothing but at most a discovery, or the
    discovery and the lists. *)
Definition export_protocol (l : list export_event) (res : option goerr) : Prop :=
  (l = [] ∧ is_Some res) ∨
  ∃ lists err, match discoveryErrors lists err with
    | Err e => l = [XDiscover lists err] ∧ res = Some e
    | Ok errs => ∃ l' es, l = XDiscover lists err :: l' ∧
        each list_protocol lists l' es ∧ res = Join_all (errs ++ es)
    end.

Lemma connectCluster_conforms :
  conforms x_events (λ l _, l = []) connectCluster.
Proof.
  unfold connectCluster. eapply conforms_bind; [apply (xcall_conforms _ _ (λ l _, l = [])); done|].
  intros l [config|err] ->; [|by apply conforms_ret].
  destruct (HTTPClientFor config) as [hc|]; [|by apply conforms_ret].
  destruct (NewDiscoveryClientForConfigAndClient config hc); [|by apply conforms_ret].
  destruct (NewForConfigAndClient config hc); by apply conforms_ret.
Qed.

Lemma exportTo_conforms s : conforms x_events export_protocol (exportTo s).
Proof.
  unfold exportTo, export_protocol. eapply conforms_bind; [apply connectCluster_conforms|].
  intros l [[discoveryClient dc]|err] ->; [|apply conforms_ret; left; eauto].
  eapply conforms_bind; [apply (xcall_conforms _ _ (λ l r, l = [XDiscover r.1 r.2])); done|].
  intros l [lists err] ->. simpl. destruct (discoveryErrors lists err) as [errs|e] eqn:Hd.
  - unfold exportLists. eapply conforms_bind; [apply (conforms_each list_protocol);
      intros; apply exportList_conforms|].
    intros l acc (es & -> & He). apply conforms_ret. right. exists lists, err.
    rewrite Hd. exists l, es. by rewrite app_nil_r.
  - apply conforms_ret. right. exists lists, err. by rewrite Hd.
Qed.

Lemma NewZipSink_conforms path : conforms x_events (λ l _, l = []) (NewZipSink path).
Proof.
  unfold NewZipSink. eapply conforms_bind; [apply (xcall_conforms _ _ (λ l _, l = [])); done|].
  intros l [f|err] ->; by apply conforms_ret.
Qed.

(** A whole run: no event at all, or those of the export and then the close. *)
Lemma RunExport_conforms opt :
  conforms x_events (λ l res, (l = [] ∧ is_Some res) ∨
    ∃ l' ret close, l = l' ++ [XClose close] ∧ export_protocol l' ret ∧
      res = match ret, close with
        | None, Some err => Some (ErrorfW "failed to close sink: %w" [] err)
        | _, _ => ret
        end) (RunExport opt).
Proof.
  unfold RunExport. case_bool_decide; [apply conforms_ret; eauto|].
  eapply conforms_bind.
  { apply NewZipSink_conforms. }
  intros l [s|err] ->; [|apply conforms_ret; eauto].
  eapply conforms_bind; [apply exportTo_conforms|]. intros l ret Hret.
  eapply conforms_bind; [apply (xcall_conforms _ _ (λ l err, l = [XClose err])); done|].
  intros ? close ->. simpl. destruct close as [e|], ret as [e'|]; apply conforms_ret; right;
    eexists l, _, _; by split_and!.
Qed.

(** Where the events of the lists come from. *)
Lemma lists_event lists l es ev :
  each list_protocol lists l es → ev ∈ l →
  ∃ gvr answer, XList gvr answer ∈ l ∧
    (ev = XList gvr answer ∨ ∃ items item data err, answer = Ok items ∧ item ∈ items ∧
      yaml_Marshal item = Ok data ∧ ev = XWrite (exportPath gvr item) data err).
Proof.
  intros He Hin. destruct (each_event _ _ _ _ _ He Hin) as (rl & l1 & es1 & _ & Hrl & Hin1 & Hs1).
  unfold list_protocol in Hrl.
  destruct (ParseGroupVersion (arl_GroupVersion rl)) as [gv|err];
    [|destruct Hrl as [-> _]; by apply elem_of_nil in Hin1].
  destruct (each_event _ _ _ _ _ Hrl Hin1) as (resource & l2 & es2 & _ & Hr & Hin2 & Hs2).
  unfold resource_protocol in Hr. destruct (listable resource);
    [|destruct Hr as [-> _]; by apply elem_of_nil in Hin2].
  destruct Hr as (answer & l3 & -> & Ha). exists (WithResource gv (ar_Name resource)), answer.
  split; [apply Hs1, Hs2; by left|].
  apply elem_of_cons in Hin2 as [->|Hin3]; [by left|right].
  destruct answer as [items|err]; [|destruct Ha as [-> _]; by apply elem_of_nil in Hin3].
  destruct (each_event _ _ _ _ _ Ha Hin3) as (item & l4 & es4 & Hitem & Hi & Hin4 & _).
  unfold item_protocol in Hi. destruct (yaml_Marshal item) as [data|err] eqn:Hy;
    [|destruct Hi as [-> _]; by apply elem_of_nil in Hin4].
  destruct Hi as (err & -> & _). apply list_elem_of_singleton in Hin4 as ->.
  by exists items, item, data, err.
Qed.

Definition events_of (opt : ExportOptions) (s : export_state) (l : list export_event) : Prop :=
  x_events (RunExport opt s).2 = x_events s ++ l.

Lemma run_export opt s l :
  events_of opt s l → (l = [] ∧ is_Some (RunExport opt s).1) ∨
    ∃ l' ret close, l = l' ++ [XClose close] ∧ export_protocol l' ret ∧
      (RunExport opt s).1 = match ret, close with
        | None, Some err => Some (ErrorfW "failed to close sink: %w" [] err)
        | _, _ => ret
        end.
Proof.
  intros Hl. destruct (RunExport_conforms opt s) as (l' & Hl' & HP).
  unfold events_of in Hl. rewrite Hl' in Hl. by apply (inj (x_events s ++.)) in Hl as <-.
Qed.

(** ** Properties *)

(** [C25] A successful export is complete: if [RunExport] returns no error, then the
    archive was closed without an error, discovery answered (at most with errors of single
    groups), and for every resource it returned that can be listed and is not a
    subresource, the objects were listed and each of them was written, under its path and
    with its YAML, without an error. *)
Theorem RunExport_success_is_complete opt s l :
  events_of opt s l → (RunExport opt s).1 = None →
  XClose None ∈ l ∧ ∃ lists err, XDiscover lists err ∈ l ∧
    (∀ e, err = Some e → IsGroupDiscoveryFailedError e = true) ∧
    ∀ rl, rl ∈ lists → ∃ gv, ParseGroupVersion (arl_GroupVersion rl) = Ok gv ∧
      ∀ resource, resource ∈ arl_APIResources rl → listable resource = true →
        let gvr := WithResource gv (ar_Name resource) in
        ∃ items, XList gvr (Ok items) ∈ l ∧
          ∀ item, item ∈ items → ∃ data, yaml_Marshal item = Ok data ∧
            XWrite (exportPath gvr item) data None ∈ l.
Proof.
  intros [[_ [e He]]|(l' & ret & close & -> & Hp & Hres)]%run_export Hnone; [congruence|].
  rewrite Hnone in Hres. destruct ret as [e|]; [done|]. destruct close as [e|]; [done|].
  split; [apply elem_of_app; right; by left|].
  destruct Hp as [[_ [? [=]]]|(lists & err & Hp)]. exists lists, err.
  destruct (discoveryErrors lists err) as [errs|e] eqn:Hd; [|by destruct Hp].
  destruct Hp as (l1 & es & -> & He & Hj). symmetry in Hj.
  apply Join_all_None, app_eq_nil in Hj as [-> ->].
  split; [by left|]. split.
  { intros e ->. simpl in Hd. destruct (IsGroupDiscoveryFailedError e); [done|].
    simpl in Hd. by case_bool_decide. }
  intros rl Hrl. destruct (each_ok _ _ _ He rl Hrl) as (l2 & H2 & Hs2).
  unfold list_protocol in H2. destruct (ParseGroupVersion _) as [gv|]; [|by destruct H2].
  exists gv. split; [done|]. intros resource Hr Hlist gvr.
  destruct (each_ok _ _ _ H2 resource Hr) as (l3 & H3 & Hs3).
  unfold resource_protocol in H3. rewrite Hlist in H3. destruct H3 as (answer & l4 & -> & H4).
  destruct answer as [items|]; [|by destruct H4]. exists items.
  assert (Hsub : ∀ ev, ev ∈ XList gvr (Ok items) :: l4 → ev ∈ (XDiscover lists err :: l1) ++ [XClose None]).
  { intros ev Hev. apply elem_of_app. left. right. by apply Hs2, Hs3. }
  split; [apply Hsub; by left|]. intros item Hitem.
  destruct (each_ok _ _ _ H4 item Hitem) as (l5 & H5 & Hs5).
  unfold item_protocol in H5. destruct (yaml_Marshal item) as [data|]; [|by destruct H5].
  destruct H5 as ([e|] & -> & H5); [done|]. exists data. split; [done|].
  apply Hsub. right. apply Hs5. by left.
Qed.

(** [C35] Nothing else gets into the archive: whatever fails, every file written is the
    YAML of an object that the cluster listed in this run, under the path of that object
    and its resource. *)
Theorem RunExport_writes_only_listed opt s l path data err :
  events_of opt s l → XWrite path data err ∈ l →
  ∃ gvr items item, XList gvr (Ok items) ∈ l ∧ item ∈ items ∧
    yaml_Marshal item = Ok data ∧ path = exportPath gvr item.
Proof.
  intros [[-> _]|(l' & ret & close & -> & Hp & _)]%run_export Hin; [by apply elem_of_nil in Hin|].
  apply elem_of_app in Hin as [Hin|Hin]; [|by apply list_elem_of_singleton in Hin].
  destruct Hp as [[-> _]|(lists & derr & Hp)]; [by apply elem_of_nil in Hin|].
  destruct (discoveryErrors lists derr) as [errs|e];
    [|destruct Hp as [-> _]; by apply list_elem_of_singleton in Hin].
  destruct Hp as (l1 & es & -> & He & _). apply elem_of_cons in Hin as [Hin|Hin]; [done|].
  destruct (lists_event _ _ _ _ He Hin) as (gvr & answer & Hl & [?|Hw]); [done|].
  destruct Hw as (items & item & d & e & -> & Hi & Hy & [= -> -> ->]).
  exists gvr, items, item. split_and!; [|done..].
  apply elem_of_app. left. by right.
Qed.

(** The archive is finalized exactly once, last, however the export went, and an
    error of that is not lost: a run either fails before the archive exists or ends with
    its only close, and if that close fails, so does the run. *)
Theorem RunExport_closes_sink opt s l :
  events_of opt s l →
  (l = [] ∧ is_Some (RunExport opt s).1) ∨
  ∃ l' close, l = l' ++ [XClose close] ∧ (∀ c, XClose c ∉ l') ∧
    (is_Some close → is_Some (RunExport opt s).1).
Proof.
  intros [?|(l' & ret & close & -> & Hp & ->)]%run_export; [by left|right].
  exists l', close. split; [done|]. split; [|intros [e ->]; by destruct ret].
  intros c Hin. destruct Hp as [[-> _]|(lists & derr & Hp)]; [by apply elem_of_nil in Hin|].
  destruct (discoveryErrors lists derr) as [errs|e];
    [|destruct Hp as [-> _]; by apply list_elem_of_singleton in Hin].
  destruct Hp as (l1 & es & -> & He & _). apply elem_of_cons in Hin as [Hin|Hin]; [done|].
  destruct (lists_event _ _ _ _ He Hin) as (gvr & answer & _ & [?|Hw]); [done|].
  by destruct Hw as (? & ? & ? & ? & _ & _ & _ & ?).
Qed.

(** *** Paths *)

Definition or_else (s d : string) : string := if bool_decide (s = "") then d else s.

Lemma or_else_inj d s t : s ≠ d → t ≠ d → or_else s d = or_else t d → s = t.
Proof. unfold or_else. intros ??. repeat case_bool_decide; by subst. Qed.

Lemma or_else_plain s d : s = "" ∨ plain_elem s → plain_elem d → plain_elem (or_else s d).
Proof. unfold or_else. intros [->|Hs] Hd; case_bool_decide; done. Qed.

Lemma yaml_plain name : has_byte "/" name = false → plain_elem (name +:+ ".yaml").
Proof.
  intros Hn. assert (Hlen : 5 ≤ String.length (name +:+ ".yaml"))
    by (rewrite str_length_app; simpl; lia).
  unfold plain_elem. split_and!; [intros He; rewrite He in Hlen; simpl in Hlen; lia..|].
  by rewrite has_byte_app, Hn.
Qed.

(** An object whose names can be elements of a path, as Kubernetes' own can, and are not
    the two words the export uses itself. *)
Definition path_ok (gvr : GroupVersionResource) (item : object) : Prop :=
  (GetNamespace item = "" ∨ plain_elem (GetNamespace item)) ∧ GetNamespace item ≠ "_cluster" ∧
  (gvr_Group gvr = "" ∨ plain_elem (gvr_Group gvr)) ∧ gvr_Group gvr ≠ "core" ∧
  plain_elem (GetKind item) ∧ has_byte "/" (GetName item) = false.

Definition path_elems (gvr : GroupVersionResource) (item : object) : list string :=
  [or_else (GetNamespace item) "_cluster"; or_else (gvr_Group gvr) "core"; GetKind item;
   GetName item +:+ ".yaml"].

Lemma path_elems_plain gvr item : path_ok gvr item → Forall plain_elem (path_elems gvr item).
Proof.
  intros (Hns & _ & Hg & _ & Hk & Hn). unfold path_elems.
  rewrite !Forall_cons, Forall_nil. split_and!; [..|done].
  - apply or_else_plain; [done|by apply (bool_decide_unpack _)].
  - apply or_else_plain; [done|by apply (bool_decide_unpack _)].
  - done.
  - by apply yaml_plain.
Qed.

(** [C34] Exported objects do not overwrite each other: two objects with the same path in
    the archive have the same namespace, group, kind and name (an object without a
    namespace and one of the core group included), so no file of a run is lost. *)
Theorem exportPath_injective gvr1 item1 gvr2 item2 :
  path_ok gvr1 item1 → path_ok gvr2 item2 →
  exportPath gvr1 item1 = exportPath gvr2 item2 →
  GetNamespace item1 = GetNamespace item2 ∧ gvr_Group gvr1 = gvr_Group gvr2 ∧
  GetKind item1 = GetKind item2 ∧ GetName item1 = GetName item2.
Proof.
  intros H1 H2 Heq. apply path_elems_plain in H1 as HF1, H2 as HF2.
  assert (Hpath : ∀ gvr item, exportPath gvr item = filepath_Join (path_elems gvr item)) by done.
  rewrite !Hpath, !filepath_Join_plain in Heq by done.
  apply (f_equal (Split "/")) in Heq.
  rewrite !Split_Join in Heq;
    [|done|eapply Forall_impl; [done|by intros ? (_&_&_&?)]
     |done|eapply Forall_impl; [done|by intros ? (_&_&_&?)]].
  injection Heq as Hns Hg Hk Hn.
  destruct H1 as (_ & ? & _ & ? & _), H2 as (_ & ? & _ & ? & _).
  split_and!; [by eapply or_else_inj|by eapply or_else_inj|done|by apply str_app_inv_tail in Hn].
Qed.
End ExportSpec.

(** ** Witnesses *)

Section ExportWitnesses.
#[local] Existing Instance FakeErrors.
#[local] Existing Instance FakeParser.
#[local] Existing Instance FakeUnstructured.

Definition export_object (name : string) : object := {[
  "apiVersion" := VString "v1"; "kind" := VString "ConfigMap";
  "metadata" := VMap {[ "name" := VString name; "namespace" := VString "ns" ]} ]}.

(** A cluster that serves one listable resource with two objects, and the archive of a
    disk that is always there. *)
Definition FakeExport : ExportLibs := {|
  xworld := unit;
  file := string;
  zip_writer := string;
  zip_entry := string;
  os_Create path w := (Ok path, w);
  zip_NewWriter f := f;
  zip_Create zw path w := (Ok path, w);
  entry_Write e data w := (None, w);
  zip_Close zw w := (None, w);
  file_Close f w := (None, w);
  kube_Config := unit;
  ClientConfig w := (Ok tt, w);
  http_client := unit;
  HTTPClientFor _ := Ok tt;
  xdiscovery := unit;
  NewDiscoveryClientForConfigAndClient _ _ := Ok tt;
  dynamic_client := unit;
  NewForConfigAndClient _ _ := Ok tt;
  xServerPreferredResources _ w := (([
    {| arl_GroupVersion := "v1"; arl_APIResources := [
      {| ar_Name := "configmaps"; ar_Kind := "ConfigMap"; ar_Verbs := ["get"; "list"] |};
      {| ar_Name := "pods/log"; ar_Kind := "Pod"; ar_Verbs := ["list"] |};
      {| ar_Name := "bindings"; ar_Kind := "Binding"; ar_Verbs := ["create"] |}] |}], None), w);
  dynamic_List _ gvr w := (Ok [export_object "a"; export_object "b"], w);
  yaml_Marshal o := Ok (GetName o);
  GroupVersionResource_String gvr := gvr_Resource gvr;
|}.
#[local] Existing Instance FakeExport.

Definition export_run : option goerr * export_state :=
  RunExport {| opt_Output := "out.zip" |} {| x_world := tt; x_events := [] |}.

Definition configmaps : GroupVersionResource :=
  {| gvr_Group := ""; gvr_Version := "v1"; gvr_Resource := "configmaps" |}.

Example export_run_events : drop 2 (x_events export_run.2) =
  [XWrite "ns/core/ConfigMap/a.yaml" "a" None; XWrite "ns/core/ConfigMap/b.yaml" "b" None;
   XClose None].
Proof. reflexivity. Qed.

Lemma RunExport_success_is_complete_witness :
  export_run.1 = None ∧ XClose None ∈ x_events export_run.2.
Proof.
  split; [reflexivity|].
  exact (proj1 (RunExport_success_is_complete {| opt_Output := "out.zip" |}
    {| x_world := tt; x_events := [] |} (x_events export_run.2) eq_refl eq_refl)).
Defined.

Lemma RunExport_writes_only_listed_witness :
  XWrite "ns/core/ConfigMap/a.yaml" "a" None ∈ x_events export_run.2 ∧
  ∃ gvr items item, XList gvr (Ok items) ∈ x_events export_run.2 ∧ item ∈ items ∧
    yaml_Marshal item = Ok "a" ∧ "ns/core/ConfigMap/a.yaml" = exportPath gvr item.
Proof.
  assert (Hin : XWrite "ns/core/ConfigMap/a.yaml" "a" None ∈ x_events export_run.2)
    by (apply (list_elem_of_lookup_2 _ 2); reflexivity).
  split; [exact Hin|].
  exact (RunExport_writes_only_listed {| opt_Output := "out.zip" |}
    {| x_world := tt; x_events := [] |} (x_events export_run.2) _ _ _ eq_refl Hin).
Defined.

Lemma RunExport_closes_sink_witness :
  (x_events export_run.2 = [] ∧ is_Some export_run.1) ∨
  ∃ l' close, x_events export_run.2 = l' ++ [XClose close] ∧ (∀ c, XClose c ∉ l') ∧
    (is_Some close → is_Some export_run.1).
Proof.
  exact (RunExport_closes_sink {| opt_Output := "out.zip" |}
    {| x_world := tt; x_events := [] |} (x_events export_run.2) eq_refl).
Defined.

Lemma exportPath_injective_witness :
  exportPath configmaps (export_object "a") = "ns/core/ConfigMap/a.yaml" ∧
  GetName (export_object "a") = GetName (export_object "a").
Proof.
  split; [reflexivity|].
  assert (Hok : path_ok configmaps (export_object "a")).
  { unfold path_ok. split_and!; [right|done|by left|done| |done]; by apply (bool_decide_unpack _). }
  exact (proj2 (proj2 (proj2 (exportPath_injective configmaps (export_object "a")
    configmaps (export_object "a") Hok Hok eq_refl)))).
Defined.
End ExportWitnesses.
