(* ===== verification/Cli.v ===== *)
(** * The kube-etl command ([main.go], [BuildExportCommand] of [pkg/export/export.go])

    The command tree is data; executing it is cobra's work, of which the documented
    behaviour is used ([CobraLaws]). *)

From stdpp Require Import base list strings gmap.
From Stdlib Require Import Ascii.
From S2P Require Import Prelude GoStrings GoURL Kube Fake Export.

(** A string flag: name, default and usage. *)
Record string_flag := {
  flag_Name : string;
  flag_Default : string;
  flag_Usage : string;
}.

Section Commands.
Context {AE : ApiErrors} {EL : ExportLibs} {UN : Unstructured} {GP : GroupVersionParser}.

(** [cobra.Command]: the fields the program sets, its flags and its subcommands. [RunE] gets
    the arguments and the values of the flags, which cobra has written to the variables of
    the command. *)
Inductive cobra_Command : Type :=
| Command (Use Short : string)
    (RunE : option (list string → (string → string) → M export_state (option goerr)))
    (Flags : list string_flag) (Commands : list cobra_Command).

Definition cmd_Use (c : cobra_Command) : string := let (use, _, _, _, _) := c in use.
Definition cmd_RunE (c : cobra_Command) :=
  let (_, _, run, _, _) := c in run.
Definition cmd_Flags (c : cobra_Command) : list string_flag :=
  let (_, _, _, flags, _) := c in flags.
Definition cmd_Commands (c : cobra_Command) : list cobra_Command :=
  let (_, _, _, _, children) := c in children.

(** Cobra and pflag: [Execute] with [os.Args[1:]]; the arguments that are left and the
    values of the flags after parsing a command line. *)
Class Cobra := {
  Execute : cobra_Command → list string → M export_state (option goerr);
  ParseFlags : list string_flag → list string → res goerr (list string * (string → string));
}.

(** The first argument that names the only subcommand selects it; it runs exactly if its
    flags can be parsed ([--help] counts as an error of [ParseFlags] here). A flag that is
    not given has its default. *)
Class CobraLaws `{Cobra} : Prop := {
  Execute_runs root c run rest args flags s :
    cmd_Commands root = [c] → cmd_RunE c = Some run →
    ParseFlags (cmd_Flags c) rest = Ok (args, flags) →
    Execute root (cmd_Use c :: rest) s = run args flags s;
  Execute_bad_flags root c rest e s :
    cmd_Commands root = [c] → ParseFlags (cmd_Flags c) rest = Err e →
    (Execute root (cmd_Use c :: rest) s).2 = s;
  ParseFlags_default fl : ParseFlags fl [] = Ok ([], λ name,
    match list_find (λ f, flag_Name f = name) fl with
    | Some (_, f) => flag_Default f
    | None => ""
    end);
}.

(** ** The commands *)

Definition InitDefaults (o : ExportOptions) : ExportOptions := o.

(** The variable [opt] and its initial value; the flag writes it and [RunE] reads it. *)
Definition export_opt : ExportOptions := InitDefaults {| opt_Output := "" |}.

Definition BuildExportCommand : cobra_Command :=
  Command "export" "Export Kubernetes objects from the current cluster"
    (Some (λ args flags, exportRunE args {| opt_Output := flags "output" |}))
    [{| flag_Name := "output"; flag_Default := opt_Output export_opt;
        flag_Usage := "Path to the output file (e.g. output.zip)" |}] [].

(** The root command after [AddCommand]. *)
Definition rootCmd : cobra_Command :=
  Command "kube-etl" "A tool for ETL operations on Kubernetes objects" None []
    [BuildExportCommand].

(** [main]: the exit code and the error it prints. *)
Definition main `{Cobra} (args : list string) : M export_state (Z * option goerr) :=
  err ← Execute rootCmd args;
  match err with
  | Some err => mret (1%Z, Some err)
  | None => mret (0%Z, None)
  end.

(** ** Properties *)

Context `{CL : CobraLaws}.

Lemma main_runs rest args flags s :
  ParseFlags (cmd_Flags BuildExportCommand) rest = Ok (args, flags) →
  main ("export" :: rest) s =
    let r := exportRunE args {| opt_Output := flags "output" |} s in
    (match r.1 with Some err => (1%Z, Some err) | None => (0%Z, None) end, r.2).
Proof.
  intros Hp. unfold main, mbind, M_bind.
  assert (HE : Execute rootCmd ("export" :: rest) s =
    exportRunE args {| opt_Output := flags "output" |} s).
  { exact (Execute_runs rootCmd BuildExportCommand _ rest args flags s eq_refl eq_refl Hp). }
  rewrite HE. by destruct (exportRunE _ _ s) as [[err|] s'].
Qed.

(** [C39] [kube-etl export] exits with 0 exactly if the export succeeded, and then printed
    nothing and closed an archive of everything it was asked for; an unexpected argument, a
    missing output and flags that cannot be parsed end it with nothing touched, and the
    first two with exit code 1. *)
Theorem main_export rest s :
  match ParseFlags (cmd_Flags BuildExportCommand) rest with
  | Err _ => (main ("export" :: rest) s).2 = s
  | Ok (args, flags) =>
      let r := main ("export" :: rest) s in
      (args ≠ [] ∨ flags "output" = "" → r.1.1 = 1%Z ∧ is_Some r.1.2 ∧ r.2 = s) ∧
      (r.1.1 = 0%Z ↔ r.1.2 = None) ∧
      (r.1.1 = 0%Z → args = [] ∧ RunExport {| opt_Output := flags "output" |} s = (None, r.2) ∧
        ∃ l, x_events r.2 = x_events s ++ l ++ [XClose None] ∧ export_protocol l None)
  end.
Proof.
  destruct (ParseFlags _ rest) as [[args flags]|e] eqn:Hp.
  - cbn zeta. rewrite (main_runs _ _ _ _ Hp). cbn zeta. unfold exportRunE.
    split_and!.
    + intros Hbad. case_bool_decide as Ha; [by eauto|].
      destruct Hbad as [Hne|Hout]; [by destruct args as [|?]; [|simpl in Ha; lia]|].
      unfold RunExport. simpl. rewrite bool_decide_eq_true_2 by done. by eauto.
    + by destruct (_ s).1.
    + case_bool_decide as Ha; [done|]. destruct args; [|simpl in Ha; lia].
      destruct (RunExport_conforms {| opt_Output := flags "output" |} s) as (l & Hl & HP).
      destruct (RunExport _ s) as [[err|] s'] eqn:Hr; [done|]. intros _.
      split; [done|]. split; [done|].
      destruct HP as [[_ [? [=]]]|(l' & ret & close & -> & Hret & Hres)].
      exists l'. simpl in Hres. destruct ret, close; simplify_eq. split; [exact Hl|done].
  - unfold main, mbind, M_bind.
    assert (HE := Execute_bad_flags rootCmd BuildExportCommand rest e s eq_refl Hp).
    by destruct (Execute rootCmd _ s) as [[err|] s'].
Qed.
End Commands.

(** ** A concrete command line *)

Section CliWitness.
#[local] Existing Instance FakeErrors.
#[local] Existing Instance FakeParser.
#[local] Existing Instance FakeUnstructured.
#[local] Existing Instance FakeExport.

(** Flags written as [--name=value], for the flag of the command; everything else is an
    argument. *)
Definition fake_flags (fl : list string_flag) (rest : list string) :
    res goerr (list string * (string → string)) :=
  Ok (filter (λ a, String.prefix "--output=" a = false) rest, λ name,
    match list_find (λ a, String.prefix "--output=" a = true) rest with
    | Some (_, a) => String.substring 9 (String.length a) a
    | None => match list_find (λ f, flag_Name f = name) fl with
              | Some (_, f) => flag_Default f
              | None => ""
              end
    end).

Definition fake_execute (root : cobra_Command) (argv : list string) :
    M export_state (option goerr) :=
  match cmd_Commands root, argv with
  | [c], use :: rest =>
      if bool_decide (use = cmd_Use c) then
        match cmd_RunE c, fake_flags (cmd_Flags c) rest with
        | Some run, Ok (args, flags) => run args flags
        | _, _ => mret None
        end
      else mret (Some (Errorf "unknown command" []))
  | _, _ => mret None
  end.

#[local] Instance FakeCobra : Cobra := {| Execute := fake_execute; ParseFlags := fake_flags |}.

#[local] Instance FakeCobraLaws : CobraLaws.
Proof.
  split.
  - intros root c run rest args flags s Hc Hrun [= <- <-]. simpl. unfold fake_execute.
    by rewrite Hc, bool_decide_eq_true_2, Hrun by done.
  - done.
  - done.
Defined.

Definition cli_start : export_state := {| x_world := tt; x_events := [] |}.

Lemma main_export_witness :
  (main ["export"; "--output=out.zip"] cli_start).1 = (0%Z, None) ∧
  ∃ l, x_events (main ["export"; "--output=out.zip"] cli_start).2 =
    [] ++ l ++ [XClose None].
Proof.
  assert (H0 : (main ["export"; "--output=out.zip"] cli_start).1 =
    (0%Z, None)) by reflexivity.
  split; [exact H0|].
  destruct (main_export ["--output=out.zip"] cli_start)
    as (_ & _ & Hok).
  destruct Hok as (_ & _ & l & Hl & _); [by rewrite H0|]. exists l. exact Hl.
Defined.
End CliWitness.
