(* ===== verification/Main.v ===== *)
(** * The syncer's start ([syncer/main.go], [syncer/api/v1alpha1/groupversion_info.go])

    The registration of the API's kinds in the scheme ([init]), the flags, the validation of
    the options, the manager, the KRMSyncer reconciler and the start of the manager. *)

From stdpp Require Import base list strings gmap.
From S2P Require Import Prelude GoStrings Kube Api Fake Tracker Client FakeCluster RemoteClients GKE Transport Integration Sync Setup Process.

(** The scheme of apimachinery: which Go types stand for which kinds. Adding kinds may fail
    and never removes one. *)
Class SchemeLibs `{ApiErrors} := {
  scheme : Type;
  NewScheme : scheme;
  recognizes : scheme → GroupVersionKind → Prop;
  clientgo_AddToScheme : scheme → option api_error * scheme;
  Builder_AddToScheme : GroupVersion → list string → scheme → option api_error * scheme;
}.

Class SchemeLaws `{SchemeLibs} : Prop := {
  clientgo_keeps s gvk : recognizes s gvk → recognizes (clientgo_AddToScheme s).2 gvk;
  Builder_keeps gv kinds s gvk :
    recognizes s gvk → recognizes (Builder_AddToScheme gv kinds s).2 gvk;
  Builder_adds gv kinds s k : k ∈ kinds → (Builder_AddToScheme gv kinds s).1 = None →
    recognizes (Builder_AddToScheme gv kinds s).2 (GVK (gv_Group gv) (gv_Version gv) k);
}.

(** A flag with an integer or a duration (in nanoseconds): its name and default. *)
Record flag := {
  flag_Name : string;
  flag_Default : Z;
}.

(** [flag.Parse()] of the command line: the process ends with an exit code (a usage error,
    or [--help]) or the flags have values. A flag that is not given has its default. *)
Class FlagLibs := {
  flag_Parse : list flag → list string → Z + (string → Z);
}.

Class FlagLaws `{FlagLibs} : Prop := {
  flag_Parse_defaults fl f : f ∈ fl → NoDup (flag_Name <$> fl) →
    ∃ v, flag_Parse fl [] = inr v ∧ v (flag_Name f) = flag_Default f;
}.

(** The manager of controller-runtime: [ctrl.NewManager] (with the configuration of
    [ctrl.GetConfigOrDie], and the sync period of its cache if one is set), what it
    provides, the registration of the KRMSyncer controller and [Start]. [%d] is the
    decimal notation of an int. *)
Class ManagerLibs `{RemoteConfigProvider, !SchemeLibs} := {
  manager : Type;
  ctrl_NewManager : scheme → option Z → world → res api_error manager * world;
  mgr_GetClient : manager → client;
  mgr_GetConfig : manager → rest_Config;
  mgr_For_Complete : manager → KRMSyncerReconciler → world → option api_error * world;
  mgr_Start : manager → world → option api_error * world;
  Itoa : Z → string;
}.

Section Main.
Context {AE : ApiErrors} {AC : ApiClient} {SL : SchemeLibs} {FL : FlagLibs}.

(** [run] gives the reconciler no provider. The provider's state is part of the world. *)
Context {GN : GoNet}.
Context (provider_state : world → transport_state) (put : transport_state → world → world).
#[local] Instance main_provider : RemoteConfigProvider :=
  provider_or_default provider_state put None.

Context {ML : ManagerLibs} {UL : SetupLibs} {PG : PrometheusGauge}.

(** What [run] does: the manager is created, the reconciler is set up with it, and the
    manager is started, with the reconciler's state then. *)
Inductive main_event : Type :=
| MNewManager (cachePeriod : option Z)
| MSetup (r : KRMSyncerReconciler) (err : option goerr)
| MStart (s : setup_state) (err : option api_error).

Record main_state := {
  main_world : world;
  main_events : list main_event;
}.

Definition mcall {A} (op : world → A * world) (ev : A → main_event) : M main_state A := λ s,
  let r := op (main_world s) in
  (r.1, {| main_world := r.2; main_events := main_events s ++ [ev r.1] |}).

(** ** The scheme *)

(** [GroupVersion] of the API and the kinds its [init] registers with the [SchemeBuilder]. *)
Definition krm_GroupVersion : GroupVersion := GV "syncer.gkelabs.io" "v1alpha1".
Definition SchemeBuilder : list string := ["KRMSyncer"; "KRMSyncerList"].
Definition krm_AddToScheme (s : scheme) : option api_error * scheme :=
  Builder_AddToScheme krm_GroupVersion SchemeBuilder s.

(** [init]: [utilruntime.Must] panics on an error ([None]). *)
Definition main_init : option scheme :=
  match clientgo_AddToScheme NewScheme with
  | (Some _, _) => None
  | (None, s) =>
      match krm_AddToScheme s with
      | (Some _, _) => None
      | (None, s) => Some s
      end
  end.

(** ** The flags *)

(** The defaults of the flags. *)
Definition sync_period_default : Z := 0.
Definition max_concurrent_reconciles_default : Z := DefaultMaxConcurrentReconciles.

Definition flags : list flag := [
  {| flag_Name := "sync-period"; flag_Default := sync_period_default |};
  {| flag_Name := "max-concurrent-reconciles";
     flag_Default := max_concurrent_reconciles_default |}].

(** [syncPeriodOpt]: a period that is not positive is no period. *)
Definition syncPeriodOpt (syncPeriod : Z) : option Z :=
  if bool_decide (0 < syncPeriod)%Z then Some syncPeriod else None.

Definition newReconciler (mgr : manager) (syncPeriod maxConcurrentReconciles : Z) :
    KRMSyncerReconciler := {|
  r_Client := mgr_GetClient mgr;
  r_ManagerConfig := mgr_GetConfig mgr;
  r_SyncPeriod := syncPeriodOpt syncPeriod;
  r_MaxConcurrentReconciles := maxConcurrentReconciles;
|}.

(** [SetupWithManager] of the new reconciler: its error, and its state. *)
Definition setupReconciler (mgr : manager) (r : KRMSyncerReconciler) :
    M main_state (option goerr * setup_state) := λ s,
  let x := SetupWithManager r (mgr_For_Complete mgr) (unset_state (main_world s) ∅) in
  (x, {| main_world := sh_world (su_shared x.2);
         main_events := main_events s ++ [MSetup r x.1] |}).

(** [run] after the flags were parsed. *)
Definition runManager (sch : scheme) (syncPeriod maxConcurrentReconciles : Z) : M main_state (option goerr) :=
  if bool_decide (maxConcurrentReconciles < 1)%Z
  then mret (Some (Errorf "--max-concurrent-reconciles must be at least 1, got %d"
    [Itoa maxConcurrentReconciles]))
  else
    mgr ← mcall (ctrl_NewManager sch (syncPeriodOpt syncPeriod))
      (λ _, MNewManager (syncPeriodOpt syncPeriod));
    match mgr with
    | Err err => mret (Some (EApi err))
    | Ok mgr =>
        let r := newReconciler mgr syncPeriod maxConcurrentReconciles in
        set ← setupReconciler mgr r;
        match set.1 with
        | Some err => mret (Some err)
        | None =>
            err ← mcall (mgr_Start mgr) (MStart set.2);
            mret (EApi <$> err)
        end
    end.

(** [main]'s exit code. *)
Definition exit_code (err : option goerr) : Z := match err with Some _ => 1 | None => 0 end.

(** [run]: parsing the flags may end the process with a code of its own. *)
Definition run (sch : scheme) (args : list string) : M main_state (Z + option goerr) :=
  match flag_Parse flags args with
  | inl code => mret (inl code)
  | inr v =>
      err ← runManager sch (v "sync-period") (v "max-concurrent-reconciles");
      mret (inr err)
  end.

(** The whole program: the exit code, or [None] if [init] panics. *)
Definition main (args : list string) : M main_state (option Z) :=
  match main_init with
  | None => mret None
  | Some sch =>
      r ← run sch args;
      mret (Some match r with inl code => code | inr err => exit_code err end)
  end.

(** ** Properties *)

(** The start checks its options first and keeps its order: with fewer than one
    concurrent reconcile it fails without touching anything; otherwise the manager is
    created, the reconciler is registered, and only then the manager is started, each
    step only if the one before succeeded; the error of the failing step is returned and
    the exit code is 0 exactly if there is none. The manager's cache and the reconciler
    get the same sync period, a positive one or none, and the reconciler's controllers
    will run exactly the number of reconciles that was asked for. *)
Lemma run_starts_in_order sch syncPeriod n s :
  let res := runManager sch syncPeriod n s in
  (exit_code res.1 = 0%Z ↔ res.1 = None) ∧
  ((n < 1)%Z ∧ is_Some res.1 ∧ res.2 = s ∨
   (1 ≤ n)%Z ∧ ∃ l, main_events res.2 =
       main_events s ++ MNewManager (syncPeriodOpt syncPeriod) :: l ∧
     (∀ d, syncPeriodOpt syncPeriod = Some d ↔ d = syncPeriod ∧ (0 < d)%Z) ∧
     ((l = [] ∧ is_Some res.1) ∨
      ∃ r, controllerOptions r = n ∧ Setup.syncPeriod r = syncPeriodOpt syncPeriod ∧
        ((∃ e, l = [MSetup r (Some e)] ∧ res.1 = Some e) ∨
         (∃ w err, l = [MSetup r None; MStart (pr_setup (process_start w)) err] ∧
            res.1 = EApi <$> err)))).
Proof.
  intros res. subst res. split; [by destruct (runManager sch syncPeriod n s).1|].
  unfold runManager. case_bool_decide as Hn; [left; by eauto|right]. split; [lia|].
  assert (Hopt : ∀ d, syncPeriodOpt syncPeriod = Some d ↔ d = syncPeriod ∧ (0 < d)%Z).
  { intros d. unfold syncPeriodOpt. case_bool_decide; naive_solver. }
  unfold mcall, mbind, M_bind, mret, M_ret. cbn [fst snd].
  destruct (ctrl_NewManager _ _ _) as [[mgr|e] w]; cbn [fst snd]; [|exists []; eauto 10].
  set (r := newReconciler mgr syncPeriod n).
  assert (Hr : controllerOptions r = n ∧ Setup.syncPeriod r = syncPeriodOpt syncPeriod).
  { unfold controllerOptions, Setup.syncPeriod. simpl. split.
    - rewrite bool_decide_eq_false_2; [done|lia].
    - unfold syncPeriodOpt. case_bool_decide; [by rewrite bool_decide_eq_true_2|done]. }
  destruct Hr as [Hc Hp].
  unfold setupReconciler. cbn [main_world main_events]. rewrite SetupWithManager_initial.
  destruct (mgr_For_Complete _ _ w) as [[e|] w1]; cbn [fst snd fmap option_fmap option_map].
  - eexists. split; [simpl; by rewrite <-(assoc_L (++))|]. split; [done|].
    right. exists r. eauto 10.
  - destruct (mgr_Start _ _) as [err w2]; cbn [fst snd].
    eexists. split; [simpl; by rewrite <-!(assoc_L (++))|]. split; [done|].
    right. exists r. split_and!; [done|done|]. right. by exists w1, err.
Qed.

(** The scheme of a process whose [init] did not panic. *)
Lemma main_init_recognizes `{!SchemeLaws} sch :
  main_init = Some sch →
  (∀ k, k ∈ SchemeBuilder →
    recognizes sch (GVK (gv_Group krm_GroupVersion) (gv_Version krm_GroupVersion) k)) ∧
  (∀ gvk, recognizes (clientgo_AddToScheme NewScheme).2 gvk → recognizes sch gvk).
Proof.
  unfold main_init, krm_AddToScheme.
  destruct (clientgo_AddToScheme NewScheme) as [[e|] s1]; [done|]. simpl.
  assert (Hadds := λ k, Builder_adds krm_GroupVersion SchemeBuilder s1 k).
  assert (Hkeeps := Builder_keeps krm_GroupVersion SchemeBuilder s1).
  destruct (Builder_AddToScheme _ _ s1) as [[e|] s2]; [done|]. simpl in *.
  intros [= <-]. split; [intros k Hk; by apply Hadds|exact Hkeeps].
Qed.

(** [C40] The syncer's process. If [init] does not panic, the scheme knows the KRMSyncer
    kinds and all it knew before them. A command line that cannot be parsed ends it before
    anything is touched. Otherwise it exits with 0 exactly if the manager was created (with
    that scheme's cache period, a positive one or none), the reconciler was registered with
    the requested number of concurrent reconciles, at least one, and the manager ran, from a
    state in which the whole process ([Process]) starts, and ended without an error, in this
    order; with 1 otherwise. Without flags there is no sync period and the validation cannot
    fail. *)
Theorem main_exits `{!SchemeLaws, !FlagLaws} args sch s :
  main_init = Some sch →
  (∀ k, k ∈ ["KRMSyncer"; "KRMSyncerList"] →
    recognizes sch (GVK "syncer.gkelabs.io" "v1alpha1" k)) ∧
  (∀ gvk, recognizes (clientgo_AddToScheme NewScheme).2 gvk → recognizes sch gvk) ∧
  match flag_Parse flags args with
  | inl code => main args s = (Some code, s)
  | inr v =>
      let d := v "sync-period" in let n := v "max-concurrent-reconciles" in
      (main args s).1 = Some (exit_code (runManager sch d n s).1) ∧
      ((main args s).1 = Some 0%Z ↔ ∃ r w, (1 ≤ n)%Z ∧ controllerOptions r = n ∧
        Setup.syncPeriod r = (if bool_decide (0 < d)%Z then Some d else None) ∧
        main_events (main args s).2 = main_events s ++
          [MNewManager (syncPeriodOpt d); MSetup r None;
           MStart (pr_setup (process_start w)) None]) ∧
      (args = [] → d = 0%Z ∧ n = 10%Z)
  end.
Proof.
  intros Hinit. destruct (main_init_recognizes _ Hinit) as [Hk Hgo].
  split; [exact Hk|]. split; [exact Hgo|].
  unfold main, run. rewrite Hinit. destruct (flag_Parse flags args) as [code|v] eqn:Hp; [done|].
  cbn zeta. set (d := v "sync-period"). set (n := v "max-concurrent-reconciles").
  destruct (run_starts_in_order sch d n s) as [Hexit Hruns].
  unfold mbind, M_bind, mret, M_ret. cbn [fst snd].
  destruct (runManager sch d n s) as [err s']. cbn [fst snd] in *.
  split; [done|]. split; [split|].
  - intros [= Hc]. apply Hexit in Hc as ->.
    destruct Hruns as [(_ & [? [=]] & _)|(Hn & l & Hl & _ & [[_ [? [=]]]|(r & Hr & Hd & Hres)])].
    destruct Hres as [(e & _ & [=])|(w & [e|] & -> & [=])]. exists r, w. by rewrite Hl.
  - intros (r & w & Hn & _ & _ & Hev).
    destruct Hruns as [(? & _)|(_ & l & Hl & _ & Hres)]; [lia|].
    rewrite Hl in Hev. apply (inj (main_events s ++.)) in Hev. injection Hev as ->.
    destruct Hres as [[[=] _]|(r' & _ & _ & [(e & [=] & _)|(w' & e & [= _ _ <-] & ->)])]. done.
  - intros ->. split.
    + destruct (flag_Parse_defaults flags
        {| flag_Name := "sync-period"; flag_Default := sync_period_default |}) as (v' & Hv & Hd);
        [by left|by apply (bool_decide_unpack _)|].
      rewrite Hp in Hv. by simplify_eq.
    + destruct (flag_Parse_defaults flags {| flag_Name := "max-concurrent-reconciles";
        flag_Default := max_concurrent_reconciles_default |}) as (v' & Hv & Hd);
        [right; by left|by apply (bool_decide_unpack _)|].
      rewrite Hp in Hv. by simplify_eq.
Qed.
End Main.

(** ** A concrete process *)

Section MainWitness.
#[local] Existing Instance FakeErrors.
#[local] Existing Instance FakeUnstructured.
#[local] Existing Instance FakeNet.
#[local] Existing Instance FakeGauge.
#[local] Existing Instance gke_clusters.

(** The default provider, on a world that is its state. *)
#[local] Instance demo_main_provider : RemoteConfigProvider :=
  main_provider (λ w, w) (λ s _, s).

(** A set-up that finds no KRMSyncer. *)
#[local] Instance FakeGkeSetup : SetupLibs := {|
  do_GetSyncer c req w := (Err FNotFound, w);
  do_StatusUpdate c k w := (None, w);
  SetStatusCondition l c := l ++ [c];
  GroupVersionKind_String g := gvk_Kind g;
  with_Timeout t cfg := cfg;
  discovery_client := unit;
  NewDiscoveryClientForConfig cfg := Ok tt;
  ServerPreferredResources dc w := (([], None), w);
  cluster := unit;
  cluster_New cfg period w := (Ok tt, w);
  cluster_Start c w := w;
  WaitForCacheSync c w := (true, w);
  cluster_GetClient c := "remote";
|}.

#[local] Instance FakeScheme : SchemeLibs := {|
  scheme := list GroupVersionKind;
  NewScheme := [];
  recognizes s gvk := gvk ∈ s;
  clientgo_AddToScheme s := (None, GVK "" "v1" "Namespace" :: s);
  Builder_AddToScheme gv kinds s :=
    (None, (GVK (gv_Group gv) (gv_Version gv) <$> kinds) ++ s);
|}.

#[local] Instance FakeSchemeLaws : SchemeLaws.
Proof.
  split.
  - intros s gvk Hin. by right.
  - intros gv kinds s gvk Hin. apply elem_of_app. by right.
  - intros gv kinds s k Hk _. apply elem_of_app. left. by apply list_elem_of_fmap_2.
Defined.

Fixpoint default_of (fl : list flag) (name : string) : Z :=
  match fl with
  | [] => 0
  | f :: fl' => if bool_decide (flag_Name f = name) then flag_Default f else default_of fl' name
  end.

(** Any argument is a usage error. *)
#[local] Instance FakeFlags : FlagLibs := {|
  flag_Parse fl args := if args is [] then inr (default_of fl) else inl 2%Z;
|}.

#[local] Instance FakeFlagLaws : FlagLaws.
Proof.
  split. intros fl f Hf Hnd. exists (default_of fl). split; [done|].
  induction fl as [|g fl IH]; [by apply elem_of_nil in Hf|].
  rewrite fmap_cons in Hnd. apply NoDup_cons in Hnd as [Hg Hnd]. simpl.
  apply elem_of_cons in Hf as [->|Hf]; [by rewrite bool_decide_eq_true_2|].
  rewrite bool_decide_eq_false_2; [by apply IH|].
  intros Heq. apply Hg. rewrite Heq. by apply list_elem_of_fmap_2.
Defined.

(** A manager of the local cluster whose run ends without an error. *)
#[local] Instance FakeManager : ManagerLibs := {|
  manager := unit;
  ctrl_NewManager _ _ w := (Ok tt, w);
  mgr_GetClient _ := "local";
  mgr_GetConfig _ := {| rc_Endpoint := demo_cfg "local"; rc_Wrappers := [] |};
  mgr_For_Complete _ _ w := (None, w);
  mgr_Start _ w := (None, w);
  Itoa n := "";
|}.

Abbreviation demo_main := (main (λ w, w) (λ s _, s)).

Definition main_start : main_state (λ w, w) (λ s _, s) :=
  {| main_world := gke_start; main_events := [] |}.

Definition demo_scheme : scheme := default [] main_init.

Lemma main_exits_witness :
  (demo_main [] main_start).1 = Some 0%Z ∧
  ∃ r w, controllerOptions r = 10%Z ∧ Setup.syncPeriod r = None ∧
    main_events _ _ (demo_main [] main_start).2 =
      [] ++ [MNewManager _ _ None; MSetup _ _ r None;
             MStart _ _ (pr_setup (process_start w)) None].
Proof.
  split; [reflexivity|].
  destruct (main_exits (AC := gke_clusters) (λ w, w) (λ s _, s) []
    demo_scheme main_start eq_refl) as (_ & _ & _ & Hcode & _).
  destruct (proj1 Hcode eq_refl) as (r & w & _ & Hn & Hd & Hev).
  exists r, w. split; [exact Hn|]. split; [exact Hd|exact Hev].
Defined.
End MainWitness.
